(** * Networked banking system: wire protocol, ledger, worker pool,
      signal helpers and interactive client, embedded from the C++ sources.

    Layout: the first half of the file holds the embedding (one block per
    source file), the second half the lemmas and the theorems about it. *)

From Stdlib Require Import ZArith QArith Qabs Qpower Znumtheory Ascii String List Bool Lia Lqa.
From Stdlib Require Import Floats.SpecFloat.
From stdpp Require Import base tactics option list.

Local Open Scope Z_scope.

(* ===================================================================== *)
(** ** C++ runtime: exceptions                                            *)
(* ===================================================================== *)

(** The exceptions that the modelled code can raise.  The payload is the
    [what()] text. *)
Inductive exception : Type :=
  | invalid_argument (what : string)
  | out_of_range (what : string)
  | runtime_error (what : string)
  | system_error (what : string).

(** A C++ call either returns a value or leaves by a thrown exception. *)
Inductive thrown (A : Type) : Type :=
  | Returned (a : A)
  | Thrown (e : exception).
Arguments Returned {A} a.
Arguments Thrown {A} e.

#[global] Instance thrown_ret : MRet thrown := fun A a => Returned a.
#[global] Instance thrown_bind : MBind thrown := fun A B k c =>
  match c with
  | Returned a => k a
  | Thrown e => Thrown e
  end.

Definition is_thrown {A : Type} (c : thrown A) : bool :=
  match c with Thrown _ => true | Returned _ => false end.

(* ===================================================================== *)
(** ** C++ runtime: characters, [int] and decimal text                    *)
(* ===================================================================== *)

Definition INT_MIN : Z := - 2147483648.
Definition INT_MAX : Z := 2147483647.

Definition in_int_range (z : Z) : bool := (INT_MIN <=? z) && (z <=? INT_MAX).

Definition char_code (c : ascii) : Z := Z.of_nat (nat_of_ascii c).

(** [isspace] in the "C" locale: space, \t, \n, \v, \f, \r. *)
Definition isspace (c : ascii) : bool :=
  let n := char_code c in (n =? 32) || ((9 <=? n) && (n <=? 13)).

Definition isdigit (c : ascii) : bool :=
  let n := char_code c in (48 <=? n) && (n <=? 57).

Definition digit_value (c : ascii) : Z := char_code c - 48.

Definition digit_char (d : Z) : ascii := ascii_of_nat (Z.to_nat (48 + d)).

Definition tolower (c : ascii) : ascii :=
  let n := char_code c in
  if (65 <=? n) && (n <=? 90) then ascii_of_nat (Z.to_nat (n + 32)) else c.

Definition delimiter : ascii := "|"%char.

Fixpoint skip_space (s : string) : string :=
  match s with
  | String c s' => if isspace c then skip_space s' else s
  | EmptyString => s
  end.

(** Optional sign: the flag says whether a minus sign was read. *)
Definition read_sign (s : string) : bool * string :=
  match s with
  | String "-" s' => (true, s')
  | String "+" s' => (false, s')
  | _ => (false, s)
  end.

(** Longest run of decimal digits at the head of [s], accumulated into
    [acc]; returns the value, the number of digits and the rest. *)
Fixpoint scan_digits (s : string) (acc : Z) (n : nat) : Z * nat * string :=
  match s with
  | String c s' =>
      if isdigit c then scan_digits s' (acc * 10 + digit_value c) (S n)
      else (acc, n, s)
  | EmptyString => (acc, n, s)
  end.

(** [std::stoi(str)] (base 10, no position out-parameter): [strtol]
    skips white space, reads an optional sign and the longest digit run;
    no digit is [invalid_argument], a value that does not fit [int] is
    [out_of_range].  Trailing characters are ignored. *)
Definition stoi (str : string) : thrown Z :=
  let '(neg, s) := read_sign (skip_space str) in
  let '(v, n, _) := scan_digits s 0 0%nat in
  match n with
  | O => Thrown (invalid_argument "stoi")
  | S _ =>
      let v := if neg then - v else v in
      if in_int_range v then Returned v else Thrown (out_of_range "stoi")
  end.

(** Decimal digits of a non-negative number, most significant first,
    pushed in front of [acc]. *)
Fixpoint digits_onto (fuel : nat) (n : Z) (acc : string) : string :=
  match fuel with
  | O => acc
  | S fuel' =>
      let acc' := String (digit_char (n mod 10)) acc in
      if n / 10 =? 0 then acc' else digits_onto fuel' (n / 10) acc'
  end.

Definition format_nat (n : Z) : string :=
  digits_onto (S (Z.to_nat (Z.log2 n))) n EmptyString.

(** [std::ostream << int]: decimal, minus sign for negatives. *)
Definition format_int (z : Z) : string :=
  if z <? 0 then String "-" (format_nat (- z)) else format_nat z.

(* ===================================================================== *)
(** ** C++ runtime: [double] as IEEE-754 binary64                         *)
(* ===================================================================== *)

Definition prec : Z := 53.
Definition emax : Z := 1024.

(** A [double] is a binary64 datum; arithmetic rounds to nearest even. *)
Definition double : Type := spec_float.

Definition double_add (x y : double) : double := SFadd prec emax x y.
Definition double_sub (x y : double) : double := SFsub prec emax x y.
Definition double_mul (x y : double) : double := SFmul prec emax x y.

(** The comparisons of C++ on [double]; all are false on NaN. *)
Definition double_gt (x y : double) : bool :=
  match SFcompare x y with Some Gt => true | _ => false end.
Definition double_ge (x y : double) : bool :=
  match SFcompare x y with Some Gt | Some Eq => true | _ => false end.
Definition double_eq (x y : double) : bool := SFeqb x y.

Definition double_of_Z (z : Z) : double := binary_normalize prec emax z 0 false.

Definition double_zero : double := S754_zero false.

Definition is_zero (x : double) : bool :=
  match x with S754_zero _ => true | _ => false end.

Definition is_finite (x : double) : bool :=
  match x with S754_zero _ | S754_finite _ _ _ => true | _ => false end.

Definition is_subnormal (x : double) : bool :=
  match x with
  | S754_finite _ m _ => Zpos (digits2_pos m) <? prec
  | _ => false
  end.

(** Conversion [double -> int] of C++: truncation toward zero; the
    behaviour is undefined (here [None]) when the truncated value does not
    fit, which includes NaN and the infinities. *)
Definition double_to_int (x : double) : option Z :=
  match x with
  | S754_zero _ => Some 0
  | S754_finite s m e =>
      let mag := if 0 <=? e then Zpos m * 2 ^ e else Zpos m / 2 ^ (- e) in
      let v := if s then - mag else mag in
      if in_int_range v then Some v else None
  | _ => None
  end.

(** The double nearest to the quotient [num/den] of two non-negative
    integers, with the given sign. *)
Definition round_ratio (neg : bool) (num den : Z) : double :=
  match num with
  | Z0 => S754_zero neg
  | Zpos n => SFdiv prec emax (S754_finite neg n 0) (S754_finite false (Z.to_pos den) 0)
  | Zneg _ => S754_nan
  end.

(** Does [x] denote exactly [num/den] in magnitude? *)
Definition ratio_exact (x : double) (num den : Z) : bool :=
  match x with
  | S754_zero _ => num =? 0
  | S754_finite _ m e =>
      if 0 <=? e then Zpos m * 2 ^ e * den =? num
      else Zpos m * den =? num * 2 ^ (- e)
  | _ => false
  end.

(* ===================================================================== *)
(** ** C++ runtime: [std::stod] and [ostream << double]                   *)
(* ===================================================================== *)

Definition ishex (c : ascii) : bool :=
  let n := char_code (tolower c) in
  isdigit c || ((97 <=? n) && (n <=? 102)).

Definition hex_value (c : ascii) : Z :=
  if isdigit c then digit_value c else char_code (tolower c) - 87.

Fixpoint scan_hex (s : string) (acc : Z) (n : nat) : Z * nat * string :=
  match s with
  | String c s' =>
      if ishex c then scan_hex s' (acc * 16 + hex_value c) (S n)
      else (acc, n, s)
  | EmptyString => (acc, n, s)
  end.

(** Case-insensitive test that [s] starts with the lower-case word [p]. *)
Fixpoint has_prefix_ci (p s : string) : bool :=
  match p, s with
  | EmptyString, _ => true
  | String a p', String b s' => Ascii.eqb a (tolower b) && has_prefix_ci p' s'
  | String _ _, EmptyString => false
  end.

(** Exponent part: the marker letter, an optional sign and at least one
    digit; anything else leaves the exponent at 0 and is not consumed. *)
Definition scan_exponent (marker : ascii) (s : string) : Z :=
  match s with
  | String c r =>
      if Ascii.eqb (tolower c) marker then
        let '(neg, r') := read_sign r in
        let '(v, n, _) := scan_digits r' 0 0%nat in
        match n with
        | O => 0
        | S _ => if neg then - v else v
        end
      else 0
  | EmptyString => 0
  end.

(** Decimal floating literal [digits[.digits][e[sign]digits]] with at
    least one mantissa digit: the value is [m * 10^e]. *)
Definition scan_decimal (s : string) : option (Z * Z) :=
  let '(m1, n1, r1) := scan_digits s 0 0%nat in
  let '(m2, n2, r2) :=
    match r1 with
    | String "." r => scan_digits r m1 0%nat
    | _ => (m1, 0%nat, r1)
    end in
  match (n1 + n2)%nat with
  | O => None
  | S _ => Some (m2, scan_exponent "e" r2 - Z.of_nat n2)
  end.

(** Hexadecimal floating literal [0x hex[.hex][p[sign]digits]]: the value
    is [m * 2^e]. *)
Definition scan_hexfloat (s : string) : option (Z * Z) :=
  match s with
  | String "0" (String x r) =>
      if Ascii.eqb (tolower x) "x" then
        let '(m1, n1, r1) := scan_hex r 0 0%nat in
        let '(m2, n2, r2) :=
          match r1 with
          | String "." r' => scan_hex r' m1 0%nat
          | _ => (m1, 0%nat, r1)
          end in
        match (n1 + n2)%nat with
        | O => None
        | S _ => Some (m2, scan_exponent "p" r2 - 4 * Z.of_nat n2)
        end
      else None
  | _ => None
  end.

(** [strtod] on the magnitude [m * base^e]: correctly rounded; [ERANGE]
    (hence [out_of_range]) on overflow and, as glibc does, on a result
    that is zero or subnormal and not exact. *)
Definition strtod_value (neg : bool) (base m e : Z) : thrown double :=
  let num := if 0 <=? e then m * base ^ e else m in
  let den := if 0 <=? e then 1 else base ^ (- e) in
  let x := round_ratio neg num den in
  match x with
  | S754_infinity _ => Thrown (out_of_range "stod")
  | _ =>
      if (is_zero x || is_subnormal x) && negb (ratio_exact x num den)
      then Thrown (out_of_range "stod")
      else Returned x
  end.

(** [std::stod(str)]: white space, optional sign, then infinity, NaN, a
    hexadecimal or a decimal floating literal; no conversion is
    [invalid_argument].  Trailing characters are ignored. *)
Definition stod (str : string) : thrown double :=
  let '(neg, s) := read_sign (skip_space str) in
  if has_prefix_ci "inf" s then Returned (S754_infinity neg)
  else if has_prefix_ci "nan" s then Returned S754_nan
  else
    match scan_hexfloat s with
    | Some (m, e) => strtod_value neg 2 m e
    | None =>
        match scan_decimal s with
        | Some (m, e) => strtod_value neg 10 m e
        | None => Thrown (invalid_argument "stod")
        end
    end.

(** Exactly [w] decimal digits of [n] (leading zeros kept), in front of
    [acc]. *)
Fixpoint fixed_digits (w : nat) (n : Z) (acc : string) : string :=
  match w with
  | O => acc
  | S w' => fixed_digits w' (n / 10) (String (digit_char (n mod 10)) acc)
  end.

(** Remove the trailing zeros of a digit string. *)
Fixpoint strip_zeros (s : string) : string :=
  match s with
  | EmptyString => EmptyString
  | String c s' =>
      match strip_zeros s' with
      | EmptyString => if Ascii.eqb c "0" then EmptyString else String c EmptyString
      | t => String c t
      end
  end.

(** [10^x <= num/den] *)
Definition pow10_le (x num den : Z) : bool :=
  if 0 <=? x then 10 ^ x * den <=? num else den <=? num * 10 ^ (- x).

Fixpoint descend_exponent (fuel : nat) (x num den : Z) : Z :=
  match fuel with
  | O => x
  | S fuel' => if pow10_le x num den then x else descend_exponent fuel' (x - 1) num den
  end.

(** The decimal exponent [X] of a positive quotient:
    [10^X <= num/den < 10^(X+1)]. *)
Definition decimal_exponent (num den : Z) : Z :=
  descend_exponent 4 ((Z.log2 num - Z.log2 den + 1) * 30103 / 100000 + 1) num den.

(** [num/den] scaled to six significant digits and rounded to nearest,
    ties to even: the digits as a number in [100000, 999999] and the
    decimal exponent of the first digit. *)
Definition six_digits (num den : Z) : Z * Z :=
  let x := decimal_exponent num den in
  let n := if 0 <=? x - 5 then num else num * 10 ^ (5 - x) in
  let d := if 0 <=? x - 5 then den * 10 ^ (x - 5) else den in
  let q := n / d in
  let r := n mod d in
  let q' :=
    match 2 * r ?= d with
    | Lt => q
    | Gt => q + 1
    | Eq => if Z.even q then q else q + 1
    end in
  if q' =? 1000000 then (100000, x + 1) else (q', x).

Definition with_fraction (int_part frac : string) : string :=
  match strip_zeros frac with
  | EmptyString => int_part
  | f => int_part ++ String "." f
  end.

Definition format_exponent (x : Z) : string :=
  String "e" (String (if x <? 0 then "-"%char else "+"%char)
    (if Z.abs x <? 10 then String "0" (format_nat (Z.abs x)) else format_nat (Z.abs x))).

(** [printf("%g")] with the default precision 6 on a positive finite
    value [m * 2^e]. *)
Definition format_finite (m : positive) (e : Z) : string :=
  let num := if 0 <=? e then Zpos m * 2 ^ e else Zpos m in
  let den := if 0 <=? e then 1 else 2 ^ (- e) in
  let '(d, x) := six_digits num den in
  if (x <? -4) || (6 <=? x) then
    with_fraction (fixed_digits 1 (d / 100000) EmptyString)
                  (fixed_digits 5 (d mod 100000) EmptyString)
      ++ format_exponent x
  else
    let w := Z.to_nat (5 - x) in
    with_fraction (format_nat (d / 10 ^ (5 - x)))
                  (fixed_digits w (d mod 10 ^ (5 - x)) EmptyString).

(** [std::ostream << double] with the stream defaults ([%g], six
    significant digits).  A NaN is written as "nan" or, with its sign bit
    set, as "-nan"; the datum of the model has no such bit, and the line
    for NaN below is the text of a NaN whose sign bit is clear.  The
    statements about the bytes written therefore leave NaN out; both
    texts read back as NaN. *)
Definition format_double (x : double) : string :=
  match x with
  | S754_nan => "nan"
  | S754_infinity s => if s then "-inf" else "inf"
  | S754_zero s => if s then "-0" else "0"
  | S754_finite s m e =>
      if s then String "-" (format_finite m e) else format_finite m e
  end.

(* ===================================================================== *)
(** ** common.h / common.cpp: requests and responses                      *)
(* ===================================================================== *)

Inductive RequestType : Type :=
  | QUIT
  | DEPOSIT
  | WITHDRAW
  | BALANCE
  | UPLOAD_FILE
  | DOWNLOAD_FILE
  | LOGIN
  | LOGOUT
  | EARN_INTEREST.

(** The ordinal of an enumerator, [static_cast<int>(t)]. *)
Definition RequestType_to_int (t : RequestType) : Z :=
  match t with
  | QUIT => 0
  | DEPOSIT => 1
  | WITHDRAW => 2
  | BALANCE => 3
  | UPLOAD_FILE => 4
  | DOWNLOAD_FILE => 5
  | LOGIN => 6
  | LOGOUT => 7
  | EARN_INTEREST => 8
  end.

(** [static_cast<RequestType>(z)]; only reached with [0 <= z <= 8]. *)
Definition RequestType_of_int (z : Z) : RequestType :=
  match z with
  | 1 => DEPOSIT
  | 2 => WITHDRAW
  | 3 => BALANCE
  | 4 => UPLOAD_FILE
  | 5 => DOWNLOAD_FILE
  | 6 => LOGIN
  | 7 => LOGOUT
  | 8 => EARN_INTEREST
  | _ => QUIT
  end.

Fixpoint str_take (n : nat) (s : string) : string :=
  match n, s with
  | S n', String c s' => String c (str_take n' s')
  | _, _ => EmptyString
  end.

Fixpoint str_drop (n : nat) (s : string) : string :=
  match n, s with
  | S n', String _ s' => str_drop n' s'
  | _, _ => s
  end.

(** [str.find("|")]: position of the first delimiter, if any. *)
Fixpoint find_delimiter (s : string) : option nat :=
  match s with
  | EmptyString => None
  | String c s' =>
      if Ascii.eqb c delimiter then Some 0%nat else S <$> find_delimiter s'
  end.

Module Request.

Record t : Type := Build
  { type : RequestType;
    user_id : Z;
    amount : double;
    filename : string;
    data : string }.

(** The constructor with its default arguments,
    [Request(t, uid = 0, amt = 0.0, fname = "", d = "")]. *)
Definition make (ty : RequestType) : t := Build ty 0 double_zero "" "".
Definition make2 (ty : RequestType) (uid : Z) : t := Build ty uid double_zero "" "".
Definition make3 (ty : RequestType) (uid : Z) (amt : double) : t := Build ty uid amt "" "".
Definition make4 (ty : RequestType) (uid : Z) (amt : double) (fname : string) : t :=
  Build ty uid amt fname "".

(** The splitting loop of [parseRequest]: while a delimiter is found,
    push the text before it and erase through it; the loop runs at most
    once per character, which is the fuel. *)
Fixpoint split_loop (fuel : nat) (str : string) (parts : list string) : list string :=
  match fuel with
  | O => parts ++ [str]
  | S fuel' =>
      match find_delimiter str with
      | Some pos => split_loop fuel' (str_drop (S pos) str) (parts ++ [str_take pos str])
      | None => parts ++ [str]
      end
  end.

Definition split (buffer : string) : list string :=
  split_loop (String.length buffer) buffer [].

Definition part (parts : list string) (i : nat) : string := nth i parts EmptyString.

(** [Request::parseRequest(buffer)]. *)
Definition parseRequest (buffer : string) : thrown t :=
  let parts := split buffer in
  if (length parts <? 5)%nat then Returned (make QUIT)
  else
    ty ← stoi (part parts 0);
    if (ty <? 0) || (ty >? 8) then Returned (make QUIT)
    else
      user_id ← stoi (part parts 1);
      amount ← stod (part parts 2);
      Returned (Build (RequestType_of_int ty) user_id amount (part parts 3) (part parts 4)).

(** The request body that [NetworkRequestChannel::send_request] writes
    after the length header: [TYPE|USER_ID|AMOUNT|FILENAME|DATA]. *)
Definition wire_body (req : t) : string :=
  (format_int (RequestType_to_int (type req)) ++ "|"
    ++ format_int (user_id req) ++ "|"
    ++ format_double (amount req) ++ "|"
    ++ filename req ++ "|"
    ++ data req)%string.

End Request.

Abbreviation Request := Request.t.

Module Response.

Record t : Type := Build
  { success : bool;
    balance : double;
    data : string;
    message : string }.

(** [Response()] with its default arguments. *)
Definition default : t := Build false double_zero "" "".

End Response.

Abbreviation Response := Response.t.

(* ===================================================================== *)
(** ** thread_pool.h / thread_pool.cpp                                    *)
(* ===================================================================== *)

(** The pool is modelled as an interleaving transition system under
    sequential consistency.  A step is one critical section or one atomic
    operation of one thread; a blocked thread has no step.  Waiting on the
    condition variable is a step that is enabled exactly when the waited
    predicate holds, so [notify_one]/[notify_all] need no state. *)
Module ThreadPool.
Section Pool.
Context {Task : Type}.

(** Where a worker thread stands in its loop. *)
Inductive worker : Type :=
  | Idle                      (* at [condition.wait], lock not held *)
  | Popped (task : Task)      (* task moved out of the queue, lock released *)
  | Running (task : Task)     (* after [++activeTasks], inside [task()] *)
  | Finished (task : Task)    (* [task()] returned, before [--activeTasks] *)
  | Exited.                   (* left the loop by [return] *)

(** Where the thread that owns the pool stands in [~ThreadPool]. *)
Inductive destructor : Type :=
  | NotCalled
  | Draining                  (* at [condition.wait] inside the destructor *)
  | Joining (next : nat)      (* [stop] set; about to join [workers[next]] *)
  | Destroyed.                (* the destructor has returned *)

(** The fields of the class, the position of the destructor, and two
    ghost lists: every task ever enqueued and every task whose call has
    returned, both in order of occurrence. *)
Record t : Type := Build
  { workers : list worker;
    tasks : list Task;
    stop : bool;
    activeTasks : Z;
    dtor : destructor;
    submitted : list Task;
    completed : list Task }.

(** [ThreadPool(numThreads)]: every worker starts and waits. *)
Definition new (numThreads : nat) : t :=
  Build (replicate numThreads Idle) [] false 0 NotCalled [] [].

Inductive action : Type :=
  | Enqueue (task : Task)     (* the owner calls [enqueue(task)] *)
  | Work (i : nat)            (* worker [i] takes its next step *)
  | Destroy.                  (* the owner takes its next step in [~ThreadPool] *)

(** One step of worker [i]. *)
Definition work (i : nat) (p : t) : option t :=
  match workers p !! i with
  | Some Idle =>
      (* wait until [stop || !tasks.empty()]; [if (stop && tasks.empty()) return;]
         otherwise pop the front task *)
      match tasks p with
      | task :: rest =>
          Some (Build (<[i := Popped task]> (workers p)) rest (stop p)
                      (activeTasks p) (dtor p) (submitted p) (completed p))
      | [] =>
          if stop p
          then Some (Build (<[i := Exited]> (workers p)) (tasks p) (stop p)
                           (activeTasks p) (dtor p) (submitted p) (completed p))
          else None
      end
  | Some (Popped task) =>
      Some (Build (<[i := Running task]> (workers p)) (tasks p) (stop p)
                  (activeTasks p + 1) (dtor p) (submitted p) (completed p))
  | Some (Running task) =>
      Some (Build (<[i := Finished task]> (workers p)) (tasks p) (stop p)
                  (activeTasks p) (dtor p) (submitted p) (completed p ++ [task]))
  | Some (Finished task) =>
      Some (Build (<[i := Idle]> (workers p)) (tasks p) (stop p)
                  (activeTasks p - 1) (dtor p) (submitted p) (completed p))
  | Some Exited => None
  | None => None
  end.

(** [enqueue(task)]; the owner does not enqueue once it is destroying. *)
Definition enqueue (task : Task) (p : t) : option t :=
  match dtor p with
  | NotCalled =>
      Some (Build (workers p) (tasks p ++ [task]) (stop p) (activeTasks p)
                  (dtor p) (submitted p ++ [task]) (completed p))
  | _ => None
  end.

(** One step of [~ThreadPool]. *)
Definition destroy (p : t) : option t :=
  match dtor p with
  | NotCalled =>
      Some (Build (workers p) (tasks p) (stop p) (activeTasks p) Draining
                  (submitted p) (completed p))
  | Draining =>
      (* wait until [tasks.empty() && activeTasks == 0]; then [stop = true] *)
      match tasks p with
      | [] =>
          if activeTasks p =? 0 then
            Some (Build (workers p) (tasks p) true (activeTasks p) (Joining 0)
                        (submitted p) (completed p))
          else None
      | _ :: _ => None
      end
  | Joining next =>
      match workers p !! next with
      | Some Exited =>
          Some (Build (workers p) (tasks p) (stop p) (activeTasks p)
                      (Joining (S next)) (submitted p) (completed p))
      | Some _ => None
      | None =>
          Some (Build (workers p) (tasks p) (stop p) (activeTasks p) Destroyed
                      (submitted p) (completed p))
      end
  | Destroyed => None
  end.

Definition step (a : action) (p : t) : option t :=
  match a with
  | Enqueue task => enqueue task p
  | Work i => work i p
  | Destroy => destroy p
  end.

(** A run: the actions in the order in which they take effect. *)
Fixpoint exec (p : t) (acts : list action) : option t :=
  match acts with
  | [] => Some p
  | a :: acts' =>
      match step a p with
      | Some p' => exec p' acts'
      | None => None
      end
  end.

(** Tasks that a worker has taken and whose call has not returned. *)
Definition held (w : worker) : list Task :=
  match w with
  | Popped task | Running task => [task]
  | _ => []
  end.

Definition in_flight (p : t) : list Task := concat (map held (workers p)).

Definition is_running (w : worker) : bool :=
  match w with Running _ => true | _ => false end.

Definition is_exited (w : worker) : bool :=
  match w with Exited => true | _ => false end.

(** The scheduler's choice in a scoped use of a pool: the owner's next
    statement or a step of worker [i]. *)
Inductive tick : Type :=
  | Owner
  | Worker (i : nat).

(** A pool used as a scoped object: the owner enqueues [jobs] in order and
    then runs the destructor.  The result is the completion order, when
    the schedule takes the destructor to its return. *)
Fixpoint run_scope (jobs : list Task) (p : t) (sched : list tick) : option (list Task) :=
  match sched with
  | [] =>
      match jobs, dtor p with
      | [], Destroyed => Some (completed p)
      | _, _ => None
      end
  | Owner :: sched' =>
      match jobs with
      | job :: jobs' =>
          match enqueue job p with
          | Some p' => run_scope jobs' p' sched'
          | None => None
          end
      | [] =>
          match destroy p with
          | Some p' => run_scope [] p' sched'
          | None => None
          end
      end
  | Worker i :: sched' =>
      match work i p with
      | Some p' => run_scope jobs p' sched'
      | None => None
      end
  end.

End Pool.
Arguments t : clear implicits.
Arguments worker : clear implicits.
Arguments action : clear implicits.
End ThreadPool.

(* ===================================================================== *)
(** ** finance.cpp: accounts and the request handler                      *)
(* ===================================================================== *)

Module Account.

(** The data members of [class Account].  The mutex is not a field of the
    model: every access below is a whole critical section of the account's
    own lock and is taken as one atomic step. *)
Record t : Type := Build
  { id : Z;
    balance : double;
    active : bool }.

(** [Account()] *)
Definition default : t := Build (-1) double_zero false.

(** [initialize(_id)] *)
Definition initialize (_id : Z) (_ : t) : t := Build _id double_zero true.

End Account.

Abbreviation Account := Account.t.

(** The literal [1.01] as a double. *)
Definition interest_factor : double := S754_finite false 4548635623644201 (-52).

(** [applyInterest(account)] *)
Definition applyInterest (account : Account) : Account :=
  if negb (Account.active account) then account
  else if double_gt (Account.balance account) double_zero
       then Account.Build (Account.id account)
                          (double_mul (Account.balance account) interest_factor)
                          (Account.active account)
       else account.

(** [size_t(n)] for an [int] [n] on an LP64 platform. *)
Definition to_size_t (n : Z) : nat := Z.to_nat (n mod 2 ^ 64).

(** What the scheduler and the operating system decide while one request
    is served: how many threads the process may still create, the text of
    the [std::system_error] when it may not, and the interleaving of a
    fan-out pool. *)
Record environment : Type :=
  { spawn_limit : nat;
    spawn_error : string;
    schedule : list ThreadPool.tick }.

(** How one pass through the body of the loop of [handle_client] ends. *)
Inductive outcome : Type :=
  | Replied (resp : Response) (accounts : list Account) (running : bool)
  | Blocked       (* the handler never gets to [send_response]: it stays in
                     [~ThreadPool] on this schedule, or in the unwinding of
                     a constructor that failed *)
  | Undefined.    (* undefined behaviour *)

(** The [EARN_INTEREST] branch: a pool of [numThreads] workers, one
    [applyInterest] task per account, then the pool goes out of scope. *)
Definition earn_interest (accounts : list Account) (max_accounts thread_count : Z)
    (env : environment) (r : Request) : outcome :=
  let numThreads :=
    if double_gt (Request.amount r) double_zero
    then double_to_int (Request.amount r)
    else Some thread_count in
  match numThreads with
  | None => Undefined
  | Some numThreads =>
      let n := to_size_t numThreads in
      if (spawn_limit env <? n)%nat then
        (* the constructor of [std::thread] throws *)
        match spawn_limit env with
        | O =>
            Replied (Response.Build false double_zero ""
                       ("Interest accrual failed: " ++ spawn_error env))
                    accounts true
        | S _ =>
            (* the workers created so far wait on [condition]; the
               unwinding of the pool's constructor destroys [condition]
               before [workers], and that destructor waits for them *)
            Blocked
        end
      else
        match ThreadPool.run_scope (seq 0 (Z.to_nat max_accounts))
                                   (ThreadPool.new n) (schedule env) with
        | Some order =>
            Replied (Response.Build true double_zero "" "Interest accrual successful")
                    (foldl (fun accs id => alter applyInterest id accs) accounts order)
                    true
        | None => Blocked
        end
  end.

(** One pass through the body of the loop of [handle_client], from the
    received request to [send_response]. *)
Definition handle_request (accounts : list Account) (max_accounts thread_count : Z)
    (env : environment) (r : Request) : outcome :=
  match Request.type r with
  | QUIT =>
      Replied (Response.Build true double_zero "" "Server acknowledged disconnect")
              accounts false
  | ty =>
      if (Request.user_id r <? 0) || (Request.user_id r >=? max_accounts) then
        Replied (Response.Build false double_zero "" "Invalid account ID") accounts true
      else
        let i := Z.to_nat (Request.user_id r) in
        match accounts !! i with
        | None => Undefined
        | Some slot =>
            (* create account if it doesn't exist *)
            let acc :=
              if negb (Account.active slot)
              then Account.initialize (Request.user_id r) slot else slot in
            let accounts := <[i := acc]> accounts in
            match ty with
            | DEPOSIT =>
                let acc' := Account.Build (Account.id acc)
                              (double_add (Account.balance acc) (Request.amount r))
                              (Account.active acc) in
                Replied (Response.Build true (Account.balance acc') "" "Deposit successful")
                        (<[i := acc']> accounts) true
            | WITHDRAW =>
                if double_ge (Account.balance acc) (Request.amount r) then
                  let acc' := Account.Build (Account.id acc)
                                (double_sub (Account.balance acc) (Request.amount r))
                                (Account.active acc) in
                  Replied (Response.Build true (Account.balance acc') "" "Withdrawal successful")
                          (<[i := acc']> accounts) true
                else
                  Replied (Response.Build false double_zero "" "Insufficient funds")
                          accounts true
            | BALANCE =>
                Replied (Response.Build true (Account.balance acc) "" "View balance successful")
                        accounts true
            | EARN_INTEREST => earn_interest accounts max_accounts thread_count env r
            | _ =>
                Replied (Response.Build false double_zero "" "Unknown RequestType")
                        accounts true
            end
        end
  end.

(** What one turn of the loop of [handle_client] meets: the value of
    [shutdown_requested] at the loop test, what [receive_request] gives
    (the text of the body, or the exception of a failed [recv]), and the
    environment while the request is served. *)
Record turn : Type :=
  { shutdown_seen : bool;
    received : thrown string;
    serving : environment }.

(** [NetworkRequestChannel::receive_request]: the body, once read in full,
    goes through [Request::parseRequest]. *)
Definition receive_request (frame : thrown string) : thrown Request :=
  body ← frame; Request.parseRequest body.

(** How the connection loop of [handle_client] stands after its turns. *)
Inductive session : Type :=
  | Disconnected (sent : list Response) (accounts : list Account)
  | Receiving (sent : list Response) (accounts : list Account)
  | Halted (sent : list Response) (how : outcome).

(** [handle_client]: the loop runs until a [QUIT], an exception or a
    shutdown request; [sent] are the responses passed to [send_response]. *)
Fixpoint handle_client (accounts : list Account) (max_accounts thread_count : Z)
    (turns : list turn) (sent : list Response) : session :=
  match turns with
  | [] => Receiving sent accounts
  | tn :: turns' =>
      if shutdown_seen tn then Disconnected sent accounts
      else
        match receive_request (received tn) with
        | Thrown _ => Disconnected sent accounts
        | Returned r =>
            match handle_request accounts max_accounts thread_count (serving tn) r with
            | Replied resp accounts' running =>
                if running
                then handle_client accounts' max_accounts thread_count turns' (sent ++ [resp])
                else Disconnected (sent ++ [resp]) accounts'
            | how => Halted sent how
            end
        end
  end.

(* ===================================================================== *)
(** ** signals.h: flags, alarm and [execute_with_timeout]                 *)
(* ===================================================================== *)

Module SignalHandling.

(** The process-wide flags, the alarm clock of the process and the list of
    [alarm] calls made so far (latest last). *)
Record state : Type := Build
  { shutdown_requested : bool;
    timeout_occurred : bool;
    child_exited : Z;
    pending_alarm : Z;            (* seconds armed; 0 when no alarm is pending *)
    alarm_calls : list Z }.       (* the [unsigned] arguments of the calls *)

Definition initial : state := Build false false 0 0 [].

(** The conversion of an [int] to the [unsigned int] parameter of
    [alarm]. *)
Definition to_unsigned (n : Z) : Z := n mod 2 ^ 32.

(** [alarm(seconds)] called with an [int]: the argument is converted to
    [unsigned]; the call replaces any pending alarm, and zero seconds
    cancel it. *)
Definition alarm (seconds : Z) (s : state) : state :=
  Build (shutdown_requested s) (timeout_occurred s) (child_exited s)
        (to_unsigned seconds) (alarm_calls s ++ [to_unsigned seconds]).

Definition set_timeout_occurred (b : bool) (s : state) : state :=
  Build (shutdown_requested s) b (child_exited s) (pending_alarm s) (alarm_calls s).

(** Delivery of [SIGALRM]: the pending alarm is consumed and the handler
    sets the flag. *)
Definition sigalrm_handler (s : state) : state :=
  Build (shutdown_requested s) true (child_exited s) 0 (alarm_calls s).

(** The alarm clock runs out: with an alarm pending, [SIGALRM] is
    delivered; with none, nothing happens. *)
Definition alarm_expires (s : state) : state :=
  if pending_alarm s =? 0 then s else sigalrm_handler s.

(** Delivery of [SIGINT]: the first sets the flag, the second calls
    [exit(1)] ([None]). *)
Definition sigint_handler (s : state) : option state :=
  if shutdown_requested s then None
  else Some (Build true (timeout_occurred s) (child_exited s)
                   (pending_alarm s) (alarm_calls s)).

(** [wait_with_timeout(seconds)] and [cancel_timeout()]. *)
Definition wait_with_timeout (seconds : Z) (s : state) : bool * state :=
  (true, alarm seconds (set_timeout_occurred false s)).

Definition cancel_timeout (s : state) : state := alarm 0 s.

End SignalHandling.

(** A callable [bool operation()] that runs against the signal state:
    while it runs, signals may be delivered, and it may leave by an
    exception. *)
Definition timed_operation : Type :=
  SignalHandling.state -> thrown bool * SignalHandling.state.

(** Whether the alarm clock runs out in the two windows that
    [execute_with_timeout] leaves around the call of the operation:
    between the clearing of the flag and [alarm(timeout_seconds)] (an
    alarm that earlier code left pending), and between the return of the
    operation and [alarm(0)]. *)
Record alarm_timing : Type :=
  { before_arming : bool;
    before_disarming : bool }.

Definition deliver (expires : bool) (s : SignalHandling.state) : SignalHandling.state :=
  if expires then SignalHandling.alarm_expires s else s.

(** [execute_with_timeout(operation, timeout_seconds)]; the flag is read
    in the [return] statement, after [alarm(0)]. *)
Definition execute_with_timeout (operation : timed_operation) (timeout_seconds : Z)
    (timing : alarm_timing) (s : SignalHandling.state)
    : thrown bool * SignalHandling.state :=
  let s := SignalHandling.set_timeout_occurred false s in
  let s := deliver (before_arming timing) s in
  let s := SignalHandling.alarm timeout_seconds s in
  match operation s with
  | (Returned result, s) =>
      let s := deliver (before_disarming timing) s in
      let s := SignalHandling.alarm 0 s in
      (Returned (result && negb (SignalHandling.timeout_occurred s)), s)
  | (Thrown e, s) => (Thrown e, s)
  end.

(* ===================================================================== *)
(** ** The interactive client: retry loop and menu                         *)
(* ===================================================================== *)

Module Client.

(** A [NetworkRequestChannel] object, named by its socket. *)
Definition NetworkRequestChannel : Type := Z.

(** What a run of the client does that can be observed from outside, in
    order, with two ghost marks for the retry loop. *)
Inductive event : Type :=
  | Print (text : string)                       (* a line on [cout]/[cerr] *)
  | NetRequest (chan : NetworkRequestChannel) (req : Request)
                                                (* a call of [send_request] *)
  | FileWrite (name : string) (content : string)
  | Logged (message : string)                   (* [log_signal_event] *)
  | SignalsBlocked
  | SignalsUnblocked
  | Attempt (result : thrown bool)              (* ghost: the retried operation was called *)
  | ShutdownObserved.                           (* ghost: the flag was read as set *)

(** The outside of the client: the terminal, the files, the servers and
    the delivery of signals.  Each member is what the named call gives in
    a state [W] of the outside, and the state after it. *)
Class Terminal (W : Type) : Type :=
  { shutdown_requested : W -> bool;
    cin_choice : W -> option Z * W;             (* [cin >> choice], tested *)
    cin_int : W -> Z * W;                       (* [cin >> n], not tested *)
    cin_double : W -> double * W;
    cin_char : W -> ascii * W;
    getline : W -> string * W;
    clear_input : W -> W;
    ifstream_read : string -> W -> option string * W;
    ofstream_write : string -> string -> W -> bool * W;
    net_send_request : NetworkRequestChannel -> Request -> W -> thrown Response * W }.

(** The local variables of [main] that the operations capture by
    reference, together with the outside. *)
Record locals (W : Type) : Type := Build
  { world : W;
    finance_channel : option NetworkRequestChannel;
    logging_channel : option NetworkRequestChannel;
    file_channel : option NetworkRequestChannel;
    current_user : Z;
    running : bool }.
Arguments Build {W}.
Arguments world {W}.
Arguments finance_channel {W}.
Arguments logging_channel {W}.
Arguments file_channel {W}.
Arguments current_user {W}.
Arguments running {W}.

(** Client code: from the variables to a result or an exception, the
    events it caused and the variables after it. *)
Definition io (W A : Type) : Type := locals W -> thrown A * list event * locals W.

#[global] Instance io_ret {W} : MRet (io W) := fun A a s => (Returned a, [], s).
#[global] Instance io_bind {W} : MBind (io W) := fun A B k m s =>
  match m s with
  | (Returned a, ev, s') => let '(r, ev', s'') := k a s' in (r, ev ++ ev', s'')
  | (Thrown e, ev, s') => (Thrown e, ev, s')
  end.

(** [try { m } catch (const exception& e) { handler }] *)
Definition catch {W A} (m : io W A) (handler : exception -> io W A) : io W A := fun s =>
  match m s with
  | (Thrown e, ev, s') => let '(r, ev', s'') := handler e s' in (r, ev ++ ev', s'')
  | done => done
  end.

Definition what (e : exception) : string :=
  match e with
  | invalid_argument w | out_of_range w | runtime_error w | system_error w => w
  end.

Section Operations.
Context {W : Type} `{Terminal W}.

Definition emit (e : event) : io W unit := fun s => (Returned (), [e], s).
Definition print (text : string) : io W unit := emit (Print text).
Definition log_signal_event (message : string) : io W unit := emit (Logged message).
Definition block_signals : io W unit := emit SignalsBlocked.
Definition unblock_signals : io W unit := emit SignalsUnblocked.

Definition get {A} (field : locals W -> A) : io W A := fun s => (Returned (field s), [], s).

Definition set_current_user (v : Z) : io W unit := fun s =>
  (Returned (), [], Build (world s) (finance_channel s) (logging_channel s)
                          (file_channel s) v (running s)).

Definition set_running (b : bool) : io W unit := fun s =>
  (Returned (), [], Build (world s) (finance_channel s) (logging_channel s)
                          (file_channel s) (current_user s) b).

(** A call on the outside. *)
Definition outside {A} (call : W -> A * W) : io W A := fun s =>
  let '(a, w) := call (world s) in
  (Returned a, [], Build w (finance_channel s) (logging_channel s)
                       (file_channel s) (current_user s) (running s)).

(** Reading [SignalHandling::shutdown_requested]. *)
Definition shutdown_flag : io W bool := fun s =>
  let b := shutdown_requested (world s) in
  (Returned b, if b then [ShutdownObserved] else [], s).

(** [chan->send_request(req)] *)
Definition send_request (chan : NetworkRequestChannel) (req : Request) : io W Response := fun s =>
  let '(r, w) := net_send_request chan req (world s) in
  (r, [NetRequest chan req], Build w (finance_channel s) (logging_channel s)
                                   (file_channel s) (current_user s) (running s)).

(** One call of the operation handed to [retry_operation]. *)
Definition attempt (operation : io W bool) : io W bool := fun s =>
  let '(r, ev, s') := operation s in (r, ev ++ [Attempt r], s').

(** [cin >> retry; clear_input();] *)
Definition ask_retry : io W ascii :=
  retry ← outside cin_char;
  outside (fun w => ((), clear_input w));;
  mret retry.

(** The loop of [retry_operation], entered with [success == false]; one
    unit of fuel per evaluation of the loop condition. *)
Fixpoint retry_loop (fuel : nat) (operation_name : string) (operation : io W bool)
    (max_retries retries : Z) : io W unit :=
  match fuel with
  | O => mret ()
  | S fuel' =>
      if retries <? max_retries then
        stop ← shutdown_flag;
        if stop : bool then mret ()
        else
          (if 0 <? retries
           then print ("Retrying " ++ operation_name ++ " (attempt "
                        ++ format_int (retries + 1) ++ " of "
                        ++ format_int max_retries ++ ")...")
           else mret ());;
          success ← attempt operation;
          if success : bool then mret ()
          else
            stop ← shutdown_flag;
            if stop : bool then
              retry_loop fuel' operation_name operation max_retries retries
            else
              let retries := retries + 1 in
              if retries <? max_retries then
                print "Operation failed. Retry? (y/n): ";;
                retry ← ask_retry;
                if Ascii.eqb (tolower retry) "y"
                then retry_loop fuel' operation_name operation max_retries retries
                else print "Operation canceled."
              else
                print "Maximum retry attempts reached.";;
                retry_loop fuel' operation_name operation max_retries retries
      else mret ()
  end.

(** [retry_operation(operation_name, operation, max_retries)] *)
Definition retry_operation (operation_name : string) (operation : io W bool)
    (max_retries : Z) : io W unit :=
  retry_loop (S (Z.to_nat max_retries)) operation_name operation max_retries 0.

(** The body shared by the operations that audit a successful exchange
    on the logging server (the call is outside any [try]). *)
Definition audit (req : Request) (warning : string) : io W unit :=
  chan ← get logging_channel;
  match chan with
  | Some logging =>
      log_resp ← send_request logging req;
      if Response.success log_resp then mret () else print warning
  | None => print "Warning: Not connected to logging server"
  end.

(** [try { resp = chan->send_request(req); } catch (...) { cout << ...; return false; }]:
    [None] stands for the [return false] of the handler. *)
Definition exchange (chan : NetworkRequestChannel) (req : Request) (failure : string)
    : io W (option Response) :=
  catch (resp ← send_request chan req; mret (Some resp))
        (fun e => print (failure ++ what e);; mret None).

Definition login_operation : io W bool :=
  chan ← get logging_channel;
  match chan with
  | None => print "Not connected to logging server!";; mret false
  | Some logging =>
      user ← get current_user;
      resp ← exchange logging (Request.make2 LOGIN user) "Login failed: ";
      match resp with
      | None => mret false
      | Some resp =>
          if Response.success resp then
            print ("Logged in as user " ++ format_int user);; mret true
          else
            print ("Login failed: " ++ Response.message resp);;
            set_current_user (-1);;
            mret false
      end
  end.

Definition deposit_operation (amount : double) : io W bool :=
  chan ← get finance_channel;
  match chan with
  | None => print "Not connected to finance server!";; mret false
  | Some finance =>
      user ← get current_user;
      resp ← exchange finance (Request.make3 DEPOSIT user amount) "Deposit failed: ";
      match resp with
      | None => mret false
      | Some resp =>
          if Response.success resp then
            print ("Deposit successful. New balance: "
                     ++ format_double (Response.balance resp));;
            audit (Request.make3 DEPOSIT user amount) "Warning: Failed to log transaction";;
            mret true
          else
            print ("Deposit failed: " ++ Response.message resp);; mret false
      end
  end.

Definition withdraw_operation (amount : double) : io W bool :=
  chan ← get finance_channel;
  match chan with
  | None => print "Not connected to finance server!";; mret false
  | Some finance =>
      user ← get current_user;
      resp ← exchange finance (Request.make3 WITHDRAW user amount) "Withdrawal failed: ";
      match resp with
      | None => mret false
      | Some resp =>
          if Response.success resp then
            print ("Withdrawal successful. New balance: "
                     ++ format_double (Response.balance resp));;
            audit (Request.make3 WITHDRAW user amount) "Warning: Failed to log transaction";;
            mret true
          else
            print ("Withdrawal failed: " ++ Response.message resp);; mret false
      end
  end.

Definition balance_operation : io W bool :=
  chan ← get finance_channel;
  match chan with
  | None => print "Not connected to finance server!";; mret false
  | Some finance =>
      user ← get current_user;
      resp ← exchange finance (Request.make2 BALANCE user) "Balance request failed: ";
      match resp with
      | None => mret false
      | Some resp =>
          if Response.success resp then
            print ("Current balance: " ++ format_double (Response.balance resp));;
            audit (Request.make3 BALANCE user (Response.balance resp))
                  "Warning: Failed to log transaction";;
            mret true
          else
            print ("Failed to get balance: " ++ Response.message resp);; mret false
      end
  end.

Definition upload_operation (filename content : string) : io W bool :=
  chan ← get file_channel;
  match chan with
  | None => print "Not connected to file server!";; mret false
  | Some file =>
      user ← get current_user;
      resp ← exchange file (Request.Build UPLOAD_FILE user double_zero filename content)
                      "File upload failed: ";
      match resp with
      | None => mret false
      | Some resp =>
          if Response.success resp then
            print "File upload successful";;
            audit (Request.make4 UPLOAD_FILE user double_zero filename)
                  "Warning: Failed to log file upload";;
            mret true
          else
            print ("File upload failed: " ++ Response.message resp);; mret false
      end
  end.

Definition download_operation (filename : string) : io W bool :=
  chan ← get file_channel;
  match chan with
  | None => print "Not connected to file server!";; mret false
  | Some file =>
      user ← get current_user;
      resp ← exchange file (Request.make4 DOWNLOAD_FILE user double_zero filename)
                      "File download failed: ";
      match resp with
      | None => mret false
      | Some resp =>
          if Response.success resp then
            written ← outside (ofstream_write filename (Response.data resp));
            if written : bool then
              emit (FileWrite filename (Response.data resp));;
              print "File downloaded successfully";;
              audit (Request.make4 DOWNLOAD_FILE user double_zero filename)
                    "Warning: Failed to log file download";;
              mret true
            else
              print "Error: Could not create output file";; mret false
          else
            print ("File download failed: " ++ Response.message resp);; mret false
      end
  end.

Definition logout_operation : io W bool :=
  chan ← get logging_channel;
  match chan with
  | None =>
      print "Not connected to logging server!";;
      (* still allow logout even if logging server is down *)
      set_current_user (-1);;
      print "Logged out locally";;
      mret true
  | Some logging =>
      user ← get current_user;
      resp ← exchange logging (Request.make2 LOGOUT user) "Logout from server failed: ";
      match resp with
      | None =>
          set_current_user (-1);;
          print "Logged out locally";;
          mret true
      | Some _ =>
          set_current_user (-1);;
          print "Logged out successfully";;
          mret true
      end
  end.

Definition interest_operation (numThreads : Z) : io W bool :=
  chan ← get finance_channel;
  match chan with
  | None => print "Not connected to finance server!";; mret false
  | Some finance =>
      user ← get current_user;
      let request := Request.make3 EARN_INTEREST user (double_of_Z numThreads) in
      resp ← exchange finance request "Interest update failed: ";
      match resp with
      | None => mret false
      | Some resp =>
          if negb (Response.success resp) then
            print ("Interest update failed: " ++ Response.message resp);; mret false
          else
            print "Interest update successful!";;
            audit request "Warning: Failed to log transaction";;
            mret true
      end
  end.

(** [block_signals(); retry_operation(...); unblock_signals();] *)
Definition transaction (operation_name : string) (operation : io W bool)
    (max_retries : Z) : io W unit :=
  block_signals;;
  retry_operation operation_name operation max_retries;;
  unblock_signals.

Definition menu_text : string :=
  "=== Networked Banking System Menu === 1. Login 2. Deposit 3. Withdraw 4. View Balance 5. Upload File 6. Download File 7. Logout 8. Server Status 9. Update Interest for All Accounts 0. Exit Enter choice: ".

(** The [switch (choice)] of the main loop. *)
Definition menu_case (max_retries choice : Z) : io W unit :=
  user ← get current_user;
  match choice with
  | 0 => set_running false
  | 1 =>
      if negb (user =? -1) then print "Already logged in! Please logout first."
      else
        print "Enter user ID: ";;
        entered ← outside cin_int;
        set_current_user entered;;
        outside (fun w => ((), clear_input w));;
        transaction "login" login_operation max_retries
  | 2 =>
      if user =? -1 then print "Please login first!"
      else
        print "Enter amount to deposit: ";;
        amount ← outside cin_double;
        outside (fun w => ((), clear_input w));;
        transaction "deposit" (deposit_operation amount) max_retries
  | 3 =>
      if user =? -1 then print "Please login first!"
      else
        print "Enter amount to withdraw: ";;
        amount ← outside cin_double;
        outside (fun w => ((), clear_input w));;
        transaction "withdrawal" (withdraw_operation amount) max_retries
  | 4 =>
      if user =? -1 then print "Please login first!"
      else transaction "balance check" balance_operation max_retries
  | 5 =>
      if user =? -1 then print "Please login first!"
      else
        print "Enter filename to upload: ";;
        filename ← outside getline;
        infile ← outside (ifstream_read filename);
        match infile with
        | None => print "Error: Could not open file"
        | Some content =>
            transaction "file upload" (upload_operation filename content) max_retries
        end
  | 6 =>
      if user =? -1 then print "Please login first!"
      else
        print "Enter filename to download: ";;
        filename ← outside getline;
        transaction "file download" (download_operation filename) max_retries
  | 7 =>
      if user =? -1 then print "Not logged in!"
      else transaction "logout" logout_operation max_retries
  | 8 =>
      (* [print_server_status()]: the client registers no server process *)
      print "=== Server Status ===";; print "===================="
  | 9 =>
      if user =? -1 then print "Please login first!"
      else
        print "Input a number of threads to use: ";;
        numThreads ← outside cin_int;
        outside (fun w => ((), clear_input w));;
        transaction "interest update" (interest_operation numThreads) max_retries
  | _ => print "Invalid choice. Please try again."
  end.

(** The main loop; one unit of fuel per evaluation of its condition.  The
    result says whether the loop was left. *)
Fixpoint main_loop (fuel : nat) (max_retries : Z) : io W bool :=
  match fuel with
  | O => mret false
  | S fuel' =>
      go ← get running;
      if negb go then mret true
      else
        stop ← shutdown_flag;
        if stop : bool then mret true
        else
          print menu_text;;
          choice ← outside cin_choice;
          match choice with
          | None =>
              stop ← shutdown_flag;
              if stop : bool then mret true
              else
                print "Invalid input. Please enter a number: ";;
                outside (fun w => ((), clear_input w));;
                main_loop fuel' max_retries
          | Some choice =>
              outside (fun w => ((), clear_input w));;
              stop ← shutdown_flag;
              if stop : bool then mret true
              else
                catch (menu_case max_retries choice)
                      (fun e =>
                         print ("Error during operation: " ++ what e);;
                         log_signal_event ("Exception caught: " ++ what e));;
                main_loop fuel' max_retries
          end
  end.

(** [if (chan) { try { chan->send_request(quit); ... } catch ... }] *)
Definition send_quit (chan : option NetworkRequestChannel) (server : string) : io W unit :=
  match chan with
  | Some c =>
      catch (send_request c (Request.make QUIT);;
             print ("QUIT sent to " ++ server ++ " server"))
            (fun e => print ("Failed to send QUIT to " ++ server ++ " server: " ++ what e))
  | None => mret ()
  end.

(** The command line, once parsed. *)
Record options : Type :=
  { finance_host : string; finance_port : Z;
    logging_host : string; logging_port : Z;
    file_host : string; file_port : Z;
    max_retries : Z }.

(** From the start of [main] to the main loop. *)
Definition startup (opts : options) : io W unit :=
  log_signal_event "Signal handlers initialized";;
  log_signal_event "Network client started";;
  print "Connecting to servers...";;
  print ("Connected to finance server at " ++ finance_host opts ++ ":"
           ++ format_int (finance_port opts));;
  print ("Connected to logging server at " ++ logging_host opts ++ ":"
           ++ format_int (logging_port opts));;
  print ("Connected to file server at " ++ file_host opts ++ ":"
           ++ format_int (file_port opts)).

(** From the end of the main loop to [return 0]. *)
Definition finish : io W Z :=
  stop ← shutdown_flag;
  (if stop : bool
   then print "Performing graceful shutdown...";;
        log_signal_event "Beginning graceful shutdown"
   else print "Exiting normally...";;
        log_signal_event "Normal exit requested");;
  print "Sending shutdown signals to connected servers...";;
  finance ← get finance_channel;
  send_quit finance "finance";;
  file ← get file_channel;
  send_quit file "file";;
  logging ← get logging_channel;
  send_quit logging "logging";;
  log_signal_event "Network client shutdown complete";;
  print "Shutdown complete.";;
  mret 0.

(** [main] after option parsing, cut after [fuel] turns of the main loop:
    [Some] exit status when the program has returned, [None] when it is
    still in the loop. *)
Definition main_program (opts : options) (fuel : nat) : io W (option Z) :=
  startup opts;;
  left ← main_loop fuel (max_retries opts);
  if left : bool then status ← finish; mret (Some status) else mret None.

(** The variables of [main] as declared: three null channel pointers, no
    user, running. *)
Definition initial (w : W) : locals W := Build w None None None (-1) true.

Definition main (opts : options) (fuel : nat) (w : W)
    : thrown (option Z) * list event * locals W :=
  main_program opts fuel (initial w).

End Operations.
End Client.

(* ===================================================================== *)
(** ** Vocabulary of the statements                                        *)
(* ===================================================================== *)

(** The text holds no delimiter character. *)
Fixpoint no_delimiter (s : string) : bool :=
  match s with
  | EmptyString => true
  | String c s' => negb (Ascii.eqb c delimiter) && no_delimiter s'
  end.

(** Fields written one after the other with a delimiter in between. *)
Fixpoint join (first : string) (others : list string) : string :=
  match others with
  | [] => first
  | next :: others' => (first ++ String delimiter (join next others'))%string
  end.

Section PoolVocabulary.
Context {Task : Type}.

(** The tasks of a pool that are done, taken by a worker, or queued. *)
Definition outstanding (p : ThreadPool.t Task) : list Task :=
  ThreadPool.completed p ++ ThreadPool.in_flight p ++ ThreadPool.tasks p.

(** A worker between [++activeTasks] and [--activeTasks]. *)
Definition busy (w : ThreadPool.worker Task) : Z :=
  match w with
  | ThreadPool.Running _ | ThreadPool.Finished _ => 1
  | _ => 0
  end.

Definition busy_count (ws : list (ThreadPool.worker Task)) : Z :=
  foldr (fun w n => busy w + n) 0 ws.

(** Once the destructor is past its wait: the queue is empty, the workers
    already joined have exited, and at its return all have. *)
Definition joined (p : ThreadPool.t Task) : Prop :=
  match ThreadPool.dtor p with
  | ThreadPool.Joining next =>
      ThreadPool.stop p = true /\ ThreadPool.tasks p = []
      /\ forall i, (i < next)%nat -> ThreadPool.workers p !! i = Some ThreadPool.Exited
  | ThreadPool.Destroyed =>
      ThreadPool.stop p = true /\ ThreadPool.tasks p = []
      /\ Forall (fun w => w = ThreadPool.Exited) (ThreadPool.workers p)
  | _ => True
  end.

End PoolVocabulary.

(** One schedule on which a scoped pool of [n] workers runs [k] jobs and
    is destroyed: the owner enqueues everything, worker 0 runs the jobs
    one after the other, the owner starts the destructor, every worker
    exits, the owner joins them. *)
Definition sequential_schedule (n k : nat) : list ThreadPool.tick :=
  replicate k ThreadPool.Owner
  ++ concat (replicate k (replicate 4 (ThreadPool.Worker 0)))
  ++ [ThreadPool.Owner; ThreadPool.Owner]
  ++ map ThreadPool.Worker (seq 0 n)
  ++ replicate (S n) ThreadPool.Owner.

(** The events of a run of client code. *)
Definition events {W A : Type} (run : thrown A * list Client.event * Client.locals W)
    : list Client.event :=
  snd (fst run).

(** The ghost marks of the retry loop. *)
Definition is_mark (e : Client.event) : bool :=
  match e with
  | Client.Attempt _ | Client.ShutdownObserved => true
  | _ => false
  end.

Definition unmarked (ev : list Client.event) : bool := forallb (fun e => negb (is_mark e)) ev.






(** A request went out on some channel. *)
Fixpoint network_used (ev : list Client.event) : bool :=
  match ev with
  | [] => false
  | Client.NetRequest _ _ :: _ => true
  | _ :: ev' => network_used ev'
  end.

(** The three channel pointers of the client are null. *)
Definition offline {W : Type} (s : Client.locals W) : Prop :=
  Client.finance_channel s = None
  /\ Client.logging_channel s = None
  /\ Client.file_channel s = None.

(** Client code that, started with null channel pointers, returns a value
    in [Q] without an exception, leaves the pointers null and sends
    nothing. *)
Definition offline_run {W A : Type} (m : Client.io W A) (Q : A -> Prop) : Prop :=
  forall s : Client.locals W,
    offline s ->
    offline (snd (m s))
    /\ network_used (events (m s)) = false
    /\ exists a : A, fst (fst (m s)) = Returned a /\ Q a.

(** An outside given by a script: what the user types and whether an
    interrupt has arrived; no server answers. *)
Record script : Type :=
  { interrupted : bool;
    numbers : list Z;
    amounts : list double;
    keys : list ascii;
    lines : list string }.

#[global] Instance script_terminal : Client.Terminal script :=
  {| Client.shutdown_requested := interrupted;
     Client.cin_choice := fun w =>
       match numbers w with
       | n :: rest =>
           (Some n, Build_script (interrupted w) rest (amounts w) (keys w) (lines w))
       | [] => (None, w)
       end;
     Client.cin_int := fun w =>
       match numbers w with
       | n :: rest => (n, Build_script (interrupted w) rest (amounts w) (keys w) (lines w))
       | [] => (0, w)
       end;
     Client.cin_double := fun w =>
       match amounts w with
       | a :: rest => (a, Build_script (interrupted w) (numbers w) rest (keys w) (lines w))
       | [] => (double_zero, w)
       end;
     Client.cin_char := fun w =>
       match keys w with
       | c :: rest => (c, Build_script (interrupted w) (numbers w) (amounts w) rest (lines w))
       | [] => ("n"%char, w)
       end;
     Client.getline := fun w =>
       match lines w with
       | l :: rest => (l, Build_script (interrupted w) (numbers w) (amounts w) (keys w) rest)
       | [] => (EmptyString, w)
       end;
     Client.clear_input := fun w => w;
     Client.ifstream_read := fun _ w => (None, w);
     Client.ofstream_write := fun _ _ w => (false, w);
     Client.net_send_request := fun _ _ w =>
       (Thrown (runtime_error "send() request length failed!"), w) |}.

(** Client code that leaves the ghost marks to the retry loop. *)
Definition unmarked_run {W A : Type} (m : Client.io W A) : Prop :=
  forall s : Client.locals W, unmarked (events (m s)) = true.

Section RetryTurns.
Context {W : Type} `{Client.Terminal W}.






End RetryTurns.

(* ===================================================================== *)
(** ** network_channel.cpp: sockets, frames and the response text         *)
(* ===================================================================== *)

Module Channel.

(** The byte order of the host that runs one end of a connection. *)
Inductive byte_order : Type :=
  | LittleEndian
  | BigEndian.

(** Conversion of a length to [uint32_t]. *)
Definition to_uint32 (n : Z) : Z := n mod 2 ^ 32.

(** Byte [k] of a [uint32_t], byte 0 the least significant. *)
Definition byte_of (v : Z) (k : Z) : Z := (v / 256 ^ k) mod 256.

(** The four bytes of a [uint32_t] in reverse order. *)
Definition bswap32 (v : Z) : Z :=
  byte_of v 0 * 256 ^ 3 + byte_of v 1 * 256 ^ 2 + byte_of v 2 * 256 + byte_of v 3.

(** [htonl] and [ntohl]: the identity on a big-endian host, the byte swap
    on a little-endian one. *)
Definition htonl (host : byte_order) (v : Z) : Z :=
  match host with
  | BigEndian => v
  | LittleEndian => bswap32 v
  end.

Definition ntohl (host : byte_order) (v : Z) : Z := htonl host v.

Definition byte_char (b : Z) : ascii := ascii_of_nat (Z.to_nat b).

(** The object representation of a [uint32_t]: its four bytes in memory,
    lowest address first.  This is what [memcpy(buf, &v, 4)] copies and
    what [send(fd, &v, 4, 0)] sends. *)
Definition store_uint32 (host : byte_order) (v : Z) : string :=
  match host with
  | LittleEndian =>
      String (byte_char (byte_of v 0)) (String (byte_char (byte_of v 1))
        (String (byte_char (byte_of v 2)) (String (byte_char (byte_of v 3)) EmptyString)))
  | BigEndian =>
      String (byte_char (byte_of v 3)) (String (byte_char (byte_of v 2))
        (String (byte_char (byte_of v 1)) (String (byte_char (byte_of v 0)) EmptyString)))
  end.

(** The [uint32_t] that four received bytes form in memory: what
    [recv(fd, &v, 4, MSG_WAITALL)] leaves in [v]. *)
Definition load_uint32 (host : byte_order) (bytes : string) : Z :=
  match bytes with
  | String a (String b (String c (String d _))) =>
      match host with
      | LittleEndian =>
          char_code a + char_code b * 256 + char_code c * 256 ^ 2 + char_code d * 256 ^ 3
      | BigEndian =>
          char_code d + char_code c * 256 + char_code b * 256 ^ 2 + char_code a * 256 ^ 3
      end
  | _ => 0
  end.

(** One end of a connected socket: how many bytes the socket still takes
    before [send] comes back short, the bytes taken so far, and the bytes
    that arrive before the peer closes. *)
Record socket : Type := Socket
  { room : nat;
    sent : string;
    unread : string }.

(** [send(sockfd, buf, len, 0)]: the number of bytes taken. *)
Definition send (buf : string) (k : socket) : nat * socket :=
  let n := Nat.min (String.length buf) (room k) in
  (n, Socket (room k - n) (sent k ++ str_take n buf) (unread k)).

(** [recv(sockfd, buf, len, MSG_WAITALL)]: the bytes read; fewer than
    [len] only when the peer has closed. *)
Definition recv (len : nat) (k : socket) : string * socket :=
  (str_take len (unread k), Socket (room k) (sent k) (str_drop len (unread k))).

(** The text of a response on the wire: [SUCCESS|BALANCE|DATA|MESSAGE]. *)
Definition response_text (resp : Response) : string :=
  ((if Response.success resp then "1" else "0") ++ "|"
    ++ format_double (Response.balance resp) ++ "|"
    ++ Response.data resp ++ "|"
    ++ Response.message resp)%string.

(** A [std::stringstream] that is read: the characters not yet extracted
    and whether no state bit is set. *)
Record stringstream : Type := Stream
  { pending : string;
    good : bool }.

(** [std::getline(fields, str, '|')].  On a stream that is not good the
    string keeps its value.  Otherwise the characters up to the delimiter
    are extracted and the delimiter is dropped; when the end comes first,
    all characters are extracted and the stream is no longer good. *)
Definition getline (fields : stringstream) (str : string) : string * stringstream :=
  if good fields then
    match find_delimiter (pending fields) with
    | Some pos =>
        (str_take pos (pending fields), Stream (str_drop (S pos) (pending fields)) true)
    | None => (pending fields, Stream EmptyString false)
    end
  else (str, fields).

(** The end of [send_request]: the response text is cut into four fields
    and converted. *)
Definition parse_response (resp : string) : thrown Response :=
  let fields := Stream resp true in
  let '(success, fields) := getline fields EmptyString in
  let '(balance, fields) := getline fields EmptyString in
  let '(data, fields) := getline fields EmptyString in
  let '(message, fields) := getline fields EmptyString in
  balance ← stod balance;
  Returned (Response.Build (String.eqb success "1") balance data message).

(** [send_request(req)] *)
Definition send_request (host : byte_order) (req : Request) (k : socket)
    : thrown Response * socket :=
  let request_str := Request.wire_body req in
  let length := htonl host (to_uint32 (Z.of_nat (String.length request_str))) in
  let length_buf := store_uint32 host length in
  let '(n, k) := send length_buf k in
  if negb (n =? 4)%nat then (Thrown (runtime_error "send() request length failed!"), k)
  else
    let '(n, k) := send request_str k in
    if negb (n =? String.length request_str)%nat
    then (Thrown (runtime_error "send() request body failed!"), k)
    else
      let '(resp_len_net, k) := recv 4 k in
      if negb (String.length resp_len_net =? 4)%nat
      then (Thrown (runtime_error "recv() response length failed!"), k)
      else
        let resp_len := Z.to_nat (ntohl host (load_uint32 host resp_len_net)) in
        let '(buffer, k) := recv resp_len k in
        if negb (String.length buffer =? resp_len)%nat
        then (Thrown (runtime_error "recv() response body failed!"), k)
        else (parse_response buffer, k).

(** [receive_request()] *)
Definition receive_request (host : byte_order) (k : socket) : thrown Request * socket :=
  let '(len_net, k) := recv 4 k in
  if negb (String.length len_net =? 4)%nat
  then (Thrown (runtime_error "recv() request length failed!"), k)
  else
    let len := Z.to_nat (ntohl host (load_uint32 host len_net)) in
    let '(buffer, k) := recv len k in
    if negb (String.length buffer =? len)%nat
    then (Thrown (runtime_error "recv() request body failed!"), k)
    else (Request.parseRequest buffer, k).

(** [send_response(resp)] *)
Definition send_response (host : byte_order) (resp : Response) (k : socket)
    : thrown unit * socket :=
  let response_str := response_text resp in
  let len := htonl host (to_uint32 (Z.of_nat (String.length response_str))) in
  let '(n, k) := send (store_uint32 host len) k in
  if negb (n =? 4)%nat then (Thrown (runtime_error "send() response length failed!"), k)
  else
    let '(n, k) := send response_str k in
    if negb (n =? String.length response_str)%nat
    then (Thrown (runtime_error "send() response body failed!"), k)
    else (Returned (), k).

(** [get_peer_address()] *)
Definition get_peer_address (peer_ip : string) (peer_port : Z) : string :=
  (peer_ip ++ ":" ++ format_int peer_port)%string.

End Channel.

(* ===================================================================== *)
(** ** signals.cpp: the registry of server processes                      *)
(* ===================================================================== *)

(** Arithmetic of [std::atomic<int>]: two's complement, no overflow trap. *)
Definition wrap_int (z : Z) : Z := (z + 2 ^ 31) mod 2 ^ 32 - 2 ^ 31.

Module Servers.

Record ServerProcess : Type := Build
  { pid : Z;
    name : string;
    active : bool }.

(** [register_server(pid, name)] on the list [server_processes]; the
    second component is the line passed to [log_signal_event]. *)
Definition register_server (pid : Z) (name : string) (server_processes : list ServerProcess)
    : list ServerProcess * string :=
  (server_processes ++ [Build pid name true],
   ("Registered server: " ++ name ++ " (PID: " ++ format_int pid ++ ")")%string).

(** [is_server_active(name)]: [std::find_if] stops at the first process of
    that name. *)
Fixpoint is_server_active (name : string) (server_processes : list ServerProcess) : bool :=
  match server_processes with
  | [] => false
  | p :: rest =>
      if String.eqb (Servers.name p) name then active p
      else is_server_active name rest
  end.

(** The inner loop of [sigchld_handler]: the first process with that pid
    is marked and logged, then the loop is left. *)
Fixpoint mark_terminated (pid : Z) (server_processes : list ServerProcess)
    : list ServerProcess * list string :=
  match server_processes with
  | [] => ([], [])
  | server :: rest =>
      if Servers.pid server =? pid then
        (Build (Servers.pid server) (name server) false :: rest,
         [("Child process terminated: " ++ name server ++ " (PID: "
             ++ format_int pid ++ ")")%string])
      else
        let '(rest', logged) := mark_terminated pid rest in
        (server :: rest', logged)
  end.

(** [sigchld_handler]: [waitpid(-1, &status, WNOHANG)] is called until it
    returns no positive pid; [results] are the values it returns, in
    order (past their end it returns no child).  The result is the
    counter [child_exited], the registry and the lines logged. *)
Fixpoint sigchld_handler (results : list Z) (child_exited : Z)
    (server_processes : list ServerProcess) : Z * list ServerProcess * list string :=
  match results with
  | [] => (child_exited, server_processes, [])
  | pid :: results' =>
      if 0 <? pid then
        let '(servers, logged) := mark_terminated pid server_processes in
        let '(count, servers', logged') :=
          sigchld_handler results' (wrap_int (child_exited + 1)) servers in
        (count, servers', logged ++ logged')
      else (child_exited, server_processes, [])
  end.

(** [print_server_status()]: the lines written to [cout]. *)
Definition print_server_status (server_processes : list ServerProcess) : list string :=
  ["=== Server Status ==="%string]
  ++ map (fun server =>
            (name server ++ " (PID: " ++ format_int (pid server) ++ "): "
               ++ (if active server then "ACTIVE" else "TERMINATED"))%string)
         server_processes
  ++ ["===================="%string].

End Servers.

(* ===================================================================== *)
(** ** file.cpp: the file server                                          *)
(* ===================================================================== *)

Module FileServer.

(** [filename.find_last_of(".")] *)
Fixpoint find_last_of (c : ascii) (s : string) : option nat :=
  match s with
  | EmptyString => None
  | String a s' =>
      match find_last_of c s' with
      | Some pos => Some (S pos)
      | None => if Ascii.eqb a c then Some 0%nat else None
      end
  end.

(** The loop that compares [ext] with each allowed extension. *)
Fixpoint is_allowed (ext : string) (allowed_extensions : list string) : bool :=
  match allowed_extensions with
  | [] => false
  | allowed_ext :: rest =>
      if String.eqb ext allowed_ext then true else is_allowed ext rest
  end.

(** The check of the extension of an upload: [Some] message when the
    upload is refused. *)
Definition check_extension (allowed_extensions : list string) (filename : string)
    : option string :=
  match allowed_extensions with
  | [] => None
  | _ :: _ =>
      match find_last_of "." filename with
      | None => Some "File has no extension"%string
      | Some dot_pos =>
          if is_allowed (str_drop dot_pos filename) allowed_extensions then None
          else Some "File extension not allowed"%string
      end
  end.

(** The files of the server: what [std::ofstream] (open, write, close)
    and [std::ifstream] (open, read all) do on a disk in state [D]. *)
Class Disk (D : Type) : Type :=
  { ofstream_write : string -> string -> D -> bool * D;
    ifstream_read : string -> D -> option string }.

Section Handler.
Context {D : Type} `{Disk D}.

(** One pass through the body of the loop of [handle_client]: the
    response sent, the disk after it, and [running]. *)
Definition handle_request (allowed_extensions : list string) (r : Request) (d : D)
    : Response * D * bool :=
  match Request.type r with
  | QUIT =>
      (Response.Build true double_zero "" "Server acknowledged disconnect", d, false)
  | UPLOAD_FILE =>
      match check_extension allowed_extensions (Request.filename r) with
      | Some refusal => (Response.Build false double_zero "" refusal, d, true)
      | None =>
          let filepath := ("storage/" ++ Request.filename r)%string in
          let '(opened, d') := ofstream_write filepath (Request.data r) d in
          if opened : bool
          then (Response.Build true double_zero "" "File uploaded successfully", d', true)
          else (Response.Build false double_zero "" "Failed to create file", d', true)
      end
  | DOWNLOAD_FILE =>
      let filepath := ("storage/" ++ Request.filename r)%string in
      match ifstream_read filepath d with
      | None => (Response.Build false double_zero "" "File not found", d, true)
      | Some content =>
          (Response.Build true double_zero content "File downloaded successfully", d, true)
      end
  | _ => (Response.Build false double_zero "" "Unknown RequestType", d, true)
  end.

End Handler.
End FileServer.

(* ===================================================================== *)
(** ** The logging server                                                 *)
(* ===================================================================== *)

Module LoggingServer.

(** The text that the [switch] on the request type writes. *)
Definition action_text (client_address : string) (r : Request) : string :=
  match Request.type r with
  | LOGIN => "logged in from " ++ client_address
  | LOGOUT => "logged out from " ++ client_address
  | DEPOSIT => "deposited " ++ format_double (Request.amount r)
  | WITHDRAW => "withdrew " ++ format_double (Request.amount r)
  | BALANCE => "viewed balance: " ++ format_double (Request.amount r)
  | EARN_INTEREST => "accrued interest in all accounts"
  | UPLOAD_FILE => "uploaded file: " ++ Request.filename r
  | DOWNLOAD_FILE => "downloaded file: " ++ Request.filename r
  | QUIT => "unknown action (type=" ++ format_int (RequestType_to_int (Request.type r)) ++ ")"
  end%string.

(** The line appended to the log file for one request, [endl] included. *)
Definition log_line (client_address : string) (r : Request) : string :=
  ("[" ++ format_int (Request.user_id r) ++ "]: " ++ action_text client_address r
     ++ String (ascii_of_nat 10) EmptyString)%string.

(** One pass through the body of the loop of [handle_client]; [opened]
    says whether the log file could be opened for appending.  The result
    is the response sent, the content of the log file and [running]. *)
Definition handle_request (client_address : string) (opened : bool) (r : Request)
    (log : string) : Response * string * bool :=
  match Request.type r with
  | QUIT =>
      (Response.Build true double_zero "" "Server acknowledged disconnect", log, false)
  | _ =>
      if opened
      then (Response.Build true double_zero "" "Logged successfully",
            (log ++ log_line client_address r)%string, true)
      else (Response.Build false double_zero "" "Failed to open log file", log, true)
  end.

(** What one turn of the loop meets: [shutdown_requested] at the loop
    test, what [receive_request] gives, and whether the log file opens. *)
Record turn : Type :=
  { shutdown_seen : bool;
    received : thrown Request;
    opened : bool }.

(** [handle_client]: the responses sent and the log file when the loop is
    left, or after the given turns. *)
Fixpoint handle_client (client_address : string) (turns : list turn)
    (sent : list Response) (log : string) : list Response * string :=
  match turns with
  | [] => (sent, log)
  | tn :: turns' =>
      if shutdown_seen tn then (sent, log)
      else
        match received tn with
        | Thrown _ => (sent, log)
        | Returned r =>
            let '(resp, log', running) := handle_request client_address (opened tn) r log in
            if running : bool
            then handle_client client_address turns' (sent ++ [resp]) log'
            else (sent ++ [resp], log')
        end
  end.

End LoggingServer.

(* ===================================================================== *)
(** ** Vocabulary of the further statements                                *)
(* ===================================================================== *)

Section PoolStates.
Context {Task : Type}.

(** What holds of a pool from its construction on: the number of workers,
    no worker has left its loop while [stop] is clear, and every task
    submitted is queued, held by a worker or completed, once. *)
Definition pool_sound (n : nat) (p : ThreadPool.t Task) : Prop :=
  length (ThreadPool.workers p) = n
  /\ (ThreadPool.stop p = false ->
      Forall (fun w => ThreadPool.is_exited w = false) (ThreadPool.workers p))
  /\ outstanding p ≡ₚ ThreadPool.submitted p.

(** A pool of one worker whose completed, held and queued tasks are, in
    this order, the submitted tasks. *)
Definition in_order (p : ThreadPool.t Task) : Prop :=
  exists w, ThreadPool.workers p = [w]
            /\ ThreadPool.completed p ++ ThreadPool.held w ++ ThreadPool.tasks p
               = ThreadPool.submitted p.

(** A pool without workers, in use or in the wait of its destructor. *)
Definition stuck (p : ThreadPool.t Task) : Prop :=
  ThreadPool.workers p = [] /\ ThreadPool.completed p = []
  /\ ThreadPool.tasks p = ThreadPool.submitted p
  /\ match ThreadPool.dtor p with
     | ThreadPool.NotCalled | ThreadPool.Draining => True
     | ThreadPool.Joining _ | ThreadPool.Destroyed => ThreadPool.tasks p = []
     end.

End PoolStates.

(** An account table as the finance server keeps it: the account in slot
    [i] is either as constructed or active with the identifier [i]. *)
Definition slot_ok (i : nat) (acc : Account) : Prop :=
  if Account.active acc then Account.id acc = Z.of_nat i
  else acc = Account.default.

Definition table_ok (accounts : list Account) : Prop :=
  forall (i : nat) (acc : Account), accounts !! i = Some acc -> slot_ok i acc.

(** The responses of a session and the table it leaves, when the session
    has not run into a handler that never returns. *)
Definition session_table (s : session) : option (list Account) :=
  match s with
  | Disconnected _ accounts | Receiving _ accounts => Some accounts
  | Halted _ _ => None
  end.

(** A disk that keeps the last content written under each path and
    refuses no file. *)
Definition shelf : Type := list (string * string).

Fixpoint shelf_read (path : string) (d : shelf) : option string :=
  match d with
  | [] => None
  | (p, content) :: rest => if String.eqb p path then Some content else shelf_read path rest
  end.

#[global] Instance shelf_disk : FileServer.Disk shelf :=
  {| FileServer.ofstream_write := fun path content d => (true, (path, content) :: d);
     FileServer.ifstream_read := shelf_read |}.

(** The text holds no dot. *)
Fixpoint no_dot (s : string) : bool :=
  match s with
  | EmptyString => true
  | String c s' => negb (Ascii.eqb c ".") && no_dot s'
  end.

(** What a stream that is being cut into fields still holds: the fields
    not yet extracted. *)
Definition remaining (fields : Channel.stringstream) : list string :=
  if Channel.good fields then Request.split (Channel.pending fields) else [].

(** The frame of a text on the wire: its length as four bytes, most
    significant first, then the text. *)
Definition frame (text : string) : string :=
  (Channel.store_uint32 Channel.BigEndian (Z.of_nat (String.length text)) ++ text)%string.



(** The requests of the given turns that are to be written to the log:
    those received with the log file open, [QUIT] apart. *)
Fixpoint written (turns : list LoggingServer.turn) : list Request :=
  match turns with
  | [] => []
  | tn :: rest =>
      match LoggingServer.received tn with
      | Returned r =>
          match Request.type r with
          | QUIT => written rest
          | _ => if LoggingServer.opened tn then r :: written rest else written rest
          end
      | Thrown _ => written rest
      end
  end.


(** A datum that is NaN. *)
Definition is_nan (x : double) : bool :=
  match x with S754_nan => true | _ => false end.


(** Client code that, started in a state where [I] holds, returns a
    value in [Q] without an exception and leaves a state where [I]
    holds. *)
Definition keeps {W A : Type} (I : Client.locals W -> Prop) (m : Client.io W A)
    (Q : A -> Prop) : Prop :=
  forall s : Client.locals W,
    I s -> I (snd (m s)) /\ exists a : A, fst (fst (m s)) = Returned a /\ Q a.

(** A property of the variables of [main] that does not look at the
    outside. *)
Definition inward {W : Type} (I : Client.locals W -> Prop) : Prop :=
  forall (s : Client.locals W) (w : W),
    I s ->
    I (Client.Build w (Client.finance_channel s) (Client.logging_channel s)
                    (Client.file_channel s) (Client.current_user s) (Client.running s)).

(** No channel is open and the current user is [u]. *)
Definition offline_as {W : Type} (u : Z) (s : Client.locals W) : Prop :=
  offline s /\ Client.current_user s = u.

(** The channels that are open, in the order in which [main] says
    goodbye to them. *)
Definition open_channels {W : Type} (s : Client.locals W)
    : list Client.NetworkRequestChannel :=
  match Client.finance_channel s with Some c => [c] | None => [] end
  ++ match Client.file_channel s with Some c => [c] | None => [] end
  ++ match Client.logging_channel s with Some c => [c] | None => [] end.

(** A datum that is a double: a finite one has its mantissa and
    exponent in the canonical form of binary64. *)
Definition valid_double (x : double) : bool := valid_binary prec emax x.

(** Not less than zero as C++ compares (true of zero of either sign, and
    of NaN). *)
Definition not_below_zero (x : double) : bool := negb (double_gt double_zero x).

(** An account whose balance is a double that is not below zero. *)
Definition solvent (acc : Account) : Prop :=
  valid_double (Account.balance acc) = true /\ not_below_zero (Account.balance acc) = true.

(** A request whose amount is a double, and not below zero when it is a
    deposit. *)
Definition fair (r : Request) : Prop :=
  valid_double (Request.amount r) = true
  /\ (Request.type r = DEPOSIT -> not_below_zero (Request.amount r) = true).

(** An active account whose balance is NaN. *)
Definition poisoned (acc : Account) : Prop :=
  Account.active acc = true /\ Account.balance acc = S754_nan.

(** The text does not begin with a decimal digit. *)
Definition no_digit_ahead (s : string) : bool :=
  match s with
  | String c _ => negb (isdigit c)
  | EmptyString => true
  end.

(** The requests sent in a run of the client, in order. *)
Fixpoint requests_sent (ev : list Client.event) : list (Client.NetworkRequestChannel * Request) :=
  match ev with
  | [] => []
  | Client.NetRequest chan req :: ev' => (chan, req) :: requests_sent ev'
  | _ :: ev' => requests_sent ev'
  end.

(** The quotient of two integers, as a rational number. *)
Definition ratio (num den : Z) : Q := inject_Z num / inject_Z den.

(** The estimate from which [decimal_exponent] descends. *)
Definition exponent_estimate (l : Z) : Z := (l + 1) * 30103 / 100000 + 1.

Definition estimate_fits (l : Z) : bool :=
  Qle_bool (2 ^ (l + 1)) (10 ^ (exponent_estimate l + 1))
  && Qle_bool (10 ^ (exponent_estimate l - 4)) (2 ^ (l - 1)).

(** The scaling in [six_digits]. *)
Definition scaled_num (x num : Z) : Z := if 0 <=? x - 5 then num else num * 10 ^ (5 - x).
Definition scaled_den (x den : Z) : Z := if 0 <=? x - 5 then den * 10 ^ (x - 5) else den.

(** The quotient that [strtod_value] rounds. *)
Definition decimal_num (m e : Z) : Z := if 0 <=? e then m * 10 ^ e else m.
Definition decimal_den (e : Z) : Z := if 0 <=? e then 1 else 10 ^ (- e).

(** A digit run that scans as the number [k]. *)
Definition scans_as (ip : string) (k : Z) : Prop :=
  forall (rest : string) (c : nat),
    no_digit_ahead rest = true ->
    exists n : nat, scan_digits (ip ++ rest) 0 c = (k, S (c + n), rest).

(** The quotient that [format_finite] writes. *)
Definition binary_num (m : positive) (e : Z) : Z := if 0 <=? e then Zpos m * 2 ^ e else Zpos m.
Definition binary_den (e : Z) : Z := if 0 <=? e then 1 else 2 ^ (- e).

(** The number that a finite double denotes (zero for the other data). *)
Definition double_value (x : double) : Q :=
  match x with
  | S754_finite s m e => ((if s then -1 else 1) * inject_Z (Zpos m) * 2 ^ e)%Q
  | _ => 0%Q
  end.

(** The six-digit decimal that the stream writes for the magnitude
    [m * 2^e] of a finite double. *)
Definition text_value (m : positive) (e : Z) : Q :=
  let '(d, x) := six_digits (binary_num m e) (binary_den e) in
  (inject_Z d * 10 ^ (x - 5))%Q.

(** The text of the datum is one that [std::stod] accepts: for a finite
    double, the decimal written is not below the least normal double,
    [2^-1022]. *)
Definition reads_back (x : double) : bool :=
  match x with
  | S754_finite _ m e => Qle_bool (2 ^ (-1022)) (text_value m e)
  | _ => true
  end.

(** [y] is [x] to six significant digits: the same zero, infinity or
    NaN, or a finite double of the same sign within a relative error of
    six millionths. *)
Definition agrees_to_six_digits (x y : double) : bool :=
  match x, y with
  | S754_finite sx _ _, S754_finite sy _ _ =>
      Bool.eqb sx sy
      && Qle_bool (Qabs (double_value y - double_value x) * 1000000)
                  (6 * Qabs (double_value x))
  | S754_zero sx, S754_zero sy => Bool.eqb sx sy
  | S754_infinity sx, S754_infinity sy => Bool.eqb sx sy
  | S754_nan, S754_nan => true
  | _, _ => false
  end.

(* ===================================================================== *)
(** * Facts about the text conversions                                     *)
(* ===================================================================== *)

Section TextFacts.

Lemma digit_char_spec (d : Z) :
  0 <= d < 10 ->
  isdigit (digit_char d) = true /\ digit_value (digit_char d) = d
  /\ Ascii.eqb (digit_char d) delimiter = false
  /\ isspace (digit_char d) = false.
Proof.
  intros Hd.
  assert (d = 0 \/ d = 1 \/ d = 2 \/ d = 3 \/ d = 4 \/ d = 5 \/ d = 6 \/ d = 7
          \/ d = 8 \/ d = 9) as Hcases by lia.
  repeat (destruct Hcases as [-> | Hcases]; [ repeat split; reflexivity | ]).
  subst d. repeat split; reflexivity.
Qed.

Lemma no_delimiter_app (a b : string) :
  no_delimiter (a ++ b)%string = no_delimiter a && no_delimiter b.
Proof.
  induction a as [| c a IH]; simpl; [reflexivity |].
  rewrite IH. apply andb_assoc.
Qed.

Lemma no_delimiter_digits_onto (fuel : nat) (n : Z) (acc : string) :
  no_delimiter acc = true -> no_delimiter (digits_onto fuel n acc) = true.
Proof.
  revert n acc. induction fuel as [| fuel IH]; intros n acc Hacc; simpl; [exact Hacc |].
  assert (no_delimiter (String (digit_char (n mod 10)) acc) = true) as Hstep.
  { simpl. destruct (digit_char_spec (n mod 10)) as (_ & _ & -> & _).
    - apply Z.mod_pos_bound. lia.
    - exact Hacc. }
  destruct (n / 10 =? 0); [exact Hstep | apply IH, Hstep].
Qed.

Lemma no_delimiter_format_nat (n : Z) : no_delimiter (format_nat n) = true.
Proof. apply no_delimiter_digits_onto. reflexivity. Qed.

Lemma no_delimiter_format_int (z : Z) : no_delimiter (format_int z) = true.
Proof.
  unfold format_int. destruct (z <? 0); simpl; apply no_delimiter_format_nat.
Qed.

Lemma no_delimiter_fixed_digits (w : nat) (n : Z) (acc : string) :
  no_delimiter acc = true -> no_delimiter (fixed_digits w n acc) = true.
Proof.
  revert n acc. induction w as [| w IH]; intros n acc Hacc; simpl; [exact Hacc |].
  apply IH. simpl.
  destruct (digit_char_spec (n mod 10)) as (_ & _ & -> & _).
  - apply Z.mod_pos_bound. lia.
  - exact Hacc.
Qed.

Lemma no_delimiter_strip_zeros (s : string) :
  no_delimiter s = true -> no_delimiter (strip_zeros s) = true.
Proof.
  induction s as [| c s IH]; simpl; [reflexivity |].
  intros [Hc Hs]%andb_prop. specialize (IH Hs).
  destruct (strip_zeros s) as [| c' t].
  - destruct (Ascii.eqb c "0"%char); simpl; [reflexivity | now rewrite Hc].
  - simpl in *. now rewrite Hc, IH.
Qed.

Lemma no_delimiter_with_fraction (a b : string) :
  no_delimiter a = true -> no_delimiter b = true ->
  no_delimiter (with_fraction a b) = true.
Proof.
  intros Ha Hb. unfold with_fraction.
  pose proof (no_delimiter_strip_zeros b Hb) as Hs.
  destruct (strip_zeros b) as [| c t]; [exact Ha |].
  rewrite no_delimiter_app, Ha. exact Hs.
Qed.

Lemma no_delimiter_format_exponent (x : Z) : no_delimiter (format_exponent x) = true.
Proof.
  unfold format_exponent.
  destruct (x <? 0), (Z.abs x <? 10); simpl; apply no_delimiter_format_nat.
Qed.

Lemma no_delimiter_format_finite (m : positive) (e : Z) :
  no_delimiter (format_finite m e) = true.
Proof.
  unfold format_finite.
  destruct (six_digits _ _) as [d x].
  destruct ((x <? -4) || (6 <=? x)).
  - rewrite no_delimiter_app, no_delimiter_format_exponent, andb_true_r.
    apply no_delimiter_with_fraction; apply no_delimiter_fixed_digits; reflexivity.
  - apply no_delimiter_with_fraction;
      [apply no_delimiter_format_nat | apply no_delimiter_fixed_digits; reflexivity].
Qed.

Lemma no_delimiter_format_double (x : double) : no_delimiter (format_double x) = true.
Proof.
  destruct x as [s | s | | s m e]; simpl; try reflexivity; try (destruct s; reflexivity).
  destruct s; simpl; apply no_delimiter_format_finite.
Qed.

(** The conversions on familiar values. *)
Lemma text_conversion_examples :
  map stoi ["0"; " +42abc"; "-2147483648"; "2147483648"; "abc"; "-"]%string
  = [Returned 0; Returned 42; Returned (-2147483648); Thrown (out_of_range "stoi");
     Thrown (invalid_argument "stoi"); Thrown (invalid_argument "stoi")]
  /\ map stod ["50"; "  -12.5xyz"; ".5"; "1e2"; "0x1.8p1"; "inf"; "1e400"; "1e-400"; "."]%string
     = [Returned (double_of_Z 50); Returned (S754_finite true 7036874417766400 (-49));
        Returned (S754_finite false 4503599627370496 (-53)); Returned (double_of_Z 100);
        Returned (double_of_Z 3); Returned (S754_infinity false);
        Thrown (out_of_range "stod"); Thrown (out_of_range "stod");
        Thrown (invalid_argument "stod")]
  /\ map format_double
         [double_of_Z 50; S754_finite false 4503599627370496 (-53); double_of_Z 1234567;
          double_of_Z 100000; double_of_Z 1000000; S754_finite false 7205759403792794 (-56);
          S754_finite true 7318349394477056 (-51); S754_zero true; S754_infinity true]
     = ["50"; "0.5"; "1.23457e+06"; "100000"; "1e+06"; "0.1"; "-3.25"; "-0"; "-inf"]%string
  /\ map format_int [0; 7; -7; 2147483647; -2147483648]
     = ["0"; "7"; "-7"; "2147483647"; "-2147483648"]%string.
Proof. vm_compute. repeat split. Qed.

End TextFacts.
Section IntText.

Lemma scan_digits_onto (fuel : nat) (n : Z) (rest : string) (c : nat) :
  0 <= n < 2 ^ Z.of_nat (S fuel) ->
  exists k : nat,
    scan_digits (digits_onto (S fuel) n rest) 0 c = scan_digits rest n (S (c + k)).
Proof.
  revert n rest c. induction fuel as [| fuel IH]; intros n rest c Hn.
  - assert (n / 10 = 0) as Hq by (apply Z.div_small; change (2 ^ Z.of_nat 1) with 2 in Hn; lia).
    cbn [digits_onto]. rewrite Hq. cbn [Z.eqb scan_digits].
    destruct (digit_char_spec (n mod 10)) as (Hdig & Hval & _).
    { apply Z.mod_pos_bound. lia. }
    exists 0%nat. rewrite Hdig, Hval, Nat.add_0_r.
    pose proof (Z.div_mod n 10). f_equal; lia.
  - change (digits_onto (S (S fuel)) n rest)
      with (let acc' := String (digit_char (n mod 10)) rest in
            if n / 10 =? 0 then acc' else digits_onto (S fuel) (n / 10) acc').
    cbv zeta.
    destruct (digit_char_spec (n mod 10)) as (Hdig & Hval & _).
    { apply Z.mod_pos_bound. lia. }
    destruct (n / 10 =? 0) eqn:Hq.
    + apply Z.eqb_eq in Hq. exists 0%nat. cbn [scan_digits]. rewrite Hdig, Hval.
      rewrite Nat.add_0_r. pose proof (Z.div_mod n 10). f_equal; lia.
    + apply Z.eqb_neq in Hq.
      destruct (IH (n / 10) (String (digit_char (n mod 10)) rest) c) as [k Hk].
      { rewrite (Nat2Z.inj_succ (S fuel)), Z.pow_succ_r in Hn by lia.
        split; [apply Z.div_pos; lia |].
        apply Z.div_lt_upper_bound; lia. }
      exists (S k). rewrite Hk. cbn [scan_digits]. rewrite Hdig, Hval.
      pose proof (Z.div_mod n 10). f_equal; lia.
Qed.

Lemma scan_digits_format_nat (n : Z) :
  0 <= n -> exists k : nat, scan_digits (format_nat n) 0 0 = (n, S k, EmptyString).
Proof.
  intros Hn. unfold format_nat.
  destruct (scan_digits_onto (Z.to_nat (Z.log2 n)) n EmptyString 0) as [k Hk].
  - split; [exact Hn |].
    rewrite Nat2Z.inj_succ, Z2Nat.id by apply Z.log2_nonneg.
    destruct (Z.eq_dec n 0) as [-> | Hne]; [reflexivity |].
    apply Z.log2_spec. lia.
  - exists k. rewrite Hk. reflexivity.
Qed.

(** The first character of a decimal numeral is a digit. *)
Lemma digits_onto_head (fuel : nat) (n : Z) (acc : string) :
  exists d rest, 0 <= d < 10 /\ digits_onto (S fuel) n acc = String (digit_char d) rest.
Proof.
  revert n acc. induction fuel as [| fuel IH]; intros n acc.
  - cbn [digits_onto]. exists (n mod 10), acc.
    split; [apply Z.mod_pos_bound; lia |]. now destruct (n / 10 =? 0).
  - change (digits_onto (S (S fuel)) n acc)
      with (let acc' := String (digit_char (n mod 10)) acc in
            if n / 10 =? 0 then acc' else digits_onto (S fuel) (n / 10) acc').
    cbv zeta. destruct (n / 10 =? 0).
    + exists (n mod 10), acc. split; [apply Z.mod_pos_bound; lia | reflexivity].
    + apply IH.
Qed.

Lemma skip_space_digit (d : Z) (rest : string) :
  0 <= d < 10 -> skip_space (String (digit_char d) rest) = String (digit_char d) rest.
Proof.
  intros Hd. cbn [skip_space].
  destruct (digit_char_spec d Hd) as (_ & _ & _ & ->). reflexivity.
Qed.

Lemma read_sign_digit (d : Z) (rest : string) :
  0 <= d < 10 ->
  read_sign (String (digit_char d) rest) = (false, String (digit_char d) rest).
Proof.
  intros Hd.
  assert (d = 0 \/ d = 1 \/ d = 2 \/ d = 3 \/ d = 4 \/ d = 5 \/ d = 6 \/ d = 7
          \/ d = 8 \/ d = 9) as Hcases by lia.
  repeat (destruct Hcases as [-> | Hcases]; [reflexivity |]).
  subst d. reflexivity.
Qed.

(** Reading back the text of an [int] gives the [int]. *)
Lemma stoi_format_int (z : Z) :
  in_int_range z = true -> stoi (format_int z) = Returned z.
Proof.
  intros Hz. unfold stoi, format_int.
  destruct (z <? 0) eqn:Hneg.
  - apply Z.ltb_lt in Hneg.
    destruct (scan_digits_format_nat (- z)) as [k Hk]; [lia |].
    change (skip_space (String "-" (format_nat (- z)))) with (String "-" (format_nat (- z))).
    cbn [read_sign]. rewrite Hk. rewrite Z.opp_involutive, Hz. reflexivity.
  - apply Z.ltb_ge in Hneg.
    destruct (scan_digits_format_nat z Hneg) as [k Hk].
    destruct (digits_onto_head (Z.to_nat (Z.log2 z)) z EmptyString) as (d & rest & Hd & Hhead).
    fold (format_nat z) in Hhead.
    rewrite Hhead, (skip_space_digit d rest Hd), (read_sign_digit d rest Hd), <- Hhead.
    rewrite Hk, Hz. reflexivity.
Qed.

Lemma RequestType_of_to_int (t : RequestType) :
  RequestType_of_int (RequestType_to_int t) = t.
Proof. destruct t; reflexivity. Qed.

Lemma stoi_format_type (t : RequestType) :
  stoi (format_int (RequestType_to_int t)) = Returned (RequestType_to_int t).
Proof. destruct t; reflexivity. Qed.

End IntText.
Section SplitFacts.

Lemma find_delimiter_none (s : string) :
  no_delimiter s = true -> find_delimiter s = None.
Proof.
  induction s as [| c s IH]; simpl; [reflexivity |].
  intros [Hc Hs]%andb_prop. apply negb_true_iff in Hc. rewrite Hc, (IH Hs). reflexivity.
Qed.

Lemma find_delimiter_app (a b : string) :
  no_delimiter a = true ->
  find_delimiter (a ++ String delimiter b)%string = Some (String.length a).
Proof.
  induction a as [| c a IH]; simpl; [reflexivity |].
  intros [Hc Ha]%andb_prop. apply negb_true_iff in Hc. rewrite Hc, (IH Ha). reflexivity.
Qed.

Lemma str_take_app (a b : string) : str_take (String.length a) (a ++ b)%string = a.
Proof.
  induction a as [| c a IH]; simpl; [now destruct b | now rewrite IH].
Qed.

Lemma str_drop_app (a b : string) (c : ascii) :
  str_drop (S (String.length a)) (a ++ String c b)%string = b.
Proof. induction a as [| c' a IH]; simpl; [reflexivity | exact IH]. Qed.

Lemma split_loop_join (others : list string) :
  forall (first : string) (parts : list string) (fuel : nat),
    no_delimiter first = true ->
    Forall (fun s => no_delimiter s = true) others ->
    (length others <= fuel)%nat ->
    Request.split_loop fuel (join first others) parts = parts ++ first :: others.
Proof.
  induction others as [| next others IH]; intros first parts fuel Hfirst Hothers Hfuel.
  - cbn [join]. destruct fuel; cbn [Request.split_loop]; [reflexivity |].
    now rewrite find_delimiter_none.
  - inversion Hothers as [| ? ? Hnext Hrest]; subst.
    destruct fuel as [| fuel]; [simpl in Hfuel; lia |].
    cbn [join Request.split_loop].
    rewrite find_delimiter_app, str_take_app, str_drop_app by assumption.
    rewrite IH by (try assumption; simpl in Hfuel; lia).
    now rewrite <- app_assoc.
Qed.

Lemma string_length_app (a b : string) :
  String.length (a ++ b)%string = (String.length a + String.length b)%nat.
Proof. induction a as [| c a IH]; simpl; [reflexivity | now rewrite IH]. Qed.

Lemma length_join (others : list string) (first : string) :
  (length others <= String.length (join first others))%nat.
Proof.
  revert first. induction others as [| next others IH]; intros first; cbn [join length]; [lia |].
  rewrite string_length_app. cbn [String.length]. specialize (IH next). lia.
Qed.

Lemma split_join (first : string) (others : list string) :
  no_delimiter first = true ->
  Forall (fun s => no_delimiter s = true) others ->
  Request.split (join first others) = first :: others.
Proof.
  intros Hfirst Hothers. unfold Request.split.
  now rewrite split_loop_join by (try assumption; apply length_join).
Qed.

Lemma wire_body_join (r : Request) :
  Request.wire_body r =
  join (format_int (RequestType_to_int (Request.type r)))
       [format_int (Request.user_id r); format_double (Request.amount r);
        Request.filename r; Request.data r].
Proof. reflexivity. Qed.

End SplitFacts.

(* ===================================================================== *)
(** * The wire protocol: C1, C2, C10                                       *)
(* ===================================================================== *)

(** C1 (as amended).  A body with fewer than five fields, or one whose
    kind field [std::stoi] converts to an [int] outside 0..8, decodes to
    the sentinel request [Request(QUIT)] with all fields at their
    defaults: no exception is raised. *)
Theorem parseRequest_fallback (buffer : string) :
  (length (Request.split buffer) < 5)%nat
  \/ (exists kind : Z,
        stoi (Request.part (Request.split buffer) 0) = Returned kind
        /\ (kind < 0 \/ 8 < kind)) ->
  Request.parseRequest buffer = Returned (Request.Build QUIT 0 double_zero "" "").
Proof.
  intros Hcase. unfold Request.parseRequest.
  destruct (length (Request.split buffer) <? 5)%nat eqn:Hlen; [reflexivity |].
  apply Nat.ltb_ge in Hlen.
  destruct Hcase as [Hshort | (kind & Hkind & Hrange)]; [lia |].
  rewrite Hkind. cbn [mbind thrown_bind].
  destruct ((kind <? 0) || (kind >? 8)) eqn:Hguard; [reflexivity |].
  apply orb_false_elim in Hguard as [Hlo Hhi]. lia.
Qed.

Lemma parseRequest_fallback_witness :
  Request.parseRequest "9|1|2|a|b" = Returned (Request.Build QUIT 0 double_zero "" "")
  /\ Request.parseRequest "1|2" = Returned (Request.Build QUIT 0 double_zero "" "").
Proof.
  split; apply parseRequest_fallback.
  - right. exists 9. split; [reflexivity | lia].
  - left. vm_compute. lia.
Defined.

(** C1 as stated fails twice: a body of six fields is decoded from its
    first five, and a kind field holding the integer 99999999999 makes
    [std::stoi] throw [out_of_range]. *)
Lemma parseRequest_fallback_counterexample :
  (length (Request.split "1|2|3|a|b|c") = 6%nat
   /\ Request.parseRequest "1|2|3|a|b|c"
      = Returned (Request.Build DEPOSIT 2 (double_of_Z 3) "a" "b"))
  /\ (length (Request.split "99999999999|0|0|a|b") = 5%nat
      /\ scan_digits "99999999999" 0 0 = (99999999999, 11%nat, EmptyString)
      /\ Request.parseRequest "99999999999|0|0|a|b" = Thrown (out_of_range "stoi")).
Proof. vm_compute. repeat split. Qed.

(** C10.  With five fields or more, an exception of [std::stoi] on the
    kind field, of [std::stoi] on the subject field, or of [std::stod] on
    the amount field leaves [parseRequest] as that exception; the two
    later conversions are reached only for a kind in 0..8.  Such bodies
    exist; no sentinel is substituted for them: a returned request is the
    sentinel for too few fields or a converted kind outside 0..8, and
    otherwise is built from the five converted fields. *)
Theorem parseRequest_partial :
  (forall (buffer : string) (e : exception),
      (5 <= length (Request.split buffer))%nat ->
      stoi (Request.part (Request.split buffer) 0) = Thrown e ->
      Request.parseRequest buffer = Thrown e)
  /\ (forall (buffer : string) (kind : Z) (e : exception),
      (5 <= length (Request.split buffer))%nat ->
      stoi (Request.part (Request.split buffer) 0) = Returned kind ->
      0 <= kind <= 8 ->
      stoi (Request.part (Request.split buffer) 1) = Thrown e ->
      Request.parseRequest buffer = Thrown e)
  /\ (forall (buffer : string) (kind user : Z) (e : exception),
      (5 <= length (Request.split buffer))%nat ->
      stoi (Request.part (Request.split buffer) 0) = Returned kind ->
      0 <= kind <= 8 ->
      stoi (Request.part (Request.split buffer) 1) = Returned user ->
      stod (Request.part (Request.split buffer) 2) = Thrown e ->
      Request.parseRequest buffer = Thrown e)
  /\ (forall (buffer : string) (e : exception),
      Request.parseRequest buffer = Thrown e ->
      (5 <= length (Request.split buffer))%nat
      /\ (stoi (Request.part (Request.split buffer) 0) = Thrown e
          \/ exists kind : Z,
               stoi (Request.part (Request.split buffer) 0) = Returned kind
               /\ 0 <= kind <= 8
               /\ (stoi (Request.part (Request.split buffer) 1) = Thrown e
                   \/ stod (Request.part (Request.split buffer) 2) = Thrown e)))
  /\ (forall (buffer : string) (r : Request),
      Request.parseRequest buffer = Returned r ->
      (((length (Request.split buffer) < 5)%nat
        \/ exists kind : Z,
             stoi (Request.part (Request.split buffer) 0) = Returned kind
             /\ (kind < 0 \/ 8 < kind))
       /\ r = Request.make QUIT)
      \/ exists (kind user : Z) (amount : double),
           stoi (Request.part (Request.split buffer) 0) = Returned kind
           /\ 0 <= kind <= 8
           /\ stoi (Request.part (Request.split buffer) 1) = Returned user
           /\ stod (Request.part (Request.split buffer) 2) = Returned amount
           /\ r = Request.Build (RequestType_of_int kind) user amount
                                (Request.part (Request.split buffer) 3)
                                (Request.part (Request.split buffer) 4))
  /\ Request.parseRequest "x|0|0|a|b" = Thrown (invalid_argument "stoi")
  /\ Request.parseRequest "1|x|0|a|b" = Thrown (invalid_argument "stoi")
  /\ Request.parseRequest "1|7|x|a|b" = Thrown (invalid_argument "stod").
Proof.
  assert (forall kind, 0 <= kind <= 8 -> (kind <? 0) || (kind >? 8) = false) as Hin.
  { intros kind Hk. apply orb_false_intro; lia. }
  repeat apply conj; try reflexivity.
  - intros buffer e Hlen Hkind. unfold Request.parseRequest.
    apply Nat.ltb_ge in Hlen. rewrite Hlen, Hkind. reflexivity.
  - intros buffer kind e Hlen Hkind Hrange Huser. unfold Request.parseRequest.
    apply Nat.ltb_ge in Hlen. rewrite Hlen, Hkind. cbn [mbind thrown_bind].
    rewrite (Hin kind Hrange), Huser. reflexivity.
  - intros buffer kind user e Hlen Hkind Hrange Huser Hamount.
    unfold Request.parseRequest.
    apply Nat.ltb_ge in Hlen. rewrite Hlen, Hkind. cbn [mbind thrown_bind].
    rewrite (Hin kind Hrange), Huser. cbn [mbind thrown_bind].
    rewrite Hamount. reflexivity.
  - intros buffer e. unfold Request.parseRequest.
    destruct (length (Request.split buffer) <? 5)%nat eqn:Hlen; [discriminate |].
    apply Nat.ltb_ge in Hlen. intros Hthrown. split; [exact Hlen |].
    destruct (stoi (Request.part (Request.split buffer) 0)) as [kind | e0] eqn:Hkind;
      cbn [mbind thrown_bind] in Hthrown; [| left; congruence].
    right. exists kind. split; [reflexivity |].
    destruct ((kind <? 0) || (kind >? 8)) eqn:Hguard; [discriminate |].
    apply orb_false_elim in Hguard as [Hlo Hhi]. split; [lia |].
    destruct (stoi (Request.part (Request.split buffer) 1)) as [user | e1];
      cbn [mbind thrown_bind] in Hthrown; [| left; congruence].
    destruct (stod (Request.part (Request.split buffer) 2)) as [amount | e2];
      cbn [mbind thrown_bind] in Hthrown; [discriminate | right; congruence].
  - intros buffer r. unfold Request.parseRequest.
    destruct (length (Request.split buffer) <? 5)%nat eqn:Hlen.
    { apply Nat.ltb_lt in Hlen. intros [= <-]. left. auto. }
    destruct (stoi (Request.part (Request.split buffer) 0)) as [kind | e0];
      cbn [mbind thrown_bind]; [| discriminate].
    destruct ((kind <? 0) || (kind >? 8)) eqn:Hguard.
    { apply orb_true_iff in Hguard. intros [= <-]. left. split; [| reflexivity].
      right. exists kind. split; [reflexivity | lia]. }
    apply orb_false_elim in Hguard as [Hlo Hhi].
    destruct (stoi (Request.part (Request.split buffer) 1)) as [user | e1];
      cbn [mbind thrown_bind]; [| discriminate].
    destruct (stod (Request.part (Request.split buffer) 2)) as [amount | e2];
      cbn [mbind thrown_bind]; [| discriminate].
    intros [= <-]. right. exists kind, user, amount. repeat split; lia.
Qed.

Lemma parseRequest_partial_witness :
  Request.parseRequest "x|0|0|a|b" = Thrown (invalid_argument "stoi")
  /\ Request.parseRequest "8|-|0|a|b" = Thrown (invalid_argument "stoi")
  /\ Request.parseRequest "0|7|1e999|a|b" = Thrown (out_of_range "stod").
Proof.
  destruct parseRequest_partial as (Hkind & Huser & Hamount & _).
  split; [| split].
  - apply Hkind; [vm_compute; lia | reflexivity].
  - apply (Huser _ 8); [vm_compute; lia | reflexivity | lia | reflexivity].
  - apply (Hamount _ 0 7); [vm_compute; lia | reflexivity | lia | reflexivity | reflexivity].
Defined.

(* ===================================================================== *)
(** * Facts about [double]                                                 *)
(* ===================================================================== *)

Section DoubleFacts.

Lemma SFcompare_antisym (x y : double) :
  SFcompare y x = option_map CompOpp (SFcompare x y).
Proof.
  destruct x as [sx | sx | | sx mx ex], y as [sy | sy | | sy my ey];
    try reflexivity; try (destruct sx; reflexivity); try (destruct sy; reflexivity);
    try (destruct sx, sy; reflexivity).
  cbn [SFcompare option_map].
  rewrite (Z.compare_antisym ex ey).
  assert (Pos.compare_cont Eq my mx = CompOpp (Pos.compare_cont Eq mx my)) as ->
    by (rewrite Pos.compare_cont_antisym; reflexivity).
  destruct sx, sy; try reflexivity; destruct (ex ?= ey); cbn [CompOpp]; try reflexivity.
Qed.

(** [amount > balance] excludes [balance >= amount]. *)
Lemma double_gt_not_ge (x y : double) :
  double_gt x y = true -> double_ge y x = false.
Proof.
  unfold double_gt, double_ge. rewrite (SFcompare_antisym x y).
  destruct (SFcompare x y) as [[| |] |]; cbn; congruence.
Qed.

Lemma double_eq_ge (x y : double) : double_eq x y = true -> double_ge x y = true.
Proof.
  unfold double_eq, SFeqb, double_ge.
  destruct (SFcompare x y) as [[| |] |]; congruence.
Qed.

(** The difference of two equal finite doubles is a zero. *)
Lemma double_sub_eq (x y : double) :
  double_eq x y = true -> is_finite x = true -> is_zero (double_sub x y) = true.
Proof.
  unfold double_eq, SFeqb, double_sub.
  destruct x as [sx | sx | | sx mx ex], y as [sy | sy | | sy my ey];
    intros Heq Hfin; try discriminate; cbn in Heq;
    try (destruct sx; discriminate); try (destruct sy; discriminate).
  - destruct sx, sy; reflexivity.
  - assert (sx = sy /\ ex = ey /\ mx = my) as (-> & -> & ->).
    { destruct sx, sy; try discriminate;
        destruct (ex ?= ey) eqn:He; try discriminate;
        apply Z.compare_eq in He;
        destruct (Pos.compare_cont Eq mx my) eqn:Hm; try discriminate;
        apply Pos.compare_eq in Hm; auto. }
    cbn [SFsub]. rewrite Z.sub_diag. reflexivity.
Qed.

(** Adding to a fresh balance gives the amount, up to the sign of zero. *)
Lemma double_add_zero (a : double) :
  double_add double_zero a = a
  \/ (is_zero a = true /\ double_add double_zero a = double_zero).
Proof.
  destruct a as [s | s | | s m e]; try (left; reflexivity).
  destruct s; [right | left]; split; reflexivity.
Qed.

End DoubleFacts.
(* ===================================================================== *)
(** * The ledger: C4, C6                                                   *)
(* ===================================================================== *)

Section Ledger.
Variables (max_accounts thread_count : Z) (env : environment).

(** The guards of [handle_request] pass for a request that is not [QUIT]
    and names a slot of the table. *)
Lemma handle_request_valid (accounts : list Account) (r : Request) :
  0 <= Request.user_id r < max_accounts ->
  (Request.user_id r <? 0) || (Request.user_id r >=? max_accounts) = false.
Proof. intros Hid. apply orb_false_intro; lia. Qed.

(** C4 (as amended).  On an active account: a withdrawal of an amount
    equal to a finite balance succeeds and leaves a zero balance; a
    withdrawal of more than the balance is answered [ok=false],
    "Insufficient funds", and leaves the table as it was. *)
Theorem withdraw_boundary (accounts : list Account) (r : Request) (acc : Account) :
  Request.type r = WITHDRAW ->
  0 <= Request.user_id r < max_accounts ->
  accounts !! Z.to_nat (Request.user_id r) = Some acc ->
  Account.active acc = true ->
  (double_eq (Account.balance acc) (Request.amount r) = true ->
   is_finite (Account.balance acc) = true ->
   exists zero : double,
     is_zero zero = true
     /\ handle_request accounts max_accounts thread_count env r
        = Replied (Response.Build true zero "" "Withdrawal successful")
                  (<[Z.to_nat (Request.user_id r) := Account.Build (Account.id acc) zero true]>
                     accounts)
                  true)
  /\ (double_gt (Request.amount r) (Account.balance acc) = true ->
      handle_request accounts max_accounts thread_count env r
      = Replied (Response.Build false double_zero "" "Insufficient funds") accounts true).
Proof.
  intros Hty Hid Hslot Hactive.
  assert (forall b : bool,
            double_ge (Account.balance acc) (Request.amount r) = b ->
            handle_request accounts max_accounts thread_count env r
            = if b
              then Replied (Response.Build true
                              (double_sub (Account.balance acc) (Request.amount r))
                              "" "Withdrawal successful")
                           (<[Z.to_nat (Request.user_id r) :=
                                Account.Build (Account.id acc)
                                  (double_sub (Account.balance acc) (Request.amount r)) true]>
                              accounts)
                           true
              else Replied (Response.Build false double_zero "" "Insufficient funds")
                           accounts true) as Hrun.
  { intros b Hb. unfold handle_request.
    rewrite Hty, (handle_request_valid accounts r Hid), Hslot, Hactive.
    cbn [negb]. rewrite Hb. destruct b.
    - now rewrite Hactive, list_insert_insert_eq.
    - now rewrite list_insert_id. }
  split.
  - intros Heq Hfin. exists (double_sub (Account.balance acc) (Request.amount r)).
    split; [now apply double_sub_eq |].
    apply (Hrun true). now apply double_eq_ge.
  - intros Hgt. apply (Hrun false). now apply double_gt_not_ge.
Qed.

(** C6.  A deposit on a valid subject adds the amount to the balance (to a
    fresh zero balance when the account is created by this request) and
    answers [ok=true], the new balance and "Deposit successful"; on a
    created account the new balance is the amount (positive zero when the
    amount is a zero). *)
Theorem deposit_creates_and_adds (accounts : list Account) (r : Request) (slot : Account) :
  Request.type r = DEPOSIT ->
  0 <= Request.user_id r < max_accounts ->
  accounts !! Z.to_nat (Request.user_id r) = Some slot ->
  let before := if Account.active slot then Account.balance slot else double_zero in
  let after := double_add before (Request.amount r) in
  handle_request accounts max_accounts thread_count env r
  = Replied (Response.Build true after "" "Deposit successful")
            (<[Z.to_nat (Request.user_id r) :=
                 Account.Build (if Account.active slot then Account.id slot
                                else Request.user_id r) after true]> accounts)
            true
  /\ (Account.active slot = false ->
      after = Request.amount r
      \/ (is_zero (Request.amount r) = true /\ after = double_zero)).
Proof.
  intros Hty Hid Hslot before after. split.
  - unfold handle_request.
    rewrite Hty, (handle_request_valid accounts r Hid), Hslot.
    subst after before. rewrite list_insert_insert_eq.
    destruct (Account.active slot) eqn:Hactive; cbn [negb]; [now rewrite Hactive |].
    reflexivity.
  - intros Hinactive. subst after before. rewrite Hinactive.
    apply double_add_zero.
Qed.

End Ledger.

Lemma withdraw_boundary_witness :
  let accounts := [Account.default; Account.Build 1 (double_of_Z 80) true] in
  handle_request accounts 2 4 (Build_environment 0 "" [])
                 (Request.Build WITHDRAW 1 (double_of_Z 80) "" "")
  = Replied (Response.Build true double_zero "" "Withdrawal successful")
            [Account.default; Account.Build 1 double_zero true] true
  /\ handle_request accounts 2 4 (Build_environment 0 "" [])
                    (Request.Build WITHDRAW 1 (double_of_Z 81) "" "")
     = Replied (Response.Build false double_zero "" "Insufficient funds") accounts true.
Proof.
  intros accounts.
  pose proof (withdraw_boundary 2 4 (Build_environment 0 "" []) accounts
                (Request.Build WITHDRAW 1 (double_of_Z 80) "" "")
                (Account.Build 1 (double_of_Z 80) true)
                eq_refl ltac:(cbn; lia) eq_refl eq_refl) as [Hequal _].
  pose proof (withdraw_boundary 2 4 (Build_environment 0 "" []) accounts
                (Request.Build WITHDRAW 1 (double_of_Z 81) "" "")
                (Account.Build 1 (double_of_Z 80) true)
                eq_refl ltac:(cbn; lia) eq_refl eq_refl) as [_ Hmore].
  split; [| exact (Hmore eq_refl)].
  destruct (Hequal eq_refl eq_refl) as (zero & _ & Hrun). reflexivity.
Defined.

(** C4 as stated fails on an infinite balance: withdrawing an infinite
    amount from it succeeds and leaves NaN, not zero. *)
Lemma withdraw_boundary_counterexample :
  let inf := S754_infinity false in
  double_eq inf inf = true
  /\ handle_request [Account.Build 0 inf true] 1 4 (Build_environment 0 "" [])
                    (Request.Build WITHDRAW 0 inf "" "")
     = Replied (Response.Build true S754_nan "" "Withdrawal successful")
               [Account.Build 0 S754_nan true] true
  /\ is_zero S754_nan = false.
Proof. vm_compute. repeat split. Qed.

(** The scenario of a fresh server: a deposit of 50 on subject 7 creates
    the account; a withdrawal of 80 is then refused. *)
Lemma deposit_creates_and_adds_witness :
  handle_request (replicate 8 Account.default) 8 4 (Build_environment 0 "" [])
                 (Request.Build DEPOSIT 7 (double_of_Z 50) "" "")
  = Replied (Response.Build true (double_of_Z 50) "" "Deposit successful")
            (replicate 7 Account.default ++ [Account.Build 7 (double_of_Z 50) true]) true
  /\ handle_client (replicate 8 Account.default) 8 4
       [Build_turn false (Returned "1|7|50.0||"%string) (Build_environment 0 "" []);
        Build_turn false (Returned "2|7|80.0||"%string) (Build_environment 0 "" [])] []
     = Receiving [Response.Build true (double_of_Z 50) "" "Deposit successful";
                  Response.Build false double_zero "" "Insufficient funds"]
                 (replicate 7 Account.default ++ [Account.Build 7 (double_of_Z 50) true]).
Proof.
  destruct (deposit_creates_and_adds 8 4 (Build_environment 0 "" [])
              (replicate 8 Account.default)
              (Request.Build DEPOSIT 7 (double_of_Z 50) "" "") Account.default
              eq_refl ltac:(cbn; lia) eq_refl) as [Hrun _].
  split; [exact Hrun | vm_compute; reflexivity].
Defined.
(* ===================================================================== *)
(** * The worker pool: C3                                                  *)
(* ===================================================================== *)

Section PoolFacts.
Context {Task : Type}.
Implicit Types (p : ThreadPool.t Task) (w : ThreadPool.worker Task).

Import ThreadPool.

(** Replacing the worker at a position splits the list around it. *)
Lemma workers_replace (ws : list (worker Task)) (i : nat) w w' :
  ws !! i = Some w ->
  exists l1 l2, ws = l1 ++ w :: l2 /\ <[i := w']> ws = l1 ++ w' :: l2 /\ length l1 = i.
Proof.
  intros Hi. exists (take i ws), (drop (S i) ws).
  pose proof (lookup_lt_Some _ _ _ Hi) as Hlt.
  split; [symmetry; now apply take_drop_middle |].
  split; [now apply insert_take_drop |].
  rewrite length_take. lia.
Qed.

Lemma in_flight_middle (l1 l2 : list (worker Task)) w :
  concat (map held (l1 ++ w :: l2))
  = concat (map held l1) ++ held w ++ concat (map held l2).
Proof. now rewrite map_app, concat_app. Qed.

Lemma busy_count_middle (l1 l2 : list (worker Task)) w :
  busy_count (l1 ++ w :: l2) = busy_count l1 + busy w + busy_count l2.
Proof.
  unfold busy_count. induction l1 as [| x l1 IH]; cbn [foldr app]; [lia |].
  rewrite IH. lia.
Qed.

(** The cases of a worker step, with the list of workers split around
    the worker that moves. *)
Ltac worker_step H :=
  unfold work in H;
  cbn [workers tasks stop activeTasks dtor submitted completed] in H;
  match type of H with
  | context [?ws !! ?i] =>
      let w := fresh "w" in
      let Hw := fresh "Hw" in
      destruct (ws !! i) as [w |] eqn:Hw; [| discriminate H];
      destruct w; try discriminate H;
      repeat case_match; simplify_eq;
      let l1 := fresh "l1" in
      let l2 := fresh "l2" in
      let Hsplit := fresh "Hsplit" in
      let Hins := fresh "Hins" in
      let Hlen := fresh "Hlen" in
      match goal with
      | |- context [<[i := ?w1]> ws] =>
          destruct (workers_replace ws i _ w1 Hw) as (l1 & l2 & Hsplit & Hins & Hlen);
          rewrite Hins; clear Hins; subst ws
      end
  end.

Lemma work_outstanding (i : nat) p p' :
  work i p = Some p' -> outstanding p' ≡ₚ outstanding p.
Proof.
  intros Hstep. destruct p as [ws q st act d sub done].
  unfold outstanding, in_flight. cbn in Hstep |- *.
  worker_step Hstep; cbn [workers tasks completed];
    rewrite ?in_flight_middle; cbn [held]; solve_Permutation.
Qed.

Lemma work_busy_count (i : nat) p p' :
  work i p = Some p' ->
  activeTasks p = busy_count (workers p) ->
  activeTasks p' = busy_count (workers p').
Proof.
  intros Hstep. destruct p as [ws q st act d sub done].
  cbn [workers activeTasks].
  worker_step Hstep; cbn [workers activeTasks];
    rewrite !busy_count_middle; cbn [busy]; lia.
Qed.

(** A worker that has exited takes no step, and a step moves one worker. *)
Lemma work_exited (i j : nat) p p' :
  work i p = Some p' ->
  workers p !! j = Some Exited -> workers p' !! j = Some Exited.
Proof.
  intros Hstep Hj. destruct p as [ws q st act d sub done].
  cbn [workers] in *. unfold work in Hstep. cbn [workers tasks stop] in Hstep.
  destruct (decide (i = j)) as [-> | Hne].
  - rewrite Hj in Hstep. discriminate.
  - destruct (ws !! i) as [w |]; [| discriminate].
    destruct w; repeat case_match; simplify_eq; cbn [workers];
      now rewrite list_lookup_insert_ne.
Qed.

Lemma work_fields (i : nat) p p' :
  work i p = Some p' ->
  dtor p' = dtor p /\ stop p' = stop p /\ submitted p' = submitted p
  /\ length (workers p') = length (workers p)
  /\ (tasks p = [] -> tasks p' = []).
Proof.
  intros Hstep. destruct p as [ws q st act d sub done].
  unfold work in Hstep. cbn [workers tasks stop] in Hstep.
  destruct (ws !! i) as [w |]; [| discriminate].
  destruct w; repeat case_match; simplify_eq; cbn; rewrite ?length_insert;
    repeat split; auto; discriminate.
Qed.

(** The state after the destructor's wait stays as the destructor left it. *)
Lemma work_joined (i : nat) p p' : work i p = Some p' -> joined p -> joined p'.
Proof.
  intros Hstep Hj.
  destruct (work_fields i p p' Hstep) as (Hd & Hs & _ & Hlen & Hq).
  unfold joined in *. rewrite Hd, Hs.
  destruct (dtor p) as [| | next |]; auto.
  - destruct Hj as (Hstop & Hempty & Hexited).
    repeat split; auto. intros j Hlt. eapply work_exited; eauto.
  - destruct Hj as (Hstop & Hempty & Hexited).
    repeat split; auto.
    apply Forall_lookup. intros j w Hw.
    destruct (lookup_lt_is_Some_2 (workers p) j) as [w0 Hw0].
    { rewrite <- Hlen. eapply lookup_lt_Some; eauto. }
    pose proof (proj1 (Forall_lookup _ _) Hexited j w0 Hw0) as ->.
    pose proof (work_exited i j p p' Hstep Hw0). congruence.
Qed.

Lemma destroy_joined p p' : destroy p = Some p' -> joined p -> joined p'.
Proof.
  intros Hstep Hj. destruct p as [ws q st act d sub done].
  unfold destroy in Hstep. cbn in Hstep.
  destruct d as [| | next |]; repeat case_match; simplify_eq;
    unfold joined in *; cbn in *; auto.
  - repeat split; auto. intros j Hlt. lia.
  - destruct Hj as (Hstop & Hempty & Hexited). repeat split; auto.
    intros j Hlt. destruct (decide (j = next)) as [-> | Hne]; [assumption |].
    apply Hexited. lia.
  - destruct Hj as (Hstop & Hempty & Hexited). repeat split; auto.
    apply Forall_lookup. intros j w Hw. pose proof (lookup_lt_Some _ _ _ Hw) as Hlt.
    match goal with Hnone : ws !! next = None |- _ => apply lookup_ge_None_1 in Hnone end.
    rewrite Hexited in Hw by lia. congruence.
Qed.

Lemma enqueue_joined (task : Task) p p' : enqueue task p = Some p' -> joined p'.
Proof.
  destruct p as [ws q st act d sub done]. unfold enqueue, joined. cbn.
  destruct d; intros; simplify_eq; cbn; auto.
Qed.

Lemma destroy_outstanding p p' : destroy p = Some p' -> outstanding p' = outstanding p.
Proof.
  destruct p as [ws q st act d sub done]. unfold destroy, outstanding, in_flight. cbn.
  intros; repeat case_match; simplify_eq; reflexivity.
Qed.

Lemma enqueue_outstanding (task : Task) p p' :
  enqueue task p = Some p' -> outstanding p' ≡ₚ outstanding p ++ [task].
Proof.
  destruct p as [ws q st act d sub done]. unfold enqueue, outstanding, in_flight. cbn.
  intros; repeat case_match; simplify_eq; cbn. solve_Permutation.
Qed.

(** When the destructor has returned nothing is queued or in flight. *)
Lemma destroyed_outstanding p :
  dtor p = Destroyed -> joined p ->
  tasks p = [] /\ in_flight p = [] /\ Forall (fun w => w = Exited) (workers p)
  /\ outstanding p = completed p.
Proof.
  intros Hd Hj. unfold joined in Hj. rewrite Hd in Hj.
  destruct Hj as (_ & Hempty & Hexited).
  assert (in_flight p = []) as Hflight.
  { unfold in_flight. induction Hexited as [| w ws Hw _ IH]; [reflexivity |].
    subst w. exact IH. }
  repeat split; auto. unfold outstanding. now rewrite Hflight, Hempty, !app_nil_r.
Qed.

Lemma step_joined (a : action Task) p p' : step a p = Some p' -> joined p -> joined p'.
Proof.
  destruct a as [task | i |]; cbn [step]; intros Hstep Hj;
    eauto using enqueue_joined, work_joined, destroy_joined.
Qed.

(** Once the destructor runs, a step neither adds nor loses a task. *)
Lemma step_outstanding (a : action Task) p p' :
  step a p = Some p' -> dtor p <> NotCalled ->
  outstanding p' ≡ₚ outstanding p /\ dtor p' <> NotCalled.
Proof.
  destruct a as [task | i |]; cbn [step]; intros Hstep Hd.
  - unfold enqueue in Hstep. destruct (dtor p); congruence.
  - split; [eapply work_outstanding; eauto |].
    destruct (work_fields i p p' Hstep) as (-> & _). exact Hd.
  - split; [erewrite destroy_outstanding; eauto |].
    destruct p as [ws q st act d sub done]. unfold destroy in Hstep. cbn in *.
    destruct d; repeat case_match; simplify_eq; cbn; congruence.
Qed.

Lemma exec_joined (acts : list (action Task)) :
  forall p p', exec p acts = Some p' -> joined p -> joined p'.
Proof.
  induction acts as [| a acts IH]; cbn [exec]; intros p p' Hrun Hj; [congruence |].
  destruct (step a p) as [p1 |] eqn:Hstep; [| discriminate].
  eauto using step_joined.
Qed.

Lemma exec_outstanding (acts : list (action Task)) :
  forall p p', exec p acts = Some p' -> dtor p <> NotCalled ->
               outstanding p' ≡ₚ outstanding p.
Proof.
  induction acts as [| a acts IH]; cbn [exec]; intros p p' Hrun Hd; [now simplify_eq |].
  destruct (step a p) as [p1 |] eqn:Hstep; [| discriminate].
  destruct (step_outstanding a p p1 Hstep Hd) as [Hperm Hd1].
  rewrite <- Hperm. now apply IH.
Qed.

Lemma step_busy_count (a : action Task) p p' :
  step a p = Some p' ->
  activeTasks p = busy_count (workers p) ->
  activeTasks p' = busy_count (workers p').
Proof.
  destruct a as [task | i |]; cbn [step]; intros Hstep Hact.
  - unfold enqueue in Hstep. destruct (dtor p); simplify_eq. exact Hact.
  - eapply work_busy_count; eauto.
  - destruct p as [ws q st act d sub done]. unfold destroy in Hstep.
    cbn [workers tasks stop activeTasks dtor submitted completed] in *.
    destruct d; repeat case_match; simplify_eq;
      cbn [workers activeTasks]; first [assumption | reflexivity].
Qed.

Lemma busy_count_new (n : nat) : busy_count (replicate n (@Idle Task)) = 0.
Proof. induction n as [| n IH]; cbn; [reflexivity | exact IH]. Qed.

Lemma exec_busy_count (acts : list (action Task)) :
  forall p p', exec p acts = Some p' ->
               activeTasks p = busy_count (workers p) ->
               activeTasks p' = busy_count (workers p').
Proof.
  induction acts as [| a acts IH]; cbn [exec]; intros p p' Hrun Hact; [now simplify_eq |].
  destruct (step a p) as [p1 |] eqn:Hstep; [| discriminate].
  eauto using step_busy_count.
Qed.

Lemma busy_count_nonneg (ws : list (worker Task)) : 0 <= busy_count ws.
Proof.
  induction ws as [| w ws IH]; cbn; [lia |].
  fold (busy_count ws). destruct w; cbn; lia.
Qed.

Lemma busy_count_zero (ws : list (worker Task)) :
  busy_count ws = 0 -> Forall (fun w => is_running w = false) ws.
Proof.
  induction ws as [| w ws IH]; cbn; [constructor |].
  fold (busy_count ws). pose proof (busy_count_nonneg ws).
  intros Hsum. constructor; [destruct w; cbn in *; auto; lia |].
  apply IH. destruct w; cbn in *; lia.
Qed.

(** C3.  From the moment the destructor is called, whatever the
    interleaving: when it has returned, every task that was queued or
    held by a worker at the call has been run to completion, once; the
    queue is empty and every worker has exited (was joined).  And [stop]
    is set only by the destructor, in a state where the queue is empty and
    no worker is inside a task. *)
Theorem destructor_drains_pool :
  (forall (p0 p : t Task) (acts : list (action Task)),
      dtor p0 = Draining ->
      exec p0 acts = Some p ->
      dtor p = Destroyed ->
      completed p ≡ₚ completed p0 ++ in_flight p0 ++ tasks p0
      /\ tasks p = [] /\ in_flight p = []
      /\ Forall (fun w => w = Exited) (workers p)
      /\ stop p = true)
  /\ (forall (numThreads : nat) (acts : list (action Task)) (p p' : t Task)
             (a : action Task),
      exec (new numThreads) acts = Some p ->
      step a p = Some p' ->
      stop p = false -> stop p' = true ->
      a = Destroy /\ dtor p = Draining /\ tasks p = []
      /\ Forall (fun w => is_running w = false) (workers p)).
Proof.
  split.
  - intros p0 p acts Hcalled Hrun Hreturned.
    assert (joined p) as Hj.
    { eapply exec_joined; eauto. unfold joined. now rewrite Hcalled. }
    destruct (destroyed_outstanding p Hreturned Hj) as (Hq & Hflight & Hexited & Hout).
    repeat split; auto.
    + rewrite <- Hout. apply exec_outstanding with (acts := acts); [exact Hrun |].
      congruence.
    + unfold joined in Hj. rewrite Hreturned in Hj. tauto.
  - intros n acts p p' a Hrun Hstep Hbefore Hafter.
    assert (activeTasks p = busy_count (workers p)) as Hact.
    { eapply exec_busy_count; eauto. cbn [new workers activeTasks].
      symmetry. apply busy_count_new. }
    destruct a as [task | i |]; cbn [step] in Hstep.
    + unfold enqueue in Hstep. destruct (dtor p); simplify_eq. cbn in Hafter. congruence.
    + destruct (work_fields i p p' Hstep) as (_ & Hs & _). congruence.
    + destruct p as [ws q st act d sub done]. unfold destroy in Hstep.
      cbn [workers tasks stop activeTasks dtor submitted completed] in *.
      destruct d; repeat case_match; simplify_eq;
        cbn [workers tasks stop activeTasks dtor] in *; try congruence.
      repeat split; auto. apply busy_count_zero.
      match goal with Hzero : (_ =? 0) = true |- _ => apply Z.eqb_eq in Hzero end.
      congruence.
Qed.

(** A scoped pool returns the jobs it was given, in completion order. *)
Lemma run_scope_completes (sched : list tick) :
  forall (jobs : list Task) p (order : list Task),
    joined p ->
    run_scope jobs p sched = Some order ->
    order ≡ₚ outstanding p ++ jobs.
Proof.
  induction sched as [| [| i] sched IH]; intros jobs p order Hj Hrun; cbn [run_scope] in Hrun.
  - destruct jobs; [| discriminate].
    destruct (dtor p) eqn:Hd; try discriminate. simplify_eq.
    destruct (destroyed_outstanding p Hd Hj) as (_ & _ & _ & ->).
    now rewrite app_nil_r.
  - destruct jobs as [| job jobs].
    + destruct (destroy p) as [p1 |] eqn:Hstep; [| discriminate].
      rewrite <- (destroy_outstanding p p1 Hstep).
      eauto using destroy_joined.
    + destruct (enqueue job p) as [p1 |] eqn:Hstep; [| discriminate].
      rewrite (IH jobs p1 order (enqueue_joined job p p1 Hstep) Hrun).
      rewrite (enqueue_outstanding job p p1 Hstep). solve_Permutation.
  - destruct (work i p) as [p1 |] eqn:Hstep; [| discriminate].
    rewrite <- (work_outstanding i p p1 Hstep).
    eauto using work_joined.
Qed.

Lemma outstanding_new (n : nat) : outstanding (@new Task n) = [].
Proof.
  unfold outstanding, in_flight. cbn.
  induction n as [| n IH]; cbn; [reflexivity | exact IH].
Qed.

Lemma run_scope_new (n : nat) (jobs : list Task) (sched : list tick) (order : list Task) :
  run_scope jobs (new n) sched = Some order -> order ≡ₚ jobs.
Proof.
  intros Hrun. apply run_scope_completes in Hrun; [| exact I].
  now rewrite outstanding_new in Hrun.
Qed.

(** ** A pool with a worker can always be drained *)

Lemma run_scope_enqueue_all (jobs : list Task) :
  forall p (rest : list tick),
    dtor p = NotCalled ->
    run_scope jobs p (replicate (length jobs) Owner ++ rest)
    = run_scope [] (Build (workers p) (tasks p ++ jobs) (stop p) (activeTasks p)
                          NotCalled (submitted p ++ jobs) (completed p)) rest.
Proof.
  induction jobs as [| job jobs IH]; intros p rest Hd.
  - destruct p as [ws q st act d sub done]. cbn in *. subst d.
    now rewrite !app_nil_r.
  - cbn [length replicate app run_scope]. unfold enqueue. rewrite Hd.
    rewrite IH by reflexivity. cbn [workers tasks stop activeTasks submitted completed].
    now rewrite <- !app_assoc.
Qed.

Lemma run_scope_first_worker (q : list Task) :
  forall (ws : list (worker Task)) (st : bool) (act : Z) (d : destructor)
         (sub done : list Task) (rest : list tick),
    run_scope [] (Build (Idle :: ws) q st act d sub done)
              (concat (replicate (length q) (replicate 4 (Worker 0))) ++ rest)
    = run_scope [] (Build (Idle :: ws) [] st act d sub (done ++ q)) rest.
Proof.
  induction q as [| task q IH]; intros ws st act d sub done rest.
  - cbn. now rewrite app_nil_r.
  - cbn [length replicate concat app run_scope work workers tasks stop activeTasks dtor
         submitted completed lookup list_lookup insert list_insert].
    replace (act + 1 - 1) with act by lia.
    rewrite IH. now rewrite <- app_assoc.
Qed.

Lemma run_scope_exit_all (k : nat) :
  forall (i : nat) (act : Z) (d : destructor) (sub done : list Task) (rest : list tick),
    run_scope [] (Build (replicate i Exited ++ replicate k Idle) [] true act d sub done)
              (map Worker (seq i k) ++ rest)
    = run_scope [] (Build (replicate (i + k) Exited) [] true act d sub done) rest.
Proof.
  induction k as [| k IH]; intros i act d sub done rest.
  - cbn. now rewrite app_nil_r, Nat.add_0_r.
  - cbn [seq map app run_scope]. unfold work.
    cbn [workers tasks stop activeTasks dtor submitted completed].
    rewrite lookup_app_r by (rewrite length_replicate; lia).
    rewrite length_replicate, Nat.sub_diag. cbn [replicate lookup list_lookup].
    rewrite insert_app_r_alt by (rewrite length_replicate; lia).
    rewrite length_replicate, Nat.sub_diag. cbn [insert list_insert].
    replace (replicate i Exited ++ Exited :: replicate k Idle)
      with (replicate (S i) (@Exited Task) ++ replicate k Idle)
      by (rewrite replicate_S_end, <- app_assoc; reflexivity).
    rewrite IH. now rewrite Nat.add_succ_r.
Qed.

Lemma run_scope_join_all (k : nat) :
  forall (i : nat) (act : Z) (sub done : list Task),
    run_scope [] (Build (replicate (i + k) Exited) [] true act (Joining i) sub done)
              (replicate (S k) Owner)
    = Some done.
Proof.
  induction k as [| k IH]; intros i act sub done.
  - cbn [replicate run_scope]. unfold destroy.
    cbn [workers tasks stop activeTasks dtor submitted completed].
    rewrite lookup_ge_None_2 by (rewrite length_replicate; lia). reflexivity.
  - cbn [replicate run_scope]. unfold destroy.
    cbn [workers tasks stop activeTasks dtor submitted completed].
    rewrite lookup_replicate_2 by lia.
    replace (i + S k)%nat with (S i + k)%nat by lia. apply IH.
Qed.

(** With at least one worker, the sequential schedule takes the scoped
    pool through all its jobs, in order, and through its destructor. *)
Lemma run_scope_sequential (n : nat) (jobs : list Task) :
  (0 < n)%nat ->
  run_scope jobs (new n) (sequential_schedule n (length jobs)) = Some jobs.
Proof.
  intros Hn. destruct n as [| n]; [lia |].
  unfold sequential_schedule, new.
  rewrite run_scope_enqueue_all by reflexivity.
  cbn [workers tasks stop activeTasks submitted completed app replicate].
  rewrite run_scope_first_worker.
  cbn [app run_scope destroy tasks activeTasks dtor workers stop submitted completed Z.eqb].
  change (Idle :: replicate n Idle) with (replicate 0 (@Exited Task) ++ replicate (S n) Idle).
  rewrite run_scope_exit_all.
  apply run_scope_join_all.
Qed.

End PoolFacts.

(** Two workers and three tasks, two of them running when the destructor
    is called. *)
Lemma destructor_drains_pool_witness :
  let called := [ThreadPool.Enqueue "a"; ThreadPool.Enqueue "b"; ThreadPool.Enqueue "c";
                 ThreadPool.Work 0; ThreadPool.Work 0; ThreadPool.Work 1; ThreadPool.Work 1;
                 ThreadPool.Destroy]%string in
  let returned := [ThreadPool.Work 0; ThreadPool.Work 0; ThreadPool.Work 0;
                   ThreadPool.Work 1; ThreadPool.Work 1; ThreadPool.Work 0;
                   ThreadPool.Work 0; ThreadPool.Work 0; ThreadPool.Destroy;
                   ThreadPool.Work 0; ThreadPool.Work 1; ThreadPool.Destroy;
                   ThreadPool.Destroy; ThreadPool.Destroy] in
  let p0 := ThreadPool.Build [ThreadPool.Running "a"; ThreadPool.Running "b"]%string
              ["c"%string] false 2 ThreadPool.Draining ["a"; "b"; "c"]%string [] in
  let p := ThreadPool.Build [ThreadPool.Exited; ThreadPool.Exited] [] true 0
             ThreadPool.Destroyed ["a"; "b"; "c"]%string ["a"; "b"; "c"]%string in
  ThreadPool.exec (ThreadPool.new 2) called = Some p0
  /\ ThreadPool.exec p0 returned = Some p
  /\ ThreadPool.completed p ≡ₚ ["a"; "b"; "c"]%string
  /\ Forall (fun w => w = ThreadPool.Exited) (ThreadPool.workers p).
Proof.
  intros called returned p0 p.
  assert (ThreadPool.exec p0 returned = Some p) as Hreturned by (vm_compute; reflexivity).
  destruct (proj1 destructor_drains_pool p0 p returned eq_refl Hreturned eq_refl)
    as (Hdone & _ & _ & Hexited & _).
  split; [vm_compute; reflexivity |].
  split; [exact Hreturned |].
  split; [exact Hdone | exact Hexited].
Defined.

(* ===================================================================== *)
(** * Interest accrual: C5                                                 *)
(* ===================================================================== *)

Section Accrual.

(** Altering each listed position once, in any order. *)
Lemma foldl_alter_lookup {A : Type} (f : A -> A) (order : list nat) :
  forall (l : list A) (i : nat),
    NoDup order ->
    foldl (fun acc id => alter f id acc) l order !! i
    = if decide (i ∈ order) then f <$> l !! i else l !! i.
Proof.
  induction order as [| id order IH]; intros l i Hnodup; cbn [foldl].
  - now rewrite decide_False by apply not_elem_of_nil.
  - apply NoDup_cons in Hnodup as [Hfresh Hnodup].
    rewrite (IH _ _ Hnodup).
    destruct (decide (i ∈ order)) as [Hin | Hout].
    + rewrite decide_True by (rewrite elem_of_cons; tauto).
      rewrite list_lookup_alter_ne by (intros ->; contradiction). reflexivity.
    + destruct (decide (i = id)) as [-> | Hne].
      * rewrite decide_True by (rewrite elem_of_cons; tauto).
        apply list_lookup_alter_eq.
      * rewrite decide_False by (rewrite elem_of_cons; tauto).
        now apply list_lookup_alter_ne.
Qed.

(** The factor is the double nearest to 101/100, and what [1.01] reads as. *)
Lemma interest_factor_literal :
  interest_factor = SFdiv prec emax (double_of_Z 101) (double_of_Z 100)
  /\ stod "1.01" = Returned interest_factor.
Proof. split; vm_compute; reflexivity. Qed.

(** One [applyInterest] per account, in any completion order. *)
Lemma accrual_lookup (accounts : list Account) (order : list nat) (i : nat) :
  order ≡ₚ seq 0 (length accounts) ->
  foldl (fun accs id => alter applyInterest id accs) accounts order !! i
  = applyInterest <$> accounts !! i.
Proof.
  intros Hperm. rewrite foldl_alter_lookup by (rewrite Hperm; apply NoDup_seq).
  destruct (decide (i ∈ order)) as [Hin | Hout]; [reflexivity |].
  rewrite Hperm, elem_of_seq in Hout.
  rewrite lookup_ge_None_2 by lia. reflexivity.
Qed.

Lemma accrual_length (accounts : list Account) (order : list nat) :
  length (foldl (fun accs id => alter applyInterest id accs) accounts order)
  = length accounts.
Proof.
  revert accounts. induction order as [| id order IH]; intros accounts; cbn [foldl];
    [reflexivity |].
  now rewrite IH, length_alter.
Qed.

(** C5 (as amended).  An [EARN_INTEREST] request with a valid subject, in
    a process that can create threads: when the response is produced it
    has [ok=true]; every account that was active with a balance above zero
    has its balance multiplied by the double 1.01; every other account is
    as before, except that an inactive subject account has been created
    (active, balance zero). *)
Theorem earn_interest_accrues
    (accounts : list Account) (max_accounts thread_count : Z) (env : environment)
    (r : Request) (resp : Response) (accounts' : list Account) (running : bool) :
  Request.type r = EARN_INTEREST ->
  0 <= Request.user_id r < max_accounts ->
  length accounts = Z.to_nat max_accounts ->
  spawn_limit env <> 0%nat ->
  handle_request accounts max_accounts thread_count env r
  = Replied resp accounts' running ->
  Response.success resp = true
  /\ length accounts' = length accounts
  /\ forall (i : nat) (slot : Account),
       accounts !! i = Some slot ->
       accounts' !! i
       = Some (if Account.active slot then
                 if double_gt (Account.balance slot) double_zero
                 then Account.Build (Account.id slot)
                        (double_mul (Account.balance slot) interest_factor) true
                 else slot
               else if decide (i = Z.to_nat (Request.user_id r))
                    then Account.Build (Request.user_id r) double_zero true
                    else slot).
Proof.
  intros Hty Hid Hlen Hspawn. unfold handle_request.
  rewrite Hty, (handle_request_valid max_accounts accounts r Hid).
  destruct (lookup_lt_is_Some_2 accounts (Z.to_nat (Request.user_id r))) as [slot0 Hslot0];
    [lia |].
  rewrite Hslot0. unfold earn_interest.
  destruct (if double_gt (Request.amount r) double_zero
            then double_to_int (Request.amount r) else Some thread_count)
    as [numThreads |]; [| discriminate].
  destruct (spawn_limit env <? to_size_t numThreads)%nat.
  { destruct (spawn_limit env); [contradiction | discriminate]. }
  destruct (ThreadPool.run_scope _ _ _) as [order |] eqn:Hscope; [| discriminate].
  intros Hrun. injection Hrun as <- <- <-.
  apply run_scope_new in Hscope.
  split; [reflexivity |].
  split; [now rewrite accrual_length, length_insert |].
  intros i slot Hslot.
  rewrite accrual_lookup by (now rewrite length_insert, Hlen).
  destruct (decide (i = Z.to_nat (Request.user_id r))) as [-> | Hne].
  - rewrite list_lookup_insert_eq by lia.
    rewrite Hslot0 in Hslot. injection Hslot as ->.
    cbn [fmap option_fmap option_map].
    unfold applyInterest. destruct slot as [sid sbal [|]]; cbn; [| reflexivity].
    now destruct (double_gt sbal double_zero).
  - rewrite list_lookup_insert_ne by congruence. rewrite Hslot.
    cbn [fmap option_fmap option_map]. unfold applyInterest.
    destruct slot as [sid sbal [|]]; cbn; [| reflexivity].
    now destruct (double_gt sbal double_zero).
Qed.

(** The response is produced on some schedule whenever the pool gets at
    least one worker and the process can create its workers. *)
Lemma earn_interest_responds
    (accounts : list Account) (max_accounts thread_count : Z) (r : Request)
    (limit : nat) (what : string) (numThreads : Z) :
  Request.type r = EARN_INTEREST ->
  0 <= Request.user_id r < max_accounts ->
  length accounts = Z.to_nat max_accounts ->
  (if double_gt (Request.amount r) double_zero
   then double_to_int (Request.amount r) else Some thread_count) = Some numThreads ->
  (0 < to_size_t numThreads <= limit)%nat ->
  exists accounts',
    handle_request accounts max_accounts thread_count
      (Build_environment limit what
         (sequential_schedule (to_size_t numThreads) (Z.to_nat max_accounts))) r
    = Replied (Response.Build true double_zero "" "Interest accrual successful")
              accounts' true.
Proof.
  intros Hty Hid Hlen Hthreads [Hpos Hlimit]. unfold handle_request.
  rewrite Hty, (handle_request_valid max_accounts accounts r Hid).
  destruct (lookup_lt_is_Some_2 accounts (Z.to_nat (Request.user_id r))) as [slot0 Hslot0];
    [lia |].
  rewrite Hslot0. unfold earn_interest. rewrite Hthreads.
  cbn [spawn_limit schedule].
  destruct (limit <? to_size_t numThreads)%nat eqn:Hspawn;
    [apply Nat.ltb_lt in Hspawn; lia |].
  pose proof (run_scope_sequential (to_size_t numThreads)
                (seq 0 (Z.to_nat max_accounts)) Hpos) as Hrun.
  rewrite length_seq in Hrun. rewrite Hrun. eauto.
Qed.

End Accrual.

(** Three workers, three accounts: one schedule that drains the pool. *)
Lemma earn_interest_accrues_witness :
  let accounts := [Account.default; Account.Build 1 (double_of_Z 100) true;
                   Account.Build 2 double_zero true] in
  let sched := [ThreadPool.Owner; ThreadPool.Owner; ThreadPool.Worker 0; ThreadPool.Owner;
                ThreadPool.Worker 1; ThreadPool.Worker 0; ThreadPool.Worker 1;
                ThreadPool.Worker 2; ThreadPool.Worker 1; ThreadPool.Worker 2;
                ThreadPool.Worker 0; ThreadPool.Worker 2; ThreadPool.Worker 1;
                ThreadPool.Worker 0; ThreadPool.Worker 2; ThreadPool.Owner;
                ThreadPool.Owner; ThreadPool.Worker 2; ThreadPool.Worker 0;
                ThreadPool.Worker 1; ThreadPool.Owner; ThreadPool.Owner;
                ThreadPool.Owner; ThreadPool.Owner] in
  let resp := Response.Build true double_zero "" "Interest accrual successful" in
  let accounts' := [Account.default; Account.Build 1 (double_of_Z 101) true;
                    Account.Build 2 double_zero true] in
  handle_request accounts 3 4 (Build_environment 8 "" sched)
                 (Request.Build EARN_INTEREST 2 (double_of_Z 3) "" "")
  = Replied resp accounts' true
  /\ Response.success resp = true
  /\ accounts' !! 1%nat = Some (Account.Build 1 (double_of_Z 101) true).
Proof.
  intros accounts sched resp accounts'.
  assert (handle_request accounts 3 4 (Build_environment 8 "" sched)
                         (Request.Build EARN_INTEREST 2 (double_of_Z 3) "" "")
          = Replied resp accounts' true) as Hrun by (vm_compute; reflexivity).
  destruct (earn_interest_accrues accounts 3 4 (Build_environment 8 "" sched)
              (Request.Build EARN_INTEREST 2 (double_of_Z 3) "" "") resp accounts' true
              eq_refl ltac:(cbn; lia) eq_refl ltac:(cbn; lia) Hrun) as (Hok & _ & Hall).
  split; [exact Hrun |]. split; [exact Hok |].
  rewrite (Hall 1%nat (Account.Build 1 (double_of_Z 100) true) eq_refl).
  vm_compute. reflexivity.
Defined.

(** C5 as stated fails: a request whose subject is not a slot of the
    table is answered [ok=false] and accrues nothing, and an inactive
    subject account does not stay untouched: it is created. *)
Lemma earn_interest_accrues_counterexample :
  handle_request [Account.Build 0 (double_of_Z 100) true] 1 4
                 (Build_environment 8 "" [])
                 (Request.Build EARN_INTEREST 5 (double_of_Z 3) "" "")
  = Replied (Response.Build false double_zero "" "Invalid account ID")
            [Account.Build 0 (double_of_Z 100) true] true
  /\ handle_request [Account.default; Account.Build 1 (double_of_Z 100) true] 2 4
       (Build_environment 8 ""
          [ThreadPool.Owner; ThreadPool.Owner; ThreadPool.Worker 0; ThreadPool.Worker 0;
           ThreadPool.Worker 0; ThreadPool.Worker 0; ThreadPool.Worker 0;
           ThreadPool.Worker 0; ThreadPool.Worker 0; ThreadPool.Worker 0;
           ThreadPool.Owner; ThreadPool.Owner; ThreadPool.Worker 0; ThreadPool.Owner;
           ThreadPool.Owner])
       (Request.Build EARN_INTEREST 0 (double_of_Z 1) "" "")
     = Replied (Response.Build true double_zero "" "Interest accrual successful")
               [Account.Build 0 double_zero true; Account.Build 1 (double_of_Z 101) true]
               true.
Proof. vm_compute. split; reflexivity. Qed.

(* ===================================================================== *)
(** * The timeout helper: C7                                               *)
(* ===================================================================== *)

Lemma to_unsigned_int (n : Z) :
  in_int_range n = true ->
  SignalHandling.to_unsigned n = if n <? 0 then 2 ^ 32 + n else n.
Proof.
  unfold in_int_range, INT_MIN, INT_MAX, SignalHandling.to_unsigned. intros Hn.
  apply andb_true_iff in Hn as [Hlo Hhi]. apply Z.leb_le in Hlo, Hhi.
  destruct (n <? 0) eqn:Hneg.
  - apply Z.ltb_lt in Hneg. symmetry. apply Z.mod_unique with (q := -1); lia.
  - apply Z.ltb_ge in Hneg. apply Z.mod_small. lia.
Qed.

(** C7 (as amended).  [execute_with_timeout] clears the timeout flag and
    calls [alarm(timeout_seconds)] before it calls the operation: with
    the conversion of the [int] to [unsigned], a positive timeout arms
    that many seconds, a negative one arms [2^32 + timeout_seconds]
    seconds, and zero arms nothing.  When the operation returns, it calls
    [alarm(0)] as its last call, which leaves nothing pending, and returns
    true exactly when the operation returned true and the timeout flag is
    not set when it is read, after [alarm(0)]: the flag is set when it
    was set at the return of the operation, and also when the alarm runs
    out between that return and [alarm(0)]. *)
Theorem execute_with_timeout_returns
    (operation : timed_operation) (timeout_seconds : Z) (timing : alarm_timing)
    (s after : SignalHandling.state) (result : bool) :
  let armed := SignalHandling.alarm timeout_seconds
                 (deliver (before_arming timing)
                    (SignalHandling.set_timeout_occurred false s)) in
  in_int_range timeout_seconds = true ->
  operation armed = (Returned result, after) ->
  (SignalHandling.pending_alarm armed
   = (if timeout_seconds <? 0 then 2 ^ 32 + timeout_seconds else timeout_seconds)
   /\ SignalHandling.alarm_calls armed
      = SignalHandling.alarm_calls s ++ [SignalHandling.pending_alarm armed]
   /\ (SignalHandling.pending_alarm armed = 0 <-> timeout_seconds = 0)
   /\ SignalHandling.timeout_occurred armed
      = before_arming timing && negb (SignalHandling.pending_alarm s =? 0))
  /\ exists (answer : bool) (final : SignalHandling.state),
       execute_with_timeout operation timeout_seconds timing s = (Returned answer, final)
       /\ SignalHandling.pending_alarm final = 0
       /\ SignalHandling.alarm_calls final = SignalHandling.alarm_calls after ++ [0]
       /\ SignalHandling.timeout_occurred final
          = SignalHandling.timeout_occurred after
            || (before_disarming timing && negb (SignalHandling.pending_alarm after =? 0))
       /\ (answer = true <-> result = true /\ SignalHandling.timeout_occurred final = false).
Proof.
  intros armed Hint Hop. split.
  - subst armed. cbn [SignalHandling.alarm SignalHandling.pending_alarm
                      SignalHandling.alarm_calls SignalHandling.timeout_occurred].
    rewrite (to_unsigned_int timeout_seconds Hint).
    assert (forall b t, SignalHandling.alarm_calls (deliver b (SignalHandling.set_timeout_occurred false t))
                        = SignalHandling.alarm_calls t) as Hcalls.
    { intros [|] t; [| reflexivity]. cbn [deliver]. unfold SignalHandling.alarm_expires.
      now destruct (_ =? 0). }
    rewrite Hcalls. split; [reflexivity |]. split; [reflexivity |]. split.
    + unfold in_int_range, INT_MIN, INT_MAX in Hint.
      apply andb_true_iff in Hint as [Hlo Hhi]. apply Z.leb_le in Hlo, Hhi.
      destruct (timeout_seconds <? 0) eqn:Hneg;
        [apply Z.ltb_lt in Hneg | apply Z.ltb_ge in Hneg]; lia.
    + destruct (before_arming timing); [| reflexivity].
      cbn [deliver andb]. unfold SignalHandling.alarm_expires.
      cbn [SignalHandling.set_timeout_occurred SignalHandling.pending_alarm].
      now destruct (SignalHandling.pending_alarm s =? 0).
  - unfold execute_with_timeout. fold armed. rewrite Hop.
    eexists _, _. split; [reflexivity |].
    assert (forall b t, SignalHandling.alarm_calls (deliver b t) = SignalHandling.alarm_calls t)
      as Hcalls.
    { intros [|] t; [| reflexivity]. cbn [deliver]. unfold SignalHandling.alarm_expires.
      now destruct (_ =? 0). }
    cbn [SignalHandling.alarm SignalHandling.pending_alarm SignalHandling.alarm_calls
         SignalHandling.timeout_occurred].
    rewrite Hcalls.
    split; [reflexivity |]. split; [reflexivity |].
    assert (SignalHandling.timeout_occurred (deliver (before_disarming timing) after)
            = SignalHandling.timeout_occurred after
              || (before_disarming timing && negb (SignalHandling.pending_alarm after =? 0)))
      as Hflag.
    { destruct (before_disarming timing); cbn [deliver andb]; [| now rewrite orb_false_r].
      unfold SignalHandling.alarm_expires.
      destruct (SignalHandling.pending_alarm after =? 0); cbn [negb];
        [now rewrite orb_false_r | now rewrite orb_true_r]. }
    split; [exact Hflag |].
    rewrite andb_true_iff, negb_true_iff. reflexivity.
Qed.

(** An operation during which the alarm fires; one that returns in time
    with the alarm running out just after it; and one that returns in
    time, called with a negative timeout. *)
Lemma execute_with_timeout_returns_witness :
  execute_with_timeout (fun s => (Returned true, SignalHandling.sigalrm_handler s)) 5
                       (Build_alarm_timing false false) SignalHandling.initial
  = (Returned false, SignalHandling.Build false true 0 0 [5; 0])
  /\ execute_with_timeout (fun s => (Returned true, s)) 5
                          (Build_alarm_timing false true) SignalHandling.initial
     = (Returned false, SignalHandling.Build false true 0 0 [5; 0])
  /\ execute_with_timeout (fun s => (Returned true, s)) (-5)
                          (Build_alarm_timing false false) SignalHandling.initial
     = (Returned true, SignalHandling.Build false false 0 0 [4294967291; 0]).
Proof.
  split; [| split].
  - destruct (execute_with_timeout_returns
                (fun s => (Returned true, SignalHandling.sigalrm_handler s)) 5
                (Build_alarm_timing false false)
                SignalHandling.initial _ true eq_refl eq_refl)
      as (_ & answer & final & Hrun & _).
    reflexivity.
  - destruct (execute_with_timeout_returns (fun s => (Returned true, s)) 5
                (Build_alarm_timing false true)
                SignalHandling.initial _ true eq_refl eq_refl)
      as (_ & answer & final & Hrun & _).
    reflexivity.
  - destruct (execute_with_timeout_returns (fun s => (Returned true, s)) (-5)
                (Build_alarm_timing false false)
                SignalHandling.initial _ true eq_refl eq_refl)
      as (_ & answer & final & Hrun & _).
    reflexivity.
Defined.

(** C7 as stated fails when the operation throws: the exception leaves
    [execute_with_timeout] before [alarm(0)], and the alarm stays armed. *)
Lemma execute_with_timeout_returns_counterexample :
  let operation : timed_operation :=
    fun s => (Thrown (runtime_error "recv() response length failed!"), s) in
  let run := execute_with_timeout operation 5 (Build_alarm_timing false false)
                                  SignalHandling.initial in
  fst run = Thrown (runtime_error "recv() response length failed!")
  /\ SignalHandling.pending_alarm (snd run) = 5
  /\ SignalHandling.alarm_calls (snd run) = [5].
Proof. vm_compute. repeat split. Qed.

(* ===================================================================== *)
(** * The retry loop: C8                                                   *)
(* ===================================================================== *)

Section TraceFacts.

Import Client.


Lemma unmarked_app (a b : list event) : unmarked (a ++ b) = unmarked a && unmarked b.
Proof. apply forallb_app. Qed.






Lemma network_used_app (a b : list event) :
  network_used (a ++ b) = network_used a || network_used b.
Proof.
  induction a as [| e a IH]; [reflexivity |].
  destruct e; cbn; auto.
Qed.

End TraceFacts.

Section Retry.
Context {W : Type} `{Client.Terminal W}.

Import Client.









End Retry.

Section Unmarked.
Context {W : Type} `{Client.Terminal W}.

Import Client.

Lemma unmarked_ret {A : Type} (a : A) : unmarked_run (mret a : io W A).
Proof. intros s. reflexivity. Qed.

Lemma unmarked_bind {A B : Type} (m : io W A) (k : A -> io W B) :
  unmarked_run m -> (forall a, unmarked_run (k a)) -> unmarked_run (m ≫= k).
Proof.
  intros Hm Hk s. specialize (Hm s). unfold mbind, io_bind, events in *.
  destruct (m s) as [[[a | e] ev] s1]; cbn [fst snd] in *; [| exact Hm].
  specialize (Hk a s1). unfold events in Hk.
  destruct (k a s1) as [[r2 ev2] s2]. cbn [fst snd] in *.
  now rewrite unmarked_app, Hm, Hk.
Qed.

Lemma unmarked_catch {A : Type} (m : io W A) (handler : exception -> io W A) :
  unmarked_run m -> (forall e, unmarked_run (handler e)) -> unmarked_run (catch m handler).
Proof.
  intros Hm Hh s. specialize (Hm s). unfold catch, events in *.
  destruct (m s) as [[[a | e] ev] s1]; cbn [fst snd] in *; [exact Hm |].
  specialize (Hh e s1). unfold events in Hh.
  destruct (handler e s1) as [[r2 ev2] s2]. cbn [fst snd] in *.
  now rewrite unmarked_app, Hm, Hh.
Qed.

Lemma unmarked_emit (e : event) : is_mark e = false -> unmarked_run (emit e : io W unit).
Proof. intros He s. cbn. now rewrite He. Qed.

Lemma unmarked_get {A : Type} (field : locals W -> A) : unmarked_run (get field).
Proof. intros s. reflexivity. Qed.

Lemma unmarked_set_current_user (v : Z) : unmarked_run (set_current_user v : io W unit).
Proof. intros s. reflexivity. Qed.

Lemma unmarked_outside {A : Type} (call : W -> A * W) : unmarked_run (outside call).
Proof. intros s. unfold outside, events. now destruct (call (world s)). Qed.

Lemma unmarked_send_request (chan : NetworkRequestChannel) (req : Request) :
  unmarked_run (send_request chan req : io W Response).
Proof.
  intros s. unfold send_request, events. now destruct (net_send_request chan req (world s)).
Qed.

Ltac unmarked_step :=
  match goal with
  | |- unmarked_run (mret _) => apply unmarked_ret
  | |- unmarked_run (_ ≫= _) => apply unmarked_bind; [| intros ?]
  | |- unmarked_run (catch _ _) => apply unmarked_catch; [| intros ?]
  | |- unmarked_run (print _) => apply unmarked_emit; reflexivity
  | |- unmarked_run (emit _) => apply unmarked_emit; reflexivity
  | |- unmarked_run (get _) => apply unmarked_get
  | |- unmarked_run (set_current_user _) => apply unmarked_set_current_user
  | |- unmarked_run (outside _) => apply unmarked_outside
  | |- unmarked_run (send_request _ _) => apply unmarked_send_request
  | |- unmarked_run (if ?b then _ else _) => destruct b
  | |- unmarked_run (match ?x with _ => _ end) => destruct x
  end.

(** The operations of the menu leave the marks to the loop, whatever the
    servers answer: the retry theorem applies to each of them. *)
Lemma menu_operations_unmarked :
  unmarked_run (login_operation : io W bool)
  /\ (forall amount, unmarked_run (deposit_operation amount : io W bool))
  /\ (forall amount, unmarked_run (withdraw_operation amount : io W bool))
  /\ unmarked_run (balance_operation : io W bool)
  /\ (forall filename content, unmarked_run (upload_operation filename content : io W bool))
  /\ (forall filename, unmarked_run (download_operation filename : io W bool))
  /\ (forall numThreads, unmarked_run (interest_operation numThreads : io W bool))
  /\ unmarked_run (logout_operation : io W bool).
Proof.
  unfold login_operation, deposit_operation, withdraw_operation, balance_operation,
    upload_operation, download_operation, logout_operation, interest_operation,
    exchange, audit.
  repeat split; intros; repeat unmarked_step.
Qed.

End Unmarked.



(* ===================================================================== *)
(** * The client never connects: C9                                        *)
(* ===================================================================== *)

Section Offline.
Context {W : Type} `{Client.Terminal W}.

Import Client.

Lemma offline_ret {A : Type} (a : A) (Q : A -> Prop) :
  Q a -> offline_run (mret a : io W A) Q.
Proof. intros Ha s Hs. cbn. eauto. Qed.

Lemma offline_bind {A B : Type} (m : io W A) (k : A -> io W B)
    (Q : A -> Prop) (R : B -> Prop) :
  offline_run m Q ->
  (forall a, Q a -> offline_run (k a) R) ->
  offline_run (m ≫= k) R.
Proof.
  intros Hm Hk s Hs. destruct (Hm s Hs) as (Hs1 & Hnet & a & Hret & Ha).
  unfold mbind, io_bind, events in *.
  destruct (m s) as [[r ev] s1]. cbn [fst snd] in *. subst r.
  destruct (Hk a Ha s1 Hs1) as (Hs2 & Hnet2 & b & Hret2 & Hb).
  unfold events in *. destruct (k a s1) as [[r2 ev2] s2]. cbn [fst snd] in *.
  rewrite network_used_app, Hnet, Hnet2. eauto.
Qed.

Lemma offline_weaken {A : Type} (m : io W A) (Q R : A -> Prop) :
  offline_run m Q -> (forall a, Q a -> R a) -> offline_run m R.
Proof.
  intros Hm Himp s Hs. destruct (Hm s Hs) as (Hs1 & Hnet & a & Hret & Ha). eauto 6.
Qed.

Lemma offline_catch {A : Type} (m : io W A) (handler : exception -> io W A)
    (Q : A -> Prop) :
  offline_run m Q -> offline_run (catch m handler) Q.
Proof.
  intros Hm s Hs. destruct (Hm s Hs) as (Hs1 & Hnet & a & Hret & Ha).
  unfold catch, events in *. destruct (m s) as [[r ev] s1]. cbn [fst snd] in *.
  subst r. cbn. eauto.
Qed.

Lemma offline_emit (e : event) :
  network_used [e] = false -> offline_run (emit e : io W unit) (fun _ => True).
Proof. intros He s Hs. cbn. eauto. Qed.

Lemma offline_get {A : Type} (field : locals W -> A) (Q : A -> Prop) :
  (forall s, offline s -> Q (field s)) -> offline_run (get field) Q.
Proof. intros Hfield s Hs. cbn. split; [exact Hs |]. split; [reflexivity |]. eauto. Qed.

Lemma offline_set_current_user (v : Z) :
  offline_run (set_current_user v : io W unit) (fun _ => True).
Proof. intros s Hs. cbn. eauto. Qed.

Lemma offline_set_running (b : bool) :
  offline_run (set_running b : io W unit) (fun _ => True).
Proof. intros s Hs. cbn. eauto. Qed.

Lemma offline_outside {A : Type} (call : W -> A * W) :
  offline_run (outside call) (fun _ => True).
Proof.
  intros s Hs. unfold outside, events. destruct (call (world s)) as [a w]. cbn. eauto.
Qed.

Lemma offline_shutdown_flag : offline_run (shutdown_flag : io W bool) (fun _ => True).
Proof.
  intros s Hs. unfold shutdown_flag, events. cbn.
  destruct (shutdown_requested (world s)); eauto.
Qed.

Lemma offline_attempt (operation : io W bool) (Q : bool -> Prop) :
  offline_run operation Q -> offline_run (attempt operation) Q.
Proof.
  intros Hop s Hs. destruct (Hop s Hs) as (Hs1 & Hnet & a & Hret & Ha).
  unfold attempt, events in *. destruct (operation s) as [[r ev] s1]. cbn [fst snd] in *.
  rewrite network_used_app, Hnet. eauto.
Qed.

(** Going through client code statement by statement. *)
Ltac offline_step :=
  match goal with
  | Hsome : context [Some _ = None] |- _ => cbv beta in Hsome; discriminate Hsome
  | |- offline_run (mret _) _ => apply (offline_ret _ (fun _ => True) I)
  | |- offline_run (_ ≫= _) _ => eapply offline_bind; [| intros ? ?]
  | |- offline_run (catch _ _) _ => apply offline_catch
  | |- offline_run (print _) _ => apply offline_emit; reflexivity
  | |- offline_run (log_signal_event _) _ => apply offline_emit; reflexivity
  | |- offline_run block_signals _ => apply offline_emit; reflexivity
  | |- offline_run unblock_signals _ => apply offline_emit; reflexivity
  | |- offline_run (emit _) _ => apply offline_emit; reflexivity
  | |- offline_run (get finance_channel) _ =>
      apply (offline_get finance_channel (fun c => c = None)); intros ? (? & ? & ?); assumption
  | |- offline_run (get logging_channel) _ =>
      apply (offline_get logging_channel (fun c => c = None)); intros ? (? & ? & ?); assumption
  | |- offline_run (get file_channel) _ =>
      apply (offline_get file_channel (fun c => c = None)); intros ? (? & ? & ?); assumption
  | |- offline_run (get _) _ => apply (offline_get _ (fun _ => True)); intros; exact I
  | |- offline_run (set_current_user _) _ => apply offline_set_current_user
  | |- offline_run (set_running _) _ => apply offline_set_running
  | |- offline_run (outside _) _ => apply offline_outside
  | |- offline_run shutdown_flag _ => apply offline_shutdown_flag
  | |- offline_run (attempt _) _ => apply offline_attempt
  | Hnone : ?c = None |- offline_run (match ?c with _ => _ end) _ => subst c; cbv beta iota
  | |- offline_run (if ?b then _ else _) _ => destruct b
  | |- offline_run (match ?x with _ => _ end) _ => destruct x
  end.

Lemma offline_retry_loop (operation_name : string) (operation : io W bool)
    (max_retries : Z) (Q : bool -> Prop) :
  offline_run operation Q ->
  forall (fuel : nat) (retries : Z),
    offline_run (retry_loop fuel operation_name operation max_retries retries)
                (fun _ => True).
Proof.
  intros Hop fuel. induction fuel as [| fuel IH]; intros retries; cbn [retry_loop].
  - offline_step.
  - unfold ask_retry.
    repeat first [ apply IH | eapply offline_attempt, Hop | offline_step ].
Qed.

Lemma offline_retry_operation (operation_name : string) (operation : io W bool)
    (max_retries : Z) :
  offline_run operation (fun _ => True) ->
  offline_run (retry_operation operation_name operation max_retries) (fun _ => True).
Proof. intros Hop. unfold retry_operation. now apply offline_retry_loop with (Q := fun _ => True). Qed.

Lemma offline_transaction (operation_name : string) (operation : io W bool)
    (max_retries : Z) :
  offline_run operation (fun _ => True) ->
  offline_run (transaction operation_name operation max_retries) (fun _ => True).
Proof.
  intros Hop. unfold transaction.
  repeat first [ apply offline_retry_operation, Hop | offline_step ].
Qed.

(** What each operation of the menu does with null channel pointers. *)
Lemma operations_offline (s : locals W) :
  offline s ->
  login_operation s = (Returned false, [Print "Not connected to logging server!"], s)
  /\ (forall amount,
        deposit_operation amount s
        = (Returned false, [Print "Not connected to finance server!"], s))
  /\ (forall amount,
        withdraw_operation amount s
        = (Returned false, [Print "Not connected to finance server!"], s))
  /\ balance_operation s = (Returned false, [Print "Not connected to finance server!"], s)
  /\ (forall filename content,
        upload_operation filename content s
        = (Returned false, [Print "Not connected to file server!"], s))
  /\ (forall filename,
        download_operation filename s
        = (Returned false, [Print "Not connected to file server!"], s))
  /\ (forall numThreads,
        interest_operation numThreads s
        = (Returned false, [Print "Not connected to finance server!"], s))
  /\ logout_operation s
     = (Returned true,
        [Print "Not connected to logging server!"; Print "Logged out locally"],
        Build (world s) None None None (-1) (running s)).
Proof.
  destruct s as [w finance logging file user go]. intros (Hf & Hl & Hfile).
  cbn in Hf, Hl, Hfile. subst. repeat split.
Qed.

Lemma offline_menu_case (max_retries choice : Z) :
  offline_run (menu_case max_retries choice) (fun _ => True).
Proof.
  unfold menu_case, login_operation, deposit_operation, withdraw_operation,
    balance_operation, upload_operation, download_operation, logout_operation,
    interest_operation.
  repeat first [ apply offline_transaction | offline_step ].
Qed.

Lemma offline_main_loop (max_retries : Z) (fuel : nat) :
  offline_run (main_loop fuel max_retries) (fun _ => True).
Proof.
  induction fuel as [| fuel IH]; cbn [main_loop].
  - offline_step.
  - repeat first [ apply IH | apply offline_menu_case | offline_step ].
Qed.

Lemma offline_main_program (opts : options) (fuel : nat) :
  offline_run (main_program opts fuel) (fun _ => True).
Proof.
  unfold main_program, startup, finish, send_quit.
  repeat first [ apply offline_main_loop | offline_step ].
Qed.

End Offline.

(** C9 (as amended).  Whatever the user types and however long the menu
    runs, the three channel pointers are null, no request goes out on any
    channel (none during the menu, no [QUIT] at exit) and no exception
    leaves [main].  With null pointers each operation of the menu prints
    its "Not connected" line and nothing else happens on the network:
    login, deposit, withdrawal, balance, upload, download and interest
    return failure; logout logs out locally and returns success. *)
Theorem client_never_connects {W : Type} `{Client.Terminal W}
    (opts : Client.options) (fuel : nat) (w : W) :
  (offline (snd (Client.main opts fuel w))
   /\ network_used (events (Client.main opts fuel w)) = false
   /\ exists status : option Z, fst (fst (Client.main opts fuel w)) = Returned status)
  /\ forall s : Client.locals W,
       offline s ->
       Client.login_operation s
       = (Returned false, [Client.Print "Not connected to logging server!"], s)
       /\ (forall amount,
             Client.deposit_operation amount s
             = (Returned false, [Client.Print "Not connected to finance server!"], s))
       /\ (forall amount,
             Client.withdraw_operation amount s
             = (Returned false, [Client.Print "Not connected to finance server!"], s))
       /\ Client.balance_operation s
          = (Returned false, [Client.Print "Not connected to finance server!"], s)
       /\ (forall filename content,
             Client.upload_operation filename content s
             = (Returned false, [Client.Print "Not connected to file server!"], s))
       /\ (forall filename,
             Client.download_operation filename s
             = (Returned false, [Client.Print "Not connected to file server!"], s))
       /\ (forall numThreads,
             Client.interest_operation numThreads s
             = (Returned false, [Client.Print "Not connected to finance server!"], s))
       /\ Client.logout_operation s
          = (Returned true,
             [Client.Print "Not connected to logging server!";
              Client.Print "Logged out locally"],
             Client.Build (Client.world s) None None None (-1) (Client.running s)).
Proof.
  split; [| apply operations_offline].
  destruct (offline_main_program opts fuel (Client.initial w)) as (Hs & Hnet & status & Hret & _).
  { repeat split. }
  unfold Client.main. eauto.
Qed.

(** A session: a login that is given up after a retry, a deposit that is
    given up, a logout, exit. *)
Lemma client_never_connects_witness :
  let opts := Client.Build_options "localhost" 8000 "localhost" 8002 "localhost" 8001 2 in
  let w := Build_script false [1; 5; 2; 7; 0] [double_of_Z 50] ["y"; "n"]%char [] in
  fst (fst (Client.main opts 10 w)) = Returned (Some 0)
  /\ offline (snd (Client.main opts 10 w))
  /\ network_used (events (Client.main opts 10 w)) = false.
Proof.
  intros opts w.
  destruct (client_never_connects opts 10 w) as ((Hs & Hnet & _) & _).
  split; [vm_compute; reflexivity |]. split; [exact Hs | exact Hnet].
Defined.

(** C9 as stated fails for logout: with a null logging channel the
    operation does not fail, it logs the user out and returns success. *)
Lemma client_never_connects_counterexample :
  let s := Client.Build (Build_script false [] [] [] []) None None None 5 true in
  Client.logout_operation s
  = (Returned true,
     [Client.Print "Not connected to logging server!"; Client.Print "Logged out locally"],
     Client.Build (Build_script false [] [] [] []) None None None (-1) true).
Proof. reflexivity. Qed.

(* ===================================================================== *)
(** * The channel: frames and the response text                            *)
(* ===================================================================== *)

Section ChannelFacts.

Import Channel.

Lemma byte_of_range (v k : Z) : 0 <= byte_of v k < 256.
Proof. unfold byte_of. apply Z.mod_pos_bound. lia. Qed.

Lemma char_code_byte_char (b : Z) : 0 <= b < 256 -> char_code (byte_char b) = b.
Proof.
  intros Hb. unfold char_code, byte_char.
  rewrite nat_ascii_embedding by lia. lia.
Qed.

(** A 32-bit value is the sum of its four bytes. *)
Lemma uint32_bytes (v : Z) :
  0 <= v < 2 ^ 32 ->
  v = byte_of v 0 + byte_of v 1 * 256 + byte_of v 2 * 256 ^ 2 + byte_of v 3 * 256 ^ 3.
Proof.
  intros Hv. unfold byte_of.
  change (256 ^ 0) with 1. change (256 ^ 1) with 256.
  change (256 ^ 2) with 65536. change (256 ^ 3) with 16777216.
  change (2 ^ 32) with 4294967296 in Hv.
  rewrite Z.div_1_r.
  pose proof (Z.div_mod v 256 ltac:(lia)) as H0.
  pose proof (Z.mod_pos_bound v 256 ltac:(lia)) as B0.
  pose proof (Z.div_mod (v / 256) 256 ltac:(lia)) as H1.
  pose proof (Z.mod_pos_bound (v / 256) 256 ltac:(lia)) as B1.
  pose proof (Z.div_mod (v / 256 / 256) 256 ltac:(lia)) as H2.
  pose proof (Z.mod_pos_bound (v / 256 / 256) 256 ltac:(lia)) as B2.
  assert (v / 65536 = v / 256 / 256) as E2 by (rewrite Z.div_div by lia; reflexivity).
  assert (v / 16777216 = v / 256 / 256 / 256) as E3
    by (rewrite !Z.div_div by lia; reflexivity).
  rewrite E2, E3.
  assert (0 <= v / 256 / 256 / 256 < 256) as B3.
  { rewrite <- E3. split; [apply Z.div_pos; lia |].
    apply Z.div_lt_upper_bound; lia. }
  rewrite (Z.mod_small (v / 256 / 256 / 256) 256 B3). lia.
Qed.

(** The bytes of a sum of four bytes. *)
Lemma byte_of_sum (a b c d : Z) :
  0 <= a < 256 -> 0 <= b < 256 -> 0 <= c < 256 -> 0 <= d < 256 ->
  let w := a + b * 256 + c * 256 ^ 2 + d * 256 ^ 3 in
  byte_of w 0 = a /\ byte_of w 1 = b /\ byte_of w 2 = c /\ byte_of w 3 = d.
Proof.
  intros Ha Hb Hc Hd w. subst w. unfold byte_of.
  change (256 ^ 0) with 1. change (256 ^ 1) with 256.
  change (256 ^ 2) with 65536. change (256 ^ 3) with 16777216.
  rewrite Z.div_1_r.
  assert (forall q r x : Z, 0 <= r < 256 -> x = 256 * q + r -> x mod 256 = r) as Hmod.
  { intros q r x Hr ->. symmetry. apply (Z.mod_unique_pos _ _ q r); lia. }
  assert (forall n q r x : Z, 0 < n -> 0 <= r < n -> x = n * q + r -> x / n = q) as Hdiv.
  { intros n q r x Hn Hr ->. symmetry. apply (Z.div_unique_pos _ _ q r); lia. }
  repeat split.
  - apply (Hmod (b + c * 256 + d * 65536)); lia.
  - rewrite (Hdiv 256 (b + c * 256 + d * 65536) a) by lia.
    apply (Hmod (c + d * 256)); lia.
  - rewrite (Hdiv 65536 (c + d * 256) (a + b * 256)) by lia.
    apply (Hmod d); lia.
  - rewrite (Hdiv 16777216 d (a + b * 256 + c * 65536)) by lia.
    apply Z.mod_small; lia.
Qed.

Lemma bswap32_bytes (v : Z) :
  byte_of (bswap32 v) 0 = byte_of v 3 /\ byte_of (bswap32 v) 1 = byte_of v 2
  /\ byte_of (bswap32 v) 2 = byte_of v 1 /\ byte_of (bswap32 v) 3 = byte_of v 0.
Proof.
  pose proof (byte_of_sum (byte_of v 3) (byte_of v 2) (byte_of v 1) (byte_of v 0)
                (byte_of_range v 3) (byte_of_range v 2) (byte_of_range v 1)
                (byte_of_range v 0)) as Hsum.
  cbv zeta in Hsum.
  replace (bswap32 v)
    with (byte_of v 3 + byte_of v 2 * 256 + byte_of v 1 * 256 ^ 2 + byte_of v 0 * 256 ^ 3)
    by (unfold bswap32; lia).
  exact Hsum.
Qed.

Lemma bswap32_involutive (v : Z) : 0 <= v < 2 ^ 32 -> bswap32 (bswap32 v) = v.
Proof.
  intros Hv. destruct (bswap32_bytes v) as (E0 & E1 & E2 & E3).
  unfold bswap32 at 1. rewrite E0, E1, E2, E3.
  rewrite (uint32_bytes v Hv) at 5. lia.
Qed.

(** Whatever the host, the length goes out most significant byte first. *)
Lemma store_htonl (host : byte_order) (v : Z) :
  store_uint32 host (htonl host v) = store_uint32 BigEndian v.
Proof.
  destruct host; [| reflexivity].
  destruct (bswap32_bytes v) as (E0 & E1 & E2 & E3).
  cbn [htonl store_uint32]. now rewrite E0, E1, E2, E3.
Qed.

(** Whatever the host, the receiver reads the length that was sent. *)
Lemma ntohl_load (host : byte_order) (v : Z) :
  0 <= v < 2 ^ 32 ->
  ntohl host (load_uint32 host (store_uint32 BigEndian v)) = v.
Proof.
  intros Hv. cbn [store_uint32 load_uint32].
  rewrite !char_code_byte_char by apply byte_of_range.
  destruct host; cbn [ntohl htonl].
  - replace (byte_of v 3 + byte_of v 2 * 256 + byte_of v 1 * 256 ^ 2 + byte_of v 0 * 256 ^ 3)
      with (bswap32 v) by (unfold bswap32; lia).
    now apply bswap32_involutive.
  - symmetry. apply uint32_bytes, Hv.
Qed.

Lemma string_app_assoc (a b c : string) : ((a ++ b) ++ c = a ++ (b ++ c))%string.
Proof. induction a as [| x a IH]; cbn; [reflexivity | now rewrite IH]. Qed.

Lemma string_app_nil_r (a : string) : (a ++ EmptyString)%string = a.
Proof. induction a as [| x a IH]; cbn; [reflexivity | now rewrite IH]. Qed.

Lemma str_take_length (s : string) : str_take (String.length s) s = s.
Proof. induction s as [| c s IH]; cbn; [reflexivity | now rewrite IH]. Qed.

Lemma str_drop_length_app (a b : string) : str_drop (String.length a) (a ++ b) = b.
Proof. induction a as [| c a IH]; cbn; [now destruct b | exact IH]. Qed.

Lemma length_str_take (n : nat) (s : string) :
  String.length (str_take n s) = Nat.min n (String.length s).
Proof.
  revert s. induction n as [| n IH]; intros [| c s]; cbn; try reflexivity.
  now rewrite IH.
Qed.

Lemma length_store_uint32 (host : byte_order) (v : Z) :
  String.length (store_uint32 host v) = 4%nat.
Proof. now destruct host. Qed.

(** A [send] that the socket takes whole. *)
Lemma send_whole (buf : string) (k : socket) :
  (String.length buf <= room k)%nat ->
  send buf k = (String.length buf,
                Socket (room k - String.length buf) (sent k ++ buf) (unread k)).
Proof.
  intros Hroom. unfold send.
  rewrite Nat.min_l by exact Hroom. now rewrite str_take_length.
Qed.

(** A [send] that comes back short. *)
Lemma send_short (buf : string) (k : socket) :
  (room k < String.length buf)%nat -> fst (send buf k) = room k.
Proof. intros Hroom. unfold send. cbn [fst]. lia. Qed.

(** Reading a frame: the header, then as many bytes as it announces. *)
Lemma recv_frame (host : byte_order) (body later : string) (r : nat) (s : string) :
  Z.of_nat (String.length body) < 2 ^ 32 ->
  let frame := (store_uint32 BigEndian (Z.of_nat (String.length body)) ++ body)%string in
  let k := Socket r s (frame ++ later) in
  let '(header, k1) := recv 4 k in
  String.length header = 4%nat
  /\ Z.to_nat (ntohl host (load_uint32 host header)) = String.length body
  /\ recv (String.length body) k1 = (body, Socket r s later).
Proof.
  intros Hlen frame k. subst frame k. unfold recv. cbn [room sent unread].
  set (hdr := store_uint32 BigEndian (Z.of_nat (String.length body))).
  assert (String.length hdr = 4%nat) as Hhdr by reflexivity.
  rewrite !string_app_assoc.
  assert (str_take 4 (hdr ++ body ++ later) = hdr) as Htake.
  { rewrite <- Hhdr at 1. apply str_take_app. }
  assert (str_drop 4 (hdr ++ body ++ later) = (body ++ later)%string) as Hdrop.
  { rewrite <- Hhdr at 1. apply str_drop_length_app. }
  rewrite Htake, Hdrop.
  split; [exact Hhdr |]. split.
  - subst hdr.
    rewrite ntohl_load by lia. apply Nat2Z.id.
  - now rewrite str_take_app, str_drop_length_app.
Qed.

(** The cases of a search for the delimiter. *)
Lemma find_delimiter_spec (s : string) :
  match find_delimiter s with
  | None => no_delimiter s = true
  | Some pos =>
      exists a rest : string,
        s = (a ++ String delimiter rest)%string /\ no_delimiter a = true
        /\ pos = String.length a
  end.
Proof.
  induction s as [| c s IH]; cbn [find_delimiter no_delimiter]; [reflexivity |].
  destruct (Ascii.eqb c delimiter) eqn:Hc.
  - apply Ascii.eqb_eq in Hc. subst c. exists EmptyString, s. now repeat split.
  - destruct (find_delimiter s) as [pos |]; cbn [fmap option_fmap option_map negb andb].
    + destruct IH as (a & rest & -> & Ha & ->).
      exists (String c a), rest. cbn [no_delimiter append String.length].
      rewrite Hc, Ha. now repeat split.
    + exact IH.
Qed.

Lemma find_delimiter_bound (s : string) (pos : nat) :
  find_delimiter s = Some pos -> (String.length (str_drop (S pos) s) < String.length s)%nat.
Proof.
  intros Hfind. pose proof (find_delimiter_spec s) as Hspec. rewrite Hfind in Hspec.
  destruct Hspec as (a & rest & -> & _ & ->).
  rewrite str_drop_app, string_length_app. cbn [String.length]. lia.
Qed.

Lemma split_loop_parts (fuel : nat) :
  forall (s : string) (parts : list string),
    Request.split_loop fuel s parts = parts ++ Request.split_loop fuel s [].
Proof.
  induction fuel as [| fuel IH]; intros s parts; cbn [Request.split_loop]; [reflexivity |].
  destruct (find_delimiter s) as [pos |]; [| reflexivity].
  rewrite IH, (IH _ ([] ++ _)). now rewrite app_assoc.
Qed.

(** The loop needs no more turns than the text has characters. *)
Lemma split_loop_fuel (fuel1 : nat) :
  forall (fuel2 : nat) (s : string) (parts : list string),
    (String.length s <= fuel1)%nat -> (String.length s <= fuel2)%nat ->
    Request.split_loop fuel1 s parts = Request.split_loop fuel2 s parts.
Proof.
  induction fuel1 as [| fuel1 IH]; intros fuel2 s parts H1 H2.
  - destruct s; [| cbn in H1; lia]. now destruct fuel2.
  - destruct fuel2 as [| fuel2].
    + destruct s; [reflexivity | cbn in H2; lia].
    + cbn [Request.split_loop].
      destruct (find_delimiter s) as [pos |] eqn:Hfind; [| reflexivity].
      pose proof (find_delimiter_bound s pos Hfind). apply IH; lia.
Qed.

(** The first field and the fields of the rest. *)
Lemma split_cons (a rest : string) :
  no_delimiter a = true ->
  Request.split (a ++ String delimiter rest) = a :: Request.split rest.
Proof.
  intros Ha. unfold Request.split.
  rewrite string_length_app. cbn [String.length].
  rewrite Nat.add_succ_r. cbn [Request.split_loop].
  rewrite find_delimiter_app, str_take_app, str_drop_app by exact Ha.
  rewrite split_loop_parts. cbn [app]. f_equal.
  apply split_loop_fuel; lia.
Qed.

(** Fields, then a delimiter and any text. *)
Lemma split_join_more (others : list string) :
  forall (first more : string),
    no_delimiter first = true ->
    Forall (fun f => no_delimiter f = true) others ->
    Request.split (join first others ++ String delimiter more)
    = (first :: others) ++ Request.split more.
Proof.
  induction others as [| next others IH]; intros first more Hfirst Hothers; cbn [join].
  - now rewrite split_cons.
  - inversion Hothers as [| ? ? Hnext Hrest]; subst.
    rewrite string_app_assoc. cbn [append].
    rewrite split_cons by exact Hfirst.
    now rewrite IH.
Qed.

Lemma split_no_delimiter (s : string) : no_delimiter s = true -> Request.split s = [s].
Proof.
  intros Hs. unfold Request.split.
  destruct (String.length s); cbn [Request.split_loop]; [reflexivity |].
  now rewrite find_delimiter_none.
Qed.

(** A text is its fields with delimiters in between. *)
Lemma split_spec (n : nat) :
  forall s : string,
    (String.length s <= n)%nat ->
    exists (first : string) (others : list string),
      Request.split s = first :: others /\ s = join first others
      /\ no_delimiter first = true /\ Forall (fun f => no_delimiter f = true) others.
Proof.
  induction n as [| n IH]; intros s Hn.
  - destruct s; [| cbn in Hn; lia]. exists EmptyString, []. now repeat split.
  - pose proof (find_delimiter_spec s) as Hspec.
    destruct (find_delimiter s) as [pos |].
    + destruct Hspec as (a & rest & -> & Ha & _).
      rewrite string_length_app in Hn. cbn [String.length] in Hn.
      destruct (IH rest ltac:(lia)) as (first & others & Hsplit & Hjoin & Hfirst & Hothers).
      exists a, (first :: others). rewrite split_cons, Hsplit by exact Ha.
      cbn [join]. rewrite <- Hjoin. repeat split; auto.
    + exists s, []. rewrite split_no_delimiter by exact Hspec. now repeat split.
Qed.

(** One [getline] extracts the next field; past the last field it gives
    the empty text. *)
Lemma getline_remaining (fields : stringstream) :
  let '(str, fields') := getline fields EmptyString in
  str = Request.part (remaining fields) 0 /\ remaining fields' = tail (remaining fields).
Proof.
  destruct fields as [s [|]]; unfold getline, remaining; cbn [good pending];
    [| now split].
  pose proof (find_delimiter_spec s) as Hspec.
  destruct (find_delimiter s) as [pos |].
  - destruct Hspec as (a & rest & -> & Ha & ->).
    rewrite str_take_app, str_drop_app, split_cons by exact Ha. now split.
  - rewrite split_no_delimiter by exact Hspec. now split.
Qed.

(** The response parser reads the first four fields of the text; a field
    that is missing reads as empty, and what follows the fourth field is
    not looked at. *)
Lemma parse_response_split (resp : string) :
  let parts := Request.split resp in
  parse_response resp
  = (balance ← stod (Request.part parts 1);
     Returned (Response.Build (String.eqb (Request.part parts 0) "1") balance
                              (Request.part parts 2) (Request.part parts 3))).
Proof.
  cbv zeta. unfold parse_response.
  pose proof (getline_remaining (Stream resp true)) as H0.
  destruct (getline (Stream resp true) EmptyString) as [f0 s0]. destruct H0 as [-> R0].
  pose proof (getline_remaining s0) as H1.
  destruct (getline s0 EmptyString) as [f1 s1]. destruct H1 as [-> R1].
  pose proof (getline_remaining s1) as H2.
  destruct (getline s1 EmptyString) as [f2 s2]. destruct H2 as [-> R2].
  pose proof (getline_remaining s2) as H3.
  destruct (getline s2 EmptyString) as [f3 s3]. destruct H3 as [-> R3].
  rewrite R2, R1, R0. change (remaining (Stream resp true)) with (Request.split resp).
  destruct (Request.split resp) as [| p0 [| p1 [| p2 [| p3 ps]]]]; reflexivity.
Qed.


(** [send_request] once both sends have been taken whole: the frame of
    the request has gone out and the function is at its first [recv]. *)
Lemma send_request_sent (host : byte_order) (req : Request) (k : socket) :
  (4 + String.length (Request.wire_body req) <= room k)%nat ->
  Z.of_nat (String.length (Request.wire_body req)) < 2 ^ 32 ->
  send_request host req k
  = let k := Socket (room k - 4 - String.length (Request.wire_body req))
                    (sent k ++ frame (Request.wire_body req)) (unread k) in
    let '(resp_len_net, k) := recv 4 k in
    if negb (String.length resp_len_net =? 4)%nat
    then (Thrown (runtime_error "recv() response length failed!"), k)
    else
      let resp_len := Z.to_nat (ntohl host (load_uint32 host resp_len_net)) in
      let '(buffer, k) := recv resp_len k in
      if negb (String.length buffer =? resp_len)%nat
      then (Thrown (runtime_error "recv() response body failed!"), k)
      else (parse_response buffer, k).
Proof.
  intros Hroom Hlen. unfold send_request, frame.
  unfold to_uint32. rewrite Z.mod_small by lia. rewrite store_htonl.
  rewrite send_whole by (rewrite length_store_uint32; lia).
  rewrite length_store_uint32. cbn [Nat.eqb negb].
  rewrite send_whole by (cbn [room]; lia).
  rewrite Nat.eqb_refl. cbn [negb room sent unread].
  now rewrite string_app_assoc.
Qed.

(** A frame at the head of the unread bytes is read whole. *)
Lemma receive_request_frame (host : byte_order) (body later : string) (r : nat) (s : string) :
  Z.of_nat (String.length body) < 2 ^ 32 ->
  receive_request host (Socket r s (frame body ++ later))
  = (Request.parseRequest body, Socket r s later).
Proof.
  intros Hlen. unfold receive_request.
  pose proof (recv_frame host body later r s Hlen) as Hrecv. cbv zeta in Hrecv.
  fold (frame body) in Hrecv.
  destruct (recv 4 (Socket r s (frame body ++ later))) as [header k1].
  destruct Hrecv as (Hhdr & Hn & Hbody).
  rewrite Hhdr, Hn, Hbody. cbn [Nat.eqb negb]. now rewrite Nat.eqb_refl.
Qed.

(** X1.  A request whose amount is not NaN, passed to [send_request] on
    a socket that takes both sends whole, goes out as one frame: the
    length of the text as four bytes, most significant first, then the
    text.  [receive_request] on the other end, whatever the byte order of
    either host and whatever follows the frame, consumes exactly that
    frame and hands its text to [parseRequest]. *)
Theorem request_crosses_the_wire (client server : byte_order) (req : Request)
    (k ks : socket) (later : string) :
  is_nan (Request.amount req) = false ->
  (4 + String.length (Request.wire_body req) <= room k)%nat ->
  Z.of_nat (String.length (Request.wire_body req)) < 2 ^ 32 ->
  sent (snd (send_request client req k)) = (sent k ++ frame (Request.wire_body req))%string
  /\ receive_request server
       (Socket (room ks) (sent ks) (frame (Request.wire_body req) ++ later))
     = (Request.parseRequest (Request.wire_body req), Socket (room ks) (sent ks) later).
Proof.
  intros _ Hroom Hlen. split.
  - rewrite send_request_sent by assumption. cbv zeta. unfold recv. cbn [room sent unread].
    repeat (match goal with |- context [if ?b then _ else _] => destruct b end;
            cbn [snd sent]; try reflexivity).
  - now apply receive_request_frame.
Qed.

Lemma request_crosses_the_wire_witness :
  let req := Request.Build DEPOSIT 7 (double_of_Z 50) "" "" in
  let k := Socket 64 "" "" in
  sent (snd (send_request LittleEndian req k))
  = String zero (String zero (String zero (String (ascii_of_nat 8) "1|7|50||")))
  /\ receive_request BigEndian (Socket 0 "" (frame (Request.wire_body req) ++ "next"))
     = (Returned req, Socket 0 "" "next").
Proof.
  cbv zeta.
  pose proof (request_crosses_the_wire LittleEndian BigEndian
                (Request.Build DEPOSIT 7 (double_of_Z 50) "" "")
                (Socket 64 "" "") (Socket 0 "" "") "next") as Hwire.
  destruct Hwire as [Hsent Hrecv].
  - reflexivity.
  - vm_compute. lia.
  - vm_compute. reflexivity.
  - split; (etransitivity; [first [exact Hsent | exact Hrecv] | vm_compute; reflexivity]).
Defined.

(** The text of a response as fields. *)
Lemma response_text_join (resp : Response) :
  response_text resp
  = join (if Response.success resp then "1" else "0")
         [format_double (Response.balance resp); Response.data resp; Response.message resp].
Proof. reflexivity. Qed.

Lemma parse_response_text (resp : Response) :
  no_delimiter (Response.data resp) = true ->
  no_delimiter (Response.message resp) = true ->
  parse_response (response_text resp)
  = (balance ← stod (format_double (Response.balance resp));
     Returned (Response.Build (Response.success resp) balance
                              (Response.data resp) (Response.message resp))).
Proof.
  intros Hdata Hmessage. rewrite parse_response_split. cbv zeta.
  rewrite response_text_join, split_join.
  - cbn [Request.part nth]. now destruct (Response.success resp).
  - now destruct (Response.success resp).
  - repeat constructor; auto using no_delimiter_format_double.
Qed.

(** X3.  The response parser on texts that [send_response] does not
    write.  A text without delimiter has no balance field: the conversion
    of the empty text throws [invalid_argument], which leaves
    [send_request].  A text of more than four fields is read as its first
    four: a delimiter in the message cuts the message short. *)
Theorem parse_response_fields :
  (forall text : string,
      no_delimiter text = true ->
      parse_response text = Thrown (invalid_argument "stod"))
  /\ (forall (f0 f1 f2 f3 more : string),
        no_delimiter f0 = true -> no_delimiter f1 = true ->
        no_delimiter f2 = true -> no_delimiter f3 = true ->
        parse_response (join f0 [f1; f2; f3] ++ String delimiter more)
        = parse_response (join f0 [f1; f2; f3])).
Proof.
  split.
  - intros text Htext. rewrite parse_response_split. cbv zeta.
    now rewrite split_no_delimiter.
  - intros f0 f1 f2 f3 more H0 H1 H2 H3.
    rewrite !parse_response_split. cbv zeta.
    rewrite split_join, split_join_more by (repeat constructor; assumption).
    reflexivity.
Qed.

Lemma parse_response_fields_witness :
  parse_response "1" = Thrown (invalid_argument "stod")
  /\ parse_response "1|50||Deposit|done" = parse_response "1|50||Deposit".
Proof.
  destruct parse_response_fields as [Hnone Hmore]. split.
  - apply Hnone. reflexivity.
  - apply (Hmore "1" "50" "" "Deposit" "done")%string; reflexivity.
Defined.

(** X4.  [receive_request] on input that is not a whole frame.  When the
    peer closes before four bytes have come, or before as many bytes
    have come as the header announces, the call throws [runtime_error];
    a frame of length zero is a request: the sentinel [Request(QUIT)]. *)
Theorem receive_request_incomplete (host : byte_order) (k : socket) :
  ((String.length (unread k) < 4)%nat ->
   fst (receive_request host k)
   = Thrown (runtime_error "recv() request length failed!"))
  /\ (forall (n : Z) (rest : string),
        0 <= n < 2 ^ 32 ->
        unread k = (store_uint32 BigEndian n ++ rest)%string ->
        (Z.of_nat (String.length rest) < n ->
         fst (receive_request host k)
         = Thrown (runtime_error "recv() request body failed!"))
        /\ (n = 0 ->
            receive_request host k
            = (Returned (Request.make QUIT), Socket (room k) (sent k) rest))).
Proof.
  split.
  - intros Hshort. unfold receive_request, recv.
    rewrite length_str_take.
    destruct (Nat.eqb_spec (Nat.min 4 (String.length (unread k))) 4) as [Heq | _];
      [lia | reflexivity].
  - intros n rest Hn Hunread.
    assert (str_take 4 (unread k) = store_uint32 BigEndian n) as Htake.
    { rewrite Hunread. apply (str_take_app (store_uint32 BigEndian n)). }
    assert (str_drop 4 (unread k) = rest) as Hdrop.
    { rewrite Hunread. apply (str_drop_length_app (store_uint32 BigEndian n)). }
    unfold receive_request, recv. cbn [room sent unread].
    rewrite Htake, Hdrop, ntohl_load by exact Hn.
    cbn [String.length store_uint32 Nat.eqb negb]. split.
    + intros Hrest. rewrite length_str_take.
      destruct (Nat.eqb_spec (Nat.min (Z.to_nat n) (String.length rest)) (Z.to_nat n))
        as [Heq | _]; [lia | reflexivity].
    + intros ->. cbn [Z.to_nat str_take str_drop String.length Nat.eqb negb].
      now destruct rest.
Qed.

Lemma receive_request_incomplete_witness :
  fst (receive_request LittleEndian (Socket 0 "" "abc"))
  = Thrown (runtime_error "recv() request length failed!")
  /\ fst (receive_request LittleEndian
            (Socket 0 "" (String zero (String zero (String zero (String (ascii_of_nat 9) "1|2|3"))))))
     = Thrown (runtime_error "recv() request body failed!")
  /\ receive_request LittleEndian
       (Socket 0 "" (String zero (String zero (String zero (String zero "more")))))
     = (Returned (Request.make QUIT), Socket 0 "" "more").
Proof.
  split; [| split].
  - apply (proj1 (receive_request_incomplete LittleEndian (Socket 0 "" "abc"))).
    cbn. lia.
  - refine (proj1 (proj2 (receive_request_incomplete LittleEndian _) 9 "1|2|3"%string
                     _ _) _); [lia | reflexivity | cbn; lia].
  - refine (proj2 (proj2 (receive_request_incomplete LittleEndian _) 0 "more"%string
                     _ _) _); [lia | reflexivity | reflexivity].
Defined.

(** X5.  What the request parser does with a delimiter in the payload:
    the payload is cut at its first delimiter, without any error.  The
    text written for a request whose payload is [kept], a delimiter and
    anything more decodes exactly as the text written for the same
    request with payload [kept]. *)
Theorem payload_cut_at_delimiter (r : Request) (kept more : string) :
  no_delimiter (Request.filename r) = true ->
  no_delimiter kept = true ->
  Request.data r = (kept ++ String delimiter more)%string ->
  Request.parseRequest (Request.wire_body r)
  = Request.parseRequest
      (Request.wire_body
         (Request.Build (Request.type r) (Request.user_id r) (Request.amount r)
                        (Request.filename r) kept)).
Proof.
  intros Hname Hkept Hdata.
  assert (Forall (fun f => no_delimiter f = true)
            [format_int (Request.user_id r); format_double (Request.amount r);
             Request.filename r; kept]) as Hfields
    by (repeat constructor; auto using no_delimiter_format_int, no_delimiter_format_double).
  unfold Request.parseRequest.
  rewrite !wire_body_join. cbn [Request.type Request.user_id Request.amount
                                 Request.filename Request.data].
  rewrite (split_join _ _ (no_delimiter_format_int _) Hfields).
  rewrite Hdata.
  change (join (format_int (RequestType_to_int (Request.type r)))
            [format_int (Request.user_id r); format_double (Request.amount r);
             Request.filename r; (kept ++ String delimiter more)%string])
    with (format_int (RequestType_to_int (Request.type r)) ++ String delimiter
            (format_int (Request.user_id r) ++ String delimiter
               (format_double (Request.amount r) ++ String delimiter
                  (Request.filename r ++ String delimiter
                     (kept ++ String delimiter more)))))%string.
  rewrite !split_cons
    by auto using no_delimiter_format_int, no_delimiter_format_double.
  reflexivity.
Qed.

Lemma payload_cut_at_delimiter_witness :
  let r := Request.Build UPLOAD_FILE 7 double_zero "notes.txt" "first|second" in
  Request.wire_body r = "4|7|0|notes.txt|first|second"%string
  /\ Request.parseRequest (Request.wire_body r)
     = Returned (Request.Build UPLOAD_FILE 7 double_zero "notes.txt" "first").
Proof.
  cbv zeta. split; [vm_compute; reflexivity |].
  etransitivity;
    [apply (payload_cut_at_delimiter _ "first" "second")%string; reflexivity |].
  vm_compute. reflexivity.
Defined.

End ChannelFacts.

(* ===================================================================== *)
(** * The worker pool at any moment                                        *)
(* ===================================================================== *)

Section PoolInvariants.
Context {Task : Type}.
Implicit Types (p : ThreadPool.t Task) (w : ThreadPool.worker Task).

Import ThreadPool.

Lemma busy_count_le_length (ws : list (worker Task)) :
  busy_count ws <= Z.of_nat (length ws).
Proof.
  induction ws as [| w ws IH]; cbn [busy_count foldr length]; [lia |].
  fold (busy_count ws). destruct w; cbn [busy]; lia.
Qed.

Lemma pool_sound_new (n : nat) : pool_sound n (@new Task n).
Proof.
  unfold pool_sound. rewrite outstanding_new. cbn [new workers stop submitted].
  split; [apply length_replicate |]. split; [| reflexivity].
  intros _. apply Forall_replicate. reflexivity.
Qed.

Lemma work_not_exited (i : nat) p p' :
  work i p = Some p' ->
  stop p = false ->
  Forall (fun w => is_exited w = false) (workers p) ->
  Forall (fun w => is_exited w = false) (workers p').
Proof.
  intros Hstep Hstop Hws. destruct p as [ws q st act d sub done].
  unfold work in Hstep. cbn [workers tasks stop activeTasks dtor submitted completed] in *.
  subst st.
  destruct (ws !! i) as [w |]; [| discriminate].
  destruct w; repeat case_match; simplify_eq; cbn [workers];
    apply Forall_insert; auto.
Qed.

Lemma step_pool_sound (n : nat) (a : action Task) p p' :
  step a p = Some p' -> pool_sound n p -> pool_sound n p'.
Proof.
  intros Hstep (Hlen & Hexit & Hout). destruct a as [task | i |]; cbn [step] in Hstep.
  - pose proof (enqueue_outstanding task p p' Hstep) as Hperm.
    unfold enqueue in Hstep. destruct (dtor p); simplify_eq.
    unfold pool_sound. cbn [workers stop submitted]. repeat split; auto.
    rewrite Hperm, Hout. reflexivity.
  - destruct (work_fields i p p' Hstep) as (_ & Hs & Hsub & Hl & _).
    unfold pool_sound. rewrite Hl, Hs, Hsub. repeat split; auto.
    + intros Hstop. eapply work_not_exited; eauto.
    + rewrite <- Hout. eapply work_outstanding; eauto.
  - pose proof (destroy_outstanding p p' Hstep) as Hsame.
    unfold pool_sound. rewrite Hsame.
    destruct p as [ws q st act d sub done]. unfold destroy in Hstep.
    cbn [workers tasks stop activeTasks dtor submitted completed] in *.
    destruct d; repeat case_match; simplify_eq; cbn [workers stop submitted];
      repeat split; auto; discriminate.
Qed.

Lemma exec_pool_sound (n : nat) (acts : list (action Task)) :
  forall p p', exec p acts = Some p' -> pool_sound n p -> pool_sound n p'.
Proof.
  induction acts as [| a acts IH]; cbn [exec]; intros p p' Hrun Hp; [now simplify_eq |].
  destruct (step a p) as [p1 |] eqn:Hstep; [| discriminate].
  eauto using step_pool_sound.
Qed.

(** X6.  At every moment of every run of a pool of [numThreads] workers:
    the counter [activeTasks] is the number of workers between
    [++activeTasks] and [--activeTasks], so it lies between 0 and
    [numThreads]; no worker has left its loop while [stop] is clear; and
    the tasks queued, held by a worker or completed are the tasks
    submitted, each once. *)
Theorem pool_keeps_count (numThreads : nat) (acts : list (action Task)) p :
  exec (new numThreads) acts = Some p ->
  length (workers p) = numThreads
  /\ activeTasks p = busy_count (workers p)
  /\ 0 <= activeTasks p <= Z.of_nat numThreads
  /\ (stop p = false -> Forall (fun w => is_exited w = false) (workers p))
  /\ completed p ++ in_flight p ++ tasks p ≡ₚ submitted p.
Proof.
  intros Hrun.
  destruct (exec_pool_sound numThreads acts _ _ Hrun (pool_sound_new numThreads))
    as (Hlen & Hexit & Hout).
  assert (activeTasks p = busy_count (workers p)) as Hact.
  { eapply exec_busy_count; eauto. cbn [new workers activeTasks].
    symmetry. apply busy_count_new. }
  repeat split; auto.
  - rewrite Hact. apply busy_count_nonneg.
  - rewrite Hact, <- Hlen. apply busy_count_le_length.
Qed.

Lemma step_in_order (a : action Task) p p' :
  step a p = Some p' -> in_order p -> in_order p'.
Proof.
  intros Hstep (w & Hws & Hord). destruct p as [ws q st act d sub done].
  cbn [workers tasks completed submitted] in *. subst ws sub.
  destruct a as [task | i |]; cbn [step] in Hstep.
  - unfold enqueue in Hstep. cbn [dtor] in Hstep. destruct d; simplify_eq.
    exists w. cbn [workers tasks completed submitted]. split; [reflexivity |].
    now rewrite <- !app_assoc.
  - unfold work in Hstep. cbn [workers tasks stop activeTasks dtor submitted completed] in Hstep.
    destruct i as [| i]; [| discriminate]. cbn [lookup list_lookup] in Hstep.
    destruct w; repeat case_match; simplify_eq;
      eexists; cbn [workers tasks completed submitted insert list_insert];
      (split; [reflexivity |]); cbn [held app]; now rewrite <- ?app_assoc.
  - unfold destroy in Hstep. cbn [workers tasks stop activeTasks dtor submitted completed] in Hstep.
    destruct d; repeat case_match; simplify_eq; exists w; now split.
Qed.

Lemma exec_in_order (acts : list (action Task)) :
  forall p p', exec p acts = Some p' -> in_order p -> in_order p'.
Proof.
  induction acts as [| a acts IH]; cbn [exec]; intros p p' Hrun Hp; [now simplify_eq |].
  destruct (step a p) as [p1 |] eqn:Hstep; [| discriminate].
  eauto using step_in_order.
Qed.

(** X7.  A pool with one worker is a queue: at every moment of every run
    the completed tasks, the task the worker holds and the queued tasks,
    in this order, are the submitted tasks in the order of submission;
    when the destructor has returned, the tasks have been completed in
    the order in which they were enqueued. *)
Theorem single_worker_runs_in_order (acts : list (action Task)) p :
  exec (new 1) acts = Some p ->
  completed p ++ in_flight p ++ tasks p = submitted p
  /\ (dtor p = Destroyed -> completed p = submitted p).
Proof.
  intros Hrun.
  assert (in_order p) as (w & Hws & Hord).
  { eapply exec_in_order; eauto. exists Idle. now split. }
  assert (in_flight p = held w) as Hflight.
  { unfold in_flight. rewrite Hws. cbn [map concat]. apply app_nil_r. }
  split; [now rewrite Hflight |].
  intros Hd.
  assert (joined p) as Hj by (eapply exec_joined; eauto; exact I).
  destruct (destroyed_outstanding p Hd Hj) as (Hq & Hfl & _).
  rewrite Hflight in Hfl. rewrite Hfl, Hq, app_nil_r in Hord. exact Hord.
Qed.

Lemma step_stuck (a : action Task) p p' : step a p = Some p' -> stuck p -> stuck p'.
Proof.
  intros Hstep (Hws & Hdone & Hq & Hd). destruct p as [ws q st act d sub done].
  cbn [workers tasks completed submitted dtor] in *. subst ws done sub.
  destruct a as [task | i |]; cbn [step] in Hstep.
  - unfold enqueue in Hstep. cbn [dtor] in Hstep. destruct d; simplify_eq.
    now repeat split.
  - unfold work in Hstep. cbn [workers] in Hstep. now rewrite lookup_nil in Hstep.
  - unfold destroy in Hstep. cbn [workers tasks stop activeTasks dtor submitted completed] in Hstep.
    destruct d; repeat case_match; simplify_eq; now repeat split.
Qed.

Lemma exec_stuck (acts : list (action Task)) :
  forall p p', exec p acts = Some p' -> stuck p -> stuck p'.
Proof.
  induction acts as [| a acts IH]; cbn [exec]; intros p p' Hrun Hp; [now simplify_eq |].
  destruct (step a p) as [p1 |] eqn:Hstep; [| discriminate].
  eauto using step_stuck.
Qed.

(** X8.  A pool constructed with no thread runs nothing: at every moment
    of every run no task has completed and every submitted task is still
    queued; its destructor returns only when no task was ever enqueued,
    and otherwise stays in its wait for ever. *)
Theorem pool_without_workers_never_drains (acts : list (action Task)) p :
  exec (new 0) acts = Some p ->
  completed p = [] /\ tasks p = submitted p
  /\ (submitted p <> [] -> dtor p = NotCalled \/ dtor p = Draining).
Proof.
  intros Hrun.
  assert (stuck p) as (_ & Hdone & Hq & Hd).
  { eapply exec_stuck; eauto. now repeat split. }
  repeat split; auto. intros Hsub.
  destruct (dtor p); auto; congruence.
Qed.

(** A scoped pool without workers that has been given a job never gets
    through its destructor. *)
Lemma run_scope_stuck (sched : list tick) :
  forall (jobs : list Task) p,
    workers p = [] ->
    (dtor p = NotCalled \/ dtor p = Draining) ->
    jobs <> [] \/ tasks p <> [] ->
    run_scope jobs p sched = None.
Proof.
  induction sched as [| [| i] sched IH]; intros jobs p Hws Hd Hjobs; cbn [run_scope].
  - destruct jobs; [| reflexivity]. destruct Hd as [-> | ->]; reflexivity.
  - destruct jobs as [| job jobs].
    + destruct Hjobs as [| Hq]; [congruence |].
      destruct p as [ws q st act d sub done]. unfold destroy.
      cbn [workers tasks stop activeTasks dtor submitted completed] in *.
      destruct Hd as [-> | ->].
      * apply IH; cbn [workers dtor tasks]; auto.
      * destruct q; [congruence | reflexivity].
    + destruct p as [ws q st act d sub done]. unfold enqueue.
      cbn [workers tasks stop activeTasks dtor submitted completed] in *.
      destruct Hd as [-> | ->]; [| reflexivity].
      apply IH; cbn [workers dtor tasks]; auto.
      right. now destruct q.
  - unfold work. now rewrite Hws, lookup_nil.
Qed.

End PoolInvariants.

Section PoolExamples.

Import ThreadPool.

Lemma pool_keeps_count_witness :
  let acts : list (action nat) :=
    [Enqueue 10%nat; Enqueue 11%nat; Work 0; Work 1; Work 0; Work 1; Work 1] in
  let p := Build [Running 10%nat; Finished 11%nat] [] false 2 NotCalled
                 [10%nat; 11%nat] [11%nat] in
  exec (new 2) acts = Some p
  /\ activeTasks p = busy_count (workers p) /\ 0 <= activeTasks p <= 2.
Proof.
  cbv zeta.
  assert (exec (new 2)
            [Enqueue 10%nat; Enqueue 11%nat; Work 0; Work 1; Work 0; Work 1; Work 1]
          = Some (Build [Running 10%nat; Finished 11%nat] [] false 2 NotCalled
                        [10%nat; 11%nat] [11%nat])) as Hrun
    by (vm_compute; reflexivity).
  split; [exact Hrun |].
  destruct (pool_keeps_count 2 _ _ Hrun) as (_ & Hact & Hrange & _).
  split; [exact Hact | exact Hrange].
Defined.

Lemma single_worker_runs_in_order_witness :
  let acts : list (action nat) :=
    [Enqueue 3%nat; Enqueue 1%nat; Work 0; Work 0; Enqueue 2%nat; Work 0; Work 0;
     Work 0; Work 0; Work 0; Work 0; Work 0; Work 0; Work 0; Work 0;
     Destroy; Destroy; Work 0; Destroy; Destroy] in
  let p := Build [Exited] [] true 0 Destroyed [3%nat; 1%nat; 2%nat] [3%nat; 1%nat; 2%nat] in
  exec (new 1) acts = Some p /\ completed p = submitted p.
Proof.
  cbv zeta.
  assert (exec (new 1)
            [Enqueue 3%nat; Enqueue 1%nat; Work 0; Work 0; Enqueue 2%nat; Work 0; Work 0;
             Work 0; Work 0; Work 0; Work 0; Work 0; Work 0; Work 0; Work 0;
             Destroy; Destroy; Work 0; Destroy; Destroy]
          = Some (Build [Exited] [] true 0 Destroyed
                        [3%nat; 1%nat; 2%nat] [3%nat; 1%nat; 2%nat])) as Hrun
    by (vm_compute; reflexivity).
  split; [exact Hrun |].
  exact (proj2 (single_worker_runs_in_order _ _ Hrun) eq_refl).
Defined.

Lemma pool_without_workers_never_drains_witness :
  let p := Build (Task := nat) [] [5%nat] false 0 Draining [5%nat] [] in
  exec (new 0) [Enqueue 5%nat; Destroy] = Some p
  /\ exec (@new nat 0) [Enqueue 5%nat; Destroy; Destroy] = None
  /\ (dtor p = NotCalled \/ dtor p = Draining).
Proof.
  cbv zeta.
  assert (exec (new 0) [Enqueue 5%nat; Destroy]
          = Some (Build (Task := nat) [] [5%nat] false 0 Draining [5%nat] [])) as Hrun
    by (vm_compute; reflexivity).
  split; [exact Hrun |]. split; [vm_compute; reflexivity |].
  apply (proj2 (proj2 (pool_without_workers_never_drains _ _ Hrun))).
  discriminate.
Defined.

End PoolExamples.

(* ===================================================================== *)
(** * The finance server over a whole session                              *)
(* ===================================================================== *)

Section LedgerInvariants.
Variables (max_accounts thread_count : Z).

Lemma applyInterest_slot (i : nat) (acc : Account) :
  slot_ok i acc -> slot_ok i (applyInterest acc).
Proof.
  unfold slot_ok, applyInterest. destruct acc as [aid bal [|]]; cbn; [| auto].
  now destruct (double_gt bal double_zero).
Qed.

Lemma table_ok_insert (accounts : list Account) (i : nat) (acc : Account) :
  table_ok accounts -> slot_ok i acc -> table_ok (<[i := acc]> accounts).
Proof.
  intros Htable Hacc j slot Hj.
  destruct (decide (j = i)) as [-> | Hne].
  - apply list_lookup_insert_Some in Hj as [(_ & <- & _) | (Hne & _)]; [exact Hacc | congruence].
  - rewrite list_lookup_insert_ne in Hj by congruence. now apply Htable.
Qed.

Lemma table_ok_accrual (order : list nat) :
  forall accounts : list Account,
    table_ok accounts ->
    table_ok (foldl (fun accs id => alter applyInterest id accs) accounts order).
Proof.
  induction order as [| id order IH]; intros accounts Htable; cbn [foldl]; [exact Htable |].
  apply IH. intros j slot Hj.
  destruct (decide (j = id)) as [-> | Hne].
  - rewrite list_lookup_alter_eq in Hj.
    destruct (accounts !! id) as [slot0 |] eqn:Hslot0; [| discriminate].
    injection Hj as <-. apply applyInterest_slot. now apply Htable.
  - rewrite list_lookup_alter_ne in Hj by congruence. now apply Htable.
Qed.

(** The slot of the subject after the lazy creation. *)
Lemma created_slot_ok (accounts : list Account) (uid : Z) (slot : Account) :
  table_ok accounts -> 0 <= uid ->
  accounts !! Z.to_nat uid = Some slot ->
  slot_ok (Z.to_nat uid)
          (if negb (Account.active slot) then Account.initialize uid slot else slot).
Proof.
  intros Htable Huid Hslot. pose proof (Htable _ _ Hslot) as Hok.
  unfold slot_ok in *. destruct (Account.active slot) eqn:Hactive; cbn [negb].
  - now rewrite Hactive.
  - cbn. lia.
Qed.

(** One request keeps the table well formed and of the same size. *)
Lemma handle_request_table (accounts : list Account) (env : environment) (r : Request)
    (resp : Response) (accounts' : list Account) (running : bool) :
  table_ok accounts ->
  handle_request accounts max_accounts thread_count env r = Replied resp accounts' running ->
  length accounts' = length accounts /\ table_ok accounts'.
Proof.
  intros Htable. unfold handle_request.
  destruct ((Request.user_id r <? 0) || (Request.user_id r >=? max_accounts)) eqn:Hguard.
  { destruct (Request.type r); intros Hrun; simplify_eq; auto. }
  apply orb_false_elim in Hguard as [Hlo _]. apply Z.ltb_ge in Hlo.
  destruct (accounts !! Z.to_nat (Request.user_id r)) as [slot |] eqn:Hslot.
  2: { destruct (Request.type r); intros Hrun; simplify_eq; auto. }
  pose proof (created_slot_ok accounts _ slot Htable Hlo Hslot) as Hcreated.
  set (acc := if negb (Account.active slot)
              then Account.initialize (Request.user_id r) slot else slot) in *.
  assert (table_ok (<[Z.to_nat (Request.user_id r) := acc]> accounts)) as Htable1
    by now apply table_ok_insert.
  assert (forall bal : double,
             slot_ok (Z.to_nat (Request.user_id r))
                     (Account.Build (Account.id acc) bal (Account.active acc))) as Hbal.
  { intros bal.
    assert (Account.active acc = true) as Hactive
      by (subst acc; now destruct (Account.active slot) eqn:Hs).
    unfold slot_ok in *. cbn [Account.active Account.id].
    now rewrite Hactive in *. }
  destruct (Request.type r); intros Hrun; simplify_eq;
    rewrite ?length_insert; auto using table_ok_insert.
  - destruct (double_ge _ _); simplify_eq;
      rewrite ?length_insert; auto using table_ok_insert.
  - unfold earn_interest in Hrun. repeat case_match; simplify_eq;
      rewrite ?accrual_length, ?length_insert; auto using table_ok_accrual.
Qed.

(** X9.  From a well-formed table (every slot as constructed, or active
    and carrying its own index as identifier; in particular the table the
    server allocates), whatever a client sends and whatever the schedules
    of the interest pools: after any number of turns of a session that
    has not got stuck, the table has its size and is well formed. *)
Theorem table_stays_well_formed (turns : list turn) :
  forall (accounts : list Account) (sent : list Response) (accounts' : list Account),
    table_ok accounts ->
    session_table (handle_client accounts max_accounts thread_count turns sent)
    = Some accounts' ->
    length accounts' = length accounts /\ table_ok accounts'.
Proof.
  induction turns as [| tn turns IH]; intros accounts sent accounts' Htable;
    cbn [handle_client].
  - cbn. intros; simplify_eq. auto.
  - destruct (shutdown_seen tn); [cbn; intros; simplify_eq; auto |].
    destruct (receive_request (received tn)) as [r | e]; [| cbn; intros; simplify_eq; auto].
    destruct (handle_request _ _ _ _ r) as [resp accounts1 running | |] eqn:Hrun;
      try discriminate.
    destruct (handle_request_table _ _ _ _ _ _ Htable Hrun) as [Hlen1 Htable1].
    destruct running.
    + intros Hsession. destruct (IH _ _ _ Htable1 Hsession) as [Hlen2 Htable2].
      split; [congruence | exact Htable2].
    + cbn. intros; simplify_eq. auto.
Qed.

(** X10.  A request other than [EARN_INTEREST] touches no account but the
    one it names: every other slot of the table is as before. *)
Theorem other_accounts_untouched (accounts : list Account) (env : environment)
    (r : Request) (resp : Response) (accounts' : list Account) (running : bool)
    (j : nat) :
  handle_request accounts max_accounts thread_count env r = Replied resp accounts' running ->
  Request.type r <> EARN_INTEREST ->
  j <> Z.to_nat (Request.user_id r) ->
  accounts' !! j = accounts !! j.
Proof.
  unfold handle_request. intros Hrun Hty Hj.
  destruct (Request.type r); try congruence;
    repeat case_match; simplify_eq;
    rewrite ?list_lookup_insert_ne by congruence; reflexivity.
Qed.

(** X11.  Reading after writing.  After a deposit or a withdrawal that
    was answered [ok=true], a [BALANCE] request for the same account is
    answered [ok=true] with the balance of that answer, and leaves the
    table as it is. *)
Theorem balance_reports_last_reply (accounts : list Account) (env env' : environment)
    (r : Request) (resp : Response) (accounts' : list Account) (running : bool) :
  Request.type r = DEPOSIT \/ Request.type r = WITHDRAW ->
  handle_request accounts max_accounts thread_count env r = Replied resp accounts' running ->
  Response.success resp = true ->
  handle_request accounts' max_accounts thread_count env'
                 (Request.make2 BALANCE (Request.user_id r))
  = Replied (Response.Build true (Response.balance resp) "" "View balance successful")
            accounts' true.
Proof.
  intros Hty Hrun Hok. unfold handle_request in *.
  cbn [Request.make2 Request.type Request.user_id].
  destruct ((Request.user_id r <? 0) || (Request.user_id r >=? max_accounts)) eqn:Hguard.
  { destruct Hty as [Hty | Hty]; rewrite Hty in Hrun; simplify_eq; discriminate. }
  destruct (accounts !! Z.to_nat (Request.user_id r)) as [slot |] eqn:Hslot.
  2: { destruct Hty as [Hty | Hty]; rewrite Hty in Hrun; discriminate. }
  pose proof (lookup_lt_Some _ _ _ Hslot) as Hlt.
  set (acc := if negb (Account.active slot)
              then Account.initialize (Request.user_id r) slot else slot) in *.
  assert (Account.active acc = true) as Hactive.
  { subst acc. now destruct (Account.active slot) eqn:Hs. }
  destruct Hty as [Hty | Hty]; rewrite Hty in Hrun.
  - simplify_eq. rewrite list_lookup_insert_eq by (rewrite length_insert; lia).
    cbn [Account.active negb]. rewrite Hactive. cbn [negb].
    now rewrite list_insert_id
      by (rewrite list_lookup_insert_eq by (rewrite length_insert; lia); reflexivity).
  - destruct (double_ge _ _); simplify_eq; try discriminate.
    rewrite list_lookup_insert_eq by (rewrite length_insert; lia).
    cbn [Account.active negb]. rewrite Hactive. cbn [negb].
    now rewrite list_insert_id
      by (rewrite list_lookup_insert_eq by (rewrite length_insert; lia); reflexivity).
Qed.

(** X12.  An [EARN_INTEREST] request that asks for a pool of no thread
    (an amount above zero that truncates to 0, or no amount with a server
    configured for 0 threads) never gets an answer when it names a slot
    of the table: on every schedule the handler stays in the destructor
    of the pool, which waits for tasks that no worker takes. *)
Theorem earn_interest_without_workers (accounts : list Account) (env : environment)
    (r : Request) (slot : Account) :
  Request.type r = EARN_INTEREST ->
  0 <= Request.user_id r < max_accounts ->
  accounts !! Z.to_nat (Request.user_id r) = Some slot ->
  (if double_gt (Request.amount r) double_zero
   then double_to_int (Request.amount r) else Some thread_count) = Some 0 ->
  handle_request accounts max_accounts thread_count env r = Blocked.
Proof.
  intros Hty Hid Hslot Hthreads. unfold handle_request.
  rewrite Hty, (handle_request_valid max_accounts accounts r Hid), Hslot.
  unfold earn_interest. rewrite Hthreads.
  change (to_size_t 0) with 0%nat. cbn [Nat.ltb Nat.leb].
  rewrite run_scope_stuck; [reflexivity | reflexivity | now left |].
  left. destruct (Z.to_nat max_accounts) eqn:Hmax; [lia | discriminate].
Qed.

(** X14.  A body that [parseRequest] does not accept is not answered with
    an error.  A body of fewer than five fields is taken as [QUIT]: the
    server acknowledges a disconnect and leaves the loop.  A body on
    which a conversion throws ends the loop without any response.  In
    both cases the table is untouched and what the client sends next is
    not read. *)
Theorem malformed_body_ends_session (accounts : list Account) (tn : turn)
    (turns : list turn) (sent : list Response) (body : string) :
  shutdown_seen tn = false ->
  received tn = Returned body ->
  ((length (Request.split body) < 5)%nat ->
   handle_client accounts max_accounts thread_count (tn :: turns) sent
   = Disconnected
       (sent ++ [Response.Build true double_zero "" "Server acknowledged disconnect"])
       accounts)
  /\ (forall e : exception,
        Request.parseRequest body = Thrown e ->
        handle_client accounts max_accounts thread_count (tn :: turns) sent
        = Disconnected sent accounts).
Proof.
  intros Hshut Hrecv. cbn [handle_client]. rewrite Hshut, Hrecv.
  unfold receive_request. cbn [mbind thrown_bind]. split.
  - intros Hshort. unfold Request.parseRequest.
    apply Nat.ltb_lt in Hshort. rewrite Hshort. reflexivity.
  - intros e He. now rewrite He.
Qed.

End LedgerInvariants.

Lemma table_stays_well_formed_witness :
  let turns :=
    [Build_turn false (Returned "1|1|50||"%string) (Build_environment 0 "" []);
     Build_turn false (Returned "2|0|5||"%string) (Build_environment 0 "" [])] in
  let accounts' := [Account.Build 0 double_zero true; Account.Build 1 (double_of_Z 50) true] in
  session_table (handle_client [Account.default; Account.default] 2 4 turns [])
  = Some accounts'
  /\ length accounts' = 2%nat /\ table_ok accounts'.
Proof.
  cbv zeta.
  assert (session_table
            (handle_client [Account.default; Account.default] 2 4
               [Build_turn false (Returned "1|1|50||"%string) (Build_environment 0 "" []);
                Build_turn false (Returned "2|0|5||"%string) (Build_environment 0 "" [])] [])
          = Some [Account.Build 0 double_zero true; Account.Build 1 (double_of_Z 50) true])
    as Hrun by (vm_compute; reflexivity).
  split; [exact Hrun |].
  refine (table_stays_well_formed 2 4 _ _ _ _ _ Hrun).
  intros [| [| i]] acc Hacc; cbn in Hacc; simplify_eq; reflexivity.
Defined.

Lemma other_accounts_untouched_witness :
  let accounts := [Account.Build 0 (double_of_Z 9) true; Account.default] in
  let accounts' := [Account.Build 0 (double_of_Z 9) true;
                    Account.Build 1 (double_of_Z 50) true] in
  handle_request accounts 2 4 (Build_environment 0 "" [])
                 (Request.Build DEPOSIT 1 (double_of_Z 50) "" "")
  = Replied (Response.Build true (double_of_Z 50) "" "Deposit successful") accounts' true
  /\ accounts' !! 0%nat = accounts !! 0%nat.
Proof.
  cbv zeta.
  assert (handle_request [Account.Build 0 (double_of_Z 9) true; Account.default] 2 4
            (Build_environment 0 "" []) (Request.Build DEPOSIT 1 (double_of_Z 50) "" "")
          = Replied (Response.Build true (double_of_Z 50) "" "Deposit successful")
                    [Account.Build 0 (double_of_Z 9) true;
                     Account.Build 1 (double_of_Z 50) true] true) as Hrun
    by (vm_compute; reflexivity).
  split; [exact Hrun |].
  apply (other_accounts_untouched 2 4 _ _ _ _ _ _ 0%nat Hrun); [discriminate |].
  cbn. lia.
Defined.

Lemma balance_reports_last_reply_witness :
  let accounts' := [Account.default; Account.Build 1 (double_of_Z 50) true] in
  handle_request [Account.default; Account.default] 2 4 (Build_environment 0 "" [])
                 (Request.Build DEPOSIT 1 (double_of_Z 50) "" "")
  = Replied (Response.Build true (double_of_Z 50) "" "Deposit successful") accounts' true
  /\ handle_request accounts' 2 4 (Build_environment 0 "" []) (Request.make2 BALANCE 1)
     = Replied (Response.Build true (double_of_Z 50) "" "View balance successful")
               accounts' true.
Proof.
  cbv zeta.
  assert (handle_request [Account.default; Account.default] 2 4 (Build_environment 0 "" [])
            (Request.Build DEPOSIT 1 (double_of_Z 50) "" "")
          = Replied (Response.Build true (double_of_Z 50) "" "Deposit successful")
                    [Account.default; Account.Build 1 (double_of_Z 50) true] true) as Hrun
    by (vm_compute; reflexivity).
  split; [exact Hrun |].
  refine (balance_reports_last_reply 2 4 _ _ (Build_environment 0 "" []) _ _ _ _
            _ Hrun eq_refl).
  left. reflexivity.
Defined.

Lemma earn_interest_without_workers_witness :
  double_to_int (S754_finite false 4503599627370496 (-53)) = Some 0
  /\ handle_request [Account.default; Account.default] 2 4
       (Build_environment 8 "" (sequential_schedule 0 2))
       (Request.Build EARN_INTEREST 1 (S754_finite false 4503599627370496 (-53)) "" "")
     = Blocked.
Proof.
  split; [vm_compute; reflexivity |].
  apply (earn_interest_without_workers 2 4 _ _ _ Account.default);
    [reflexivity | cbn; lia | reflexivity | vm_compute; reflexivity].
Defined.

Lemma malformed_body_ends_session_witness :
  let later := Build_turn false (Returned "1|0|50||"%string) (Build_environment 0 "" []) in
  handle_client [Account.default] 1 4
    [Build_turn false (Returned "1|0"%string) (Build_environment 0 "" []); later] []
  = Disconnected [Response.Build true double_zero "" "Server acknowledged disconnect"]
                 [Account.default]
  /\ handle_client [Account.default] 1 4
       [Build_turn false (Returned "x|0|50||"%string) (Build_environment 0 "" []); later] []
     = Disconnected [] [Account.default].
Proof.
  cbv zeta. split.
  - apply (proj1 (malformed_body_ends_session 1 4 [Account.default]
                    (Build_turn false (Returned "1|0"%string) (Build_environment 0 "" []))
                    _ [] "1|0"%string eq_refl eq_refl)).
    vm_compute. lia.
  - apply (proj2 (malformed_body_ends_session 1 4 [Account.default]
                    (Build_turn false (Returned "x|0|50||"%string) (Build_environment 0 "" []))
                    _ [] "x|0|50||"%string eq_refl eq_refl) (invalid_argument "stoi")).
    vm_compute. reflexivity.
Defined.

(* ===================================================================== *)
(** * The file server                                                      *)
(* ===================================================================== *)

Section FileFacts.

Import FileServer.

Lemma find_last_of_none (s : string) : no_dot s = true -> find_last_of "." s = None.
Proof.
  induction s as [| c s IH]; cbn [no_dot find_last_of]; [reflexivity |].
  intros [Hc Hs]%andb_prop. apply negb_true_iff in Hc. now rewrite (IH Hs), Hc.
Qed.

(** The last dot of a name that ends in a dot and a text without dot. *)
Lemma find_last_of_app (stem ext : string) :
  no_dot ext = true ->
  find_last_of "." (stem ++ String "." ext) = Some (String.length stem).
Proof.
  intros Hext. induction stem as [| c stem IH]; cbn [append find_last_of String.length].
  - now rewrite find_last_of_none.
  - now rewrite IH.
Qed.

Lemma is_allowed_elem_of (ext : string) (allowed_extensions : list string) :
  is_allowed ext allowed_extensions = true <-> ext ∈ allowed_extensions.
Proof.
  induction allowed_extensions as [| a rest IH]; cbn [is_allowed].
  - split; [discriminate | intros Hin; now apply elem_of_nil in Hin].
  - rewrite elem_of_cons, <- IH.
    destruct (String.eqb_spec ext a) as [-> | Hne]; [tauto |].
    split; [tauto | intros [? | ?]; [contradiction | assumption]].
Qed.

Context {D : Type} `{Disk D}.

(** X15.  Uploads under a list of allowed extensions.  The extension of a
    name is the text from its last dot on, the dot included.  A name
    without dot is refused; a name whose extension is not literally in
    the list is refused; both leave the disk as it is.  A name whose
    extension is in the list is served exactly as by a server that
    allows every extension. *)
Theorem upload_checks_last_extension (allowed_extensions : list string) (r : Request)
    (d : D) :
  Request.type r = UPLOAD_FILE ->
  allowed_extensions <> [] ->
  (no_dot (Request.filename r) = true ->
   handle_request allowed_extensions r d
   = (Response.Build false double_zero "" "File has no extension", d, true))
  /\ (forall stem ext : string,
        Request.filename r = (stem ++ String "." ext)%string ->
        no_dot ext = true ->
        (String "." ext ∈ allowed_extensions ->
         handle_request allowed_extensions r d = handle_request [] r d)
        /\ (String "." ext ∉ allowed_extensions ->
            handle_request allowed_extensions r d
            = (Response.Build false double_zero "" "File extension not allowed", d, true))).
Proof.
  intros Hty Hlist. unfold handle_request. rewrite Hty.
  destruct allowed_extensions as [| a rest]; [congruence |].
  split.
  - intros Hname. unfold check_extension. now rewrite find_last_of_none.
  - intros stem ext Hname Hext. unfold check_extension.
    rewrite Hname, find_last_of_app, str_drop_length_app by exact Hext.
    split.
    + intros Hin. apply is_allowed_elem_of in Hin. now rewrite Hin.
    + intros Hout.
      destruct (is_allowed (String "." ext) (a :: rest)) eqn:Hallowed; [| reflexivity].
      apply is_allowed_elem_of in Hallowed. contradiction.
Qed.

(** X16.  On a disk that gives back under a path what was last written
    under it: after an upload that was answered [ok=true], a download
    of the same name is answered [ok=true] with the uploaded data,
    whoever asks and whatever the list of allowed extensions; the
    download leaves the disk as it is. *)
Theorem upload_then_download (allowed_extensions : list string) (up down : Request)
    (d d' : D) (resp : Response) (running : bool) :
  (forall (path content : string) (d0 d1 : D),
      ofstream_write path content d0 = (true, d1) ->
      ifstream_read path d1 = Some content) ->
  Request.type up = UPLOAD_FILE ->
  Request.type down = DOWNLOAD_FILE ->
  Request.filename down = Request.filename up ->
  handle_request allowed_extensions up d = (resp, d', running) ->
  Response.success resp = true ->
  handle_request allowed_extensions down d'
  = (Response.Build true double_zero (Request.data up) "File downloaded successfully",
     d', true).
Proof.
  intros Hdisk Hup Hdown Hname Hrun Hok. unfold handle_request in *.
  rewrite Hup in Hrun. rewrite Hdown, Hname.
  destruct (check_extension allowed_extensions (Request.filename up));
    [simplify_eq; try discriminate |].
  destruct (ofstream_write _ _ d) as [[|] d1] eqn:Hwrite; simplify_eq; try discriminate.
  now rewrite (Hdisk _ _ _ _ Hwrite).
Qed.

End FileFacts.

Lemma upload_checks_last_extension_witness :
  let allowed := [".txt"; ".pdf"]%string in
  FileServer.handle_request allowed
    (Request.Build UPLOAD_FILE 1 double_zero "README" "x") ([] : shelf)
  = (Response.Build false double_zero "" "File has no extension", [], true)
  /\ FileServer.handle_request allowed
       (Request.Build UPLOAD_FILE 1 double_zero "notes.txt.exe" "x") ([] : shelf)
     = (Response.Build false double_zero "" "File extension not allowed", [], true)
  /\ FileServer.handle_request allowed
       (Request.Build UPLOAD_FILE 1 double_zero "a.b.txt" "x") ([] : shelf)
     = (Response.Build true double_zero "" "File uploaded successfully",
        [("storage/a.b.txt", "x")]%string, true).
Proof.
  cbv zeta. split; [| split].
  - apply (proj1 (upload_checks_last_extension [".txt"; ".pdf"]%string
                    (Request.Build UPLOAD_FILE 1 double_zero "README" "x") ([] : shelf)
                    eq_refl ltac:(discriminate))).
    reflexivity.
  - apply (proj2 (proj2 (upload_checks_last_extension [".txt"; ".pdf"]%string
                           (Request.Build UPLOAD_FILE 1 double_zero "notes.txt.exe" "x")
                           ([] : shelf) eq_refl ltac:(discriminate))
                        "notes.txt"%string "exe"%string eq_refl eq_refl)).
    rewrite !elem_of_cons, elem_of_nil. intros [? | [? | []]]; discriminate.
  - refine (eq_trans
              (proj1 (proj2 (upload_checks_last_extension [".txt"; ".pdf"]%string
                               (Request.Build UPLOAD_FILE 1 double_zero "a.b.txt" "x")
                               ([] : shelf) eq_refl ltac:(discriminate))
                            "a.b"%string "txt"%string eq_refl eq_refl) _) _).
    + rewrite elem_of_cons. now left.
    + vm_compute. reflexivity.
Defined.

Lemma shelf_read_written (path content : string) (d0 d1 : shelf) :
  FileServer.ofstream_write path content d0 = (true, d1) ->
  FileServer.ifstream_read path d1 = Some content.
Proof.
  cbn. intros Hwrite. injection Hwrite as <-. cbn [shelf_read].
  now rewrite String.eqb_refl.
Qed.

Lemma upload_then_download_witness :
  let up := Request.Build UPLOAD_FILE 1 double_zero "a.txt" "hello" in
  let down := Request.Build DOWNLOAD_FILE 2 double_zero "a.txt" "" in
  let d' : shelf := [("storage/a.txt", "hello")]%string in
  FileServer.handle_request [".txt"]%string up ([] : shelf)
  = (Response.Build true double_zero "" "File uploaded successfully", d', true)
  /\ FileServer.handle_request [".txt"]%string down d'
     = (Response.Build true double_zero "hello" "File downloaded successfully", d', true).
Proof.
  cbv zeta.
  assert (FileServer.handle_request [".txt"]%string
            (Request.Build UPLOAD_FILE 1 double_zero "a.txt" "hello") ([] : shelf)
          = (Response.Build true double_zero "" "File uploaded successfully",
             [("storage/a.txt", "hello")]%string, true)) as Hup
    by (vm_compute; reflexivity).
  split; [exact Hup |].
  exact (upload_then_download [".txt"]%string
           (Request.Build UPLOAD_FILE 1 double_zero "a.txt" "hello")
           (Request.Build DOWNLOAD_FILE 2 double_zero "a.txt" "") _ _ _ _
           shelf_read_written eq_refl eq_refl eq_refl Hup eq_refl).
Defined.

(* ===================================================================== *)
(** * The logging server                                                   *)
(* ===================================================================== *)

Section LogFacts.

Import LoggingServer.


End LogFacts.


(* ===================================================================== *)
(** * The registry of server processes                                     *)
(* ===================================================================== *)

Section RegistryFacts.

Import Servers.

Lemma is_server_active_fresh (name : string) (l1 l2 : list ServerProcess) :
  Forall (fun p => Servers.name p <> name) l1 ->
  is_server_active name (l1 ++ l2) = is_server_active name l2.
Proof.
  induction 1 as [| p l1 Hp _ IH]; cbn [app is_server_active]; [reflexivity |].
  destruct (String.eqb_spec (Servers.name p) name); [contradiction | exact IH].
Qed.

Lemma is_server_active_first (name : string) (l1 l2 : list ServerProcess) :
  Exists (fun p => Servers.name p = name) l1 ->
  is_server_active name (l1 ++ l2) = is_server_active name l1.
Proof.
  induction 1 as [p l1 Hp | p l1 _ IH]; cbn [app is_server_active].
  - subst name. now rewrite String.eqb_refl.
  - now destruct (String.eqb (Servers.name p) name).
Qed.

Lemma is_server_active_other (name other : string) (pid : Z) (servers : list ServerProcess) :
  other <> name ->
  is_server_active other (servers ++ [Build pid name true])
  = is_server_active other servers.
Proof.
  intros Hother. induction servers as [| p servers IH]; cbn [app is_server_active].
  - cbn [Servers.name active]. destruct (String.eqb_spec name other); [congruence | reflexivity].
  - now destruct (String.eqb (Servers.name p) other).
Qed.

(** X18.  Registering a server and asking for it.  A name that was not
    registered before is reported active.  A name that was registered
    before keeps the answer of its first registration: a server that
    has terminated and is registered again under its name is still
    reported inactive.  The answer for any other name is unchanged. *)
Theorem register_then_query (pid : Z) (name : string) (servers : list ServerProcess) :
  let servers' := fst (register_server pid name servers) in
  (Forall (fun p => Servers.name p <> name) servers ->
   is_server_active name servers' = true)
  /\ (Exists (fun p => Servers.name p = name) servers ->
      is_server_active name servers' = is_server_active name servers)
  /\ (forall other : string,
        other <> name -> is_server_active other servers' = is_server_active other servers).
Proof.
  cbv zeta. unfold register_server. cbn [fst]. split; [| split].
  - intros Hfresh. rewrite is_server_active_fresh by exact Hfresh.
    cbn. now rewrite String.eqb_refl.
  - apply is_server_active_first.
  - intros other Hother. now apply is_server_active_other.
Qed.

Lemma wrap_int_small (a : Z) : in_int_range a = true -> wrap_int a = a.
Proof.
  unfold in_int_range, INT_MIN, INT_MAX, wrap_int.
  intros [Hlo Hhi]%andb_prop. apply Z.leb_le in Hlo, Hhi.
  rewrite Z.mod_small; lia.
Qed.

Lemma wrap_int_add (a b : Z) : wrap_int (wrap_int a + b) = wrap_int (a + b).
Proof.
  unfold wrap_int.
  replace ((a + 2 ^ 31) mod 2 ^ 32 - 2 ^ 31 + b + 2 ^ 31)
    with ((a + 2 ^ 31) mod 2 ^ 32 + b) by lia.
  rewrite Zplus_mod_idemp_l. f_equal. f_equal. lia.
Qed.

Lemma Forall2_diag {A : Type} (P : A -> A -> Prop) (l : list A) :
  (forall x, x ∈ l -> P x x) -> Forall2 P l l.
Proof.
  induction l as [| x l IH]; intros HP; constructor.
  - apply HP. apply elem_of_cons. now left.
  - apply IH. intros y Hy. apply HP. apply elem_of_cons. now right.
Qed.

Lemma Forall2_compose {A : Type} (P Q R : A -> A -> Prop) (l1 l2 l3 : list A) :
  (forall x y z, P x y -> Q y z -> R x z) ->
  Forall2 P l1 l2 -> Forall2 Q l2 l3 -> Forall2 R l1 l3.
Proof.
  intros HR H12. revert l3. induction H12 as [| x y l1 l2 Hxy _ IH]; intros l3 H23.
  - inversion H23; subst. constructor.
  - inversion H23; subst. constructor; eauto.
Qed.

(** What marking one pid does to the registry. *)
Lemma mark_terminated_spec (target : Z) (servers : list ServerProcess) :
  let servers' := fst (mark_terminated target servers) in
  pid <$> servers' = pid <$> servers
  /\ Servers.name <$> servers' = Servers.name <$> servers
  /\ Forall2 (fun p p' => active p' = true -> active p = true) servers servers'
  /\ Forall2 (fun p p' => pid p <> target -> p' = p) servers servers'
  /\ (NoDup (pid <$> servers) ->
      Forall2 (fun p p' => pid p = target -> active p' = false) servers servers').
Proof.
  cbv zeta. induction servers as [| server rest IH]; cbn [mark_terminated].
  - cbn. repeat split; constructor.
  - destruct (Z.eqb_spec (pid server) target) as [Heq | Hne].
    + cbn [fst fmap list_fmap pid Servers.name].
      split; [reflexivity |]. split; [reflexivity |].
      split; [| split].
      * constructor; [cbn; discriminate | apply Forall2_diag; auto].
      * constructor; [intros; contradiction | apply Forall2_diag; auto].
      * intros Hnodup. cbn [fmap list_fmap] in Hnodup. apply NoDup_cons in Hnodup as [Hfresh _].
        constructor; [reflexivity |]. apply Forall2_diag.
        intros p Hp Hpid. exfalso. apply Hfresh.
        rewrite Heq, <- Hpid. now apply list_elem_of_fmap_2.
    + destruct (mark_terminated target rest) as [rest' logged].
      cbn [fst fmap list_fmap] in *. destruct IH as (Hpids & Hnames & Hmono & Hother & Hmark).
      split; [now rewrite Hpids |]. split; [now rewrite Hnames |].
      split; [| split].
      * constructor; auto.
      * constructor; auto.
      * intros Hnodup. apply NoDup_cons in Hnodup as [_ Hnodup].
        constructor; [congruence | auto].
Qed.

(** X19.  What [sigchld_handler] does for the children that [waitpid]
    reports (positive pids): the counter [child_exited] grows by their
    number (in the arithmetic of [int]); the registry keeps its
    processes, with their pids and names, in place; no process becomes
    active again; a process whose pid was not reported is as before;
    and, when the pids of the registry are distinct, every process whose
    pid was reported is inactive afterwards. *)
Theorem sigchld_marks_terminated (results : list Z) :
  forall (child_exited : Z) (servers : list ServerProcess),
    in_int_range child_exited = true ->
    Forall (fun pid => 0 < pid) results ->
    let '(count, servers', logged) := sigchld_handler results child_exited servers in
    count = wrap_int (child_exited + Z.of_nat (length results))
    /\ pid <$> servers' = pid <$> servers
    /\ Servers.name <$> servers' = Servers.name <$> servers
    /\ Forall2 (fun p p' => active p' = true -> active p = true) servers servers'
    /\ Forall2 (fun p p' => pid p ∉ results -> p' = p) servers servers'
    /\ (NoDup (pid <$> servers) ->
        Forall2 (fun p p' => pid p ∈ results -> active p' = false) servers servers').
Proof.
  assert (forall c : Z, in_int_range (wrap_int c) = true) as Hwrap.
  { intros c. unfold in_int_range, INT_MIN, INT_MAX, wrap_int.
    pose proof (Z.mod_pos_bound (c + 2 ^ 31) (2 ^ 32) ltac:(lia)).
    apply andb_true_intro. split; apply Z.leb_le; lia. }
  induction results as [| target results IH]; intros child_exited servers Hint Hpos;
    cbn [sigchld_handler].
  - cbn [length]. rewrite Z.add_0_r, wrap_int_small by exact Hint.
    split; [reflexivity |]. split; [reflexivity |]. split; [reflexivity |].
    split; [| split]; [| | intros _]; apply Forall2_diag; auto.
    intros p _ Hin. now apply elem_of_nil in Hin.
  - apply Forall_cons in Hpos as [Htarget Hpos].
    destruct (Z.ltb_spec 0 target) as [_ | ?]; [| lia].
    pose proof (mark_terminated_spec target servers) as Hmark. cbv zeta in Hmark.
    destruct (mark_terminated target servers) as [servers1 logged1]. cbn [fst] in Hmark.
    destruct Hmark as (Hpids1 & Hnames1 & Hmono1 & Hother1 & Hdone1).
    specialize (IH (wrap_int (child_exited + 1)) servers1 (Hwrap _) Hpos).
    destruct (sigchld_handler results (wrap_int (child_exited + 1)) servers1)
      as [[count servers2] logged2].
    destruct IH as (Hcount & Hpids2 & Hnames2 & Hmono2 & Hother2 & Hdone2).
    split; [| split; [| split; [| split; [| split]]]].
    + rewrite Hcount, wrap_int_add. f_equal. cbn [length]. lia.
    + congruence.
    + congruence.
    + eapply Forall2_compose; [| exact Hmono1 | exact Hmono2]. cbn. auto.
    + eapply Forall2_compose; [| exact Hother1 | exact Hother2].
      cbn. intros p p1 p2 H1 H2 Hout. apply not_elem_of_cons in Hout as [Hne Hout].
      specialize (H1 Hne). subst p1. now apply H2.
    + intros Hnodup.
      assert (Forall2 (fun p p1 => pid p1 = pid p) servers servers1) as Hsame1.
      { clear - Hother1 Hmono1 Hpids1. revert servers1 Hpids1 Hother1 Hmono1.
        induction servers as [| p servers IHs]; intros [| p1 servers1] Hp Ho Hm;
          try discriminate; constructor.
        - cbn in Hp. congruence.
        - apply IHs; [cbn in Hp; congruence | now inversion Ho | now inversion Hm]. }
      specialize (Hdone1 Hnodup). rewrite <- Hpids1 in Hnodup. specialize (Hdone2 Hnodup).
      clear - Hdone1 Hdone2 Hmono2 Hsame1.
      revert servers2 Hdone2 Hmono2.
      induction Hdone1 as [| p p1 servers servers1 Hfirst _ IHd];
        intros servers2 Hdone2 Hmono2.
      * inversion Hdone2; subst. constructor.
      * inversion Hdone2 as [| ? p2 ? servers2' Hsecond Hrest]; subst.
        inversion Hmono2 as [| ? ? ? ? Hm Hmrest]; subst.
        inversion Hsame1 as [| ? ? ? ? Hpid Hsrest]; subst.
        constructor; [| now apply IHd].
        intros Hin. apply elem_of_cons in Hin as [Heq | Hin].
        -- destruct (active p2) eqn:Hactive; [| reflexivity].
           specialize (Hm eq_refl). rewrite Hfirst in Hm by exact Heq. discriminate.
        -- apply Hsecond. now rewrite Hpid.
Qed.

End RegistryFacts.

Lemma register_then_query_witness :
  let servers := [Servers.Build 100 "finance" false] in
  Servers.is_server_active "finance" (fst (Servers.register_server 200 "finance" servers))
  = false
  /\ Servers.is_server_active "logging" (fst (Servers.register_server 201 "logging" servers))
     = true.
Proof.
  cbv zeta. split.
  - refine (eq_trans (proj1 (proj2 (register_then_query 200 "finance"
                                      [Servers.Build 100 "finance" false])) _) _);
      [| reflexivity].
    constructor. reflexivity.
  - apply (proj1 (register_then_query 201 "logging" [Servers.Build 100 "finance" false])).
    repeat constructor. discriminate.
Defined.

Lemma sigchld_marks_terminated_witness :
  let servers := [Servers.Build 100 "finance" true; Servers.Build 101 "logging" true] in
  let servers' := [Servers.Build 100 "finance" true; Servers.Build 101 "logging" false] in
  Servers.sigchld_handler [101; 77] 0 servers
  = (2, servers', ["Child process terminated: logging (PID: 101)"%string])
  /\ Forall2 (fun p p' => Servers.pid p ∈ [101; 77] -> Servers.active p' = false)
             servers servers'.
Proof.
  cbv zeta.
  assert (Servers.sigchld_handler [101; 77] 0
            [Servers.Build 100 "finance" true; Servers.Build 101 "logging" true]
          = (2, [Servers.Build 100 "finance" true; Servers.Build 101 "logging" false],
             ["Child process terminated: logging (PID: 101)"%string])) as Hrun
    by (vm_compute; reflexivity).
  split; [exact Hrun |].
  pose proof (sigchld_marks_terminated [101; 77] 0
                [Servers.Build 100 "finance" true; Servers.Build 101 "logging" true]
                eq_refl) as Hthm.
  rewrite Hrun in Hthm. apply Hthm.
  - repeat constructor.
  - cbn. repeat constructor; rewrite ?elem_of_cons, ?elem_of_nil; intuition discriminate.
Defined.

(* ===================================================================== *)
(** * The client with any servers                                          *)
(* ===================================================================== *)

Section Keeping.
Context {W : Type} `{Client.Terminal W}.
Variable I : Client.locals W -> Prop.
Hypothesis I_inward : inward I.

Import Client.

Lemma keeps_ret {A : Type} (a : A) (Q : A -> Prop) : Q a -> keeps I (mret a : io W A) Q.
Proof. intros Ha s Hs. cbn. eauto. Qed.

Lemma keeps_bind {A B : Type} (m : io W A) (k : A -> io W B)
    (Q : A -> Prop) (R : B -> Prop) :
  keeps I m Q -> (forall a, Q a -> keeps I (k a) R) -> keeps I (m ≫= k) R.
Proof.
  intros Hm Hk s Hs. destruct (Hm s Hs) as (Hs1 & a & Hret & Ha).
  unfold mbind, io_bind. destruct (m s) as [[r ev] s1]. cbn [fst snd] in *. subst r.
  destruct (Hk a Ha s1 Hs1) as (Hs2 & b & Hret2 & Hb).
  destruct (k a s1) as [[r2 ev2] s2]. cbn [fst snd] in *. eauto.
Qed.

Lemma keeps_weaken {A : Type} (m : io W A) (Q R : A -> Prop) :
  keeps I m Q -> (forall a, Q a -> R a) -> keeps I m R.
Proof. intros Hm Himp s Hs. destruct (Hm s Hs) as (Hs1 & a & Hret & Ha). eauto. Qed.

Lemma keeps_emit (e : event) : keeps I (emit e : io W unit) (fun _ => True).
Proof. intros s Hs. cbn. eauto. Qed.

Lemma keeps_get {A : Type} (field : locals W -> A) (Q : A -> Prop) :
  (forall s, I s -> Q (field s)) -> keeps I (get field) Q.
Proof. intros Hfield s Hs. cbn. eauto. Qed.

Lemma keeps_outside {A : Type} (call : W -> A * W) : keeps I (outside call) (fun _ => True).
Proof.
  intros s Hs. unfold outside. destruct (call (world s)) as [a w]. cbn [fst snd].
  split; [now apply I_inward | eauto].
Qed.

Lemma keeps_shutdown_flag : keeps I (shutdown_flag : io W bool) (fun _ => True).
Proof. intros s Hs. unfold shutdown_flag. cbn. eauto. Qed.

Lemma keeps_attempt (operation : io W bool) (Q : bool -> Prop) :
  keeps I operation Q -> keeps I (attempt operation) Q.
Proof.
  intros Hop s Hs. destruct (Hop s Hs) as (Hs1 & a & Hret & Ha).
  unfold attempt. destruct (operation s) as [[r ev] s1]. cbn [fst snd] in *. eauto.
Qed.

(** A handler that returns catches whatever the guarded code does, when
    [I] asks nothing of the state. *)
Lemma keeps_catch {A : Type} (m : io W A) (handler : exception -> io W A) :
  (forall s, I s) ->
  (forall e, keeps I (handler e) (fun _ => True)) ->
  keeps I (catch m handler) (fun _ => True).
Proof.
  intros Hall Hh s Hs. unfold catch. destruct (m s) as [[[a | e] ev] s1].
  - cbn. eauto.
  - destruct (Hh e s1 (Hall s1)) as (Hs2 & a & Hret & _).
    destruct (handler e s1) as [[r2 ev2] s2]. cbn [fst snd] in *. eauto.
Qed.

Ltac keeps_step :=
  match goal with
  | |- keeps _ (mret _) _ => apply (keeps_ret _ (fun _ => True) Logic.I)
  | |- keeps _ (_ ≫= _) _ => eapply keeps_bind; [| intros ? ?]
  | |- keeps _ (print _) _ => apply keeps_emit
  | |- keeps _ (log_signal_event _) _ => apply keeps_emit
  | |- keeps _ block_signals _ => apply keeps_emit
  | |- keeps _ unblock_signals _ => apply keeps_emit
  | |- keeps _ (emit _) _ => apply keeps_emit
  | |- keeps _ (outside _) _ => apply keeps_outside
  | |- keeps _ shutdown_flag _ => apply keeps_shutdown_flag
  | |- keeps _ (if ?b then _ else _) _ => destruct b
  end.

Lemma keeps_retry_loop (operation_name : string) (operation : io W bool)
    (max_retries : Z) (Q : bool -> Prop) :
  keeps I operation Q ->
  forall (fuel : nat) (retries : Z),
    keeps I (retry_loop fuel operation_name operation max_retries retries) (fun _ => True).
Proof.
  intros Hop fuel. induction fuel as [| fuel IH]; intros retries; cbn [retry_loop].
  - keeps_step.
  - unfold ask_retry.
    repeat first [ apply IH | eapply keeps_attempt, Hop | keeps_step ].
Qed.

Lemma keeps_transaction (operation_name : string) (operation : io W bool)
    (max_retries : Z) (Q : bool -> Prop) :
  keeps I operation Q ->
  keeps I (transaction operation_name operation max_retries) (fun _ => True).
Proof.
  intros Hop. unfold transaction, retry_operation.
  repeat first [ eapply keeps_retry_loop, Hop | keeps_step ].
Qed.

End Keeping.

Section ClientFacts.
Context {W : Type} `{Client.Terminal W}.

Import Client.

Lemma anything_inward : inward (fun _ : locals W => True).
Proof. intros s w _. exact Logic.I. Qed.

Lemma offline_as_inward (u : Z) : inward (offline_as (W := W) u).
Proof. intros s w ((Hf & Hl & Hfile) & Hu). repeat split; assumption. Qed.

Ltac total_step :=
  match goal with
  | |- keeps _ (mret _) _ => apply (keeps_ret _ _ (fun _ => True) Logic.I)
  | |- keeps _ (_ ≫= _) _ => eapply keeps_bind; [| intros ? ?]
  | |- keeps _ (catch _ _) _ => apply keeps_catch; [intros; exact Logic.I | intros ?]
  | |- keeps _ (print _) _ => apply keeps_emit
  | |- keeps _ (log_signal_event _) _ => apply keeps_emit
  | |- keeps _ (emit _) _ => apply keeps_emit
  | |- keeps _ (get _) _ => apply (keeps_get _ _ (fun _ => True)); intros; exact Logic.I
  | |- keeps _ (outside _) _ => apply keeps_outside, anything_inward
  | |- keeps _ shutdown_flag _ => apply keeps_shutdown_flag
  | |- keeps _ (if ?b then _ else _) _ => destruct b
  | |- keeps _ (match ?x with _ => _ end) _ => destruct x
  end.

Lemma main_loop_returns (max_retries : Z) (fuel : nat) :
  keeps (fun _ : locals W => True) (main_loop fuel max_retries) (fun _ => True).
Proof.
  induction fuel as [| fuel IH]; cbn [main_loop].
  - total_step.
  - repeat first [ apply IH | total_step ].
Qed.

(** X20.  No exception leaves [main], whatever the state of the three
    channels, whatever the servers answer, however a request fails and
    whatever the user types: an exception of a menu action is caught by
    the loop, one of a [QUIT] by its own handler.  When [main] returns,
    its exit status is 0. *)
Theorem main_never_throws (opts : options) (fuel : nat) (s : locals W) :
  exists status : option Z,
    fst (fst (main_program opts fuel s)) = Returned status
    /\ (status = None \/ status = Some 0).
Proof.
  assert (keeps (fun _ : locals W => True) (main_program opts fuel)
                (fun status => status = None \/ status = Some 0)) as Hmain.
  { unfold main_program, startup.
    eapply keeps_bind; [repeat total_step |]. intros _ _.
    eapply keeps_bind; [apply main_loop_returns |]. intros left _.
    destruct left; [| apply keeps_ret; now left].
    eapply keeps_bind with (Q := fun status => status = 0).
    - unfold finish, send_quit.
      eapply keeps_bind; [total_step |]. intros stop _.
      eapply keeps_bind; [repeat total_step |]. intros _ _.
      eapply keeps_bind; [total_step |]. intros _ _.
      eapply keeps_bind; [total_step |]. intros finance _.
      eapply keeps_bind; [repeat total_step |]. intros _ _.
      eapply keeps_bind; [total_step |]. intros file _.
      eapply keeps_bind; [repeat total_step |]. intros _ _.
      eapply keeps_bind; [total_step |]. intros logging _.
      eapply keeps_bind; [repeat total_step |]. intros _ _.
      eapply keeps_bind; [total_step |]. intros _ _.
      eapply keeps_bind; [total_step |]. intros _ _.
      now apply keeps_ret.
    - intros status ->. apply keeps_ret. now right. }
  destruct (Hmain s Logic.I) as (_ & status & Hret & Hstatus). eauto.
Qed.

(** X21.  The end of [main].  Every channel that is open is sent exactly
    one [QUIT], in the order finance, file, logging, and nothing else is
    sent; a [QUIT] that fails does not keep the later ones from being
    sent; the result is the exit status 0. *)
Theorem finish_says_goodbye (s : locals W) :
  fst (fst (finish s)) = Returned 0
  /\ requests_sent (events (finish s))
     = map (fun c => (c, Request.make QUIT)) (open_channels s).
Proof.
  destruct s as [w finance logging file user go].
  unfold finish, send_quit, open_channels, events, shutdown_flag, get, print,
    log_signal_event, emit, catch, send_request.
  unfold mbind, io_bind, mret, io_ret.
  cbn [world finance_channel logging_channel file_channel current_user running fst snd].
  destruct (shutdown_requested w);
    destruct finance as [cf |], file as [cl |], logging as [cg |];
    cbn [world finance_channel logging_channel file_channel current_user running
         fst snd app requests_sent map];
    repeat match goal with
           | |- context [net_send_request ?c ?q ?x] =>
               destruct (net_send_request c q x) as [[? | ?] ?];
               cbn [world finance_channel logging_channel file_channel current_user
                    running fst snd app requests_sent map]
           end;
    split; reflexivity.
Qed.

Lemma login_offline_keeps (u : Z) :
  keeps (offline_as (W := W) u) login_operation (fun _ => True).
Proof.
  intros s ((Hf & Hl & Hfile) & Hu). unfold login_operation, get, print, emit.
  unfold mbind, io_bind, mret, io_ret. rewrite Hl. cbn.
  split; [repeat split; assumption | eauto].
Qed.

(** X22.  Logging in without a logging server.  The identifier that the
    user types is stored as the current user before the login is tried,
    and a login that fails because no channel is open does not take it
    back: whatever the retries, the menu action returns with no channel
    open and with the typed identifier as current user.  Before it, with
    no current user, the menu refuses every transaction. *)
Theorem failed_login_keeps_user (max_retries : Z) (s : locals W) :
  offline s ->
  current_user s = -1 ->
  (exists done : unit, fst (fst (menu_case max_retries 1 s)) = Returned done)
  /\ offline (snd (menu_case max_retries 1 s))
  /\ current_user (snd (menu_case max_retries 1 s)) = fst (cin_int (world s))
  /\ (forall choice : Z,
        choice = 2 \/ choice = 3 \/ choice = 4 \/ choice = 5 \/ choice = 6 \/ choice = 9 ->
        menu_case max_retries choice s = (Returned (), [Print "Please login first!"], s)).
Proof.
  intros Hs Hu. split; [| split; [| split]].
  4: { intros choice Hchoice. unfold menu_case, get, print, emit.
       unfold mbind, io_bind. rewrite Hu.
       destruct Hchoice as [-> | [-> | [-> | [-> | [-> | ->]]]]]; reflexivity. }
  all: set (entered := fst (cin_int (world s)));
    pose proof (keeps_transaction (offline_as entered) (offline_as_inward entered)
                  "login" login_operation max_retries (fun _ => True)
                  (login_offline_keeps entered)) as Hlogin;
    unfold menu_case; unfold get at 1; unfold mbind at 1; unfold io_bind at 1;
    rewrite Hu; cbn [Z.eqb Pos.eqb negb];
    unfold print, emit, outside, set_current_user;
    unfold mbind, io_bind;
    subst entered; destruct (cin_int (world s)) as [entered w1];
    cbn [world finance_channel logging_channel file_channel current_user running fst snd] in *;
    match goal with
    | |- context [transaction ?n ?o ?m ?st] =>
        destruct (Hlogin st) as ((Hoff & Huser) & done & Hret);
          [destruct Hs as (Hf & Hl & Hfile); repeat split; assumption |];
        destruct (transaction n o m st) as [[r ev] s'];
        cbn [fst snd] in *
    end.
  - destruct Hret as [-> _]. eauto.
  - exact Hoff.
  - exact Huser.
Qed.

End ClientFacts.

Lemma finish_says_goodbye_witness :
  let s := Client.Build (Build_script false [] [] [] []) (Some 3) None (Some 5) 7 false in
  requests_sent (events (Client.finish s))
  = [(3, Request.make QUIT); (5, Request.make QUIT)].
Proof.
  cbv zeta.
  exact (proj2 (finish_says_goodbye
                  (Client.Build (Build_script false [] [] [] []) (Some 3) None (Some 5)
                                7 false))).
Defined.

Lemma failed_login_keeps_user_witness :
  let s := Client.initial (Build_script false [7] [] ["n"%char] []) in
  Client.current_user (snd (Client.menu_case 3 1 s)) = 7
  /\ exists ev s',
       Client.menu_case 3 4 (snd (Client.menu_case 3 1 s)) = (Returned (), ev, s')
       /\ In (Client.Print "Not connected to finance server!") ev.
Proof.
  cbv zeta. split.
  - exact (proj1 (proj2 (proj2 (failed_login_keeps_user 3
             (Client.initial (Build_script false [7] [] ["n"%char] []))
             ltac:(repeat split) eq_refl)))).
  - eexists _, _. split; [vm_compute; reflexivity |]. cbn. tauto.
Defined.

(* ===================================================================== *)
(** * Arithmetic on doubles: canonical results and signs                   *)
(* ===================================================================== *)

Section DoubleArithmetic.

Lemma digits2_pos_size (p : positive) : digits2_pos p = Pos.size p.
Proof. induction p as [p IH | p IH |]; cbn [digits2_pos Pos.size]; congruence. Qed.

(** The number of binary digits of a positive integer. *)
Lemma Zdigits2_log2 (m : Z) : 0 < m -> Zdigits2 m = Z.log2 m + 1.
Proof.
  destruct m as [| p | p]; try lia. intros _.
  destruct p as [p | p |]; cbn [Zdigits2 digits2_pos Z.log2];
    rewrite ?digits2_pos_size; lia.
Qed.

Lemma Zdigits2_nonneg (m : Z) : 0 <= Zdigits2 m.
Proof. destruct m; cbn; lia. Qed.

Lemma Zdigits2_mono (a b : Z) : 0 <= a <= b -> Zdigits2 a <= Zdigits2 b.
Proof.
  intros [Ha Hab]. destruct (Z.eq_dec a 0) as [-> | Hne]; [apply Zdigits2_nonneg |].
  rewrite !Zdigits2_log2 by lia. pose proof (Z.log2_le_mono a b Hab). lia.
Qed.

(** The exponent function of binary64. *)
Lemma fexp_eq (e : Z) : fexp prec emax e = Z.max (e - 53) (-1074).
Proof. reflexivity. Qed.

Lemma shr_m_of_loc (m : Z) (l : location) : shr_m (shr_record_of_loc m l) = m.
Proof. destruct l as [| []]; reflexivity. Qed.

Lemma shr_1_m (mrs : shr_record) :
  0 <= shr_m mrs -> shr_m (shr_1 mrs) = shr_m mrs / 2.
Proof.
  destruct mrs as [m r s]. cbn [shr_m]. intros Hm. unfold shr_1.
  destruct m as [| p | p]; [reflexivity | | lia].
  destruct p; cbn [shr_m]; rewrite <- Z.div2_div; reflexivity.
Qed.

Lemma iter_shr_1_m (p : positive) :
  forall mrs : shr_record,
    0 <= shr_m mrs -> shr_m (SpecFloat.iter_pos shr_1 p mrs) = shr_m mrs / 2 ^ Zpos p.
Proof.
  assert (forall q : positive, 0 < 2 ^ Z.pos q) as Hpow
    by (intros q; apply Z.pow_pos_nonneg; lia).
  induction p as [p IH | p IH |]; intros mrs Hm; cbn [SpecFloat.iter_pos].
  - assert (0 <= shr_m (shr_1 mrs)) as H1
      by (rewrite shr_1_m by exact Hm; apply Z.div_pos; lia).
    assert (0 <= shr_m (SpecFloat.iter_pos shr_1 p (shr_1 mrs))) as H2
      by (rewrite IH by exact H1; apply Z.div_pos; [exact H1 | apply Hpow]).
    rewrite IH, IH, shr_1_m by assumption.
    pose proof (Hpow p).
    rewrite !Z.div_div by lia.
    f_equal.
    replace (Z.pos p~1) with (1 + Z.pos p + Z.pos p) by lia.
    rewrite !Z.pow_add_r by lia. change (2 ^ 1) with 2. lia.
  - assert (0 <= shr_m (SpecFloat.iter_pos shr_1 p mrs)) as H1
      by (rewrite IH by exact Hm; apply Z.div_pos; [exact Hm | apply Hpow]).
    rewrite IH, IH by assumption.
    pose proof (Hpow p).
    rewrite Z.div_div by lia.
    f_equal.
    replace (Z.pos p~0) with (Z.pos p + Z.pos p) by lia.
    now rewrite Z.pow_add_r by lia.
  - rewrite shr_1_m by exact Hm. reflexivity.
Qed.

(** One normalising shift: the exponent becomes the canonical one for
    the number of digits, and the shifted mantissa is canonical for it. *)
Lemma shr_fexp_spec (m e : Z) (l : location) :
  0 <= m ->
  e <= fexp prec emax (Zdigits2 m + e) ->
  let '(mrs, e') := shr_fexp prec emax m e l in
  0 <= shr_m mrs
  /\ e' = fexp prec emax (Zdigits2 m + e)
  /\ fexp prec emax (Zdigits2 (shr_m mrs) + e') = e'.
Proof.
  intros Hm He. unfold shr_fexp, shr.
  destruct (fexp prec emax (Zdigits2 m + e) - e) as [| p | p] eqn:Hn; try lia.
  - rewrite shr_m_of_loc. repeat split; [exact Hm | lia | ].
    replace e with (fexp prec emax (Zdigits2 m + e)) at 2 by lia. reflexivity.
  - assert (0 <= shr_m (shr_record_of_loc m l)) as Hm0 by now rewrite shr_m_of_loc.
    rewrite iter_shr_1_m by exact Hm0. rewrite shr_m_of_loc.
    assert (0 <= m / 2 ^ Z.pos p) as Hq by (apply Z.div_pos; [exact Hm | apply Z.pow_pos_nonneg; lia]).
    split; [exact Hq |]. split; [lia |].
    replace (e + Z.pos p) with (fexp prec emax (Zdigits2 m + e)) by lia.
    rewrite !fexp_eq in *.
    destruct (Z.eq_dec m 0) as [-> | Hm1].
    + rewrite Z.div_0_l by (apply Z.pow_nonzero; lia). cbn [Zdigits2] in *. lia.
    + rewrite (Zdigits2_log2 m) in * by lia.
      rewrite <- Z.shiftr_div_pow2 in * by lia.
      destruct (Z.eq_dec (Z.shiftr m (Z.pos p)) 0) as [Hzero | Hpos].
      * rewrite Hzero. cbn [Zdigits2].
        apply Z.shiftr_eq_0_iff in Hzero as [? | [_ Hlog]]; lia.
      * rewrite Zdigits2_log2 by lia.
        rewrite Z.log2_shiftr by lia.
        assert (Z.pos p <= Z.log2 m) as Hle.
        { destruct (Z_lt_le_dec (Z.log2 m) (Z.pos p)) as [Hlt | Hle]; [| exact Hle].
          exfalso. apply Hpos. apply Z.shiftr_eq_0; lia. }
        lia.
Qed.

Lemma round_nearest_even_bounds (m : Z) (l : location) :
  m <= round_nearest_even m l <= m + 1.
Proof.
  unfold round_nearest_even. destruct l as [| []]; try destruct (Z.even m); lia.
Qed.

(** Rounding gives a double. *)
Lemma binary_round_aux_valid (sx : bool) (m : positive) (e : Z) (l : location) :
  e <= fexp prec emax (Zdigits2 (Zpos m) + e) ->
  valid_binary prec emax (binary_round_aux prec emax sx (Zpos m) e l) = true.
Proof.
  intros He. unfold binary_round_aux.
  pose proof (shr_fexp_spec (Zpos m) e l ltac:(lia) He) as H1.
  destruct (shr_fexp prec emax (Z.pos m) e l) as [mrs1 e1].
  destruct H1 as (Hm1 & _ & Hc1).
  pose proof (round_nearest_even_bounds (shr_m mrs1) (loc_of_shr_record mrs1)) as Hr.
  set (m2 := round_nearest_even (shr_m mrs1) (loc_of_shr_record mrs1)) in *.
  assert (e1 <= fexp prec emax (Zdigits2 m2 + e1)) as He1.
  { pose proof (Zdigits2_mono (shr_m mrs1) m2 ltac:(lia)) as Hd.
    rewrite !fexp_eq in *. lia. }
  pose proof (shr_fexp_spec m2 e1 loc_Exact ltac:(lia) He1) as H2.
  destruct (shr_fexp prec emax m2 e1 loc_Exact) as [mrs2 e2].
  destruct H2 as (Hm2 & _ & Hc2).
  destruct (shr_m mrs2) as [| m3 | m3]; try reflexivity.
  destruct (e2 <=? emax - prec) eqn:Hle; [| reflexivity].
  cbn [valid_binary]. unfold bounded, canonical_mantissa.
  cbn [Zdigits2] in Hc2. rewrite Hc2, Z.eqb_refl, Hle. reflexivity.
Qed.

Lemma binary_round_aux_sign (m e : Z) (l : location) :
  not_below_zero (binary_round_aux prec emax false m e l) = true.
Proof.
  unfold binary_round_aux.
  destruct (shr_fexp prec emax m e l) as [mrs1 e1].
  destruct (shr_fexp prec emax _ e1 loc_Exact) as [mrs2 e2].
  destruct (shr_m mrs2); try reflexivity.
  destruct (e2 <=? emax - prec); reflexivity.
Qed.

(** The mantissa shifted to a lower exponent. *)
Lemma shl_align_value (mx : positive) (ex ez : Z) :
  ez <= ex -> Zpos (fst (shl_align mx ex ez)) = Zpos mx * 2 ^ (ex - ez).
Proof.
  intros Hle. unfold shl_align.
  destruct (ez - ex) as [| d | d] eqn:Hd; try lia.
  - replace (ex - ez) with 0 by lia. cbn [fst]. lia.
  - cbn [fst]. change (Pos.iter xO mx d) with (shift_pos d mx).
    rewrite shift_pos_correct, Z.pow_pos_fold.
    replace (ex - ez) with (Z.pos d) by lia. lia.
Qed.

Lemma binary_round_valid (sx : bool) (mx : positive) (ex : Z) :
  valid_binary prec emax (binary_round prec emax sx mx ex) = true.
Proof.
  unfold binary_round.
  set (ez := fexp prec emax (Z.pos (digits2_pos mx) + ex)).
  pose proof (shl_align_value mx ex ez) as Hvalue.
  unfold shl_align in *.
  destruct (ez - ex) as [| d | d] eqn:Hd; cbn [fst] in *.
  - apply binary_round_aux_valid. cbn [Zdigits2]. fold ez. lia.
  - apply binary_round_aux_valid. cbn [Zdigits2]. fold ez. lia.
  - apply binary_round_aux_valid.
    specialize (Hvalue ltac:(lia)).
    assert (Zdigits2 (Z.pos (Pos.iter xO mx d)) + ez = Z.pos (digits2_pos mx) + ex) as Hsame.
    { rewrite Zdigits2_log2 by lia. rewrite Hvalue.
      rewrite Z.log2_mul_pow2 by lia.
      change (Z.pos (digits2_pos mx)) with (Zdigits2 (Zpos mx)).
      rewrite (Zdigits2_log2 (Zpos mx)) by lia. lia. }
    rewrite Hsame. fold ez. lia.
Qed.

Lemma binary_round_sign (mx : positive) (ex : Z) :
  not_below_zero (binary_round prec emax false mx ex) = true.
Proof.
  unfold binary_round. destruct (shl_align mx ex _) as [mz ez].
  apply binary_round_aux_sign.
Qed.

Lemma binary_normalize_valid (z e : Z) (szero : bool) :
  valid_binary prec emax (binary_normalize prec emax z e szero) = true.
Proof. destruct z; cbn [binary_normalize]; [reflexivity | |]; apply binary_round_valid. Qed.

Lemma binary_normalize_sign (z e : Z) :
  0 <= z -> not_below_zero (binary_normalize prec emax z e false) = true.
Proof.
  destruct z; cbn [binary_normalize]; intros Hz; [reflexivity | | lia].
  apply binary_round_sign.
Qed.

(** Sums, differences and products of doubles are doubles. *)
Lemma double_add_valid (x y : double) :
  valid_double x = true -> valid_double y = true -> valid_double (double_add x y) = true.
Proof.
  unfold valid_double, double_add. intros Hx Hy.
  destruct x as [sx | sx | | sx mx ex], y as [sy | sy | | sy my ey];
    cbn [SFadd]; try assumption; try reflexivity;
    try (destruct sx, sy; assumption || reflexivity).
  apply binary_normalize_valid.
Qed.

Lemma double_sub_valid (x y : double) :
  valid_double x = true -> valid_double y = true -> valid_double (double_sub x y) = true.
Proof.
  unfold valid_double, double_sub. intros Hx Hy.
  destruct x as [sx | sx | | sx mx ex], y as [sy | sy | | sy my ey];
    cbn [SFsub]; try assumption; try reflexivity;
    try (destruct sx, sy; assumption || reflexivity).
  apply binary_normalize_valid.
Qed.

(** What it means for a mantissa and an exponent to be canonical. *)
Lemma bounded_spec (m : positive) (e : Z) :
  bounded prec emax m e = true ->
  e = Z.max (Z.log2 (Zpos m) + 1 + e - 53) (-1074) /\ e <= 971.
Proof.
  unfold bounded, canonical_mantissa. intros [Hc He]%andb_prop.
  apply Z.eqb_eq in Hc. apply Z.leb_le in He.
  rewrite fexp_eq in Hc.
  change (Z.pos (digits2_pos m)) with (Zdigits2 (Zpos m)) in Hc.
  rewrite Zdigits2_log2 in Hc by lia.
  change (emax - prec) with 971 in He. lia.
Qed.

Lemma double_mul_valid (x y : double) :
  valid_double x = true -> valid_double y = true -> valid_double (double_mul x y) = true.
Proof.
  unfold valid_double, double_mul. intros Hx Hy.
  destruct x as [sx | sx | | sx mx ex], y as [sy | sy | | sy my ey];
    cbn [SFmul]; try reflexivity.
  cbn [valid_binary] in Hx, Hy.
  apply bounded_spec in Hx as [Hx _], Hy as [Hy _].
  apply binary_round_aux_valid.
  rewrite Zdigits2_log2, fexp_eq by lia.
  pose proof (Z.log2_mul_below (Zpos mx) (Zpos my) ltac:(lia) ltac:(lia)) as Hlog.
  pose proof (Z.log2_nonneg (Zpos mx)). pose proof (Z.log2_nonneg (Zpos my)).
  rewrite Pos2Z.inj_mul. lia.
Qed.

End DoubleArithmetic.

Section DoubleSigns.

(** Of two canonical mantissas, the one with the lower exponent is the
    smaller, once both are written for that exponent. *)
Lemma canonical_exponent_order (mx my : positive) (ex ey : Z) :
  bounded prec emax mx ex = true ->
  bounded prec emax my ey = true ->
  ex < ey ->
  Zpos mx < Zpos my * 2 ^ (ey - ex).
Proof.
  intros [Hx _]%bounded_spec [Hy _]%bounded_spec Hlt.
  pose proof (Z.log2_spec (Zpos mx) ltac:(lia)) as [_ Hmx].
  pose proof (Z.log2_spec (Zpos my) ltac:(lia)) as [Hmy _].
  pose proof (Z.log2_nonneg (Zpos mx)). pose proof (Z.log2_nonneg (Zpos my)).
  assert (Z.log2 (Zpos my) = 52) as Hlog by lia.
  rewrite Hlog in Hmy.
  assert (2 ^ Z.succ (Z.log2 (Z.pos mx)) <= 2 ^ 53) as Hpow
    by (apply Z.pow_le_mono_r; lia).
  assert (2 ^ 1 <= 2 ^ (ey - ex)) as Hshift by (apply Z.pow_le_mono_r; lia).
  change (2 ^ 1) with 2 in Hshift. change (2 ^ 52) with 4503599627370496 in Hmy.
  change (2 ^ 53) with 9007199254740992 in Hpow.
  nia.
Qed.

Lemma compare_cont_ge (mx my : positive) :
  match Pos.compare_cont Eq mx my with Lt => False | _ => True end ->
  Zpos my <= Zpos mx.
Proof.
  change (Pos.compare_cont Eq mx my) with (Pos.compare mx my).
  destruct (Pos.compare_spec mx my); intros Hc; [subst | contradiction |]; lia.
Qed.

Lemma compare_cont_le (mx my : positive) :
  match Pos.compare_cont Eq mx my with Gt => False | _ => True end ->
  Zpos mx <= Zpos my.
Proof.
  change (Pos.compare_cont Eq mx my) with (Pos.compare mx my).
  destruct (Pos.compare_spec mx my); intros Hc; [subst | | contradiction]; lia.
Qed.

(** The difference of two doubles of which the first is not the smaller
    is not below zero. *)
Lemma double_sub_sign (x y : double) :
  valid_double x = true ->
  valid_double y = true ->
  double_ge x y = true ->
  not_below_zero (double_sub x y) = true.
Proof.
  unfold valid_double, double_ge, double_sub. intros Hx Hy Hge.
  destruct x as [sx | sx | | sx mx ex], y as [sy | sy | | sy my ey];
    match goal with
    | |- context [SFsub _ _ (S754_finite _ _ _) (S754_finite _ _ _)] => idtac
    | _ =>
        cbn in Hge |- *; repeat match goal with s : bool |- _ => destruct s end;
        cbn in *; solve [reflexivity | discriminate]
    end.
  cbn [valid_binary] in Hx, Hy. cbn [SFsub SFcompare] in *.
  apply binary_normalize_sign.
  rewrite !shl_align_value by lia.
  pose proof (Z.le_min_l ex ey). pose proof (Z.le_min_r ex ey).
  assert (0 < 2 ^ (ex - Z.min ex ey)) by (apply Z.pow_pos_nonneg; lia).
  assert (0 < 2 ^ (ey - Z.min ex ey)) by (apply Z.pow_pos_nonneg; lia).
  destruct sx, sy; cbn [cond_Zopp]; cbv beta iota in Hge.
  - destruct (Z.compare_spec ex ey) as [Heq | Hlt | Hgt]; try discriminate.
    + subst ey. rewrite Z.min_id, Z.sub_diag. change (2 ^ 0) with 1.
      pose proof (compare_cont_le mx my) as Hle.
      destruct (Pos.compare_cont Eq mx my); cbn in Hge; try discriminate;
        specialize (Hle Logic.I); lia.
    + pose proof (canonical_exponent_order mx my ex ey Hx Hy Hlt).
      rewrite Z.min_l, Z.sub_diag by lia. change (2 ^ 0) with 1. lia.
  - discriminate.
  - nia.
  - destruct (Z.compare_spec ex ey) as [Heq | Hlt | Hgt]; try discriminate.
    + subst ey. rewrite Z.min_id, Z.sub_diag. change (2 ^ 0) with 1.
      pose proof (compare_cont_ge mx my) as Hle.
      destruct (Pos.compare_cont Eq mx my); cbn in Hge; try discriminate;
        specialize (Hle Logic.I); lia.
    + pose proof (canonical_exponent_order my mx ey ex Hy Hx Hgt).
      rewrite Z.min_r, Z.sub_diag by lia. change (2 ^ 0) with 1. lia.
Qed.

(** The sum of two doubles that are not below zero is not below zero. *)
Lemma double_add_sign (x y : double) :
  not_below_zero x = true -> not_below_zero y = true ->
  not_below_zero (double_add x y) = true.
Proof.
  unfold double_add. intros Hx Hy.
  destruct x as [sx | sx | | sx mx ex], y as [sy | sy | | sy my ey];
    match goal with
    | |- context [SFadd _ _ (S754_finite _ _ _) (S754_finite _ _ _)] => idtac
    | _ =>
        cbn in Hx, Hy |- *; repeat match goal with s : bool |- _ => destruct s end;
        cbn in *; solve [reflexivity | discriminate]
    end.
  destruct sx; [discriminate |]. destruct sy; [discriminate |].
  cbn [SFadd cond_Zopp]. apply binary_normalize_sign. lia.
Qed.

(** The product of a double that is not below zero with the factor 1.01
    is not below zero. *)
Lemma double_mul_sign (x : double) :
  not_below_zero x = true -> not_below_zero (double_mul x interest_factor) = true.
Proof.
  unfold double_mul, interest_factor. intros Hx.
  destruct x as [sx | sx | | sx mx ex];
    match goal with
    | |- context [SFmul _ _ (S754_finite _ _ _) _] => idtac
    | _ =>
        cbn in Hx |- *; repeat match goal with s : bool |- _ => destruct s end;
        cbn in *; solve [reflexivity | discriminate]
    end.
  destruct sx; [discriminate |].
  cbn [SFmul xorb]. apply binary_round_aux_sign.
Qed.

End DoubleSigns.

(* ===================================================================== *)
(** * Balances do not fall below zero                                      *)
(* ===================================================================== *)

Section Solvency.
Variables (max_accounts thread_count : Z).

Lemma interest_factor_valid : valid_double interest_factor = true.
Proof. reflexivity. Qed.

Lemma applyInterest_solvent (acc : Account) : solvent acc -> solvent (applyInterest acc).
Proof.
  intros [Hvalid Hsign]. unfold applyInterest.
  destruct (negb (Account.active acc)); [now split |].
  destruct (double_gt (Account.balance acc) double_zero); [| now split].
  split; cbn [Account.balance].
  - apply double_mul_valid; [exact Hvalid | exact interest_factor_valid].
  - now apply double_mul_sign.
Qed.

Lemma accrual_solvent (order : list nat) :
  forall accounts : list Account,
    Forall solvent accounts ->
    Forall solvent (foldl (fun accs id => alter applyInterest id accs) accounts order).
Proof.
  induction order as [| id order IH]; intros accounts Hall; cbn [foldl]; [exact Hall |].
  apply IH. apply Forall_alter; [exact Hall |].
  intros acc _. apply applyInterest_solvent.
Qed.

(** The account of the subject after the lazy creation. *)
Lemma created_solvent (uid : Z) (slot : Account) :
  solvent slot ->
  solvent (if negb (Account.active slot) then Account.initialize uid slot else slot).
Proof. intros Hslot. destruct (negb (Account.active slot)); [now split | exact Hslot]. Qed.

(** X23.  A withdrawal never overdraws.  For a balance and an amount
    that are doubles, a withdrawal that is answered [ok=true] leaves on
    the account the balance it reports, and that balance is a double
    that is not below zero, whatever the signs of the balance and of the
    amount before. *)
Theorem withdrawal_never_overdraws (accounts : list Account) (env : environment)
    (r : Request) (slot : Account) (resp : Response) (accounts' : list Account)
    (running : bool) :
  Request.type r = WITHDRAW ->
  accounts !! Z.to_nat (Request.user_id r) = Some slot ->
  valid_double (Account.balance slot) = true ->
  valid_double (Request.amount r) = true ->
  handle_request accounts max_accounts thread_count env r = Replied resp accounts' running ->
  Response.success resp = true ->
  exists acc' : Account,
    accounts' !! Z.to_nat (Request.user_id r) = Some acc'
    /\ Account.balance acc' = Response.balance resp
    /\ valid_double (Account.balance acc') = true
    /\ not_below_zero (Account.balance acc') = true.
Proof.
  intros Hty Hslot Hbal Hamt Hrun Hok. unfold handle_request in Hrun.
  rewrite Hty, Hslot in Hrun.
  destruct ((Request.user_id r <? 0) || (Request.user_id r >=? max_accounts));
    [simplify_eq; discriminate |].
  pose proof (lookup_lt_Some _ _ _ Hslot) as Hlt.
  set (acc := if negb (Account.active slot)
              then Account.initialize (Request.user_id r) slot else slot) in *.
  assert (valid_double (Account.balance acc) = true) as Hacc
    by (subst acc; now destruct (negb (Account.active slot))).
  destruct (double_ge (Account.balance acc) (Request.amount r)) eqn:Hge;
    simplify_eq; try discriminate.
  eexists. split; [apply list_lookup_insert_eq; rewrite length_insert; lia |].
  cbn [Account.balance Response.balance]. split; [reflexivity |]. split.
  - now apply double_sub_valid.
  - now apply double_sub_sign.
Qed.

(** One fair request keeps every account solvent. *)
Lemma handle_request_solvent (accounts : list Account) (env : environment) (r : Request)
    (resp : Response) (accounts' : list Account) (running : bool) :
  Forall solvent accounts ->
  fair r ->
  handle_request accounts max_accounts thread_count env r = Replied resp accounts' running ->
  Forall solvent accounts'.
Proof.
  intros Hall [Hamt Hdeposit]. unfold handle_request.
  destruct ((Request.user_id r <? 0) || (Request.user_id r >=? max_accounts)).
  { destruct (Request.type r); intros Hrun; simplify_eq; auto. }
  destruct (accounts !! Z.to_nat (Request.user_id r)) as [slot |] eqn:Hslot.
  2: { destruct (Request.type r); intros Hrun; simplify_eq; auto. }
  pose proof (created_solvent (Request.user_id r) slot
                (proj1 (Forall_lookup _ _) Hall _ _ Hslot)) as [Hvalid Hsign].
  set (acc := if negb (Account.active slot)
              then Account.initialize (Request.user_id r) slot else slot) in *.
  assert (Forall solvent (<[Z.to_nat (Request.user_id r) := acc]> accounts)) as Hall1
    by (apply Forall_insert; [exact Hall | now split]).
  destruct (Request.type r) eqn:Hty; intros Hrun; simplify_eq; auto.
  - apply Forall_insert; [exact Hall1 |]. split; cbn [Account.balance].
    + now apply double_add_valid.
    + apply double_add_sign; auto.
  - destruct (double_ge (Account.balance acc) (Request.amount r)) eqn:Hge;
      simplify_eq; auto.
    apply Forall_insert; [exact Hall1 |]. split; cbn [Account.balance].
    + now apply double_sub_valid.
    + now apply double_sub_sign.
  - unfold earn_interest in Hrun. repeat case_match; simplify_eq;
      auto using accrual_solvent.
Qed.

(** X24.  No balance falls below zero.  From a table in which every
    balance is a double that is not below zero (in particular the table
    the server allocates), over any session in which every amount
    received is a double and no deposit has an amount below zero:
    whatever the withdrawals, the interest accruals and their schedules,
    every balance of the table is a double that is not below zero. *)
Theorem balances_stay_above_zero (turns : list turn) :
  forall (accounts : list Account) (sent : list Response) (accounts' : list Account),
    Forall solvent accounts ->
    Forall (fun tn => forall r, receive_request (received tn) = Returned r -> fair r) turns ->
    session_table (handle_client accounts max_accounts thread_count turns sent)
    = Some accounts' ->
    Forall solvent accounts'.
Proof.
  induction turns as [| tn turns IH]; intros accounts sent accounts' Hall Hfair;
    cbn [handle_client].
  - cbn. intros; simplify_eq. exact Hall.
  - apply Forall_cons in Hfair as [Hfirst Hfair].
    destruct (shutdown_seen tn); [cbn; intros; simplify_eq; exact Hall |].
    destruct (receive_request (received tn)) as [r | e];
      [| cbn; intros; simplify_eq; exact Hall].
    destruct (handle_request _ _ _ _ r) as [resp accounts1 running | |] eqn:Hrun;
      try discriminate.
    pose proof (handle_request_solvent _ _ _ _ _ _ Hall (Hfirst r eq_refl) Hrun) as Hall1.
    destruct running.
    + intros Hsession. exact (IH _ _ _ Hall1 Hfair Hsession).
    + cbn. intros; simplify_eq. exact Hall1.
Qed.

End Solvency.

Lemma withdrawal_never_overdraws_witness :
  let accounts := [Account.Build 0 (double_of_Z 80) true] in
  let r := Request.Build WITHDRAW 0 (S754_finite false 5770237022568448 (-46)) "" "" in
  handle_request accounts 1 4 (Build_environment 0 "" []) r
  = Replied (Response.Build false double_zero "" "Insufficient funds") accounts true
  /\ exists accounts' : list Account,
       handle_request accounts 1 4 (Build_environment 0 "" [])
                      (Request.Build WITHDRAW 0 (double_of_Z 80) "" "")
       = Replied (Response.Build true double_zero "" "Withdrawal successful") accounts' true
       /\ exists acc' : Account,
            accounts' !! 0%nat = Some acc'
            /\ not_below_zero (Account.balance acc') = true.
Proof.
  cbv zeta. split; [vm_compute; reflexivity |].
  eexists. split; [vm_compute; reflexivity |].
  destruct (withdrawal_never_overdraws 1 4 [Account.Build 0 (double_of_Z 80) true]
              (Build_environment 0 "" [])
              (Request.Build WITHDRAW 0 (double_of_Z 80) "" "")
              (Account.Build 0 (double_of_Z 80) true) _ _ _
              eq_refl eq_refl eq_refl eq_refl eq_refl eq_refl)
    as (acc' & Hslot & _ & _ & Hsign).
  exists acc'. split; [exact Hslot | exact Hsign].
Defined.

Lemma balances_stay_above_zero_witness :
  let turns :=
    [Build_turn false (Returned "1|0|50||"%string) (Build_environment 0 "" []);
     Build_turn false (Returned "2|0|20.5||"%string) (Build_environment 0 "" []);
     Build_turn false (Returned "2|1|-3||"%string) (Build_environment 0 "" [])] in
  exists accounts' : list Account,
    session_table (handle_client [Account.default; Account.default] 2 4 turns [])
    = Some accounts'
    /\ Forall solvent accounts'.
Proof.
  cbv zeta. eexists. split; [vm_compute; reflexivity |].
  refine (balances_stay_above_zero 2 4
            [Build_turn false (Returned "1|0|50||"%string) (Build_environment 0 "" []);
             Build_turn false (Returned "2|0|20.5||"%string) (Build_environment 0 "" []);
             Build_turn false (Returned "2|1|-3||"%string) (Build_environment 0 "" [])]
            [Account.default; Account.default] [] _ _ _ _).
  - repeat constructor.
  - repeat (apply Forall_cons_2;
              [intros r Hr; vm_compute in Hr; injection Hr as <-;
               split; [reflexivity | intros Hd; try discriminate Hd; reflexivity] |]).
    apply Forall_nil_2.
  - vm_compute. reflexivity.
Defined.

(* ===================================================================== *)
(** * An account whose balance is NaN                                      *)
(* ===================================================================== *)

Section Poison.
Variables (max_accounts thread_count : Z).

Lemma applyInterest_poisoned (acc : Account) : poisoned acc -> applyInterest acc = acc.
Proof.
  intros [Hactive Hnan]. unfold applyInterest. now rewrite Hactive, Hnan.
Qed.

Lemma accrual_poisoned (order : list nat) :
  forall (accounts : list Account) (i : nat) (acc : Account),
    accounts !! i = Some acc -> poisoned acc ->
    foldl (fun accs id => alter applyInterest id accs) accounts order !! i = Some acc.
Proof.
  induction order as [| id order IH]; intros accounts i acc Hacc Hp; cbn [foldl];
    [exact Hacc |].
  apply IH; [| exact Hp].
  destruct (decide (i = id)) as [-> | Hne].
  - rewrite list_lookup_alter_eq, Hacc. cbn. now rewrite applyInterest_poisoned.
  - now rewrite list_lookup_alter_ne by congruence.
Qed.

(** One request leaves a poisoned account poisoned. *)
Lemma handle_request_poisoned (accounts : list Account) (env : environment) (r : Request)
    (resp : Response) (accounts' : list Account) (running : bool) (i : nat) (acc : Account) :
  accounts !! i = Some acc -> poisoned acc ->
  handle_request accounts max_accounts thread_count env r = Replied resp accounts' running ->
  exists acc' : Account, accounts' !! i = Some acc' /\ poisoned acc'.
Proof.
  intros Hacc Hp. pose proof Hp as [Hactive Hnan]. unfold handle_request.
  destruct ((Request.user_id r <? 0) || (Request.user_id r >=? max_accounts)).
  { destruct (Request.type r); intros Hrun; simplify_eq; eauto. }
  destruct (accounts !! Z.to_nat (Request.user_id r)) as [slot |] eqn:Hslot.
  2: { destruct (Request.type r); intros Hrun; simplify_eq; eauto. }
  pose proof (lookup_lt_Some _ _ _ Hslot) as Hlt.
  set (made := if negb (Account.active slot)
               then Account.initialize (Request.user_id r) slot else slot) in *.
  destruct (decide (i = Z.to_nat (Request.user_id r))) as [-> | Hne].
  - assert (made = acc) as -> by (subst made; simplify_eq; now rewrite Hactive).
    assert (slot = acc) as -> by congruence.
    rewrite (list_insert_id accounts (Z.to_nat (Request.user_id r)) acc Hacc).
    destruct (Request.type r); intros Hrun; simplify_eq; eauto.
    + eexists. split; [apply list_lookup_insert_eq; lia |].
      split; [exact Hactive | cbn [Account.balance]; now rewrite Hnan].
    + rewrite Hnan in Hrun. cbn in Hrun. simplify_eq. eauto.
    + unfold earn_interest in Hrun. repeat case_match; simplify_eq;
        eauto using accrual_poisoned.
  - assert (<[Z.to_nat (Request.user_id r) := made]> accounts !! i = Some acc) as Hkeep
      by now rewrite list_lookup_insert_ne by congruence.
    destruct (Request.type r); intros Hrun; simplify_eq; eauto.
    + exists acc. now rewrite list_lookup_insert_ne by congruence.
    + destruct (double_ge _ _); simplify_eq; eauto.
      exists acc. now rewrite list_lookup_insert_ne by congruence.
    + unfold earn_interest in Hrun. repeat case_match; simplify_eq;
        eauto using accrual_poisoned.
Qed.

(** X25.  NaN is for ever.  An active account whose balance is NaN (as
    after a deposit whose amount text is "nan", which [std::stod]
    accepts) keeps that balance over any session, whatever is deposited
    or accrued; and every withdrawal from it is refused with
    "Insufficient funds", whatever the amount. *)
Theorem nan_balance_is_permanent (turns : list turn) :
  (forall (accounts : list Account) (sent : list Response) (accounts' : list Account)
          (i : nat) (acc : Account),
      accounts !! i = Some acc -> poisoned acc ->
      session_table (handle_client accounts max_accounts thread_count turns sent)
      = Some accounts' ->
      exists acc' : Account, accounts' !! i = Some acc' /\ poisoned acc')
  /\ (forall (accounts : list Account) (env : environment) (r : Request) (acc : Account),
        Request.type r = WITHDRAW ->
        0 <= Request.user_id r < max_accounts ->
        accounts !! Z.to_nat (Request.user_id r) = Some acc -> poisoned acc ->
        handle_request accounts max_accounts thread_count env r
        = Replied (Response.Build false double_zero "" "Insufficient funds") accounts true).
Proof.
  split.
  - induction turns as [| tn turns' IH]; intros accounts sent accounts' i acc Hacc Hp;
      cbn [handle_client].
    + cbn. intros; simplify_eq. eauto.
    + destruct (shutdown_seen tn); [cbn; intros; simplify_eq; eauto |].
      destruct (receive_request (received tn)) as [r | e];
        [| cbn; intros; simplify_eq; eauto].
      destruct (handle_request _ _ _ _ r) as [resp accounts1 running | |] eqn:Hrun;
        try discriminate.
      destruct (handle_request_poisoned _ _ _ _ _ _ _ _ Hacc Hp Hrun) as (acc1 & Hacc1 & Hp1).
      destruct running.
      * intros Hsession. exact (IH _ _ _ _ _ Hacc1 Hp1 Hsession).
      * cbn. intros; simplify_eq. eauto.
  - intros accounts env r acc Hty Hid Hacc [Hactive Hnan]. unfold handle_request.
    rewrite Hty, (handle_request_valid max_accounts accounts r Hid), Hacc, Hactive.
    cbn [negb]. rewrite Hnan. cbn [double_ge SFcompare].
    now rewrite list_insert_id.
Qed.

End Poison.

Lemma nan_balance_is_permanent_witness :
  let turns :=
    [Build_turn false (Returned "1|0|nan||"%string) (Build_environment 0 "" []);
     Build_turn false (Returned "1|0|50||"%string) (Build_environment 0 "" []);
     Build_turn false (Returned "2|0|-1||"%string) (Build_environment 0 "" [])] in
  handle_client [Account.default] 1 4 (take 1 turns) []
  = Receiving [Response.Build true S754_nan "" "Deposit successful"]
              [Account.Build 0 S754_nan true]
  /\ exists accounts' : list Account,
       session_table (handle_client [Account.Build 0 S754_nan true] 1 4 (drop 1 turns) [])
       = Some accounts'
       /\ exists acc' : Account, accounts' !! 0%nat = Some acc' /\ poisoned acc'.
Proof.
  cbv zeta. split; [vm_compute; reflexivity |].
  eexists. split; [vm_compute; reflexivity |].
  refine (proj1 (nan_balance_is_permanent 1 4
                   [Build_turn false (Returned "1|0|50||"%string) (Build_environment 0 "" []);
                    Build_turn false (Returned "2|0|-1||"%string) (Build_environment 0 "" [])])
                [Account.Build 0 S754_nan true] [] _ 0%nat (Account.Build 0 S754_nan true)
                eq_refl _ _).
  - split; reflexivity.
  - vm_compute. reflexivity.
Defined.

(* ===================================================================== *)
(** * A pool in a scope                                                    *)
(* ===================================================================== *)

Section Scope.
Context {Task : Type}.

Import ThreadPool.

(** X26.  A pool used as a scoped object (constructed, given its jobs,
    destroyed at the end of the scope) and given at least one job gets
    to the end of its scope on some schedule exactly when it has at
    least one worker; and on whatever schedule it gets there, the jobs
    have been completed, each once. *)
Theorem scope_ends_iff_workers (numThreads : nat) (jobs : list Task) :
  jobs <> [] ->
  ((exists (sched : list tick) (order : list Task),
       run_scope jobs (new numThreads) sched = Some order)
   <-> (0 < numThreads)%nat)
  /\ (forall (sched : list tick) (order : list Task),
        run_scope jobs (new numThreads) sched = Some order -> order ≡ₚ jobs).
Proof.
  intros Hjobs. split; [split |].
  - intros (sched & order & Hrun).
    destruct numThreads as [| n]; [| lia].
    rewrite run_scope_stuck in Hrun; [discriminate | reflexivity | now left | now left].
  - intros Hn. exists (sequential_schedule numThreads (length jobs)), jobs.
    now apply run_scope_sequential.
  - intros sched order Hrun. eapply run_scope_new; eauto.
Qed.

End Scope.

Lemma scope_ends_iff_workers_witness :
  ThreadPool.run_scope [7%nat; 8%nat] (ThreadPool.new 2) (sequential_schedule 2 2)
  = Some [7%nat; 8%nat]
  /\ ~ exists (sched : list ThreadPool.tick) (order : list nat),
         ThreadPool.run_scope [7%nat; 8%nat] (ThreadPool.new 0) sched = Some order.
Proof.
  split; [vm_compute; reflexivity |].
  intros Hsome.
  apply (proj1 (scope_ends_iff_workers 0 [7%nat; 8%nat] ltac:(discriminate))) in Hsome.
  lia.
Defined.

(* ===================================================================== *)
(** * Lenient numbers in a request                                         *)
(* ===================================================================== *)

Section LenientFields.

Lemma skip_space_app (s rest : string) (c : ascii) (t : string) :
  skip_space s = String c t -> skip_space (s ++ rest) = String c (t ++ rest).
Proof.
  induction s as [| a s IH]; cbn [skip_space append]; [discriminate |].
  destruct (isspace a); [exact IH |].
  intros Heq. injection Heq as -> ->. reflexivity.
Qed.

Lemma read_sign_app (c : ascii) (t rest : string) :
  read_sign (String c (t ++ rest))
  = (fst (read_sign (String c t)), (snd (read_sign (String c t)) ++ rest)%string).
Proof. destruct c as [[] [] [] [] [] [] [] []]; reflexivity. Qed.

Lemma scan_digits_app (s rest : string) :
  no_digit_ahead rest = true ->
  forall (acc : Z) (n : nat),
    fst (scan_digits (s ++ rest) acc n) = fst (scan_digits s acc n).
Proof.
  intros Hrest. induction s as [| c s IH]; intros acc n; cbn [append].
  - destruct rest as [| c rest]; [reflexivity |].
    cbn [scan_digits]. cbn [no_digit_ahead] in Hrest.
    now destruct (isdigit c).
  - cbn [scan_digits]. destruct (isdigit c); [apply IH | reflexivity].
Qed.

(** What follows a numeral that [std::stoi] has read is ignored, as long
    as it does not go on with a digit. *)
Lemma stoi_ignores_rest (s rest : string) (v : Z) :
  stoi s = Returned v -> no_digit_ahead rest = true -> stoi (s ++ rest) = Returned v.
Proof.
  unfold stoi. intros Hs Hrest.
  destruct (skip_space s) as [| c t] eqn:Hskip; [discriminate Hs |].
  rewrite (skip_space_app s rest c t Hskip), read_sign_app.
  destruct (read_sign (String c t)) as [neg u]. cbn [fst snd].
  pose proof (scan_digits_app u rest Hrest 0 0%nat) as Hscan.
  destruct (scan_digits u 0 0) as [[v1 n1] r1].
  destruct (scan_digits (u ++ rest) 0 0) as [[v2 n2] r2].
  cbn [fst] in Hscan. injection Hscan as -> ->. exact Hs.
Qed.

(** X27.  [parseRequest] reads the kind and the subject of a request as
    numeric prefixes: text after the numeral in either field (not
    starting with a digit) is ignored, and the request parses as the one
    without it. *)
Theorem parseRequest_ignores_trailing_text
    (kind junk1 user junk2 amount filename data : string) (k u : Z) :
  stoi kind = Returned k ->
  stoi user = Returned u ->
  no_digit_ahead junk1 = true ->
  no_digit_ahead junk2 = true ->
  Forall (fun f => no_delimiter f = true) [kind; junk1; user; junk2; amount; filename; data] ->
  Request.parseRequest (join (kind ++ junk1) [(user ++ junk2)%string; amount; filename; data])
  = Request.parseRequest (join kind [user; amount; filename; data]).
Proof.
  intros Hk Hu Hj1 Hj2 Hfields.
  repeat match goal with
         | Hf : Forall _ (_ :: _) |- _ => apply Forall_cons_1 in Hf; destruct Hf as [? Hf]
         end.
  unfold Request.parseRequest.
  rewrite !split_join
    by (rewrite ?no_delimiter_app; repeat first [apply Forall_cons_2 | apply Forall_nil_2];
        rewrite ?no_delimiter_app; auto using andb_true_intro).
  cbn [length Nat.ltb Nat.leb Request.part nth].
  now rewrite (stoi_ignores_rest kind junk1 k Hk Hj1), (stoi_ignores_rest user junk2 u Hu Hj2),
    Hk, Hu.
Qed.

End LenientFields.

Lemma parseRequest_ignores_trailing_text_witness :
  Request.parseRequest "1 deposit|7th|50|f|d"
  = Returned (Request.Build DEPOSIT 7 (double_of_Z 50) "f" "d").
Proof.
  etransitivity.
  - exact (parseRequest_ignores_trailing_text "1" " deposit" "7" "th" "50" "f" "d" 1 7
             eq_refl eq_refl eq_refl eq_refl
             ltac:(repeat first [apply Forall_cons_2; [reflexivity |] | apply Forall_nil_2])).
  - vm_compute. reflexivity.
Defined.

(* ===================================================================== *)
(** * Logging out from the menu                                            *)
(* ===================================================================== *)

Section Logout.
Context {W : Type} `{Client.Terminal W}.

Import Client.

(** X28.  Logout from the menu cannot fail.  With a user logged in, at
    least one attempt allowed and no shutdown requested, the logout entry
    of the menu returns with no current user and the channels as they
    were, whatever the logging server answers (a refusal, an exception)
    and also with no logging server; the server is asked at most once,
    and the user is not asked about a retry. *)
Theorem menu_logout_logs_out (max_retries : Z) (s : locals W) :
  0 < max_retries ->
  current_user s <> -1 ->
  shutdown_requested (world s) = false ->
  exists (ev : list event) (s' : locals W),
    menu_case max_retries 7 s = (Returned (), ev, s')
    /\ current_user s' = -1
    /\ finance_channel s' = finance_channel s
    /\ logging_channel s' = logging_channel s
    /\ file_channel s' = file_channel s
    /\ running s' = running s
    /\ requests_sent ev
       = match logging_channel s with
         | Some logging => [(logging, Request.make2 LOGOUT (current_user s))]
         | None => []
         end
    /\ ~ In (Print "Operation failed. Retry? (y/n): ") ev.
Proof.
  intros Hmax Huser Hflag.
  apply Z.ltb_lt in Hmax. apply Z.eqb_neq in Huser.
  destruct s as [w finance logging file user run].
  cbn [world finance_channel logging_channel file_channel current_user running] in *.
  unfold menu_case, transaction, retry_operation, get, mbind, io_bind.
  cbn [current_user]. rewrite Huser. cbn [retry_loop].
  unfold block_signals, unblock_signals, shutdown_flag, attempt, logout_operation, exchange,
    catch, send_request, print, emit, set_current_user, get, mbind, io_bind, mret, io_ret.
  rewrite Hmax.
  cbn [world finance_channel logging_channel file_channel current_user running].
  rewrite Hflag.
  destruct logging as [logging |].
  - cbn [world finance_channel logging_channel file_channel current_user running].
    cbn.
    match goal with
    | |- context [@net_send_request _ _ ?c ?r ?w0] =>
        destruct (net_send_request c r w0) as [[resp | e] w']
    end;
      cbn; rewrite ?Hflag; cbn;
      (eexists _, _; split; [reflexivity |]; cbn; repeat split; auto;
       intros Hin; repeat (destruct Hin as [Hin | Hin]; [discriminate Hin |]); exact Hin).
  - cbn. eexists _, _. split; [reflexivity |]. cbn. repeat split; auto.
    intros Hin. repeat (destruct Hin as [Hin | Hin]; [discriminate Hin |]). exact Hin.
Qed.

End Logout.

Lemma menu_logout_logs_out_witness :
  let s := Client.Build (Build_script false [] [] [] []) None (Some 4) None 7 true in
  exists (ev : list Client.event) (s' : Client.locals script),
    Client.menu_case 3 7 s = (Returned (), ev, s')
    /\ Client.current_user s' = -1
    /\ requests_sent ev = [(4, Request.make2 LOGOUT 7)].
Proof.
  cbv zeta.
  destruct (menu_logout_logs_out 3
              (Client.Build (Build_script false [] [] [] []) None (Some 4) None 7 true)
              ltac:(lia) ltac:(discriminate) eq_refl)
    as (ev & s' & Hrun & Huser & _ & _ & _ & _ & Hsent & _).
  exists ev, s'. auto.
Defined.

(* ===================================================================== *)
(** * Six significant digits                                               *)
(* ===================================================================== *)

Section Rationals.

Local Open Scope Q_scope.

Lemma Qpow_pos (b : Q) (k : Z) : 0 < b -> 0 < b ^ k.
Proof. apply Qpower_0_lt. Qed.

Lemma Qpow_Z (b k : Z) : (0 <= k)%Z -> inject_Z (b ^ k) == inject_Z b ^ k.
Proof. apply Zpower_Qpower. Qed.

Lemma Qpow_add (b : Q) (j k : Z) : 0 < b -> b ^ (j + k) == b ^ j * b ^ k.
Proof. intros Hb. apply Qpower_plus. intros H0. rewrite H0 in Hb. discriminate. Qed.

Lemma Qpow_succ (b : Q) (k : Z) : 0 < b -> b ^ (k + 1) == b ^ k * b.
Proof. intros Hb. rewrite Qpow_add by exact Hb. now rewrite Qpower_1_r. Qed.

Lemma Qpow_mono (b : Q) (j k : Z) : 1 <= b -> (j <= k)%Z -> b ^ j <= b ^ k.
Proof. intros Hb Hjk. now apply Qpower_le_compat_l. Qed.

(** The quotient of two integers. *)
Lemma ratio_ge (a num den : Z) :
  (0 < den)%Z -> (a * den <= num)%Z -> inject_Z a <= inject_Z num / inject_Z den.
Proof.
  intros Hden Hle. apply Qle_shift_div_l.
  - change 0 with (inject_Z 0). now rewrite <- Zlt_Qlt.
  - rewrite <- inject_Z_mult. now rewrite <- Zle_Qle.
Qed.

Lemma ratio_lt (a num den : Z) :
  (0 < den)%Z -> (num < a * den)%Z -> inject_Z num / inject_Z den < inject_Z a.
Proof.
  intros Hden Hlt. apply Qlt_shift_div_r.
  - change 0 with (inject_Z 0). now rewrite <- Zlt_Qlt.
  - rewrite <- inject_Z_mult. now rewrite <- Zlt_Qlt.
Qed.

Lemma ratio_ge_inv (a num den : Z) :
  (0 < den)%Z -> (0 < a)%Z -> (den <= num * a)%Z ->
  / inject_Z a <= inject_Z num / inject_Z den.
Proof.
  intros Hden Ha Hle.
  assert (0 < inject_Z den) as Hd by (change 0 with (inject_Z 0); now rewrite <- Zlt_Qlt).
  assert (0 < inject_Z a) as Ha' by (change 0 with (inject_Z 0); now rewrite <- Zlt_Qlt).
  apply Qle_shift_div_l; [exact Hd |].
  setoid_replace (/ inject_Z a * inject_Z den) with (inject_Z den / inject_Z a) using relation Qeq
    by (unfold Qdiv; ring).
  apply Qle_shift_div_r; [exact Ha' |].
  rewrite <- inject_Z_mult. now rewrite <- Zle_Qle.
Qed.

Lemma ratio_lt_inv (a num den : Z) :
  (0 < den)%Z -> (0 < a)%Z -> (num * a < den)%Z ->
  inject_Z num / inject_Z den < / inject_Z a.
Proof.
  intros Hden Ha Hlt.
  assert (0 < inject_Z den) as Hd by (change 0 with (inject_Z 0); now rewrite <- Zlt_Qlt).
  assert (0 < inject_Z a) as Ha' by (change 0 with (inject_Z 0); now rewrite <- Zlt_Qlt).
  apply Qlt_shift_div_r; [exact Hd |].
  setoid_replace (/ inject_Z a * inject_Z den) with (inject_Z den / inject_Z a) using relation Qeq
    by (unfold Qdiv; ring).
  apply Qlt_shift_div_l; [exact Ha' |].
  rewrite <- inject_Z_mult. now rewrite <- Zlt_Qlt.
Qed.

(** A power with an integer base and an exponent of either sign. *)
Lemma Qpow_nonneg_exp (b k : Z) : (0 <= k)%Z -> inject_Z b ^ k == inject_Z (b ^ k).
Proof. intros Hk. now rewrite Zpower_Qpower. Qed.

Lemma Qpow_neg_exp (b k : Z) : (k < 0)%Z -> inject_Z b ^ k == / inject_Z (b ^ (- k)).
Proof.
  intros Hk. replace k with (- - k)%Z at 1 by lia.
  rewrite Qpower_opp. now rewrite Zpower_Qpower by lia.
Qed.

End Rationals.


Section DecimalExponent.

Lemma inject_Z_pos (z : Z) : 0 < z -> (0 < inject_Z z)%Q.
Proof. intros Hz. change 0%Q with (inject_Z 0). now rewrite <- Zlt_Qlt. Qed.

Lemma ratio_pos (num den : Z) : 0 < num -> 0 < den -> (0 < ratio num den)%Q.
Proof.
  intros Hn Hd. unfold ratio. apply Qlt_shift_div_l; [now apply inject_Z_pos |].
  rewrite Qmult_0_l. now apply inject_Z_pos.
Qed.

Lemma pow10_le_true (x num den : Z) :
  0 < den -> pow10_le x num den = true -> (10 ^ x <= ratio num den)%Q.
Proof.
  intros Hden. unfold pow10_le, ratio. destruct (0 <=? x) eqn:Hx.
  - apply Z.leb_le in Hx. intros Hle%Z.leb_le.
    change 10%Q with (inject_Z 10). rewrite Qpow_nonneg_exp by exact Hx.
    now apply ratio_ge.
  - apply Z.leb_gt in Hx. intros Hle%Z.leb_le.
    change 10%Q with (inject_Z 10). rewrite Qpow_neg_exp by exact Hx.
    apply ratio_ge_inv; [exact Hden | apply Z.pow_pos_nonneg; lia | exact Hle].
Qed.

Lemma pow10_le_false (x num den : Z) :
  0 < den -> pow10_le x num den = false -> (ratio num den < 10 ^ x)%Q.
Proof.
  intros Hden. unfold pow10_le, ratio. destruct (0 <=? x) eqn:Hx.
  - apply Z.leb_le in Hx. intros Hle%Z.leb_gt.
    change 10%Q with (inject_Z 10). rewrite Qpow_nonneg_exp by exact Hx.
    now apply ratio_lt.
  - apply Z.leb_gt in Hx. intros Hle%Z.leb_gt.
    change 10%Q with (inject_Z 10). rewrite Qpow_neg_exp by exact Hx.
    apply ratio_lt_inv; [exact Hden | apply Z.pow_pos_nonneg; lia | exact Hle].
Qed.

(** A quotient lies between the powers of two that the sizes of its
    terms give. *)
Lemma ratio_log2 (num den : Z) :
  0 < num -> 0 < den ->
  (2 ^ (Z.log2 num - Z.log2 den - 1) < ratio num den
   /\ ratio num den < 2 ^ (Z.log2 num - Z.log2 den + 1))%Q.
Proof.
  intros Hn Hd.
  destruct (Z.log2_spec num Hn) as [Hn1 Hn2].
  destruct (Z.log2_spec den Hd) as [Hd1 Hd2].
  pose proof (Z.log2_nonneg num) as Hln. pose proof (Z.log2_nonneg den) as Hld.
  set (ln := Z.log2 num) in *. set (ld := Z.log2 den) in *.
  assert (forall k, (0 < 2 ^ k)%Q) as Hpow by (intros k; now apply Qpow_pos).
  assert (inject_Z (2 ^ ln) <= inject_Z num)%Q as Qn1 by now rewrite <- Zle_Qle.
  assert (inject_Z num < inject_Z (2 ^ Z.succ ln))%Q as Qn2 by now rewrite <- Zlt_Qlt.
  assert (inject_Z (2 ^ ld) <= inject_Z den)%Q as Qd1 by now rewrite <- Zle_Qle.
  assert (inject_Z den < inject_Z (2 ^ Z.succ ld))%Q as Qd2 by now rewrite <- Zlt_Qlt.
  rewrite <- !Qpow_nonneg_exp in * by lia. change (inject_Z 2) with 2%Q in *.
  pose proof (inject_Z_pos den Hd) as Hdpos.
  unfold ratio. split.
  - apply Qlt_shift_div_l; [exact Hdpos |].
    apply Qlt_le_trans with (2 ^ (ln - ld - 1) * 2 ^ Z.succ ld)%Q.
    + apply Qmult_lt_l; [apply Hpow | exact Qd2].
    + rewrite <- Qpow_add by reflexivity.
      replace (ln - ld - 1 + Z.succ ld)%Z with ln by lia. exact Qn1.
  - apply Qlt_shift_div_r; [exact Hdpos |].
    apply Qlt_le_trans with (2 ^ Z.succ ln)%Q; [exact Qn2 |].
    apply Qle_trans with (2 ^ (ln - ld + 1) * 2 ^ ld)%Q.
    + rewrite <- Qpow_add by reflexivity.
      replace (ln - ld + 1 + ld)%Z with (Z.succ ln) by lia. apply Qle_refl.
    + apply Qmult_le_l; [apply Hpow | exact Qd1].
Qed.

Lemma estimate_fits_all :
  forallb estimate_fits (map (fun i => Z.of_nat i - 1200) (seq 0 2400)) = true.
Proof. vm_compute. reflexivity. Qed.

Lemma estimate_fits_range (l : Z) : -1200 <= l < 1200 -> estimate_fits l = true.
Proof.
  intros Hl. pose proof estimate_fits_all as Hall.
  rewrite forallb_forall in Hall. apply Hall.
  apply in_map_iff. exists (Z.to_nat (l + 1200)). split; [lia |].
  apply in_seq. lia.
Qed.

(** [decimal_exponent] is the decimal exponent. *)
Lemma decimal_exponent_tests (num den : Z) :
  0 < num -> 0 < den ->
  -1200 <= Z.log2 num - Z.log2 den < 1200 ->
  pow10_le (decimal_exponent num den) num den = true
  /\ pow10_le (decimal_exponent num den + 1) num den = false.
Proof.
  intros Hn Hd Hrange.
  destruct (ratio_log2 num den Hn Hd) as [Hlo Hhi].
  pose proof (estimate_fits_range _ Hrange) as Hfit.
  unfold estimate_fits in Hfit. apply andb_true_iff in Hfit as [Hup Hdown].
  apply Qle_bool_iff in Hup, Hdown.
  unfold decimal_exponent. fold (exponent_estimate (Z.log2 num - Z.log2 den)).
  set (x := exponent_estimate (Z.log2 num - Z.log2 den)) in *.
  assert (pow10_le (x + 1) num den = false) as Htop.
  { destruct (pow10_le (x + 1) num den) eqn:Htest; [| reflexivity].
    apply pow10_le_true in Htest; [| exact Hd].
    exfalso. apply (Qlt_irrefl (ratio num den)).
    eapply Qlt_le_trans; [exact Hhi |]. eapply Qle_trans; eassumption. }
  assert (pow10_le (x - 4) num den = true) as Hbottom.
  { destruct (pow10_le (x - 4) num den) eqn:Htest; [reflexivity |].
    apply pow10_le_false in Htest; [| exact Hd].
    exfalso. apply (Qlt_irrefl (ratio num den)).
    eapply Qlt_le_trans; [exact Htest |]. eapply Qle_trans; [exact Hdown |].
    now apply Qlt_le_weak. }
  cbn [descend_exponent].
  destruct (pow10_le x num den) eqn:H0; [now split |].
  destruct (pow10_le (x - 1) num den) eqn:H1.
  { split; [exact H1 |]. now replace (x - 1 + 1) with x by lia. }
  destruct (pow10_le (x - 1 - 1) num den) eqn:H2.
  { split; [exact H2 |]. now replace (x - 1 - 1 + 1) with (x - 1) by lia. }
  destruct (pow10_le (x - 1 - 1 - 1) num den) eqn:H3.
  { split; [exact H3 |]. now replace (x - 1 - 1 - 1 + 1) with (x - 1 - 1) by lia. }
  split.
  - now replace (x - 1 - 1 - 1 - 1) with (x - 4) by lia.
  - now replace (x - 1 - 1 - 1 - 1 + 1) with (x - 1 - 1 - 1) by lia.
Qed.

Lemma decimal_exponent_spec (num den : Z) :
  0 < num -> 0 < den ->
  -1200 <= Z.log2 num - Z.log2 den < 1200 ->
  (10 ^ decimal_exponent num den <= ratio num den
   /\ ratio num den < 10 ^ (decimal_exponent num den + 1))%Q.
Proof.
  intros Hn Hd Hrange.
  destruct (decimal_exponent_tests num den Hn Hd Hrange) as [Hge Hlt].
  split; [now apply pow10_le_true | now apply pow10_le_false].
Qed.

Lemma scaled_den_pos (x den : Z) : 0 < den -> 0 < scaled_den x den.
Proof.
  intros Hd. unfold scaled_den. destruct (0 <=? x - 5) eqn:Hx; [| exact Hd].
  apply Z.leb_le in Hx. apply Z.mul_pos_pos; [exact Hd | apply Z.pow_pos_nonneg; lia].
Qed.

Lemma scaled_ratio (x num den : Z) :
  0 < den ->
  (ratio (scaled_num x num) (scaled_den x den) == ratio num den * 10 ^ (5 - x))%Q.
Proof.
  intros Hd. unfold ratio, scaled_num, scaled_den.
  pose proof (inject_Z_pos den Hd) as Hdq.
  assert (~ inject_Z den == 0)%Q as Hd0 by (intros H0; rewrite H0 in Hdq; discriminate).
  change 10%Q with (inject_Z 10).
  destruct (0 <=? x - 5) eqn:Hx.
  - apply Z.leb_le in Hx.
    replace (5 - x) with (- (x - 5)) by lia.
    rewrite Qpower_opp, inject_Z_mult, (Qpow_nonneg_exp 10 (x - 5)) by lia.
    assert (0 < inject_Z (10 ^ (x - 5)))%Q as Hp
      by (apply inject_Z_pos, Z.pow_pos_nonneg; lia).
    field. split; [intros H0; rewrite H0 in Hp; discriminate | exact Hd0].
  - apply Z.leb_gt in Hx.
    rewrite inject_Z_mult, (Qpow_nonneg_exp 10 (5 - x)) by lia.
    field. exact Hd0.
Qed.

Lemma scaled_bounds (num den : Z) :
  0 < num -> 0 < den ->
  -1200 <= Z.log2 num - Z.log2 den < 1200 ->
  let x := decimal_exponent num den in
  100000 * scaled_den x den <= scaled_num x num < 1000000 * scaled_den x den.
Proof.
  intros Hn Hd Hrange x.
  destruct (decimal_exponent_tests num den Hn Hd Hrange) as [Hge Hlt].
  fold x in Hge, Hlt. unfold pow10_le in Hge, Hlt. unfold scaled_num, scaled_den.
  assert (forall k, 0 <= k -> 0 < 10 ^ k) as Hpow by (intros k Hk; apply Z.pow_pos_nonneg; lia).
  destruct (0 <=? x - 5) eqn:H5; [apply Z.leb_le in H5 | apply Z.leb_gt in H5].
  - destruct (0 <=? x) eqn:H0; [| apply Z.leb_gt in H0; lia].
    destruct (0 <=? x + 1) eqn:H1; [| apply Z.leb_gt in H1; lia].
    apply Z.leb_le in Hge. apply Z.leb_gt in Hlt.
    replace x with (5 + (x - 5)) in Hge at 1 by lia.
    replace (x + 1) with (6 + (x - 5)) in Hlt by lia.
    rewrite Z.pow_add_r in Hge, Hlt by lia.
    change (10 ^ 5) with 100000 in Hge. change (10 ^ 6) with 1000000 in Hlt. lia.
  - pose proof (Hpow (5 - x) ltac:(lia)) as Hp.
    split.
    + destruct (0 <=? x) eqn:H0; [apply Z.leb_le in H0 | apply Z.leb_gt in H0];
        apply Z.leb_le in Hge.
      * replace 100000 with (10 ^ (5 - x) * 10 ^ x)
          by (rewrite <- Z.pow_add_r by lia; now replace (5 - x + x) with 5 by lia).
        nia.
      * replace (5 - x) with (5 + - x) by lia. rewrite Z.pow_add_r by lia.
        change (10 ^ 5) with 100000. nia.
    + destruct (0 <=? x + 1) eqn:H1; [apply Z.leb_le in H1 | apply Z.leb_gt in H1];
        apply Z.leb_gt in Hlt.
      * replace 1000000 with (10 ^ (5 - x) * 10 ^ (x + 1))
          by (rewrite <- Z.pow_add_r by lia; now replace (5 - x + (x + 1)) with 6 by lia).
        nia.
      * replace (5 - x) with (6 + - (x + 1)) by lia. rewrite Z.pow_add_r by lia.
        change (10 ^ 6) with 1000000. pose proof (Hpow (- (x + 1)) ltac:(lia)). nia.
Qed.

Lemma nearest_half (q n dd : Z) :
  0 < dd -> Z.abs (2 * q * dd - 2 * n) <= dd ->
  (Qabs (inject_Z q - ratio n dd) <= 1 # 2)%Q.
Proof.
  intros Hd Hnear. destruct dd as [| p | p]; try lia.
  unfold ratio. rewrite <- Qmake_Qdiv.
  unfold Qle, Qabs, Qminus, Qplus, Qopp, inject_Z. cbn [Qnum Qden].
  rewrite Pos.mul_1_l. lia.
Qed.

(** The six digits are the nearest six-digit decimal. *)
Lemma six_digits_spec (num den : Z) :
  0 < num -> 0 < den ->
  -1200 <= Z.log2 num - Z.log2 den < 1200 ->
  let '(d, x) := six_digits num den in
  100000 <= d <= 999999
  /\ (Qabs (inject_Z d * 10 ^ (x - 5) - ratio num den) <= (1 # 2) * 10 ^ (x - 5))%Q
  /\ (Qabs (inject_Z d * 10 ^ (x - 5) - ratio num den) * 200000 <= ratio num den)%Q.
Proof.
  intros Hn Hd Hrange.
  pose proof (scaled_bounds num den Hn Hd Hrange) as Hb. cbv zeta in Hb.
  destruct (decimal_exponent_spec num den Hn Hd Hrange) as [Hlow _].
  pose proof (scaled_ratio (decimal_exponent num den) num den Hd) as Hw.
  pose proof (scaled_den_pos (decimal_exponent num den) den Hd) as Hdd.
  unfold six_digits.
  fold (scaled_num (decimal_exponent num den) num).
  fold (scaled_den (decimal_exponent num den) den).
  set (x := decimal_exponent num den) in *.
  set (n := scaled_num x num) in *. set (dd := scaled_den x den) in *.
  cbv zeta.
  pose proof (Z.div_mod n dd ltac:(lia)) as Hdiv.
  pose proof (Z.mod_pos_bound n dd Hdd) as Hr.
  assert (100000 <= n / dd) as Hq1 by (apply Z.div_le_lower_bound; lia).
  assert (n / dd < 1000000) as Hq2 by (apply Z.div_lt_upper_bound; lia).
  set (q := n / dd) in *. set (r := n mod dd) in *.
  set (q' := match 2 * r ?= dd with
             | Eq => if Z.even q then q else q + 1
             | Lt => q
             | Gt => q + 1
             end).
  assert (q <= q' <= q + 1 /\ Z.abs (2 * q' * dd - 2 * n) <= dd) as [Hq' Hnear].
  { subst q'. destruct (Z.compare_spec (2 * r) dd); [destruct (Z.even q) | |]; nia. }
  assert (Qabs (inject_Z q' * 10 ^ (x - 5) - ratio num den) <= (1 # 2) * 10 ^ (x - 5))%Q
    as Herr.
  { pose proof (nearest_half q' n dd Hdd Hnear) as Hhalf.
    assert (0 < 10 ^ (x - 5))%Q as Hp by now apply Qpow_pos.
    assert (ratio num den == ratio n dd * 10 ^ (x - 5))%Q as ->.
    { rewrite Hw, <- Qmult_assoc, <- Qpow_add by reflexivity.
      replace (5 - x + (x - 5)) with 0 by lia. now rewrite Qmult_1_r. }
    setoid_replace (inject_Z q' * 10 ^ (x - 5) - ratio n dd * 10 ^ (x - 5))%Q
      with ((inject_Z q' - ratio n dd) * 10 ^ (x - 5))%Q using relation Qeq by ring.
    rewrite Qabs_Qmult, (Qabs_pos (10 ^ (x - 5))) by now apply Qlt_le_weak.
    apply Qmult_le_compat_r; [exact Hhalf | now apply Qlt_le_weak]. }
  assert ((1 # 2) * 10 ^ (x - 5) * 200000 <= ratio num den)%Q as Hrel.
  { eapply Qle_trans; [| exact Hlow].
    replace x with (x - 5 + 5) at 2 by lia. rewrite Qpow_add by reflexivity.
    change (10 ^ 5)%Q with 100000%Q.
    setoid_replace ((1 # 2) * 10 ^ (x - 5) * 200000)%Q
      with (10 ^ (x - 5) * 100000)%Q using relation Qeq by ring.
    apply Qle_refl. }
  destruct (q' =? 1000000) eqn:Hcarry.
  - apply Z.eqb_eq in Hcarry. split; [lia |].
    assert (inject_Z 100000 * 10 ^ (x + 1 - 5) == inject_Z q' * 10 ^ (x - 5))%Q as Heq.
    { rewrite Hcarry. replace (x + 1 - 5) with (1 + (x - 5)) by lia.
      rewrite Qpow_add by reflexivity. change (10 ^ 1)%Q with 10%Q.
      change (inject_Z 100000) with 100000%Q. change (inject_Z 1000000) with 1000000%Q.
      ring. }
    rewrite Heq. split.
    + eapply Qle_trans; [exact Herr |].
      apply Qmult_le_l; [reflexivity |].
      apply Qpow_mono; [discriminate | lia].
    + eapply Qle_trans; [| exact Hrel].
      apply Qmult_le_compat_r; [exact Herr | discriminate].
  - apply Z.eqb_neq in Hcarry. split; [lia |]. split; [exact Herr |].
    eapply Qle_trans; [| exact Hrel].
    apply Qmult_le_compat_r; [exact Herr | discriminate].
Qed.

End DecimalExponent.

(* ===================================================================== *)
(** * Rounding a quotient to a double                                      *)
(* ===================================================================== *)

Section RoundedQuotient.

(** The mantissa after a normalising shift. *)
Lemma shr_fexp_value (m e : Z) (l : location) :
  0 <= m ->
  e <= fexp prec emax (Zdigits2 m + e) ->
  shr_m (fst (shr_fexp prec emax m e l)) = m / 2 ^ (fexp prec emax (Zdigits2 m + e) - e).
Proof.
  intros Hm He. unfold shr_fexp, shr.
  destruct (fexp prec emax (Zdigits2 m + e) - e) as [| p | p] eqn:Hn; try lia.
  - cbn [fst]. rewrite shr_m_of_loc. now rewrite Z.div_1_r.
  - cbn [fst]. rewrite iter_shr_1_m by now rewrite shr_m_of_loc.
    now rewrite shr_m_of_loc.
Qed.

(** A mantissa one above has the same number of digits, or is a power
    of two. *)
Lemma Zdigits2_succ (m : Z) :
  0 <= m -> Zdigits2 (m + 1) = Zdigits2 m \/ m + 1 = 2 ^ Zdigits2 m.
Proof.
  intros Hm. destruct (Z.eq_dec m 0) as [-> | Hne]; [right; reflexivity |].
  rewrite !Zdigits2_log2 by lia.
  destruct (Z.log2_spec m ltac:(lia)) as [Hlo Hhi].
  destruct (Z.log2_spec (m + 1) ltac:(lia)) as [Hlo1 Hhi1].
  pose proof (Z.log2_le_mono m (m + 1) ltac:(lia)) as Hmono.
  destruct (Z.eq_dec (Z.log2 (m + 1)) (Z.log2 m)) as [Heq | Hneq]; [left; lia |].
  right. replace (Z.log2 m + 1) with (Z.succ (Z.log2 m)) by lia.
  assert (2 ^ Z.succ (Z.log2 m) <= 2 ^ Z.log2 (m + 1))
    by (apply Z.pow_le_mono_r; lia).
  lia.
Qed.

(** What [binary_round_aux] gives, by the truncated mantissa [m1] at the
    canonical exponent [e1]: the mantissa [m1] or [m1 + 1] at [e1], shifted
    by one place when [m1 + 1] has one digit more than fits. *)
Lemma binary_round_aux_value (sx : bool) (m e : Z) (l : location) :
  0 <= m ->
  e <= fexp prec emax (Zdigits2 m + e) ->
  let e1 := fexp prec emax (Zdigits2 m + e) in
  let m1 := m / 2 ^ (e1 - e) in
  exists m3 e3 : Z,
    ((m1 <= m3 <= m1 + 1 /\ e3 = e1)
     \/ (2 * m3 = m1 + 1 /\ e3 = e1 + 1))
    /\ 0 <= m3
    /\ fexp prec emax (Zdigits2 m3 + e3) = e3
    /\ binary_round_aux prec emax sx m e l
       = match m3 with
         | Z0 => S754_zero sx
         | Zpos p => if e3 <=? emax - prec then S754_finite sx p e3 else S754_infinity sx
         | Zneg _ => S754_nan
         end.
Proof.
  intros Hm He e1 m1. unfold binary_round_aux.
  pose proof (shr_fexp_spec m e l Hm He) as H1.
  pose proof (shr_fexp_value m e l Hm He) as Hv1.
  destruct (shr_fexp prec emax m e l) as [mrs1 e1'].
  destruct H1 as (Hm1 & -> & Hc1). cbn [fst] in Hv1. fold e1 in Hv1, Hc1 |- *. fold m1 in Hv1.
  pose proof (round_nearest_even_bounds (shr_m mrs1) (loc_of_shr_record mrs1)) as Hr.
  set (m2 := round_nearest_even (shr_m mrs1) (loc_of_shr_record mrs1)) in *.
  rewrite Hv1 in Hr, Hm1, Hc1.
  assert (e1 <= fexp prec emax (Zdigits2 m2 + e1)) as He1.
  { pose proof (Zdigits2_mono m1 m2 ltac:(lia)) as Hd.
    rewrite !fexp_eq in *. lia. }
  pose proof (shr_fexp_spec m2 e1 loc_Exact ltac:(lia) He1) as H2.
  pose proof (shr_fexp_value m2 e1 loc_Exact ltac:(lia) He1) as Hv2.
  destruct (shr_fexp prec emax m2 e1 loc_Exact) as [mrs2 e2].
  destruct H2 as (Hm2 & He2 & Hc2). cbn [fst] in Hv2.
  exists (shr_m mrs2), e2. split; [| split; [exact Hm2 | split; [exact Hc2 | reflexivity]]].
  assert (m2 = m1 \/ m2 = m1 + 1) as [Hsame | Hup] by lia.
  - left. rewrite Hsame in He2, Hv2. rewrite Hc1 in He2, Hv2.
    rewrite Z.sub_diag, Z.div_1_r in Hv2. lia.
  - rewrite Hup in He2, Hv2.
    destruct (Zdigits2_succ m1 Hm1) as [Hdig | Hpow].
    + left. rewrite Hdig, Hc1 in He2, Hv2.
      rewrite Z.sub_diag, Z.div_1_r in Hv2. lia.
    + rewrite !fexp_eq in *.
      assert (Zdigits2 (m1 + 1) = Zdigits2 m1 + 1) as Hdig.
      { rewrite Hpow. pose proof (Zdigits2_nonneg m1) as Hnn.
        rewrite Zdigits2_log2 by (apply Z.pow_pos_nonneg; lia).
        now rewrite Z.log2_pow2 by exact Hnn. }
      rewrite Hdig in He2, Hv2.
      destruct (Z.eq_dec e2 e1) as [Heq | Hneq].
      * left. rewrite He2 in Heq. rewrite Heq, Z.sub_diag, Z.div_1_r in Hv2. lia.
      * right. assert (e2 = e1 + 1) as He21 by lia.
        split; [| exact He21].
        replace (Z.max (Zdigits2 m1 + 1 + e1 - 53) (-1074) - e1) with 1 in Hv2 by lia.
        change (2 ^ 1) with 2 in Hv2.
        assert (0 < Zdigits2 m1) as Hpos by lia.
        rewrite Hv2, Hpow.
        assert (2 ^ Zdigits2 m1 = 2 ^ (Zdigits2 m1 - 1) * 2) as ->.
        { replace (Zdigits2 m1) with (Zdigits2 m1 - 1 + 1) at 1 by lia.
          now rewrite Z.pow_add_r by lia. }
        rewrite Z.div_mul by lia. lia.
Qed.

(** The quotient that [SFdiv] hands to the rounding, for two integers. *)
Lemma div_core_spec (num den : Z) :
  0 < num -> 0 < den ->
  let e' := Z.min (fexp prec emax (Zdigits2 num - Zdigits2 den)) 0 in
  let q := num * 2 ^ (- e') / den in
  exists l : location,
    SFdiv_core_binary prec emax num 0 den 0 = (q, e', l)
    /\ 0 <= q
    /\ -1074 <= e' <= 0
    /\ e' <= fexp prec emax (Zdigits2 q + e').
Proof.
  intros Hn Hd e' q. unfold SFdiv_core_binary.
  rewrite !Z.add_0_r, Z.sub_diag, Z.sub_0_l. fold e'.
  assert (-1074 <= e' <= 0) as He' by (subst e'; rewrite fexp_eq; lia).
  assert (match - e' with
          | 0 => num
          | Z.pos _ => Z.shiftl num (- e')
          | Z.neg _ => 0
          end = num * 2 ^ (- e')) as ->.
  { destruct (- e') as [| p | p] eqn:Hs; [lia | | lia].
    now rewrite Z.shiftl_mul_pow2 by lia. }
  assert (0 < 2 ^ (- e')) as Hpow by (apply Z.pow_pos_nonneg; lia).
  assert (0 <= q) as Hq by (apply Z.div_pos; nia).
  pose proof (Z.div_eucl_eq (num * 2 ^ (- e')) den ltac:(lia)) as Heucl.
  unfold Z.div in q.
  destruct (Z.div_eucl (num * 2 ^ (- e')) den) as [q0 r] eqn:Hqr.
  cbn [fst] in q. subst q.
  exists (new_location den r). split; [| split; [exact Hq | split; [exact He' |]]].
  { unfold new_location. reflexivity. }
  rewrite fexp_eq.
  destruct (Z.eq_dec e' (-1074)) as [-> | Hne]; [lia |].
  (* a quotient of at least 53 digits *)
  assert (53 <= Zdigits2 num - Zdigits2 den - e') as Hdig.
  { subst e'. rewrite fexp_eq in *. lia. }
  pose proof (Z.mod_pos_bound (num * 2 ^ (- e')) den Hd) as Hr.
  assert (r = (num * 2 ^ (- e')) mod den) as Hrmod
    by (unfold Z.modulo; now rewrite Hqr).
  rewrite !Zdigits2_log2 in Hdig by lia.
  destruct (Z.log2_spec num Hn) as [Hn1 _]. destruct (Z.log2_spec den Hd) as [_ Hd2].
  assert (2 ^ 52 <= q0) as Hbig.
  { assert (2 ^ (Z.log2 num - e' - Z.succ (Z.log2 den)) * 2 ^ Z.succ (Z.log2 den)
            = 2 ^ Z.log2 num * 2 ^ (- e')) as Hsplit.
    { rewrite <- !Z.pow_add_r by (pose proof (Z.log2_nonneg num);
                                  pose proof (Z.log2_nonneg den); lia).
      f_equal. lia. }
    assert (2 ^ 52 <= 2 ^ (Z.log2 num - e' - Z.succ (Z.log2 den))) as Hexp
      by (apply Z.pow_le_mono_r; lia).
    assert (0 < 2 ^ Z.succ (Z.log2 den)) as Hp2
      by (apply Z.pow_pos_nonneg; [lia | pose proof (Z.log2_nonneg den); lia]).
    destruct (Z_lt_le_dec q0 (2 ^ 52)) as [Hsmall | Hok]; [exfalso | exact Hok].
    assert (den * q0 + r < den * 2 ^ 52) by nia.
    nia. }
  rewrite Zdigits2_log2 by lia.
  pose proof (Z.log2_le_mono (2 ^ 52) q0 Hbig) as Hlog.
  rewrite Z.log2_pow2 in Hlog by lia. lia.
Qed.

(** [round_ratio] is that rounding. *)
Lemma round_ratio_unfold (neg : bool) (num den : Z) :
  0 < num -> 0 < den ->
  let e' := Z.min (fexp prec emax (Zdigits2 num - Zdigits2 den)) 0 in
  let q := num * 2 ^ (- e') / den in
  exists l : location,
    round_ratio neg num den = binary_round_aux prec emax neg q e' l.
Proof.
  intros Hn Hd e' q.
  destruct (div_core_spec num den Hn Hd) as (l & Hcore & _). fold e' q in Hcore.
  exists l. unfold round_ratio.
  destruct num as [| n | n]; try lia. destruct den as [| dp | dp]; try lia.
  cbn [Z.to_pos]. unfold SFdiv. rewrite Hcore. now rewrite xorb_false_r.
Qed.

Lemma Zdigits2_le (m k : Z) : 0 <= m -> 0 <= k -> Zdigits2 m <= k <-> m < 2 ^ k.
Proof.
  intros Hm Hk. destruct (Z.eq_dec m 0) as [-> | Hne].
  - cbn [Zdigits2]. pose proof (Z.pow_pos_nonneg 2 k ltac:(lia) Hk). lia.
  - rewrite Zdigits2_log2 by lia.
    pose proof (Z.log2_lt_pow2 m k ltac:(lia)) as Hiff. lia.
Qed.

(** A canonical mantissa has at most 53 digits, and exactly 53 above the
    least exponent. *)
Lemma canonical_digits (m e : Z) :
  0 <= m ->
  fexp prec emax (Zdigits2 m + e) = e ->
  -1074 <= e /\ m < 2 ^ 53 /\ (-1074 < e -> 2 ^ 52 <= m).
Proof.
  intros Hm Hc. rewrite fexp_eq in Hc.
  split; [lia |]. split.
  - apply Zdigits2_le; lia.
  - intros He. destruct (Z_lt_le_dec m (2 ^ 52)) as [Hlt | Hge]; [| exact Hge].
    apply Zdigits2_le in Hlt; lia.
Qed.

(** What [round_ratio] gives for a quotient of two positive integers:
    the quotient lies between [m1] and [m1 + 1] units of [2^e1], and the
    result is one of the two, in canonical form. *)
Lemma round_ratio_cases (neg : bool) (num den : Z) :
  0 < num -> 0 < den ->
  exists m1 e1 m3 e3 : Z,
    0 <= m1
    /\ fexp prec emax (Zdigits2 m1 + e1) = e1
    /\ m1 * 2 ^ (e1 + 1074) * den <= num * 2 ^ 1074 < (m1 + 1) * 2 ^ (e1 + 1074) * den
    /\ ((m1 <= m3 <= m1 + 1 /\ e3 = e1) \/ (2 * m3 = m1 + 1 /\ e3 = e1 + 1))
    /\ 0 <= m3
    /\ fexp prec emax (Zdigits2 m3 + e3) = e3
    /\ round_ratio neg num den
       = match m3 with
         | Z0 => S754_zero neg
         | Zpos p => if e3 <=? emax - prec then S754_finite neg p e3 else S754_infinity neg
         | Zneg _ => S754_nan
         end.
Proof.
  intros Hn Hd.
  destruct (div_core_spec num den Hn Hd) as (l0 & _ & Hq & He' & Hcan).
  destruct (round_ratio_unfold neg num den Hn Hd) as (l & ->).
  set (e' := Z.min (fexp prec emax (Zdigits2 num - Zdigits2 den)) 0) in *.
  set (q := num * 2 ^ (- e') / den) in *.
  destruct (binary_round_aux_value neg q e' l Hq Hcan) as (m3 & e3 & Hcases & Hm3 & Hc3 & ->).
  pose proof (shr_fexp_spec q e' l Hq Hcan) as Hshr.
  pose proof (shr_fexp_value q e' l Hq Hcan) as Hval.
  destruct (shr_fexp prec emax q e' l) as [mrs e1']. cbn [fst] in Hval.
  destruct Hshr as (Hm1 & -> & Hc1). rewrite Hval in Hm1, Hc1.
  set (e1 := fexp prec emax (Zdigits2 q + e')) in *.
  set (k := e1 - e') in *.
  exists (q / 2 ^ k), e1, m3, e3.
  split; [exact Hm1 |]. split; [exact Hc1 |].
  split; [| split; [exact Hcases | split; [exact Hm3 | split; [exact Hc3 | reflexivity]]]].
  assert (0 <= k) as Hk by (subst k; lia).
  assert (0 < 2 ^ k) as Hpk by (apply Z.pow_pos_nonneg; lia).
  assert (0 < 2 ^ (- e')) as Hps by (apply Z.pow_pos_nonneg; lia).
  assert (0 < 2 ^ (1074 + e')) as Hpr by (apply Z.pow_pos_nonneg; lia).
  pose proof (Z.div_mod q (2 ^ k) ltac:(lia)) as Hdiv1.
  pose proof (Z.mod_pos_bound q (2 ^ k) Hpk) as Hr1.
  pose proof (Z.div_mod (num * 2 ^ (- e')) den ltac:(lia)) as Hdiv2.
  pose proof (Z.mod_pos_bound (num * 2 ^ (- e')) den Hd) as Hr2.
  fold q in Hdiv2.
  assert (2 ^ (e1 + 1074) = 2 ^ k * 2 ^ (1074 + e')) as ->
    by (rewrite <- Z.pow_add_r by lia; f_equal; subst k; lia).
  assert (2 ^ 1074 = 2 ^ (- e') * 2 ^ (1074 + e')) as ->
    by (rewrite <- Z.pow_add_r by lia; f_equal; lia).
  set (m1 := q / 2 ^ k) in *.
  assert (m1 * 2 ^ k * den <= num * 2 ^ (- e') < (m1 + 1) * 2 ^ k * den) as [Hlo Hhi] by nia.
  split; nia.
Qed.

(** A quotient in the normal range rounds to a normal double next to
    it. *)
Lemma round_ratio_normal (neg : bool) (num den : Z) :
  0 < num -> 0 < den ->
  den <= num * 2 ^ 1022 ->
  num <= (2 ^ 1024 - 2 ^ 1000) * den ->
  exists (my : positive) (ey : Z),
    round_ratio neg num den = S754_finite neg my ey
    /\ bounded prec emax my ey = true
    /\ 2 ^ 52 <= Zpos my
    /\ -1074 <= ey
    /\ Z.abs (Zpos my * 2 ^ (ey + 1074) * den - num * 2 ^ 1074) <= 2 ^ (ey + 1074) * den.
Proof.
  intros Hn Hd Hlow Hhigh.
  destruct (round_ratio_cases neg num den Hn Hd)
    as (m1 & e1 & m3 & e3 & Hm1 & Hc1 & [Hlo Hhi] & Hcases & Hm3 & Hc3 & ->).
  destruct (canonical_digits m1 e1 Hm1 Hc1) as (He1 & Hm1hi & Hm1lo).
  destruct (canonical_digits m3 e3 Hm3 Hc3) as (He3 & Hm3hi & Hm3lo).
  assert (0 < 2 ^ (e1 + 1074)) as Hp1 by (apply Z.pow_pos_nonneg; lia).
  (* the truncated mantissa has 53 digits *)
  assert (2 ^ 52 <= m1) as Hbig.
  { destruct (Z.eq_dec e1 (-1074)) as [Hmin | Hmore]; [| apply Hm1lo; lia].
    destruct (Z_lt_le_dec m1 (2 ^ 52)) as [Hsmall | Hok]; [exfalso | exact Hok].
    rewrite Hmin in Hhi. change (2 ^ (-1074 + 1074)) with 1 in Hhi.
    change (2 ^ 1074) with (2 ^ 1022 * 2 ^ 52) in Hhi.
    assert ((m1 + 1) * 1 * den <= 2 ^ 52 * den) by nia.
    nia. }
  (* its exponent is below the largest *)
  assert (e1 <= 971) as He1hi.
  { destruct (Z_lt_le_dec 971 e1) as [Habove | Hok]; [exfalso | lia].
    assert (2 ^ (972 + 1074) <= 2 ^ (e1 + 1074)) as Hmono
      by (apply Z.pow_le_mono_r; lia).
    assert (2 ^ 52 * 2 ^ (972 + 1074) * den <= num * 2 ^ 1074) as Hchain.
    { eapply Z.le_trans; [| exact Hlo].
      apply Z.mul_le_mono_nonneg_r; [lia |].
      apply Z.mul_le_mono_nonneg; lia. }
    assert (num * 2 ^ 1074 <= (2 ^ 1024 - 2 ^ 1000) * den * 2 ^ 1074) as Hcap
      by (apply Z.mul_le_mono_nonneg_r; lia).
    assert (2 ^ 52 * 2 ^ (972 + 1074) * den > (2 ^ 1024 - 2 ^ 1000) * den * 2 ^ 1074)
      as Hgap.
    { assert (2 ^ 52 * 2 ^ (972 + 1074) > (2 ^ 1024 - 2 ^ 1000) * 2 ^ 1074) as Hc
        by (vm_compute; reflexivity).
      nia. }
    lia. }
  destruct Hcases as [[Hm3' ->] | [Hdouble ->]].
  - destruct m3 as [| my | my]; try lia.
    assert ((e1 <=? emax - prec) = true) as -> by (apply Z.leb_le; unfold emax, prec; lia).
    exists my, e1. split; [reflexivity |].
    split.
    { unfold bounded, canonical_mantissa. cbn [Zdigits2] in Hc3.
      rewrite Hc3, Z.eqb_refl. apply Z.leb_le. unfold emax, prec. lia. }
    split; [lia |]. split; [exact He1 |].
    assert (Z.pos my = m1 \/ Z.pos my = m1 + 1) as [-> | ->] by lia; nia.
  - assert (2 ^ 52 <= m3) as Hm3big by (apply Hm3lo; lia).
    destruct m3 as [| my | my]; try lia.
    assert (m1 + 1 = 2 ^ 53) as Hfull by (change (2 ^ 53) with (2 * 2 ^ 52); lia).
    assert (e1 <= 970) as He1max.
    { destruct (Z.eq_dec e1 971) as [Hlast | Hless]; [exfalso | lia].
      rewrite Hlast in Hlo. replace m1 with (2 ^ 53 - 1) in Hlo by lia.
      assert (num * 2 ^ 1074 <= (2 ^ 1024 - 2 ^ 1000) * den * 2 ^ 1074) as Hcap
        by (apply Z.mul_le_mono_nonneg_r; lia).
      assert ((2 ^ 53 - 1) * 2 ^ (971 + 1074) > (2 ^ 1024 - 2 ^ 1000) * 2 ^ 1074) as Hc
        by (vm_compute; reflexivity).
      nia. }
    assert ((e1 + 1 <=? emax - prec) = true) as ->
      by (apply Z.leb_le; unfold emax, prec; lia).
    exists my, (e1 + 1). split; [reflexivity |].
    split.
    { unfold bounded, canonical_mantissa. cbn [Zdigits2] in Hc3.
      rewrite Hc3, Z.eqb_refl. apply Z.leb_le. unfold emax, prec. lia. }
    split; [exact Hm3big |]. split; [lia |].
    replace (e1 + 1 + 1074) with (1 + (e1 + 1074)) by lia.
    rewrite Z.pow_add_r by lia. change (2 ^ 1) with 2. nia.
Qed.

(** A quotient below the normal range, and not within one unit of it,
    rounds to zero or to a subnormal double. *)
Lemma round_ratio_tiny (neg : bool) (num den : Z) :
  0 < num -> 0 < den ->
  num * 2 ^ 1074 < (2 ^ 52 - 1) * den ->
  round_ratio neg num den = S754_zero neg
  \/ exists my : positive,
       round_ratio neg num den = S754_finite neg my (-1074) /\ Zpos my < 2 ^ 52.
Proof.
  intros Hn Hd Hsmall.
  destruct (round_ratio_cases neg num den Hn Hd)
    as (m1 & e1 & m3 & e3 & Hm1 & Hc1 & [Hlo Hhi] & Hcases & Hm3 & Hc3 & ->).
  destruct (canonical_digits m1 e1 Hm1 Hc1) as (He1 & Hm1hi & Hm1lo).
  destruct (canonical_digits m3 e3 Hm3 Hc3) as (He3 & Hm3hi & Hm3lo).
  assert (e1 = -1074) as ->.
  { destruct (Z.eq_dec e1 (-1074)) as [Hmin | Hmore]; [exact Hmin | exfalso].
    specialize (Hm1lo ltac:(lia)).
    assert (2 ^ 1 <= 2 ^ (e1 + 1074)) as Hmono by (apply Z.pow_le_mono_r; lia).
    change (2 ^ 1) with 2 in Hmono.
    assert (2 ^ 52 * 2 * den <= m1 * 2 ^ (e1 + 1074) * den) as Hchain.
    { apply Z.mul_le_mono_nonneg_r; [lia |]. apply Z.mul_le_mono_nonneg; lia. }
    lia. }
  change (2 ^ (-1074 + 1074)) with 1 in Hlo, Hhi.
  assert (m1 + 1 < 2 ^ 52) as Hm1small by nia.
  destruct Hcases as [[Hm3' ->] | [Hdouble ->]].
  - destruct m3 as [| my | my]; try lia; [now left |].
    right. exists my. split; [reflexivity | lia].
  - exfalso. specialize (Hm3lo ltac:(lia)). lia.
Qed.

End RoundedQuotient.

(* ===================================================================== *)
(** * [strtod] on a decimal                                                *)
(* ===================================================================== *)

Section Strtod.

Lemma ratio_le_inv (a num den : Z) :
  0 < den -> (ratio num den <= inject_Z a)%Q -> num <= a * den.
Proof.
  intros Hd Hle. pose proof (inject_Z_pos den Hd) as Hdq.
  rewrite Zle_Qle, inject_Z_mult.
  setoid_replace (inject_Z num) with (ratio num den * inject_Z den)%Q using relation Qeq.
  - apply Qmult_le_compat_r; [exact Hle | now apply Qlt_le_weak].
  - unfold ratio. field. intros H0. rewrite H0 in Hdq. discriminate.
Qed.

Lemma ratio_ge_inv' (a num den : Z) :
  0 < den -> (inject_Z a <= ratio num den)%Q -> a * den <= num.
Proof.
  intros Hd Hle. pose proof (inject_Z_pos den Hd) as Hdq.
  rewrite Zle_Qle, inject_Z_mult.
  setoid_replace (inject_Z num) with (ratio num den * inject_Z den)%Q using relation Qeq.
  - apply Qmult_le_compat_r; [exact Hle | now apply Qlt_le_weak].
  - unfold ratio. field. intros H0. rewrite H0 in Hdq. discriminate.
Qed.

Lemma ratio_lt_inv' (a num den : Z) :
  0 < den -> (ratio num den < inject_Z a)%Q -> num < a * den.
Proof.
  intros Hd Hlt. pose proof (inject_Z_pos den Hd) as Hdq.
  rewrite Zlt_Qlt, inject_Z_mult.
  setoid_replace (inject_Z num) with (ratio num den * inject_Z den)%Q using relation Qeq.
  - apply Qmult_lt_r; assumption.
  - unfold ratio. field. intros H0. rewrite H0 in Hdq. discriminate.
Qed.

Lemma ratio_scale (num den c : Z) :
  0 < den -> (ratio (num * c) den == ratio num den * inject_Z c)%Q.
Proof.
  intros Hd. pose proof (inject_Z_pos den Hd) as Hdq.
  unfold ratio. rewrite inject_Z_mult. field.
  intros H0. rewrite H0 in Hdq. discriminate.
Qed.

(** Units of a power of two against a quotient. *)
Lemma units_le_ratio (a e num den : Z) :
  0 < den -> -1074 <= e ->
  a * 2 ^ (e + 1074) * den <= num * 2 ^ 1074 ->
  (inject_Z a * 2 ^ e <= ratio num den)%Q.
Proof.
  intros Hd He Hle.
  assert (0 < 2 ^ 1074)%Q as Hp by reflexivity.
  apply (Qmult_le_r _ _ (2 ^ 1074)%Q Hp).
  rewrite <- Qmult_assoc, <- Qpow_add by reflexivity.
  change 2%Q with (inject_Z 2). rewrite !Qpow_nonneg_exp by lia.
  rewrite <- ratio_scale, <- inject_Z_mult by exact Hd.
  apply ratio_ge; [exact Hd | lia].
Qed.

Lemma ratio_le_units (a e num den : Z) :
  0 < den -> -1074 <= e ->
  num * 2 ^ 1074 <= a * 2 ^ (e + 1074) * den ->
  (ratio num den <= inject_Z a * 2 ^ e)%Q.
Proof.
  intros Hd He Hle. pose proof (inject_Z_pos den Hd) as Hdq.
  assert (0 < 2 ^ 1074)%Q as Hp by reflexivity.
  apply (Qmult_le_r _ _ (2 ^ 1074)%Q Hp).
  rewrite <- Qmult_assoc, <- Qpow_add by reflexivity.
  change 2%Q with (inject_Z 2). rewrite !Qpow_nonneg_exp by lia.
  rewrite <- ratio_scale, <- inject_Z_mult by exact Hd.
  unfold ratio. apply Qle_shift_div_r; [exact Hdq |].
  rewrite <- inject_Z_mult. now rewrite <- Zle_Qle.
Qed.

Lemma decimal_den_pos (e : Z) : 0 < decimal_den e.
Proof.
  unfold decimal_den. destruct (0 <=? e) eqn:He; [lia |].
  apply Z.leb_gt in He. apply Z.pow_pos_nonneg; lia.
Qed.

Lemma decimal_num_pos (m e : Z) : 0 < m -> 0 < decimal_num m e.
Proof.
  intros Hm. unfold decimal_num. destruct (0 <=? e) eqn:He; [| exact Hm].
  apply Z.leb_le in He. apply Z.mul_pos_pos; [exact Hm | apply Z.pow_pos_nonneg; lia].
Qed.

Lemma decimal_ratio (m e : Z) :
  (ratio (decimal_num m e) (decimal_den e) == inject_Z m * 10 ^ e)%Q.
Proof.
  unfold ratio, decimal_num, decimal_den. change 10%Q with (inject_Z 10).
  destruct (0 <=? e) eqn:He; [apply Z.leb_le in He | apply Z.leb_gt in He].
  - rewrite inject_Z_mult, Qpow_nonneg_exp by exact He. change (inject_Z 1) with 1%Q.
    field.
  - rewrite Qpow_neg_exp by exact He. reflexivity.
Qed.

(** A decimal in the normal range is read as a normal double next to
    it. *)
Lemma strtod_normal (neg : bool) (m e : Z) :
  0 < m ->
  (2 ^ (-1022) <= inject_Z m * 10 ^ e)%Q ->
  (inject_Z m * 10 ^ e <= 2 ^ 1024 - 2 ^ 1000)%Q ->
  exists (my : positive) (ey : Z),
    strtod_value neg 10 m e = Returned (S754_finite neg my ey)
    /\ bounded prec emax my ey = true
    /\ 2 ^ 52 <= Zpos my
    /\ (Qabs (inject_Z (Zpos my) * 2 ^ ey - inject_Z m * 10 ^ e) <= 2 ^ ey)%Q.
Proof.
  intros Hm Hlow Hhigh.
  pose proof (decimal_num_pos m e Hm) as Hn. pose proof (decimal_den_pos e) as Hd.
  rewrite <- decimal_ratio in Hlow, Hhigh.
  unfold strtod_value. fold (decimal_num m e) (decimal_den e).
  set (num := decimal_num m e) in *. set (den := decimal_den e) in *.
  assert (den <= num * 2 ^ 1022) as Hlow'.
  { destruct (Z_lt_le_dec (num * 2 ^ 1022) den) as [Hlt | Hok]; [exfalso | exact Hok].
    apply (ratio_lt_inv (2 ^ 1022) num den Hd ltac:(lia)) in Hlt.
    fold (ratio num den) in Hlt.
    apply (Qlt_irrefl (ratio num den)). eapply Qlt_le_trans; [exact Hlt |].
    exact Hlow. }
  assert (num <= (2 ^ 1024 - 2 ^ 1000) * den) as Hhigh'
    by (apply ratio_le_inv; [exact Hd | exact Hhigh]).
  destruct (round_ratio_normal neg num den Hn Hd Hlow' Hhigh')
    as (my & ey & -> & Hvalid & Hbig & Hey & Hnear).
  exists my, ey.
  assert (is_subnormal (S754_finite neg my ey) = false) as Hnormal.
  { cbn [is_subnormal]. apply Z.ltb_ge.
    destruct (Z_lt_le_dec (Z.pos (digits2_pos my)) prec) as [Hlt | Hok]; [exfalso | exact Hok].
    change (Z.pos (digits2_pos my)) with (Zdigits2 (Z.pos my)) in Hlt.
    assert (Zdigits2 (Z.pos my) <= 52) as Hle by (unfold prec in Hlt; lia).
    apply Zdigits2_le in Hle; lia. }
  cbn [is_zero orb]. rewrite Hnormal. cbn [andb].
  split; [reflexivity |]. split; [exact Hvalid |]. split; [exact Hbig |].
  assert (0 < 2 ^ (ey + 1074)) as Hp by (apply Z.pow_pos_nonneg; lia).
  rewrite <- decimal_ratio. fold num den.
  apply Qabs_Qle_condition. split.
  - assert (ratio num den <= inject_Z (Z.pos my + 1) * 2 ^ ey)%Q as Hup
      by (apply ratio_le_units; [exact Hd | exact Hey | lia]).
    rewrite inject_Z_plus in Hup. change (inject_Z 1) with 1%Q in Hup. lra.
  - assert (inject_Z (Z.pos my - 1) * 2 ^ ey <= ratio num den)%Q as Hdown
      by (apply units_le_ratio; [exact Hd | exact Hey | lia]).
    unfold Z.sub in Hdown. rewrite inject_Z_plus in Hdown.
    change (inject_Z (- (1))) with (- (1))%Q in Hdown. lra.
Qed.

(** A power of five that divides a multiple of a power of two divides
    the other factor. *)
Lemma five_divides (k m c : Z) :
  0 <= k -> 0 < m -> c * 10 ^ k = m * 2 ^ 1074 -> 5 ^ k <= m.
Proof.
  intros Hk Hm Heq.
  assert (5 ^ k | 2 ^ 1074 * m) as Hdiv.
  { exists (c * 2 ^ k). change 10 with (2 * 5) in Heq. rewrite Z.pow_mul_l in Heq. lia. }
  apply Z.gauss in Hdiv.
  - now apply Z.divide_pos_le.
  - apply Z.coprime_pow_l; [exact Hk |]. apply Z.coprime_pow_r; [lia |]. reflexivity.
Qed.

(** A six-digit decimal below the normal range is refused. *)
Lemma strtod_tiny (neg : bool) (m e : Z) :
  0 < m < 1000000 ->
  e <= -9 ->
  (inject_Z m * 10 ^ e * 2 ^ 1074 < 2 ^ 52 - 1)%Q ->
  strtod_value neg 10 m e = Thrown (out_of_range "stod").
Proof.
  intros Hm He Hsmall.
  pose proof (decimal_num_pos m e ltac:(lia)) as Hn. pose proof (decimal_den_pos e) as Hd.
  rewrite <- decimal_ratio in Hsmall.
  unfold strtod_value. fold (decimal_num m e) (decimal_den e).
  assert (decimal_num m e = m) as Hnum
    by (unfold decimal_num; destruct (0 <=? e) eqn:H0; [apply Z.leb_le in H0; lia | reflexivity]).
  assert (decimal_den e = 10 ^ (- e)) as Hden
    by (unfold decimal_den; destruct (0 <=? e) eqn:H0; [apply Z.leb_le in H0; lia | reflexivity]).
  set (num := decimal_num m e) in *. set (den := decimal_den e) in *.
  assert (num * 2 ^ 1074 < (2 ^ 52 - 1) * den) as Hsmall'.
  { apply ratio_lt_inv'; [exact Hd |].
    rewrite ratio_scale by exact Hd. exact Hsmall. }
  destruct (round_ratio_tiny neg num den Hn Hd Hsmall') as [-> | (my & -> & Hmy)].
  - cbn [is_zero orb ratio_exact].
    assert ((num =? 0) = false) as -> by (apply Z.eqb_neq; lia). reflexivity.
  - assert (is_subnormal (S754_finite neg my (-1074)) = true) as ->.
    { cbn [is_subnormal]. apply Z.ltb_lt.
      change (Z.pos (digits2_pos my)) with (Zdigits2 (Z.pos my)).
      assert (Zdigits2 (Z.pos my) <= 52) as Hle by (apply Zdigits2_le; lia).
      unfold prec. lia. }
    cbn [is_zero orb andb ratio_exact Z.leb Z.compare Z.opp].
    change (- (-1074)) with 1074.
    assert ((Z.pos my * den =? num * 2 ^ 1074) = false) as ->; [| reflexivity].
    apply Z.eqb_neq. intros Hexact. rewrite Hnum, Hden in Hexact.
    pose proof (five_divides (- e) m (Z.pos my) ltac:(lia) ltac:(lia) Hexact) as Hfive.
    assert (5 ^ 9 <= 5 ^ (- e)) as Hmono by (apply Z.pow_le_mono_r; lia).
    change (5 ^ 9) with 1953125 in Hmono. lia.
Qed.

End Strtod.

(* ===================================================================== *)
(** * Reading back the text of a double                                    *)
(* ===================================================================== *)

Section DoubleText.

(** What a decimal digit is not. *)
Lemma isdigit_plain (c : ascii) :
  isdigit c = true ->
  isspace c = false
  /\ read_sign (String c EmptyString) = (false, String c EmptyString)
  /\ Ascii.eqb "i" (tolower c) = false
  /\ Ascii.eqb "n" (tolower c) = false
  /\ Ascii.eqb (tolower c) "x" = false.
Proof.
  destruct c as [[] [] [] [] [] [] [] []]; intros Hd; try discriminate Hd;
    repeat split; reflexivity.
Qed.

Lemma read_sign_isdigit (c : ascii) (rest : string) :
  isdigit c = true -> read_sign (String c rest) = (false, String c rest).
Proof.
  destruct c as [[] [] [] [] [] [] [] []]; intros Hd; try discriminate Hd; reflexivity.
Qed.

Lemma digit_char_zero (d : Z) :
  0 <= d < 10 -> Ascii.eqb (digit_char d) "0" = (d =? 0).
Proof.
  intros Hd.
  assert (d = 0 \/ d = 1 \/ d = 2 \/ d = 3 \/ d = 4 \/ d = 5 \/ d = 6 \/ d = 7
          \/ d = 8 \/ d = 9) as Hcases by lia.
  repeat (destruct Hcases as [-> | Hcases]; [reflexivity |]).
  subst d. reflexivity.
Qed.

(** ** The digit strings *)

Lemma digits_onto_app (fuel : nat) :
  forall (n : Z) (acc rest : string),
    (digits_onto fuel n acc ++ rest)%string = digits_onto fuel n (acc ++ rest).
Proof.
  induction fuel as [| fuel IH]; intros n acc rest; cbn [digits_onto]; [reflexivity |].
  destruct (n / 10 =? 0); [reflexivity |]. now rewrite IH.
Qed.

Lemma fixed_digits_app (w : nat) :
  forall (n : Z) (acc rest : string),
    (fixed_digits w n acc ++ rest)%string = fixed_digits w n (acc ++ rest).
Proof.
  induction w as [| w IH]; intros n acc rest; cbn [fixed_digits]; [reflexivity |].
  now rewrite IH.
Qed.

Lemma fixed_digits_snoc (w : nat) (n : Z) :
  fixed_digits (S w) n EmptyString
  = (fixed_digits w (n / 10) EmptyString
       ++ String (digit_char (n mod 10)) EmptyString)%string.
Proof. cbn [fixed_digits]. now rewrite fixed_digits_app. Qed.

(** Scanning a run of exactly [w] digits. *)
Lemma scan_fixed_digits (w : nat) :
  forall (n : Z) (tail : string) (acc : Z) (c : nat),
    0 <= n < 10 ^ Z.of_nat w ->
    scan_digits (fixed_digits w n tail) acc c
    = scan_digits tail (acc * 10 ^ Z.of_nat w + n) (c + w).
Proof.
  induction w as [| w IH]; intros n tail acc c Hn.
  - cbn [fixed_digits]. change (10 ^ Z.of_nat 0) with 1 in *.
    f_equal; [lia | lia].
  - rewrite Nat2Z.inj_succ, Z.pow_succ_r in * by lia.
    cbn [fixed_digits]. rewrite IH.
    2: { split; [apply Z.div_pos; lia | apply Z.div_lt_upper_bound; lia]. }
    cbn [scan_digits].
    destruct (digit_char_spec (n mod 10)) as (-> & -> & _).
    { apply Z.mod_pos_bound. lia. }
    pose proof (Z.div_mod n 10 ltac:(lia)). f_equal; [lia | lia].
Qed.

Lemma scan_no_digit (rest : string) (acc : Z) (c : nat) :
  no_digit_ahead rest = true -> scan_digits rest acc c = (acc, c, rest).
Proof.
  destruct rest as [| a rest]; [reflexivity |].
  cbn [no_digit_ahead scan_digits]. intros Ha. apply negb_true_iff in Ha. now rewrite Ha.
Qed.

(** Scanning a numeral written by [format_nat]. *)
Lemma scan_format_nat (n : Z) (rest : string) (c : nat) :
  0 <= n ->
  no_digit_ahead rest = true ->
  exists k : nat, scan_digits (format_nat n ++ rest) 0 c = (n, S (c + k), rest).
Proof.
  intros Hn Hrest. unfold format_nat. rewrite digits_onto_app. cbn [append].
  destruct (scan_digits_onto (Z.to_nat (Z.log2 n)) n rest c) as [k Hk].
  - split; [exact Hn |].
    rewrite Nat2Z.inj_succ, Z2Nat.id by apply Z.log2_nonneg.
    destruct (Z.eq_dec n 0) as [-> | Hne]; [reflexivity |].
    apply Z.log2_spec. lia.
  - exists k. rewrite Hk. now apply scan_no_digit.
Qed.

(** ** Trailing zeros *)

Lemma strip_zeros_snoc (s : string) (c : ascii) :
  strip_zeros (s ++ String c EmptyString)
  = if Ascii.eqb c "0" then strip_zeros s else (s ++ String c EmptyString)%string.
Proof.
  induction s as [| a s IH]; cbn [append strip_zeros].
  - now destruct (Ascii.eqb c "0").
  - rewrite IH. destruct (Ascii.eqb c "0"); [reflexivity |].
    now destruct (s ++ String c EmptyString)%string eqn:Happ;
      [destruct s; discriminate Happ |].
Qed.

(** Stripped of its trailing zeros, a run of [w] digits is a run of
    [j] digits with the same value as a fraction. *)
Lemma strip_zeros_fixed (w : nat) :
  forall f : Z,
    0 <= f < 10 ^ Z.of_nat w ->
    exists (j : nat) (f' : Z),
      (j <= w)%nat
      /\ 0 <= f' < 10 ^ Z.of_nat j
      /\ f = f' * 10 ^ Z.of_nat (w - j)
      /\ strip_zeros (fixed_digits w f EmptyString) = fixed_digits j f' EmptyString
      /\ (j = 0%nat \/ f' mod 10 <> 0).
Proof.
  induction w as [| w IH]; intros f Hf.
  - exists 0%nat, 0. change (10 ^ Z.of_nat 0) with 1 in *. cbn. repeat split; try lia; auto.
  - rewrite Nat2Z.inj_succ, Z.pow_succ_r in Hf by lia.
    rewrite fixed_digits_snoc, strip_zeros_snoc.
    pose proof (Z.mod_pos_bound f 10 ltac:(lia)) as Hmod.
    pose proof (Z.div_mod f 10 ltac:(lia)) as Hdiv.
    rewrite (digit_char_zero (f mod 10) Hmod).
    destruct (f mod 10 =? 0) eqn:Hlast.
    + apply Z.eqb_eq in Hlast.
      destruct (IH (f / 10)) as (j & f' & Hj & Hf' & Heq & Hstrip & Hnz).
      { split; [apply Z.div_pos; lia | apply Z.div_lt_upper_bound; lia]. }
      exists j, f'. split; [lia |]. split; [exact Hf' |]. split; [| split; [exact Hstrip | exact Hnz]].
      replace (S w - j)%nat with (S (w - j)) by lia.
      rewrite Nat2Z.inj_succ, Z.pow_succ_r by lia. lia.
    + apply Z.eqb_neq in Hlast.
      exists (S w), f. split; [lia |].
      rewrite Nat2Z.inj_succ, Z.pow_succ_r by lia.
      split; [lia |]. split; [| split; [now rewrite <- fixed_digits_snoc | now right]].
      rewrite Nat.sub_diag. change (10 ^ Z.of_nat 0) with 1. lia.
Qed.

Lemma fixed_digits_nonempty (w : nat) (n : Z) :
  exists (c : ascii) (t : string), fixed_digits (S w) n EmptyString = String c t.
Proof.
  rewrite fixed_digits_snoc.
  destruct (fixed_digits w (n / 10) EmptyString) as [| a t]; cbn [append]; eauto.
Qed.

(** ** The exponent part *)

Lemma scan_exponent_format (x : Z) :
  scan_exponent "e" (format_exponent x) = x
  /\ exists t : string, format_exponent x = String "e" t.
Proof.
  split; [| unfold format_exponent; eauto].
  unfold format_exponent. cbn [scan_exponent tolower char_code].
  change (Ascii.eqb (tolower "e") "e") with true. cbv iota.
  assert (forall c : nat, exists k : nat,
             scan_digits (format_nat (Z.abs x)) 0 c = (Z.abs x, S (c + k), EmptyString))
    as Hscan.
  { intros c. destruct (scan_format_nat (Z.abs x) EmptyString c ltac:(lia) eq_refl) as [k Hk].
    exists k. now rewrite string_app_nil_r in Hk. }
  assert (exists k : nat,
             scan_digits (if Z.abs x <? 10 then String "0" (format_nat (Z.abs x))
                          else format_nat (Z.abs x)) 0 0
             = (Z.abs x, S k, EmptyString)) as [k Hk].
  { destruct (Z.abs x <? 10).
    - destruct (Hscan 1%nat) as [k Hk]. exists (S k). cbn [scan_digits].
      change (isdigit "0") with true. change (0 * 10 + digit_value "0") with 0.
      cbv iota. exact Hk.
    - destruct (Hscan 0%nat) as [k Hk]. exists k. exact Hk. }
  destruct (x <? 0) eqn:Hneg; cbn [read_sign]; rewrite Hk;
    [apply Z.ltb_lt in Hneg | apply Z.ltb_ge in Hneg]; lia.
Qed.

(** ** The whole literal *)

(** The literal written for an integral part, a fraction of [w] digits
    and an exponent part. *)
Lemma scan_decimal_text (ip : string) (k : Z) (w : nat) (f : Z) (ex : string) (xe : Z) :
  scans_as ip k ->
  0 <= f < 10 ^ Z.of_nat w ->
  (ex = EmptyString /\ xe = 0) \/ (ex = format_exponent xe) ->
  exists (j : nat) (f' : Z) (n : nat) (r1 : string),
    (j <= w)%nat
    /\ 0 <= f' < 10 ^ Z.of_nat j
    /\ f = f' * 10 ^ Z.of_nat (w - j)
    /\ scan_digits (with_fraction ip (fixed_digits w f EmptyString) ++ ex) 0 0
       = (k, S n, r1)
    /\ match r1 with
       | String c _ => Ascii.eqb (tolower c) "x" = false
       | EmptyString => True
       end
    /\ scan_decimal (with_fraction ip (fixed_digits w f EmptyString) ++ ex)
       = Some (k * 10 ^ Z.of_nat j + f', xe - Z.of_nat j).
Proof.
  intros Hip Hf Hex.
  assert (scan_exponent "e" ex = xe
          /\ no_digit_ahead ex = true
          /\ match ex with
             | String c _ => Ascii.eqb (tolower c) "x" = false /\ c <> "."%char
             | EmptyString => True
             end) as (Hxe & Hnd & Hhead).
  { destruct Hex as [[-> ->] | ->]; [repeat split |].
    destruct (scan_exponent_format xe) as [Hscan [t Ht]].
    rewrite Ht in *. repeat split; [exact Hscan | discriminate]. }
  destruct (strip_zeros_fixed w f Hf) as (j & f' & Hj & Hf' & Heq & Hstrip & _).
  exists j, f'. unfold with_fraction, scan_decimal. rewrite Hstrip.
  destruct j as [| j].
  - change (10 ^ Z.of_nat 0) with 1 in *. assert (f' = 0) as -> by lia.
    cbn [fixed_digits].
    destruct (Hip ex 0%nat Hnd) as [n Hn]. rewrite Hn.
    exists n, ex. split; [lia |]. split; [lia |]. split; [exact Heq |].
    split; [reflexivity |]. split; [destruct ex; tauto |].
    assert (match ex with
            | String "." r => scan_digits r k 0
            | _ => (k, 0%nat, ex)
            end = (k, 0%nat, ex)) as ->.
    { destruct ex as [| c r]; [reflexivity |].
      destruct Hhead as [_ Hdot].
      destruct c as [[] [] [] [] [] [] [] []]; try reflexivity. now elim Hdot. }
    cbn [Nat.add]. rewrite Hxe. do 2 f_equal; lia.
  - destruct (fixed_digits_nonempty j f') as (c & t & Hne).
    rewrite Hne, <- Hne. rewrite string_app_assoc. cbn [append].
    rewrite fixed_digits_app. cbn [append].
    destruct (Hip (String "." (fixed_digits (S j) f' ex)) 0%nat eq_refl) as [n Hn].
    rewrite Hn. rewrite scan_fixed_digits by exact Hf'.
    rewrite (scan_no_digit ex _ _ Hnd).
    exists n, (String "." (fixed_digits (S j) f' ex)).
    split; [lia |]. split; [exact Hf' |]. split; [exact Heq |].
    split; [reflexivity |]. split; [reflexivity |].
    cbn [Nat.add]. rewrite Hxe. reflexivity.
Qed.

(** [std::stod] on a decimal literal, with or without a minus sign. *)
Lemma scan_digits_head (text : string) (acc k : Z) (c n : nat) (r : string) :
  scan_digits text acc c = (k, n, r) -> (c < n)%nat ->
  exists (a : ascii) (rest : string), text = String a rest /\ isdigit a = true.
Proof.
  destruct text as [| a rest]; cbn [scan_digits].
  - intros Heq Hlt. injection Heq as _ <- _. lia.
  - destruct (isdigit a) eqn:Hd; [eauto |].
    intros Heq Hlt. injection Heq as _ <- _. lia.
Qed.

Lemma tolower_x_not_digit (b : ascii) :
  Ascii.eqb (tolower b) "x" = true -> isdigit b = false.
Proof. destruct b as [[] [] [] [] [] [] [] []]; intros Hx; try discriminate Hx; reflexivity. Qed.

Lemma scan_hexfloat_decimal (text : string) (k : Z) (n : nat) (r1 : string) :
  scan_digits text 0 0 = (k, n, r1) ->
  match r1 with
  | String c _ => Ascii.eqb (tolower c) "x" = false
  | EmptyString => True
  end ->
  scan_hexfloat text = None.
Proof.
  intros Hscan Hr1.
  destruct text as [| a [| b r]]; try reflexivity.
  - destruct a as [[] [] [] [] [] [] [] []]; reflexivity.
  - destruct (isdigit a) eqn:Ha.
    + destruct (Ascii.eqb (tolower b) "x") eqn:Hx.
      * exfalso. pose proof (tolower_x_not_digit b Hx) as Hb.
        cbn [scan_digits] in Hscan. rewrite Ha, Hb in Hscan.
        injection Hscan as _ _ <-. now rewrite Hx in Hr1.
      * destruct a as [[] [] [] [] [] [] [] []]; try reflexivity.
        cbn [scan_hexfloat]. now rewrite Hx.
    + destruct a as [[] [] [] [] [] [] [] []]; try discriminate Ha; reflexivity.
Qed.

Lemma stod_of_scan (s : bool) (text : string) (k : Z) (n : nat) (r1 : string) (M E : Z) :
  scan_digits text 0 0 = (k, S n, r1) ->
  match r1 with
  | String c _ => Ascii.eqb (tolower c) "x" = false
  | EmptyString => True
  end ->
  scan_decimal text = Some (M, E) ->
  stod (if s then String "-" text else text) = strtod_value s 10 M E.
Proof.
  intros Hscan Hr1 Hdec.
  destruct (scan_digits_head text 0 k 0 (S n) r1 Hscan ltac:(lia)) as (a & rest & -> & Ha).
  destruct (isdigit_plain a Ha) as (Hspace & _ & Hi & Hn & _).
  pose proof (scan_hexfloat_decimal _ _ _ _ Hscan Hr1) as Hhex.
  assert (read_sign (skip_space (if s then String "-" (String a rest) else String a rest))
          = (s, String a rest)) as Hsign.
  { destruct s.
    - reflexivity.
    - cbn [skip_space]. rewrite Hspace. now apply read_sign_isdigit. }
  unfold stod. rewrite Hsign.
  cbn [has_prefix_ci]. rewrite Hi, Hn. cbn [andb].
  now rewrite Hhex, Hdec.
Qed.

(** The text of a finite double is a decimal literal: [std::stod] reads
    it as the decimal [M * 10^E] that the six digits [d] at the decimal
    exponent [x] denote. *)
Lemma stod_format_finite (s : bool) (m : positive) (e d x : Z) :
  six_digits (binary_num m e) (binary_den e) = (d, x) ->
  100000 <= d <= 999999 ->
  exists M E : Z,
    0 < M <= 999999
    /\ 0 <= E - (x - 5) <= 5
    /\ M * 10 ^ (E - (x - 5)) = d
    /\ stod (format_double (S754_finite s m e)) = strtod_value s 10 M E.
Proof.
  intros Hsix Hd. cbn [format_double].
  assert (format_finite m e
          = if (x <? -4) || (6 <=? x) then
              (with_fraction (fixed_digits 1 (d / 100000) EmptyString)
                             (fixed_digits 5 (d mod 100000) EmptyString)
                 ++ format_exponent x)%string
            else
              with_fraction (format_nat (d / 10 ^ (5 - x)))
                            (fixed_digits (Z.to_nat (5 - x)) (d mod 10 ^ (5 - x)) EmptyString))
    as Htext.
  { unfold format_finite. fold (binary_num m e) (binary_den e). now rewrite Hsix. }
  assert (forall (M E t : Z) (text : string),
             0 <= t -> M * 10 ^ t = d -> E - (x - 5) = t -> t <= 5 ->
             stod (if s then String "-" text else text) = strtod_value s 10 M E ->
             format_finite m e = text ->
             exists M E : Z,
               0 < M <= 999999
               /\ 0 <= E - (x - 5) <= 5
               /\ M * 10 ^ (E - (x - 5)) = d
               /\ stod (if s then String "-" (format_finite m e) else format_finite m e)
                  = strtod_value s 10 M E) as Hfinish.
  { intros M E t text Ht HM HE Ht5 Hstod ->. exists M, E.
    assert (0 < 10 ^ t) as Hp by (apply Z.pow_pos_nonneg; lia).
    rewrite HE. split; [nia |]. split; [lia |]. split; [exact HM | exact Hstod]. }
  destruct ((x <? -4) || (6 <=? x)) eqn:Hsci.
  - (* scientific notation *)
    assert (1 <= d / 100000 < 10) as Hk
      by (split; [apply Z.div_le_lower_bound; lia | apply Z.div_lt_upper_bound; lia]).
    assert (scans_as (fixed_digits 1 (d / 100000) EmptyString) (d / 100000)) as Hip.
    { intros rest c Hrest. exists 0%nat.
      rewrite fixed_digits_app, scan_fixed_digits by (change (10 ^ Z.of_nat 1) with 10; lia).
      cbn [append]. rewrite (scan_no_digit rest _ _ Hrest).
      change (10 ^ Z.of_nat 1) with 10. repeat f_equal; lia. }
    destruct (scan_decimal_text _ _ 5 (d mod 100000) (format_exponent x) x Hip
                (Z.mod_pos_bound d 100000 ltac:(lia)) (or_intror eq_refl))
      as (j & f' & n & r1 & Hj & Hf' & Hf & Hscan & Hr1 & Hdec).
    eapply (Hfinish (d / 100000 * 10 ^ Z.of_nat j + f') (x - Z.of_nat j)
                    (Z.of_nat (5 - j)));
      [lia | | lia | lia | eapply stod_of_scan; eassumption | exact Htext].
    pose proof (Z.div_mod d 100000 ltac:(lia)) as Hdiv.
    rewrite Z.mul_add_distr_r, <- Z.mul_assoc, <- Z.pow_add_r, <- Hf by lia.
    replace (Z.of_nat j + Z.of_nat (5 - j)) with 5 by lia.
    change (10 ^ 5) with 100000. lia.
  - (* fixed notation *)
    apply orb_false_iff in Hsci as [Hlo Hhi].
    apply Z.ltb_ge in Hlo. apply Z.leb_gt in Hhi.
    set (w := Z.to_nat (5 - x)) in *.
    assert (10 ^ (5 - x) = 10 ^ Z.of_nat w) as Hw by (subst w; f_equal; lia).
    rewrite Hw in Htext.
    assert (0 < 10 ^ Z.of_nat w) as Hpw by (apply Z.pow_pos_nonneg; lia).
    assert (0 <= d / 10 ^ Z.of_nat w) as Hk by (apply Z.div_pos; lia).
    assert (scans_as (format_nat (d / 10 ^ Z.of_nat w)) (d / 10 ^ Z.of_nat w)) as Hip.
    { intros rest c Hrest. now apply scan_format_nat. }
    destruct (scan_decimal_text _ _ w (d mod 10 ^ Z.of_nat w) EmptyString 0 Hip
                (Z.mod_pos_bound d _ Hpw) (or_introl (conj eq_refl eq_refl)))
      as (j & f' & n & r1 & Hj & Hf' & Hf & Hscan & Hr1 & Hdec).
    rewrite string_app_nil_r in Hscan, Hdec.
    pose proof (Z.div_mod d (10 ^ Z.of_nat w) ltac:(lia)) as Hdiv.
    assert ((d / 10 ^ Z.of_nat w * 10 ^ Z.of_nat j + f') * 10 ^ Z.of_nat (w - j) = d) as HM.
    { rewrite Z.mul_add_distr_r, <- Z.mul_assoc, <- Z.pow_add_r, <- Hf by lia.
      replace (Z.of_nat j + Z.of_nat (w - j)) with (Z.of_nat w) by lia. lia. }
    eapply (Hfinish (d / 10 ^ Z.of_nat w * 10 ^ Z.of_nat j + f') (0 - Z.of_nat j)
                    (Z.of_nat (w - j)));
      [lia | exact HM | subst w; lia | | eapply stod_of_scan; eassumption | exact Htext].
    destruct (Z_le_gt_dec (Z.of_nat (w - j)) 5) as [Hok | Hbig]; [exact Hok | exfalso].
    assert (10 ^ 6 <= 10 ^ Z.of_nat (w - j)) as Hmono by (apply Z.pow_le_mono_r; lia).
    change (10 ^ 6) with 1000000 in Hmono.
    assert (0 < d / 10 ^ Z.of_nat w * 10 ^ Z.of_nat j + f') by nia.
    nia.
Qed.

End DoubleText.

(* ===================================================================== *)
(** * The round trip of a double through its text                          *)
(* ===================================================================== *)

Section DoubleRoundTrip.

Lemma binary_den_pos (e : Z) : 0 < binary_den e.
Proof.
  unfold binary_den. destruct (0 <=? e) eqn:He; [lia |].
  apply Z.leb_gt in He. apply Z.pow_pos_nonneg; lia.
Qed.

Lemma binary_num_pos (m : positive) (e : Z) : 0 < binary_num m e.
Proof.
  unfold binary_num. destruct (0 <=? e) eqn:He; [| lia].
  apply Z.leb_le in He. apply Z.mul_pos_pos; [lia | apply Z.pow_pos_nonneg; lia].
Qed.

Lemma binary_ratio (m : positive) (e : Z) :
  (ratio (binary_num m e) (binary_den e) == inject_Z (Zpos m) * 2 ^ e)%Q.
Proof.
  unfold ratio, binary_num, binary_den. change 2%Q with (inject_Z 2).
  destruct (0 <=? e) eqn:He; [apply Z.leb_le in He | apply Z.leb_gt in He].
  - rewrite inject_Z_mult, Qpow_nonneg_exp by exact He. change (inject_Z 1) with 1%Q.
    field.
  - rewrite Qpow_neg_exp by exact He. reflexivity.
Qed.

(** The magnitude of a double is in the range of binary64. *)
Lemma binary_range (m : positive) (e : Z) :
  bounded prec emax m e = true ->
  -1200 <= Z.log2 (binary_num m e) - Z.log2 (binary_den e) < 1200
  /\ (ratio (binary_num m e) (binary_den e) < 2 ^ 1024)%Q.
Proof.
  intros Hb. apply bounded_spec in Hb as (Hcan & Hexp).
  assert (-1074 <= e) as Hmin by lia.
  assert (Z.log2 (Zpos m) < 53) as Hlog by lia.
  assert (Zpos m < 2 ^ 53) as Hlt by (apply Z.log2_lt_pow2; lia).
  pose proof (Z.log2_nonneg (Zpos m)) as Hlog0.
  split.
  - unfold binary_num, binary_den.
    destruct (0 <=? e) eqn:He; [apply Z.leb_le in He | apply Z.leb_gt in He].
    + rewrite Z.log2_mul_pow2 by lia. change (Z.log2 1) with 0. lia.
    + rewrite Z.log2_pow2 by lia. lia.
  - rewrite binary_ratio.
    apply Qlt_le_trans with (2 ^ 53 * 2 ^ e)%Q.
    + apply Qmult_lt_r; [now apply Qpow_pos |].
      change (2 ^ 53)%Q with (inject_Z (2 ^ 53)). now rewrite <- Zlt_Qlt.
    + rewrite <- Qpow_add by reflexivity. apply Qpow_mono; [discriminate | lia].
Qed.

(** The decimal written for the greatest doubles is below the rounding
    to infinity. *)
Lemma text_below_max (d x : Z) (v : Q) :
  100000 <= d <= 999999 ->
  (v < 2 ^ 1024)%Q ->
  (Qabs (inject_Z d * 10 ^ (x - 5) - v) <= (1 # 2) * 10 ^ (x - 5))%Q ->
  (inject_Z d * 10 ^ (x - 5) <= 2 ^ 1024 - 2 ^ 1000)%Q.
Proof.
  intros [Hd1 Hd2] Hv Hnear.
  assert (0 < 10 ^ (x - 5))%Q as Hh by now apply Qpow_pos.
  rewrite Zle_Qle in Hd1, Hd2.
  change (inject_Z 100000) with 100000%Q in Hd1.
  change (inject_Z 999999) with 999999%Q in Hd2.
  apply Qabs_Qle_condition in Hnear as [_ Hup].
  assert (999999 * 10 ^ 302 <= 2 ^ 1024 - 2 ^ 1000)%Q as C1
    by (apply Qle_bool_iff; vm_compute; reflexivity).
  assert (2 ^ 1024 <= (100000 - (1 # 2)) * 10 ^ 304)%Q as C2
    by (apply Qle_bool_iff; vm_compute; reflexivity).
  assert (179769 * 10 ^ 303 <= 2 ^ 1024 - 2 ^ 1000)%Q as C3
    by (apply Qle_bool_iff; vm_compute; reflexivity).
  assert (2 ^ 1024 <= (179770 - (1 # 2)) * 10 ^ 303)%Q as C4
    by (apply Qle_bool_iff; vm_compute; reflexivity).
  assert (x <= 307 \/ x = 308 \/ 309 <= x) as [Hx | [-> | Hx]] by lia.
  - assert (10 ^ (x - 5) <= 10 ^ 302)%Q as Hmono by (apply Qpow_mono; [discriminate | lia]).
    assert (inject_Z d * 10 ^ (x - 5) <= 999999 * 10 ^ (x - 5))%Q as Hprod
      by (apply Qmult_le_compat_r; [exact Hd2 | now apply Qlt_le_weak]).
    set (h := (10 ^ (x - 5))%Q) in *. set (c := (10 ^ 302)%Q) in *.
    set (a := (2 ^ 1024)%Q) in *. set (b := (2 ^ 1000)%Q) in *.
    set (D := inject_Z d) in *. set (t := (D * h)%Q) in *. lra.
  - change (308 - 5) with 303 in *.
    destruct (Z_le_gt_dec d 179769) as [Hsmall | Hbig].
    + rewrite Zle_Qle in Hsmall. change (inject_Z 179769) with 179769%Q in Hsmall.
      assert (inject_Z d * 10 ^ 303 <= 179769 * 10 ^ 303)%Q as Hprod
        by (apply Qmult_le_compat_r; [exact Hsmall | now apply Qlt_le_weak]).
      eapply Qle_trans; eassumption.
    + exfalso. assert (179770 <= d) as Hbig' by lia.
      rewrite Zle_Qle in Hbig'. change (inject_Z 179770) with 179770%Q in Hbig'.
      assert ((179770 - (1 # 2)) * 10 ^ 303 <= (inject_Z d - (1 # 2)) * 10 ^ 303)%Q as Hprod
        by (apply Qmult_le_compat_r; [lra | now apply Qlt_le_weak]).
      set (h := (10 ^ 303)%Q) in *. set (a := (2 ^ 1024)%Q) in *.
      set (D := inject_Z d) in *.
      assert ((D - (1 # 2)) * h == D * h - (1 # 2) * h)%Q as Hexp by ring.
      set (t := (D * h)%Q) in *. lra.
  - exfalso.
    assert (10 ^ 304 <= 10 ^ (x - 5))%Q as Hmono by (apply Qpow_mono; [discriminate | lia]).
    assert ((100000 - (1 # 2)) * 10 ^ (x - 5) <= (inject_Z d - (1 # 2)) * 10 ^ (x - 5))%Q
      as Hprod by (apply Qmult_le_compat_r; [lra | now apply Qlt_le_weak]).
    set (h := (10 ^ (x - 5))%Q) in *. set (c := (10 ^ 304)%Q) in *.
    set (a := (2 ^ 1024)%Q) in *. set (D := inject_Z d) in *.
    assert ((D - (1 # 2)) * h == D * h - (1 # 2) * h)%Q as Hexp by ring.
    set (t := (D * h)%Q) in *. lra.
Qed.

(** A decimal of six digits below the least normal double is well below
    it, and its exponent is small. *)
Lemma text_tiny (d x : Z) :
  100000 <= d <= 999999 ->
  (inject_Z d * 10 ^ (x - 5) < 2 ^ (-1022))%Q ->
  x <= -308 /\ (inject_Z d * 10 ^ (x - 5) * 2 ^ 1074 < 2 ^ 52 - 1)%Q.
Proof.
  intros [Hd1 Hd2] Hsmall.
  assert (0 < 10 ^ (x - 5))%Q as Hh by now apply Qpow_pos.
  assert (0 < 2 ^ 1074)%Q as Hp by reflexivity.
  rewrite Zle_Qle in Hd1, Hd2.
  change (inject_Z 100000) with 100000%Q in Hd1.
  change (inject_Z 999999) with 999999%Q in Hd2.
  assert (2 ^ (-1022) <= 100000 * 10 ^ (-312))%Q as C1
    by (apply Qle_bool_iff; vm_compute; reflexivity).
  assert (999999 * 10 ^ (-314) * 2 ^ 1074 < 2 ^ 52 - 1)%Q as C2
    by (vm_compute; reflexivity).
  assert (2 ^ (-1022) <= 222508 * 10 ^ (-313))%Q as C3
    by (apply Qle_bool_iff; vm_compute; reflexivity).
  assert (222507 * 10 ^ (-313) * 2 ^ 1074 < 2 ^ 52 - 1)%Q as C4
    by (vm_compute; reflexivity).
  assert (x <= -309 \/ x = -308 \/ -307 <= x) as [Hx | [-> | Hx]] by lia.
  - split; [lia |].
    assert (10 ^ (x - 5) <= 10 ^ (-314))%Q as Hmono by (apply Qpow_mono; [discriminate | lia]).
    eapply Qle_lt_trans; [| exact C2].
    apply Qmult_le_compat_r; [| now apply Qlt_le_weak].
    apply Qle_trans with (999999 * 10 ^ (x - 5))%Q.
    + apply Qmult_le_compat_r; [exact Hd2 | now apply Qlt_le_weak].
    + apply Qmult_le_l; [reflexivity | exact Hmono].
  - split; [lia |]. change (-308 - 5) with (-313) in *.
    destruct (Z_le_gt_dec d 222507) as [Hle | Hgt].
    + rewrite Zle_Qle in Hle. change (inject_Z 222507) with 222507%Q in Hle.
      eapply Qle_lt_trans; [| exact C4].
      apply Qmult_le_compat_r; [| now apply Qlt_le_weak].
      apply Qmult_le_compat_r; [exact Hle | now apply Qlt_le_weak].
    + exfalso. assert (222508 <= d) as Hge by lia.
      rewrite Zle_Qle in Hge. change (inject_Z 222508) with 222508%Q in Hge.
      assert (222508 * 10 ^ (-313) <= inject_Z d * 10 ^ (-313))%Q as Hprod
        by (apply Qmult_le_compat_r; [exact Hge | now apply Qlt_le_weak]).
      apply (Qlt_irrefl (2 ^ (-1022))%Q).
      eapply Qle_lt_trans; [exact C3 |]. eapply Qle_lt_trans; eassumption.
  - exfalso.
    assert (10 ^ (-312) <= 10 ^ (x - 5))%Q as Hmono by (apply Qpow_mono; [discriminate | lia]).
    assert (100000 * 10 ^ (-312) <= inject_Z d * 10 ^ (x - 5))%Q as Hprod.
    { apply Qle_trans with (100000 * 10 ^ (x - 5))%Q.
      - apply Qmult_le_l; [reflexivity | exact Hmono].
      - apply Qmult_le_compat_r; [exact Hd1 | now apply Qlt_le_weak]. }
    apply (Qlt_irrefl (2 ^ (-1022))%Q).
    eapply Qle_lt_trans; [exact C1 |]. eapply Qle_lt_trans; eassumption.
Qed.

Lemma Qabs_signed (s : bool) (a b : Q) :
  (Qabs ((if s then -1 else 1) * a - (if s then -1 else 1) * b) == Qabs (a - b))%Q.
Proof.
  destruct s.
  - setoid_replace (-1 * a - -1 * b)%Q with (- (a - b))%Q using relation Qeq by ring.
    apply Qabs_opp.
  - setoid_replace (1 * a - 1 * b)%Q with (a - b)%Q using relation Qeq by ring.
    reflexivity.
Qed.

Lemma Qabs_signed_one (s : bool) (a : Q) :
  (Qabs ((if s then -1 else 1) * a) == Qabs a)%Q.
Proof.
  destruct s.
  - setoid_replace (-1 * a)%Q with (- a)%Q using relation Qeq by ring. apply Qabs_opp.
  - now rewrite Qmult_1_l.
Qed.

(** Reading back the text of a double.  A zero, an infinity and the NaN
    come back as they are.  For a finite double the stream writes the
    nearest decimal of six digits; [std::stod] gives the double nearest to
    that decimal, which is the datum to six digits, when the decimal is
    at least the least normal double, and throws [out_of_range]
    otherwise. *)
Lemma stod_format_double (x : double) :
  valid_double x = true ->
  if reads_back x then
    exists y : double,
      stod (format_double x) = Returned y
      /\ valid_double y = true
      /\ agrees_to_six_digits x y = true
  else stod (format_double x) = Thrown (out_of_range "stod").
Proof.
  intros Hvalid.
  destruct x as [sx | sx | | s m e]; cbn [reads_back].
  - exists (S754_zero sx). destruct sx; repeat split; reflexivity.
  - exists (S754_infinity sx). destruct sx; repeat split; reflexivity.
  - exists S754_nan. repeat split; reflexivity.
  - unfold valid_double in Hvalid. cbn [valid_binary] in Hvalid.
    destruct (binary_range m e Hvalid) as [Hrange Hv].
    pose proof (six_digits_spec _ _ (binary_num_pos m e) (binary_den_pos e) Hrange) as Hsix.
    unfold text_value.
    destruct (six_digits (binary_num m e) (binary_den e)) as [d x0] eqn:Hdx.
    destruct Hsix as (Hd & Hhalf & Hrel).
    destruct (stod_format_finite s m e d x0 Hdx Hd) as (M & E & HM & HE & Hval & ->).
    assert (inject_Z M * 10 ^ E == inject_Z d * 10 ^ (x0 - 5))%Q as Ht.
    { rewrite <- Hval, inject_Z_mult.
      change 10%Q with (inject_Z 10). rewrite <- Qpow_nonneg_exp by lia.
      change (inject_Z 10) with 10%Q.
      rewrite <- Qmult_assoc, <- Qpow_add by reflexivity.
      replace (E - (x0 - 5) + (x0 - 5)) with E by lia. reflexivity. }
    set (t := (inject_Z d * 10 ^ (x0 - 5))%Q) in *.
    destruct (Qle_bool (2 ^ (-1022)) t) eqn:Hback.
    + apply Qle_bool_iff in Hback.
      pose proof (text_below_max d x0 _ Hd Hv Hhalf) as Hmax. fold t in Hmax.
      destruct (strtod_normal s M E ltac:(lia)) as (my & ey & -> & Hb & Hbig & Hnear).
      { now rewrite Ht. }
      { now rewrite Ht. }
      exists (S754_finite s my ey). split; [reflexivity |]. split; [exact Hb |].
      cbn [agrees_to_six_digits double_value]. rewrite eqb_reflx. cbn [andb].
      apply Qle_bool_iff.
      rewrite Ht in Hnear. rewrite binary_ratio in Hrel, Hhalf, Hv.
      assert (0 < 2 ^ ey)%Q as Hu by now apply Qpow_pos.
      assert (2 ^ 52 * 2 ^ ey <= inject_Z (Z.pos my) * 2 ^ ey)%Q as Hunit.
      { apply Qmult_le_compat_r; [| now apply Qlt_le_weak].
        change (2 ^ 52)%Q with (inject_Z (2 ^ 52)). now rewrite <- Zle_Qle. }
      assert (0 < inject_Z (Z.pos m) * 2 ^ e)%Q as Hpos.
      { apply Qmult_lt_0_compat; [now apply inject_Z_pos | now apply Qpow_pos]. }
      assert (2 ^ 52 == 4503599627370496)%Q as C52 by reflexivity.
      set (Y := (inject_Z (Z.pos my) * 2 ^ ey)%Q) in *.
      set (V := (inject_Z (Z.pos m) * 2 ^ e)%Q) in *.
      set (U := (2 ^ ey)%Q) in *.
      apply Qabs_Qle_condition in Hnear as [Hn1 Hn2].
      assert (Qabs (t - V) <= V * (1 # 200000))%Q as Hrel'.
      { apply Qmult_le_r with (z := 200000%Q); [reflexivity |].
        eapply Qle_trans; [exact Hrel |]. apply Qle_lteq. right. field. }
      apply Qabs_Qle_condition in Hrel' as [Hr1 Hr2].
      rewrite C52 in Hunit.
      assert (Qabs V == V)%Q as HabsV by (apply Qabs_pos; lra).
      subst Y V U. rewrite <- !Qmult_assoc, Qabs_signed, Qabs_signed_one.
      set (Y := (inject_Z (Z.pos my) * 2 ^ ey)%Q) in *.
      set (V := (inject_Z (Z.pos m) * 2 ^ e)%Q) in *.
      set (U := (2 ^ ey)%Q) in *.
      rewrite HabsV.
      apply Qmult_le_r with (z := (1 # 1000000)%Q); [reflexivity |].
      setoid_replace (Qabs (Y - V) * 1000000 * (1 # 1000000))%Q with (Qabs (Y - V))
        using relation Qeq by field.
      apply Qabs_Qle_condition. split; lra.
    + assert (t < 2 ^ (-1022))%Q as Hsmall.
      { apply Qnot_le_lt. intros Hle. apply Qle_bool_iff in Hle. congruence. }
      destruct (text_tiny d x0 Hd Hsmall) as [Hx0 Htiny]. fold t in Htiny.
      apply strtod_tiny; [lia | lia |]. now rewrite Ht.
Qed.

End DoubleRoundTrip.

Section ReadsBackRange.

(** Which finite doubles have a text that [std::stod] accepts: all of
    magnitude at least 2.22508e-308, and none below the least normal
    double. *)
Lemma reads_back_range (s : bool) (m : positive) (e : Z) :
  bounded prec emax m e = true ->
  ((222508 * 10 ^ (-313) <= inject_Z (Zpos m) * 2 ^ e)%Q ->
   reads_back (S754_finite s m e) = true)
  /\ ((inject_Z (Zpos m) * 2 ^ e < 2 ^ (-1022))%Q ->
      reads_back (S754_finite s m e) = false).
Proof.
  intros Hvalid.
  destruct (binary_range m e Hvalid) as [Hrange Hv].
  pose proof (six_digits_spec _ _ (binary_num_pos m e) (binary_den_pos e) Hrange) as Hsix.
  cbn [reads_back]. unfold text_value.
  destruct (six_digits (binary_num m e) (binary_den e)) as [d x] eqn:Hdx.
  destruct Hsix as ([Hd1 Hd2] & Hhalf & _).
  rewrite binary_ratio in Hhalf.
  assert (0 < 10 ^ (x - 5))%Q as Hh by now apply Qpow_pos.
  apply Qabs_Qle_condition in Hhalf as [Hlo Hhi].
  pose proof Hd1 as Hq1. pose proof Hd2 as Hq2. rewrite Zle_Qle in Hq1, Hq2.
  change (inject_Z 100000) with 100000%Q in Hq1.
  change (inject_Z 999999) with 999999%Q in Hq2.
  assert (2 ^ (-1022) <= 100000 * 10 ^ (-312))%Q as C1
    by (apply Qle_bool_iff; vm_compute; reflexivity).
  assert (999999 * 10 ^ (-314) < 2 ^ (-1022))%Q as C2 by (vm_compute; reflexivity).
  assert (2 ^ (-1022) <= 222508 * 10 ^ (-313))%Q as C3
    by (apply Qle_bool_iff; vm_compute; reflexivity).
  assert (222507 * 10 ^ (-313) < 2 ^ (-1022))%Q as C4 by (vm_compute; reflexivity).
  assert ((999999 + (1 # 2)) * 10 ^ (-314) < 222508 * 10 ^ (-313))%Q as C5
    by (vm_compute; reflexivity).
  assert (2 ^ (-1022) < (100000 - (1 # 2)) * 10 ^ (-312))%Q as C6
    by (vm_compute; reflexivity).
  assert (2 ^ (-1022) < (222508 - (1 # 2)) * 10 ^ (-313))%Q as C7
    by (vm_compute; reflexivity).
  set (V := (inject_Z (Z.pos m) * 2 ^ e)%Q) in *.
  assert (x <= -309 \/ x = -308 \/ -307 <= x) as [Hx | [-> | Hx]] by lia.
  - assert (10 ^ (x - 5) <= 10 ^ (-314))%Q as Hmono by (apply Qpow_mono; [discriminate | lia]).
    assert (inject_Z d * 10 ^ (x - 5) <= 999999 * 10 ^ (x - 5))%Q as Hprod
      by (apply Qmult_le_compat_r; [exact Hq2 | now apply Qlt_le_weak]).
    set (h := (10 ^ (x - 5))%Q) in *. set (t := (inject_Z d * h)%Q) in *.
    set (c := (10 ^ (-314))%Q) in *. set (c' := (10 ^ (-313))%Q) in *.
    set (b := (2 ^ (-1022))%Q) in *.
    split.
    + intros Hbig. exfalso. lra.
    + intros _. destruct (Qle_bool b t) eqn:Hback; [| reflexivity].
      apply Qle_bool_iff in Hback. exfalso. lra.
  - change (-308 - 5) with (-313) in *.
    set (h := (10 ^ (-313))%Q) in *. set (b := (2 ^ (-1022))%Q) in *.
    destruct (Z_le_gt_dec d 222507) as [Hle | Hgt].
    + rewrite Zle_Qle in Hle. change (inject_Z 222507) with 222507%Q in Hle.
      assert (inject_Z d * h <= 222507 * h)%Q as Hprod
        by (apply Qmult_le_compat_r; [exact Hle | now apply Qlt_le_weak]).
      set (t := (inject_Z d * h)%Q) in *.
      split.
      * intros Hbig. exfalso. lra.
      * intros _. destruct (Qle_bool b t) eqn:Hback; [| reflexivity].
        apply Qle_bool_iff in Hback. exfalso. lra.
    + assert (222508 <= d) as Hge by lia.
      rewrite Zle_Qle in Hge. change (inject_Z 222508) with 222508%Q in Hge.
      assert (222508 * h <= inject_Z d * h)%Q as Hprod
        by (apply Qmult_le_compat_r; [exact Hge | now apply Qlt_le_weak]).
      set (t := (inject_Z d * h)%Q) in *.
      split.
      * intros _. apply Qle_bool_iff. lra.
      * intros Hsub. exfalso. lra.
  - assert (10 ^ (-312) <= 10 ^ (x - 5))%Q as Hmono by (apply Qpow_mono; [discriminate | lia]).
    assert (100000 * 10 ^ (x - 5) <= inject_Z d * 10 ^ (x - 5))%Q as Hprod
      by (apply Qmult_le_compat_r; [exact Hq1 | now apply Qlt_le_weak]).
    set (h := (10 ^ (x - 5))%Q) in *. set (t := (inject_Z d * h)%Q) in *.
    set (c := (10 ^ (-312))%Q) in *. set (b := (2 ^ (-1022))%Q) in *.
    split.
    + intros _. apply Qle_bool_iff. lra.
    + intros Hsub. exfalso. lra.
Qed.

End ReadsBackRange.

(* ===================================================================== *)
(** * The request round trip: C2                                           *)
(* ===================================================================== *)

Section RoundTrip.

(** C2 (as amended).  For a request whose name and payload hold no
    delimiter and whose amount is a double other than NaN, decoding the
    body written by [send_request] gives back the kind, the subject, the
    name and the payload, and as amount the amount to six significant
    digits (the same zero or infinity, or a double of the same sign
    within six millionths of it), provided the six-digit text of the
    amount denotes at least the least normal double; otherwise
    [std::stod] throws [out_of_range], and so does [parseRequest].  The
    text of every finite amount of magnitude at least 2.22508e-308 is of
    the first kind, that of every amount below the least normal double
    of the second.  The request comes back whole when the text reads back
    as the amount.  A NaN, written "nan" or "-nan", is decoded as NaN. *)
Theorem request_round_trip (r : Request) :
  in_int_range (Request.user_id r) = true ->
  no_delimiter (Request.filename r) = true ->
  no_delimiter (Request.data r) = true ->
  (is_nan (Request.amount r) = false ->
   valid_double (Request.amount r) = true ->
   (if reads_back (Request.amount r) then
      exists amount : double,
        Request.parseRequest (Request.wire_body r)
        = Returned (Request.Build (Request.type r) (Request.user_id r) amount
                                  (Request.filename r) (Request.data r))
        /\ valid_double amount = true
        /\ agrees_to_six_digits (Request.amount r) amount = true
    else Request.parseRequest (Request.wire_body r) = Thrown (out_of_range "stod"))
   /\ (stod (format_double (Request.amount r)) = Returned (Request.amount r) ->
       Request.parseRequest (Request.wire_body r) = Returned r)
   /\ (is_finite (Request.amount r) = true ->
       ((222508 * 10 ^ (-313) <= Qabs (double_value (Request.amount r)))%Q ->
        reads_back (Request.amount r) = true)
       /\ ((Qabs (double_value (Request.amount r)) < 2 ^ (-1022))%Q ->
           is_zero (Request.amount r) = false ->
           reads_back (Request.amount r) = false)))
  /\ (forall spelling : string,
        spelling = "nan"%string \/ spelling = "-nan"%string ->
        Request.parseRequest
          (join (format_int (RequestType_to_int (Request.type r)))
                [format_int (Request.user_id r); spelling;
                 Request.filename r; Request.data r])
        = Returned (Request.Build (Request.type r) (Request.user_id r) S754_nan
                                  (Request.filename r) (Request.data r))).
Proof.
  intros Hint Hname Hdata.
  assert (forall text : string,
             no_delimiter text = true ->
             Request.parseRequest
               (join (format_int (RequestType_to_int (Request.type r)))
                     [format_int (Request.user_id r); text;
                      Request.filename r; Request.data r])
             = (amount ← stod text;
                Returned (Request.Build (Request.type r) (Request.user_id r) amount
                                        (Request.filename r) (Request.data r)))) as Hparse.
  { intros text Htext. unfold Request.parseRequest. rewrite split_join.
    - cbn [length Nat.ltb Nat.leb Request.part nth].
      rewrite stoi_format_type. cbn [mbind thrown_bind].
      destruct (Request.type r); cbn [RequestType_to_int Z.ltb Z.gtb Z.compare orb];
        rewrite (stoi_format_int _ Hint); reflexivity.
    - apply no_delimiter_format_int.
    - repeat constructor; auto using no_delimiter_format_int. }
  split.
  - intros Hnan Hvalid.
    pose proof (Hparse (format_double (Request.amount r))
                       (no_delimiter_format_double _)) as Hbody.
    rewrite <- wire_body_join in Hbody.
    split; [| split].
    + pose proof (stod_format_double (Request.amount r) Hvalid) as Hstod.
      destruct (reads_back (Request.amount r)).
      * destruct Hstod as (amount & Hread & Hok & Hclose).
        exists amount. rewrite Hbody, Hread. now repeat split.
      * now rewrite Hbody, Hstod.
    + intros Hamount. rewrite Hbody, Hamount. now destruct r.
    + intros Hfinite.
      destruct (Request.amount r) as [sz | | | s m e]; try discriminate Hfinite.
      * split; [reflexivity | intros _ Hzero; discriminate Hzero].
      * unfold valid_double in Hvalid. cbn [valid_binary] in Hvalid.
        destruct (reads_back_range s m e Hvalid) as [Hup Hdown].
        assert (Qabs (double_value (S754_finite s m e)) == inject_Z (Z.pos m) * 2 ^ e)%Q
          as Habs.
        { cbn [double_value]. rewrite <- Qmult_assoc, Qabs_signed_one.
          apply Qabs_pos. apply Qlt_le_weak.
          apply Qmult_lt_0_compat; [now apply inject_Z_pos | now apply Qpow_pos]. }
        split.
        -- intros Hbig. apply Hup. now rewrite <- Habs.
        -- intros Hsmall _. apply Hdown. now rewrite <- Habs.
  - intros spelling [-> | ->]; now rewrite Hparse.
Qed.

End RoundTrip.

(** Fifty comes back whole; 1234567 comes back as 1234570, which is 1234567
    to six digits. *)
Lemma request_round_trip_witness :
  (let r := Request.Build DEPOSIT 7 (double_of_Z 50) "statement.txt" "hello" in
   Request.wire_body r = "1|7|50|statement.txt|hello"%string
   /\ Request.parseRequest (Request.wire_body r) = Returned r)
  /\ (let r := Request.Build DEPOSIT 7 (double_of_Z 1234567) "" "" in
      exists amount : double,
        Request.parseRequest (Request.wire_body r)
        = Returned (Request.Build DEPOSIT 7 amount "" "")
        /\ agrees_to_six_digits (double_of_Z 1234567) amount = true).
Proof.
  split.
  - cbv zeta. split; [reflexivity |].
    apply (request_round_trip (Request.Build DEPOSIT 7 (double_of_Z 50) "statement.txt" "hello")
             eq_refl eq_refl eq_refl); reflexivity.
  - cbv zeta.
    destruct (proj1 (proj1 (request_round_trip
                              (Request.Build DEPOSIT 7 (double_of_Z 1234567) "" "")
                              eq_refl eq_refl eq_refl) eq_refl eq_refl))
      as (amount & Hparse & _ & Hclose).
    exists amount. split; [exact Hparse | exact Hclose].
Defined.

(** C2 as stated fails: a delimiter inside the name shifts the fields;
    an amount of more than six significant digits comes back rounded
    (1234567 is decoded as 1234570, which differs in the seventh digit,
    within the precision of a float); and an amount below the normal
    range is not decoded at all (the least normal double and the least
    subnormal one make [std::stod] throw). *)
Lemma request_round_trip_counterexample :
  (let r := Request.Build UPLOAD_FILE 1 double_zero "a|b" "data" in
   Request.wire_body r = "4|1|0|a|b|data"%string
   /\ Request.parseRequest (Request.wire_body r)
      = Returned (Request.Build UPLOAD_FILE 1 double_zero "a" "b"))
  /\ (let r := Request.Build DEPOSIT 7 (double_of_Z 1234567) "" "" in
      Request.wire_body r = "1|7|1.23457e+06||"%string
      /\ Request.parseRequest (Request.wire_body r)
         = Returned (Request.Build DEPOSIT 7 (double_of_Z 1234570) "" "")
      /\ double_sub (double_of_Z 1234570) (double_of_Z 1234567) = double_of_Z 3)
  /\ (let r := Request.Build DEPOSIT 7 (S754_finite false 4503599627370496 (-1074)) "" "" in
      Request.wire_body r = "1|7|2.22507e-308||"%string
      /\ Request.parseRequest (Request.wire_body r) = Thrown (out_of_range "stod"))
  /\ (let r := Request.Build DEPOSIT 7 (S754_finite false 1 (-1074)) "" "" in
      Request.wire_body r = "1|7|4.94066e-324||"%string
      /\ Request.parseRequest (Request.wire_body r) = Thrown (out_of_range "stod")).
Proof. vm_compute. repeat split. Qed.

(* ===================================================================== *)
(** * The response on the wire: X2                                         *)
(* ===================================================================== *)

Section ResponseWire.

Import Channel.

(** X2.  A response whose balance is a double other than NaN, passed to
    [send_response] on a socket that takes both sends whole, goes out as
    one frame.  When that frame is what the client finds unread after
    sending a request whose amount is not NaN, [send_request] consumes
    the frame and nothing after it, whatever the byte order of either
    host; for data and message without delimiter it returns the response
    with the balance to six significant digits when the six-digit text of
    the balance denotes at least the least normal double, and lets the
    [out_of_range] of [std::stod] through otherwise.  It returns the
    response itself when that text reads back as the balance. *)
Theorem response_crosses_the_wire (client server : byte_order) (resp : Response)
    (req : Request) (k ks : socket) (later : string) :
  is_nan (Response.balance resp) = false ->
  valid_double (Response.balance resp) = true ->
  is_nan (Request.amount req) = false ->
  (4 + String.length (response_text resp) <= room ks)%nat ->
  Z.of_nat (String.length (response_text resp)) < 2 ^ 32 ->
  (4 + String.length (Request.wire_body req) <= room k)%nat ->
  Z.of_nat (String.length (Request.wire_body req)) < 2 ^ 32 ->
  unread k = (frame (response_text resp) ++ later)%string ->
  no_delimiter (Response.data resp) = true ->
  no_delimiter (Response.message resp) = true ->
  send_response server resp ks
  = (Returned (),
     Socket (room ks - 4 - String.length (response_text resp))
            (sent ks ++ frame (response_text resp)) (unread ks))
  /\ unread (snd (send_request client req k)) = later
  /\ (if reads_back (Response.balance resp) then
        exists balance : double,
          fst (send_request client req k)
          = Returned (Response.Build (Response.success resp) balance
                                     (Response.data resp) (Response.message resp))
          /\ valid_double balance = true
          /\ agrees_to_six_digits (Response.balance resp) balance = true
      else fst (send_request client req k) = Thrown (out_of_range "stod"))
  /\ (stod (format_double (Response.balance resp)) = Returned (Response.balance resp) ->
      fst (send_request client req k) = Returned resp).
Proof.
  intros _ Hvalid _ Hroom Hlen Hroomk Hlenk Hunread Hdata Hmessage.
  assert (fst (send_request client req k) = parse_response (response_text resp)
          /\ unread (snd (send_request client req k)) = later) as [Hfst Hrest].
  { rewrite send_request_sent by assumption. cbv zeta. rewrite Hunread.
    pose proof (recv_frame client (response_text resp) later
                  (room k - 4 - String.length (Request.wire_body req))
                  (sent k ++ frame (Request.wire_body req)) Hlen) as Hrecv.
    cbv zeta in Hrecv. fold (frame (response_text resp)) in Hrecv.
    destruct (recv 4 _) as [header k1]. destruct Hrecv as (Hhdr & Hn & Hbody).
    rewrite Hhdr, Hn, Hbody. cbn [Nat.eqb negb]. rewrite Nat.eqb_refl. now split. }
  split; [| split; [| split]].
  - unfold send_response, frame. unfold to_uint32.
    rewrite Z.mod_small by lia. rewrite store_htonl.
    rewrite send_whole by (rewrite length_store_uint32; lia).
    rewrite length_store_uint32. cbn [Nat.eqb negb].
    rewrite send_whole by (cbn [room]; lia).
    rewrite Nat.eqb_refl. cbn [negb room sent unread].
    now rewrite string_app_assoc.
  - exact Hrest.
  - rewrite Hfst, parse_response_text by assumption.
    pose proof (stod_format_double (Response.balance resp) Hvalid) as Hstod.
    destruct (reads_back (Response.balance resp)).
    + destruct Hstod as (balance & Hread & Hok & Hclose).
      exists balance. rewrite Hread. now repeat split.
    + now rewrite Hstod.
  - intros Hbalance. rewrite Hfst, parse_response_text, Hbalance by assumption.
    now destruct resp.
Qed.

Lemma response_crosses_the_wire_witness :
  (let resp := Response.Build true (double_of_Z 50) "" "Deposit successful" in
   let req := Request.Build DEPOSIT 7 (double_of_Z 50) "" "" in
   send_response BigEndian resp (Socket 64 "" "")
   = (Returned (), Socket 36 (frame "1|50||Deposit successful") "")
   /\ fst (send_request LittleEndian req
             (Socket 64 "" (frame "1|50||Deposit successful" ++ "rest")))
      = Returned resp)
  /\ (let resp := Response.Build true (S754_finite false 1 (-1074)) "" "" in
      let req := Request.Build BALANCE 7 double_zero "" "" in
      let run := send_request LittleEndian req
                   (Socket 64 "" (frame "1|4.94066e-324||" ++ "rest")) in
      response_text resp = "1|4.94066e-324||"%string
      /\ fst run = Thrown (out_of_range "stod")
      /\ unread (snd run) = "rest"%string).
Proof.
  split; cbv zeta.
  - pose proof (response_crosses_the_wire LittleEndian BigEndian
                  (Response.Build true (double_of_Z 50) "" "Deposit successful")
                  (Request.Build DEPOSIT 7 (double_of_Z 50) "" "")
                  (Socket 64 "" (frame "1|50||Deposit successful" ++ "rest"))
                  (Socket 64 "" "") "rest") as Hwire.
    destruct Hwire as (Hsend & _ & _ & Hwhole).
    + reflexivity.
    + reflexivity.
    + reflexivity.
    + vm_compute. lia.
    + vm_compute. reflexivity.
    + vm_compute. lia.
    + vm_compute. reflexivity.
    + reflexivity.
    + reflexivity.
    + reflexivity.
    + split; [etransitivity; [exact Hsend | vm_compute; reflexivity] |].
      apply Hwhole. vm_compute. reflexivity.
  - pose proof (response_crosses_the_wire LittleEndian BigEndian
                  (Response.Build true (S754_finite false 1 (-1074)) "" "")
                  (Request.Build BALANCE 7 double_zero "" "")
                  (Socket 64 "" (frame "1|4.94066e-324||" ++ "rest"))
                  (Socket 64 "" "") "rest") as Hwire.
    destruct Hwire as (_ & Hrest & Hthrown & _).
    + reflexivity.
    + reflexivity.
    + reflexivity.
    + vm_compute. lia.
    + vm_compute. reflexivity.
    + vm_compute. lia.
    + vm_compute. reflexivity.
    + reflexivity.
    + reflexivity.
    + reflexivity.
    + assert (reads_back (S754_finite false 1 (-1074)) = false) as Hno
          by (vm_compute; reflexivity).
      cbn [Response.balance] in Hthrown. rewrite Hno in Hthrown.
      split; [vm_compute; reflexivity | split; [exact Hthrown | exact Hrest]].
Defined.

End ResponseWire.
